(* ===== verification/_CoqProject ===== *)
-Q . S2P
Prelude.v
Effects.v
Rely.v
Routing.v
Latency.v
LatencyRank.v
LogicStats.v
GateStats.v
LogicAdmission.v
LogicRuntime.v
LogicDispatch.v
LogicCells.v
LogicRuntimeSpec.v
LogicProgress.v
Proto.v
LogicPlayer.v
LogicPlayerSpec.v
LogicCalls.v
LogicHandlers.v
LogicOnline.v
GateSession.v
GateStream.v
GateRates.v
Decimal.v
Redis.v
OnlineCache.v
OnlineSpec.v
GateSessions.v
GateSessionsSpec.v
GateGateway.v
GateGatewaySpec.v
GateForwardSpec.v
PublicPlayers.v
PublicPlayersSpec.v
Mail.v
MailSpec.v
Mongo.v
Documents.v
DocumentsSpec.v
AuthApi.v
AuthSpec.v
LoginFlow.v
Cluster.v
ClusterSpec.v
ClusterLogin.v
ClusterRaces.v
QueryApi.v
QuerySpec.v
Config.v
ConfigSpec.v
ProtoBuild.v
Registry.v
RegistrySpec.v
Process.v
Services.v
ServicesSpec.v
Lifecycle.v
LifecycleSpec.v
Robot.v
RobotSpec.v
RobotAuthSpec.v
Metrics.v
Gauges.v
Tests.v
GateTests.v
ServiceTests.v
RuntimeTests.v
ConfigTests.v
Entry.v
