(* ===== verification/Prelude.v ===== *)
(** * XKK server: verification library (root file)

    XKK (src/README.md) is a game server in Rust: five services and one login
    client that share etcd for discovery, Redis for the state of the players
    and Mongo for their documents.

    - _Auth_ (src/service/auth) logs an account in over HTTP, issues a token,
      and admits a player to a Gate, through a login queue in Redis.
    - _Gate_ (src/service/gate) holds the client connections.  It verifies the
      token, asks Logic for the login, keeps one retained stream per player
      (sequence numbers, outbox, reconnects, rate limits), and forwards
      requests to Logic and Public.
    - _Logic_ (src/service/logic) owns player and items.  Its runtime runs the
      calls of a player one at a time, admits calls within budgets, loads and
      saves players, and drains at shutdown.
    - _Public_ (src/service/public, src/persist) owns the mail of the players,
      in a cache that is written back to Mongo.
    - _Query_ (src/service/query) answers stored profiles.
    - _Robot_ (src/robot) is the login client.

    ** How the library models the program

    A definition translates one function, method or type of the sources and
    keeps its name.  What the sources do not contain (the crates xframe, xnet,
    xproto, xlru, xredis, xmongo, xtoken, xlog, sha2, tokio, and the Redis and
    Mongo servers) is a class with the documented laws the code relies on, an
    operation of an effect type, or a label of a step; each class that a
    theorem needs has a concrete instance, with which the witnesses evaluate.

    - A pure or locked section is a function on a record; a panic of the source
      ([assert!], [expect], an index out of range) is [None] or [Panic].
    - An asynchronous handler is a program ([Effects.prog]) over the operations
      it awaits, so [Effects.run] executes it alone and [Effects.advance]
      interleaves several of them at their [.await]s.
    - The Logic runtime and the write-back of Public are step functions with
      labels ([LogicRuntime.exec], [PublicPlayers.exec]); a list of labels is an
      interleaving of callers, tasks, cache and shutdown.
    - Machine integers are [Z] with the wrap-around written out, since the
      release profile of the workspace checks no overflow.  Instants and
      durations are [Z] in nanoseconds.  binary64 is [SpecFloat].

    ** Files, components and theorems

    Shared: [Prelude] (results, machine integers, lists, sorting, sums over
    maps, tactics and hint databases), [Effects] (programs, runs,
    interleavings), [Rely] (rely and guarantee), [Decimal] (integers as text and back), [Routing]
    (src/common: route identity, service types), [Latency] and [LatencyRank] (the
    histograms, their percentiles, and why binary64 rounding never takes a rank
    beyond the samples).

    Protocol (src/protocol): [Proto] has the generated messages, the message
    ids, the status codes and the routing tables; [Registry] what is
    registered at start; [RegistrySpec] that the wire ids, the type names and
    the pairing of requests and responses agree; [ProtoBuild] the build script,
    and that a build that succeeds leaves no stale generated file.

    Logic (src/service/logic/src):
    - runtime.rs, stats.rs: [LogicStats], [LogicAdmission], [LogicRuntime].
      [LogicDispatch] and [LogicCells] prove its invariants (directory,
      mailboxes, permits and the log of calls; player cells, dirty slots and
      save gates) for every step.  [LogicRuntimeSpec] draws the consequences:
      no assertion fails but for a fault of the loader, the cache or a closure
      of a caller, limits hold, calls are answered once and in order, runners
      exclude each other, a shutdown that succeeds loses nothing.
      [LogicProgress] adds that a shutdown ends when the closures of the callers
      return: a measure of the work that is left decreases at every step of a
      task, and no circle of tasks waits for save gates.
      A closure of a caller may panic ([None]); then the step is [Panic] and
      the run ends.  What the program would do with the poisoned lock after it
      is not modelled.
    - player.rs, persistence.rs: [LogicPlayer] (items), [LogicCalls] (the
      callbacks the runtime is started with), [LogicHandlers] (the RPC handlers); [LogicPlayerSpec] (removals are all or nothing, additions
      on every branch, checks predict removals) and [LogicOnline] (logins, the
      online counter, and the interleavings that make it drift).

    Gate (src/service/gate/src):
    - session.rs, ClientSession: [GateSession]; [GateStream] relates it to an
      unbounded stream (a reconnect replays what is missing, when the client
      acknowledges what it received), [GateRates] proves the sliding windows,
      whatever the client acknowledges.
    - session.rs, ClientSessions: [GateSessions], [GateSessionsSpec] (counts,
      powerless replaced connections, order of the frames of the store under
      interleaving).
    - gateway.rs: [GateGateway], [GateGatewaySpec] (login needs authentication
      and the consent of Logic; the online counter, for handlers that run one
      at a time), [GateForwardSpec] (over any sequence of packets a request is
      forwarded at most once).  The cleanups of a shutdown are the tasks of a
      set ([Effects.concurrent]), at most 64 at a time, in the order of a
      schedule.
    - stats.rs: [GateStats].

    Cluster: [LoginFlow] runs the login of Auth and then that of a Gate over one
    Redis record: the token Auth issued opens the Gate, and only the newest
    token of a player does.  [Cluster] connects the handlers of any number of
    Gates and Logic services: the login RPC of a Gate runs the handler of the
    Logic service it names, whose preload runs the kick handler of the old
    Gate, operation by operation, so that all of them interleave.  [Rely] is the rely-guarantee method for handlers that interleave.
    [ClusterSpec] has the invariant (a connection of a player is the session
    that the Logic service named by his record holds) and what each party may
    do to it; [ClusterLogin] proves every handler safe, so a player has one
    connection in the cluster however the handlers interleave or are dropped,
    given that calls between services arrive, that discovery knows the
    instances, that the logins in progress are of different players, that a
    connection is not left (nor its Gate stopped) while a login on it is in
    progress, and that an authentic reconnect comes from a player that Logic
    holds no session for and gets no token meanwhile; a counterexample shows
    that this is needed, and [ClusterRaces] has the schedules that break the
    invariant when two logins of a player overlap, or that lose a token.  A
    call with a preload is two operations of Logic around those of the kick:
    the model lets other calls of the player come in between, which the
    runtime does not.

    Shared state (src/cache, src/persist): [Redis] and [Mongo] are the servers;
    [OnlineCache] and [OnlineSpec] the owner records, the login queue and the
    counts; [Documents] and [DocumentsSpec] the codecs and the stores (what was
    saved is what is loaded); [PublicPlayers] and [PublicPlayersSpec] the
    write-back of the mail boxes (nothing is lost while saves succeed and
    nothing is evicted).

    Public, Auth, Query: [Mail], [MailSpec] (claims are all or nothing and grant
    at most once); [AuthApi], [AuthSpec] (one account per name, seats, tokens);
    [QueryApi], [QuerySpec].

    Processes (src/config, src/app, service.rs of each service): [Config],
    [ConfigSpec] (exactly when a configuration is loaded), [Process] (what is
    opened is closed), [Services], [ServicesSpec] (what is announced is what is
    listened on), [Lifecycle], [LifecycleSpec] (after a shutdown no task runs
    and, when Redis can be reached, the instance is not counted), [Metrics] (the
    tick of each service with its [last_*] variables; the overload reports add up),
    [Gauges] (the information log never panics, and the counters of the player
    cache are exact).

    Robot (src/robot/src): [Robot], [RobotSpec] (it ends within its timeout and
    the shutdown of its network client, it reaches the listener of the Gate),
    [RobotAuthSpec] (it understands every answer of Auth to a login or a role
    request, however the requests interleave).

    Entry points (main.rs of each binary): [Entry] has the [main] functions, up
    to the exit code of the process.

    Tests: [GateTests], [ServiceTests], [RuntimeTests] and [ConfigTests] are the
    unit tests of the sources, in the form [Tests] gives them; that each passes on the model
    is an [Example] next to it.

    The components meet in the theorems: [GateGateway] runs the methods of
    [GateSessions] and the programs of [OnlineCache]; [AuthSpec] proves the
    admission against the queue of [OnlineSpec] and the stores of
    [DocumentsSpec] through their classes; [LoginFlow] composes [AuthApi] with
    [GateGateway]; [Cluster] composes [GateGateway] with [LogicHandlers];
    [ServicesSpec] composes [Config], [Services] and [AuthApi]; [RobotSpec]
    composes [Robot] with [Services] and [RobotAuthSpec] with [AuthApi];
    [LifecycleSpec] uses the
    counts of [OnlineSpec].

    ** Bounds and fuel

    The loops of runners, workers and background tasks are steps that a label
    or an interleaving repeats.  The only other loop of the sources that is not
    bounded by its data is the admission loop of the robot:
    [Robot.admit_loop] takes fuel, and
    [RobotSpec.robot_ends_within_timeout_and_shutdown] shows that it is never
    used up when a request takes time, with fuel for the timeout divided by
    that time.
    Runs of the runtime are lists of labels; the theorems hold for every list.
    The identities of slots, cells and oneshot channels are unbounded
    integers; no run of the program allocates 2^64 of them.  A histogram is
    taken to count fewer than 2^46 samples ([LatencyRank]), so that the product
    of a rank is exact or rounds below an integer of 53 bits.

    ** Not modelled

    - Single log lines, and the points at which a handler records a latency:
      nothing reads them back.  What the metrics tasks log at a tick is
      modelled in [Metrics] and [Gauges].
    - Module declarations, [From] conversions of error enums that only wrap,
      the benchmark, the cluster smoke test and the deployment scripts.
    - What a process does after a panic of one of its tasks (poisoned locks).
    - RPCs between services that do not arrive or time out, in [Cluster]; the
      handlers of [GateGateway] and [LogicHandlers] have these answers.
    - The libraries named above.  In particular the player cache (xlru) is a
      choice of labels: which player it holds, evicts or hands to a saver. *)

From stdpp Require Export base tactics list gmap strings sorting.
From Stdlib Require Export ZArith Lia.

#[export] Set Default Proof Using "Type".
Open Scope Z_scope.

(** ** Results

    Rust's [Result<A, E>]; [E] comes first so that the type is a monad in the
    value.  A Rust panic ([assert!], [expect], a missing index) is [None] of
    an [option] around the returned value. *)
Inductive Result (E A : Type) : Type :=
| Ok (a : A)
| Err (e : E).
Arguments Ok {E A} a.
Arguments Err {E A} e.

#[export] Instance Result_ret {E} : MRet (Result E) := fun A a => Ok a.
#[export] Instance Result_bind {E} : MBind (Result E) := fun A B f r =>
  match r with Ok a => f a | Err e => Err e end.

#[export] Instance Result_eq_dec {E A} `{EqDecision E, EqDecision A} : EqDecision (Result E A).
Proof. solve_decision. Defined.

(** ** Machine integers

    A [w]-bit integer is a [Z]; the wrap-around of an unchecked operation (the
    release profile of the workspace enables no overflow checks) is written
    out with these functions. *)
Definition wrap_u32 (z : Z) : Z := z mod 2 ^ 32.
Definition wrap_u64 (z : Z) : Z := z mod 2 ^ 64.
Definition wrap_i64 (z : Z) : Z := (z + 2 ^ 63) mod 2 ^ 64 - 2 ^ 63.
Definition wrap_i32 (z : Z) : Z := (z + 2 ^ 31) mod 2 ^ 32 - 2 ^ 31.

Definition is_u16 (z : Z) : Prop := 0 <= z < 2 ^ 16.
Definition is_u32 (z : Z) : Prop := 0 <= z < 2 ^ 32.
Definition is_u64 (z : Z) : Prop := 0 <= z < 2 ^ 64.
Definition is_i32 (z : Z) : Prop := - 2 ^ 31 <= z < 2 ^ 31.
Definition is_i64 (z : Z) : Prop := - 2 ^ 63 <= z < 2 ^ 63.

(** [i64::checked_add]. *)
Definition checked_add_i64 (a b : Z) : option Z :=
  if ((- 2 ^ 63 <=? a + b) && (a + b <? 2 ^ 63))%bool then Some (a + b) else None.

(** [u64::checked_add]. *)
Definition checked_add_u64 (a b : Z) : option Z :=
  if a + b <? 2 ^ 64 then Some (a + b) else None.

Lemma wrap_u32_range z : is_u32 (wrap_u32 z).
Proof. unfold wrap_u32, is_u32. apply Z.mod_pos_bound. lia. Qed.

Lemma wrap_u32_id z : is_u32 z → wrap_u32 z = z.
Proof. unfold wrap_u32, is_u32. intros. apply Z.mod_small. lia. Qed.

Lemma wrap_u64_id z : is_u64 z → wrap_u64 z = z.
Proof. unfold wrap_u64, is_u64. intros. apply Z.mod_small. lia. Qed.

Lemma wrap_i64_range z : is_i64 (wrap_i64 z).
Proof.
  unfold wrap_i64, is_i64.
  pose proof (Z.mod_pos_bound (z + 2 ^ 63) (2 ^ 64)). lia.
Qed.

Lemma wrap_i64_id z : is_i64 z → wrap_i64 z = z.
Proof. unfold wrap_i64, is_i64. intros. rewrite Z.mod_small; lia. Qed.

Lemma wrap_i32_id z : is_i32 z → wrap_i32 z = z.
Proof. unfold wrap_i32, is_i32. intros. rewrite Z.mod_small; lia. Qed.

Lemma checked_add_i64_Some a b c :
  checked_add_i64 a b = Some c ↔ c = a + b ∧ is_i64 (a + b).
Proof.
  unfold checked_add_i64, is_i64. case_match; split; intros; destruct_and?; simplify_eq;
    first [split; [done|lia] | f_equal; lia | lia].
Qed.

Lemma checked_add_i64_None a b : checked_add_i64 a b = None ↔ ¬ is_i64 (a + b).
Proof. unfold checked_add_i64, is_i64. case_match; split; intros; [done|lia|lia|done]. Qed.

(** ** Time

    A [Duration] and an [Instant] of the monotonic clock are [Z] in
    nanoseconds; [Instant::duration_since] saturates at zero. *)
Definition secs (n : Z) : Z := n * 1000000000.
Definition millis (n : Z) : Z := n * 1000000.
Definition duration_since (now at_ : Z) : Z := Z.max 0 (now - at_).

Lemma duration_since_le now at_ : at_ <= now → duration_since now at_ = now - at_.
Proof. unfold duration_since. lia. Qed.

(** ** Collections *)

(** [len()] of a vector, deque or map, as an integer. *)
Definition len {A} (l : list A) : Z := Z.of_nat (length l).

Lemma len_nil {A} : len (@nil A) = 0.
Proof. reflexivity. Qed.
Lemma len_cons {A} (x : A) l : len (x :: l) = 1 + len l.
Proof. unfold len. simpl. lia. Qed.
Lemma len_app {A} (l k : list A) : len (l ++ k) = len l + len k.
Proof. unfold len. rewrite length_app. lia. Qed.
Lemma len_nonneg {A} (l : list A) : 0 <= len l.
Proof. unfold len. lia. Qed.
Lemma len_filter {A} (P : A → Prop) `{∀ x, Decision (P x)} (l : list A) :
  len (filter P l) <= len l.
Proof. unfold len. pose proof (length_filter P l). lia. Qed.
Lemma len_Permutation {A} (l k : list A) : l ≡ₚ k → len l = len k.
Proof. intros H. unfold len. by rewrite H. Qed.

(** [while front.is_some_and(p) { pop_front() }]. *)
Fixpoint drop_while {A} (p : A → bool) (l : list A) : list A :=
  match l with
  | [] => []
  | x :: l' => if p x then drop_while p l' else l
  end.

(** [iter().take_while(p)]. *)
Fixpoint take_while {A} (p : A → bool) (l : list A) : list A :=
  match l with
  | [] => []
  | x :: l' => if p x then x :: take_while p l' else []
  end.

Lemma take_drop_while {A} (p : A → bool) l : take_while p l ++ drop_while p l = l.
Proof. induction l as [|x l IH]; simpl; [done|]. case_match; simpl; congruence. Qed.

Lemma drop_while_suffix {A} (p : A → bool) l : ∃ k, l = k ++ drop_while p l ∧ Forall (λ x, p x = true) k.
Proof.
  induction l as [|x l (k & Hk & Hp)]; simpl; [by exists []|].
  destruct (p x) eqn:E; [|by exists []].
  exists (x :: k). split; [simpl; congruence | by constructor].
Qed.

Lemma drop_while_len {A} (p : A → bool) l : len (drop_while p l) <= len l.
Proof.
  destruct (drop_while_suffix p l) as (k & Hk & _).
  rewrite Hk at 2. rewrite len_app. pose proof (len_nonneg k). lia.
Qed.

Lemma drop_while_all {A} (p : A → bool) l : Forall (λ x, p x = true) l → drop_while p l = [].
Proof. induction 1 as [|x l Hx _ IH]; simpl; [done|]. by rewrite Hx. Qed.

Lemma filter_none {A} (P : A → Prop) `{∀ x, Decision (P x)} (l : list A) :
  Forall (λ x, ¬ P x) l → filter P l = [].
Proof. induction 1 as [|x l Hx _ IH]; [done|]. by rewrite filter_cons_False. Qed.

Lemma filter_all {A} (P : A → Prop) `{∀ x, Decision (P x)} (l : list A) :
  Forall P l → filter P l = l.
Proof. induction 1 as [|x l Hx _ IH]; [done|]. rewrite filter_cons_True by done. by f_equal. Qed.

Lemma len_filter_impl {A} (P Q : A → Prop) `{∀ x, Decision (P x), ∀ x, Decision (Q x)} (l : list A) :
  (∀ x, P x → Q x) → len (filter P l) <= len (filter Q l).
Proof.
  intros HPQ. induction l as [|x l IH]; [done|]. rewrite !filter_cons.
  repeat case_decide; rewrite ?len_cons; try lia. naive_solver.
Qed.

(** Rust's [slice::sort_unstable_by_key] is only specified up to the order of
    elements with equal keys: what the development relies on is that the
    result is a sorted permutation. *)
Class UnstableSort (A : Type) (key : A → Z) := {
  sort_unstable_by_key : list A → list A;
  sort_unstable_perm l : sort_unstable_by_key l ≡ₚ l;
  sort_unstable_sorted l :
    StronglySorted (λ x y, key x <= key y) (sort_unstable_by_key l)
}.
Arguments sort_unstable_by_key {A} key {_} l.

(** The check of a list of ids against the set of the ones seen so far: every
    one is positive and new to the set it is then inserted into. *)
Fixpoint all_new (seen : gset Z) (ids : list Z) : bool :=
  match ids with
  | [] => true
  | id :: ids => (0 <? id) && negb (bool_decide (id ∈ seen)) && all_new ({[ id ]} ∪ seen) ids
  end.

Lemma all_new_spec seen ids : all_new seen ids = true ↔ Forall (λ id, 0 < id ∧ id ∉ seen) ids ∧ NoDup ids.
Proof.
  revert seen. induction ids as [|id ids IH]; intros seen; simpl; [split; [intros _; split; constructor|done]|].
  rewrite !andb_true_iff, negb_true_iff, bool_decide_eq_false, IH, NoDup_cons, Forall_cons, !Forall_forall, Z.ltb_lt.
  split.
  - intros [[Hid Hnew] [Hall Hnd]]. split_and!; try done.
    + intros x Hx. destruct (Hall x Hx) as [? Hx']. split; [done|]. set_solver.
    + intros Hin. destruct (Hall id Hin) as [_ Hx']. set_solver.
  - intros [[[Hid Hnew] Hall] [Hni Hnd]]. split_and!; try done. intros x Hx. destruct (Hall x Hx) as [? Hx']. split; [done|].
    intros [->%elem_of_singleton|?]%elem_of_union; done.
Qed.

(** The validation of a request's ids, with at most [max] of them. *)
Lemma valid_ids_spec max ids r :
  (if bool_decide (ids = []) || (max <? len ids) then None else if all_new ∅ ids then Some ids else None) = Some r ↔
  r = ids ∧ 0 < len ids <= max ∧ Forall (λ id, 0 < id) ids ∧ NoDup ids.
Proof.
  destruct (decide (ids = [])) as [->|Hne]; [rewrite len_nil; split; [done|]; intros (_ & ? & _); lia|].
  rewrite bool_decide_eq_false_2 by done. simpl.
  assert (0 < len ids) by (destruct ids; [done|rewrite len_cons; pose proof (len_nonneg ids); lia]).
  destruct (Z.ltb_spec max (len ids)); [split; [done|]; intros (_ & ? & _); lia|].
  destruct (all_new ∅ ids) eqn:Ha.
  - apply all_new_spec in Ha as [Hall Hnd]. split; [|naive_solver]. intros [= <-]. split_and!; try done; try lia.
    eapply Forall_impl; [exact Hall|]. by intros ? [? _].
  - split; [done|]. intros (_ & _ & Hall & Hnd). exfalso. apply not_true_iff_false in Ha. apply Ha.
    apply all_new_spec. split; [|done]. eapply Forall_impl; [exact Hall|]. intros x Hx. split; [done|]. set_solver.
Qed.

(** [HashMap] iteration visits every entry once, in an unspecified order. *)
Class MapIter (K V : Type) `{Countable K} := {
  map_iter : gmap K V → list (K * V);
  map_iter_perm m : map_iter m ≡ₚ map_to_list m
}.

#[export] Instance map_to_list_iter K V `{Countable K} : MapIter K V.
Proof. refine {| map_iter := map_to_list |}. done. Defined.

Section merge_sort.
Context {A : Type} (key : A → Z).
#[local] Instance key_le_dec : RelDecision (λ x y : A, key x <= key y).
Proof. intros x y. apply _. Defined.
#[local] Instance key_le_total : Total (λ x y : A, key x <= key y).
Proof. intros x y. lia. Qed.
#[local] Instance key_le_trans : Transitive (λ x y : A, key x <= key y).
Proof. intros x y z ??. lia. Qed.

(** A sort that meets the contract, used to run the model. *)
Definition merge_sort_instance : UnstableSort A key.
Proof.
  refine {| sort_unstable_by_key := merge_sort (λ x y, key x <= key y) |}.
  - intros l. apply merge_sort_Permutation.
  - intros l. apply StronglySorted_merge_sort; apply _.
Defined.
End merge_sort.

(** Sums over the values of a map: the counters of the program are compared
    with what the objects they count add up to. *)
Section map_sum.
Context `{Countable K} {V : Type}.
Implicit Types (f : V → Z) (m : gmap K V).

Definition map_sum f m : Z := map_fold (λ _ v acc, f v + acc) 0 m.

Lemma map_sum_empty f : map_sum f ∅ = 0.
Proof. reflexivity. Qed.

Lemma map_sum_insert f m k v : m !! k = None → map_sum f (<[k:=v]> m) = f v + map_sum f m.
Proof. intros Hk. unfold map_sum. rewrite map_fold_insert_L; [done|intros; lia|done]. Qed.

Lemma map_sum_delete f m k v : m !! k = Some v → map_sum f (delete k m) = map_sum f m - f v.
Proof.
  intros Hk. rewrite <- (insert_delete_id m k v Hk) at 2.
  rewrite map_sum_insert by apply lookup_delete_eq. lia.
Qed.

Lemma map_sum_update f m k v v' :
  m !! k = Some v → map_sum f (<[k:=v']> m) = map_sum f m - f v + f v'.
Proof.
  intros Hk. rewrite <- (insert_delete_eq m k v').
  rewrite map_sum_insert by apply lookup_delete_eq. rewrite (map_sum_delete f m k v) by done. lia.
Qed.

Lemma map_sum_nonneg f m : map_Forall (λ _ v, 0 <= f v) m → 0 <= map_sum f m.
Proof.
  intros Hm. induction m as [|k v m Hk IH] using map_ind; [done|].
  rewrite map_sum_insert by done. apply map_Forall_insert in Hm as [? ?]; [|done].
  specialize (IH ltac:(done)). lia.
Qed.

Lemma map_sum_ge f m k v : map_Forall (λ _ v, 0 <= f v) m → m !! k = Some v → f v <= map_sum f m.
Proof.
  intros Hm Hk. pose proof (map_sum_delete f m k v Hk) as E.
  pose proof (map_sum_nonneg f (delete k m) ltac:(by apply map_Forall_delete)). lia.
Qed.

Lemma map_sum_zero f m : (∀ k v, m !! k = Some v → f v = 0) → map_sum f m = 0.
Proof.
  intros Hm. induction m as [|k v m Hk IH] using map_ind; [done|].
  rewrite map_sum_insert by done. rewrite (Hm k v) by apply lookup_insert_eq.
  rewrite IH; [done|]. intros k' v' Hk'. apply (Hm k'). rewrite lookup_insert_ne; naive_solver.
Qed.
Lemma map_sum_mono f g m : (∀ k v, m !! k = Some v → f v <= g v) → map_sum f m <= map_sum g m.
Proof.
  intros Hm. induction m as [|k v m Hk IH] using map_ind; [done|].
  rewrite !map_sum_insert by done. pose proof (Hm k v (lookup_insert_eq _ _ _)).
  assert (map_sum f m <= map_sum g m); [|lia]. apply IH. intros k' v' Hk'. apply (Hm k').
  rewrite lookup_insert_ne; [done|]. intros <-. congruence.
Qed.
(** A finite map that is not empty has an entry of the greatest rank. *)
Lemma map_max_exists f m : m ≠ ∅ → ∃ k v, m !! k = Some v ∧ ∀ k' v', m !! k' = Some v' → f v' <= f v.
Proof.
  induction m as [|k v m Hk IH] using map_ind; [done|]. intros _. destruct (decide (m = ∅)) as [->|Hne].
  - exists k, v. split; [by rewrite lookup_insert_eq|]. intros k' v'. rewrite lookup_insert_Some, lookup_empty. naive_solver.
  - destruct (IH Hne) as (k1 & v1 & Hl & Hmax). destruct (Z.le_gt_cases (f v) (f v1)).
    + exists k1, v1. split; [rewrite lookup_insert_ne; congruence|]. intros k' v'. rewrite lookup_insert_Some. naive_solver.
    + exists k, v. split; [by rewrite lookup_insert_eq|]. intros k' v'. rewrite lookup_insert_Some. intros [[_ <-]|[_ Hl']]; [lia|].
      specialize (Hmax k' v' Hl'). lia.
Qed.
End map_sum.

(** ** Automation *)

Create HintDb xkk discriminated.
Create Rewrite HintDb xkk_len.
#[export] Hint Resolve len_nonneg wrap_u32_range wrap_i64_range : xkk.
#[export] Hint Rewrite @len_nil @len_cons @len_app : xkk_len.

(** Functional update of a record field: from the record's eta expansion
    [eta s = mk (f1 s) ... (fn s)] and a projection, the function that maps a
    change of the field to a change of the record. *)
Ltac derive_update eta proj :=
  match type of eta with
  | ?R → _ =>
      exact (fun f (s : R) =>
        ltac:(let b := eval cbv beta delta [eta] in (eta s) in
              match eval pattern (proj s) in b with
              | ?F _ => let t := eval cbv beta in (F (f (proj s))) in exact t
              end))
  end.

(** Case analysis on every guard of a translated function, closing the
    branches that the hypotheses rule out. *)
Ltac guards :=
  repeat first
    [ progress simplify_eq/=
    | case_match
    | case_bool_decide ].

(** Case analysis on the condition of the outermost [if] of the goal. *)
Ltac case_if :=
  match goal with
  | |- context [if ?b then _ else _] =>
      match type of b with bool => let E := fresh "E" in destruct b eqn:E end
  end.

Ltac len_lia := autorewrite with xkk_len in *; try lia.
