(* ===== verification/Effects.v ===== *)
(** Handlers as programs: an asynchronous handler of the source is a tree of
    the external operations it awaits, in the order of its code, with the code
    between them as Rocq functions.  [run] executes a program alone against a
    world; [advance] executes one operation of one program of a pool, so that
    a list of indices is an interleaving of handlers at their [.await]s. *)

From S2P Require Import Prelude.

Inductive prog (Eff : Type → Type) (A : Type) : Type :=
| Ret (a : A)
| Act {X : Type} (e : Eff X) (k : X → prog Eff A).
#[global] Arguments Ret {Eff A} a.
#[global] Arguments Act {Eff A X} e k.

Fixpoint prog_bind {Eff A B} (f : A → prog Eff B) (p : prog Eff A) : prog Eff B :=
  match p with
  | Ret a => f a
  | Act e k => Act e (λ x, prog_bind f (k x))
  end.

#[export] Instance prog_mret {Eff} : MRet (prog Eff) := λ A a, Ret a.
#[export] Instance prog_mbind {Eff} : MBind (prog Eff) := λ A B f p, prog_bind f p.

(** One operation, awaited. *)
Definition await {Eff : Type → Type} {X} (e : Eff X) : prog Eff X := Act e Ret.

(** A program inside a larger one, whose operations include its own. *)
Fixpoint lift {F G : Type → Type} (inject : ∀ X, F X → G X) {A} (p : prog F A) : prog G A :=
  match p with
  | Ret a => Ret a
  | Act e k => Act (inject _ e) (λ x, lift inject (k x))
  end.

(** A request under a permit of a semaphore: refused when there is none, and
    the permit is dropped at the end. *)
Definition with_permit {Eff : Type → Type} {A} (acquire : Eff bool) (drop : Eff unit) (refused : A) (body : prog Eff A) : prog Eff A :=
  acquired ← await acquire;
  if negb acquired then Ret refused
  else
    answer ← body;
    _ ← await drop;
    Ret answer.

Section run.
Context {Eff : Type → Type} {S : Type} (handle : ∀ X, Eff X → S → X * S).

Fixpoint run {A} (p : prog Eff A) (s : S) : A * S :=
  match p with
  | Ret a => (a, s)
  | Act e k => let '(x, s') := handle _ e s in run (k x) s'
  end.

Lemma run_bind {A B} (p : prog Eff A) (f : A → prog Eff B) s :
  run (p ≫= f) s = let '(a, s') := run p s in run (f a) s'.
Proof.
  revert s. induction p as [a|X e k IH]; intros s; [done|].
  simpl. destruct (handle X e s) as [x s']. apply IH.
Qed.

Lemma run_await {X} (e : Eff X) s : run (await e) s = handle X e s.
Proof. unfold await. simpl. by destruct (handle X e s). Qed.

(** A program that has finished stays as it is. *)
Definition advance_one {A} (p : prog Eff A) (s : S) : prog Eff A * S :=
  match p with
  | Ret a => (Ret a, s)
  | Act e k => let '(x, s') := handle _ e s in (k x, s')
  end.

Definition advance {A} (i : nat) (pool : list (prog Eff A) * S) : list (prog Eff A) * S :=
  match pool.1 !! i with
  | None => pool
  | Some p => let '(p', s') := advance_one p pool.2 in (<[i := p']> pool.1, s')
  end.

Definition interleave {A} (schedule : list nat) (pool : list (prog Eff A) * S) : list (prog Eff A) * S :=
  foldl (λ pool i, advance i pool) pool schedule.

(** A property of the world that every operation keeps holds however the
    programs interleave. *)
Lemma interleave_invariant {A} (I : S → Prop) schedule (pool : list (prog Eff A) * S) :
  (∀ X (e : Eff X) s, I s → I (handle X e s).2) → I pool.2 → I (interleave schedule pool).2.
Proof.
  intros HI. revert pool. induction schedule as [|i schedule IH]; intros pool Hp; [done|].
  simpl. apply IH. unfold advance. destruct (pool.1 !! i) as [p|]; [|done].
  destruct p as [a|X e k]; [done|]. simpl. pose proof (HI X e pool.2 Hp) as H.
  by destruct (handle X e pool.2).
Qed.
End run.

(** ** Tasks of a set

    [one_by_one] runs programs in order.  [concurrent] runs them as the tasks
    of a [JoinSet] with room for [limit]: a task is spawned as soon as there is
    room, the schedule says which of the spawned tasks executes its next
    operation, a task that has finished makes room when the schedule comes to
    it, and what the schedule leaves is run in order.  Every interleaving of
    the tasks is that of some schedule. *)
Fixpoint one_by_one {Eff : Type → Type} (ps : list (prog Eff unit)) : prog Eff unit :=
  match ps with
  | [] => Ret tt
  | p :: ps => _ ← p; one_by_one ps
  end.

Fixpoint concurrent {Eff : Type → Type} (limit : nat) (schedule : list nat) (running todo : list (prog Eff unit)) : prog Eff unit :=
  match schedule with
  | [] => one_by_one (running ++ todo)
  | i :: schedule =>
      let room := (limit - length running)%nat in
      let running := running ++ firstn room todo in
      let todo := skipn room todo in
      match nth_error running i with
      | Some (Act e k) => Act e (λ x, concurrent limit schedule (<[i := k x]> running) todo)
      | Some (Ret _) => concurrent limit schedule (firstn i running ++ skipn (S i) running) todo
      | None => concurrent limit schedule running todo
      end
  end.

(** Every operation of a program, on every answer it may get, satisfies [P]. *)
Inductive all_acts {Eff : Type → Type} (P : ∀ X, Eff X → Prop) {A} : prog Eff A → Prop :=
| all_acts_ret a : all_acts P (Ret a)
| all_acts_act X (e : Eff X) k : P X e → (∀ x, all_acts P (k x)) → all_acts P (Act e k).

Lemma all_acts_inv {Eff : Type → Type} {P : ∀ X, Eff X → Prop} {A X} (e : Eff X) (k : X → prog Eff A) :
  all_acts P (Act e k) → P X e ∧ ∀ x, all_acts P (k x).
Proof.
  intros H. change (match Act e k with Ret _ => True | Act e k => P _ e ∧ ∀ x, all_acts P (k x) end). by destruct H.
Qed.

Lemma all_acts_bind {Eff : Type → Type} {P : ∀ X, Eff X → Prop} {A B} (p : prog Eff A) (f : A → prog Eff B) :
  all_acts P p → (∀ a, all_acts P (f a)) → all_acts P (p ≫= f).
Proof.
  intros Hp Hf. induction Hp as [a|X e k He _ IH]; [apply Hf|].
  simpl. constructor; [done|]. exact IH.
Qed.

Lemma all_acts_await {Eff : Type → Type} {P : ∀ X, Eff X → Prop} {X} (e : Eff X) : P X e → all_acts P (await e).
Proof. intros He. constructor; [done|]. intros x. constructor. Qed.

(** Every result of a program, on every answer its operations may get,
    satisfies [P]. *)
Fixpoint returns {Eff : Type → Type} {A} (P : A → Prop) (p : prog Eff A) : Prop :=
  match p with
  | Ret a => P a
  | Act e k => ∀ x, returns P (k x)
  end.

Lemma returns_bind {Eff : Type → Type} {A B} (Q : A → Prop) (P : B → Prop) (p : prog Eff A) (f : A → prog Eff B) :
  returns Q p → (∀ a, Q a → returns P (f a)) → returns P (p ≫= f).
Proof. intros Hp Hf. induction p as [a|X e k IH]; simpl in *; [by apply Hf|]. intros x. by apply IH. Qed.

Lemma returns_any {Eff : Type → Type} {A B} (P : B → Prop) (p : prog Eff A) (f : A → prog Eff B) :
  (∀ a, returns P (f a)) → returns P (p ≫= f).
Proof. intros Hf. apply (returns_bind (λ _, True)); [|auto]. induction p; simpl; auto. Qed.

Lemma returns_run {Eff : Type → Type} {S A} (handle : ∀ X, Eff X → S → X * S) (P : A → Prop) (p : prog Eff A) s :
  returns P p → P (run handle p s).1.
Proof. revert s. induction p as [a|X e k IH]; intros s Hp; simpl in *; [done|]. destruct (handle X e s) as [x s']. by apply IH. Qed.

(** Lists of programs, with lemmas of their own: those of the libraries tie the
    universe of the programs to the one of their results. *)
Lemma pool_lookup {T : Type} (P : T → Prop) (l : list T) : Forall P l → ∀ i x, l !! i = Some x → P x.
Proof. induction 1 as [|y l Hy _ IH]; intros [|i] x Hx; simplify_eq/=; [done|]. by apply (IH i). Qed.

Lemma pool_insert {T : Type} (P : T → Prop) (l : list T) x : Forall P l → P x → ∀ i, Forall P (<[i := x]> l).
Proof. intros Hl Hx. induction Hl as [|y l Hy Hl IH]; intros [|i]; simpl; by repeat constructor. Qed.

Lemma pool_lookup_insert {T : Type} (l : list T) i j x y :
  <[i := x]> l !! j = Some y → (j = i ∧ y = x) ∨ (j ≠ i ∧ l !! j = Some y).
Proof.
  revert i j. induction l as [|z l IH]; intros [|i] [|j] Hy; simplify_eq/=; auto.
  destruct (IH i j Hy) as [[-> ->]|[Hne Hl]]; [by left|right; split; [congruence|done]].
Qed.

(** A property of the world that each of their operations keeps holds however
    the programs interleave. *)
Lemma interleave_invariant_on {Eff : Type → Type} {S A} (handle : ∀ X, Eff X → S → X * S) (I : S → Prop)
    schedule (pool : list (prog Eff A) * S) :
  Forall (all_acts (λ X e, ∀ s, I s → I (handle X e s).2)) pool.1 → I pool.2 →
  I (interleave handle schedule pool).2.
Proof.
  revert pool. induction schedule as [|i schedule IH]; intros pool Hall HI; [done|].
  simpl. unfold advance. destruct (pool.1 !! i) as [p|] eqn:Hi; [|by apply IH].
  pose proof (pool_lookup _ _ Hall _ _ Hi) as Hp. destruct Hp as [a|X e k He Hk]; simpl.
  - apply IH; [|done]. simpl. apply pool_insert; [done|constructor].
  - pose proof (He pool.2 HI) as H. destruct (handle X e pool.2) as [x s]. apply IH; [|done].
    simpl. apply pool_insert; [done|apply Hk].
Qed.

(** ** Answers in a world

    A program is sound when, in every world that satisfies [I], each of its
    operations keeps [I] and leaves a sound program, whose result satisfies
    [P]: other programs may change the world in between, as long as they keep
    [I] too. *)
Section sound.
Context {Eff : Type → Type} {S : Type} (handle : ∀ X, Eff X → S → X * S) (I : S → Prop).

Fixpoint sound {A} (P : A → Prop) (p : prog Eff A) : Prop :=
  match p with
  | Ret a => P a
  | Act e k => ∀ s, I s → I (handle _ e s).2 ∧ sound P (k (handle _ e s).1)
  end.

Lemma sound_bind {A B} (Q : A → Prop) (P : B → Prop) (p : prog Eff A) (f : A → prog Eff B) :
  sound Q p → (∀ a, Q a → sound P (f a)) → sound P (p ≫= f).
Proof.
  intros Hp Hf. induction p as [a|X e k IH]; simpl in *; [by apply Hf|]. intros s Hs. destruct (Hp s Hs) as [Hi Hk].
  split; [done|]. by apply IH.
Qed.

Lemma sound_mono {A} (Q P : A → Prop) (p : prog Eff A) : (∀ a, Q a → P a) → sound Q p → sound P p.
Proof.
  intros HQP. induction p as [a|X e k IH]; simpl; [apply HQP|]. intros Hp s Hs. destruct (Hp s Hs). split; auto.
Qed.

(** Programs that each promise a property of their result keep the promise
    however they interleave. *)
Lemma sound_interleave {A} (Q : nat → A → Prop) schedule (pool : list (prog Eff A) * S) :
  (∀ i p, pool.1 !! i = Some p → sound (Q i) p) → I pool.2 →
  (∀ i p, (interleave handle schedule pool).1 !! i = Some p → sound (Q i) p) ∧ I (interleave handle schedule pool).2.
Proof.
  revert pool. induction schedule as [|i schedule IH]; intros pool Hall HI; [done|].
  simpl. unfold advance. destruct (pool.1 !! i) as [p|] eqn:Hi; [|by apply IH].
  pose proof (Hall i p Hi) as Hp. destruct p as [a|X e k]; simpl in *.
  - apply IH; [|done]. intros j q Hj. destruct (pool_lookup_insert _ _ _ _ _ Hj) as [[-> ->]|[_ Hq]]; [done|by apply Hall].
  - destruct (Hp pool.2 HI) as [HI' Hk]. destruct (handle X e pool.2) as [x s]. apply IH; [|done].
    intros j q Hj. destruct (pool_lookup_insert _ _ _ _ _ Hj) as [[-> ->]|[_ Hq]]; [done|by apply Hall].
Qed.
End sound.

(** ** Ledgers

    A program owes [n] when, whatever its operations answer, it raises the
    ledger by at most [n] more in total.  The programs of a pool together raise
    it by at most what they owe, however they interleave. *)
Section ledger.
Context {Eff : Type → Type} {S : Type} (handle : ∀ X, Eff X → S → X * S) (ledger : S → nat).

Fixpoint owes {A} (n : nat) (p : prog Eff A) : Prop :=
  match p with
  | Ret _ => True
  | Act e k => ∀ s, ∃ n', owes n' (k (handle _ e s).1) ∧ (ledger (handle _ e s).2 + n' ≤ ledger s + n)%nat
  end.

Fixpoint owes_all {A} (n : nat) (pool : list (prog Eff A)) : Prop :=
  match pool with
  | [] => True
  | p :: pool => ∃ a b, (a + b ≤ n)%nat ∧ owes a p ∧ owes_all b pool
  end.

Lemma owes_bind {A B} n (p : prog Eff A) (f : A → prog Eff B) :
  owes n p → (∀ a, owes 0 (f a)) → owes n (p ≫= f).
Proof.
  intros Hp Hf. revert n Hp. induction p as [a|X e k IH]; intros n Hp.
  - simpl. specialize (Hf a). clear Hp. destruct (f a) as [b|X e k]; [done|].
    simpl in *. intros s. destruct (Hf s) as (n' & Hk & Hle). exists n'. split; [done|lia].
  - simpl in *. intros s. destruct (Hp s) as (n' & Hk & Hle). exists n'. split; [by apply IH|done].
Qed.

Lemma owes_all_focus {A} n (pool : list (prog Eff A)) i p : owes_all n pool → pool !! i = Some p →
  ∃ a b, (a + b ≤ n)%nat ∧ owes a p ∧ ∀ a' p', owes a' p' → owes_all (a' + b) (<[i := p']> pool).
Proof.
  revert n i. induction pool as [|q pool IH]; intros n [|i] Hall Hi; simplify_eq/=.
  - destruct Hall as (a & b & Hle & Hp & Hall). exists a, b. split_and!; [done..|].
    intros a' p' Hp'. by exists a', b.
  - destruct Hall as (c & d & Hle & Hq & Hall). destruct (IH d i Hall Hi) as (a & b & Hab & Hp & Hput).
    exists a, (b + c)%nat. split_and!; [lia|done|]. intros a' p' Hp'. exists c, (a' + b)%nat.
    split_and!; [lia|done|by apply Hput].
Qed.

Lemma interleave_ledger {A} schedule (pool : list (prog Eff A) * S) n :
  owes_all n pool.1 → (ledger (interleave handle schedule pool).2 ≤ ledger pool.2 + n)%nat.
Proof.
  revert pool n. induction schedule as [|i schedule IH]; intros pool n Hall; [simpl; lia|].
  simpl. unfold advance. destruct (pool.1 !! i) as [p|] eqn:Hi; [|by apply IH].
  destruct (owes_all_focus _ _ _ _ Hall Hi) as (a & b & Hab & Hp & Hput).
  destruct p as [r|X e k]; simpl in *.
  - etrans; [apply (IH _ (a + b)%nat); by apply Hput|simpl; lia].
  - destruct (Hp pool.2) as (n' & Hk & Hle). destruct (handle X e pool.2) as [x s]. simpl in *.
    etrans; [apply (IH _ (n' + b)%nat); by apply Hput|simpl; lia].
Qed.
End ledger.
