(* ===== verification/Rely.v ===== *)
(** Rely and guarantee for interleaved handlers.  A pool holds the programs of
    [Effects] that are in progress, each under the name of a party; a run
    starts programs, executes one operation at a time, and may drop a program.  A program is [safe]
    when each of its operations keeps the invariant and does no more than its
    party may do, whatever the parties that are compatible with it do in
    between; then every run of compatible safe programs keeps the invariant. *)

From S2P Require Import Prelude Effects.

Section rely.
Context {Eff : Type → Type} {S W : Type}.
Variable handle : ∀ X, Eff X → S → X * S.
(** What holds between operations, what a party may do to the state, and which
    parties may be in progress together. *)
Variable inv : S → Prop.
Variable step : W → S → S → Prop.
Variable compat : W → W → bool.
Implicit Types (me : W) (s : S).

Definition other me s s' : Prop := ∃ w, compat me w = true ∧ inv s ∧ inv s' ∧ step w s s'.

(** An assertion that the other parties keep. *)
Definition stable me (P : S → Prop) : Prop :=
  ∀ w s s', compat me w = true → inv s → inv s' → step w s s' → P s → P s'.

Lemma stable_others me P s s' : stable me P → rtc (other me) s s' → P s → P s'.
Proof. intros HP. induction 1 as [|s1 s2 s3 (w & H1 & H2 & H3 & H4) _ IH]; [done|]. intros Hs. exact (IH (HP _ _ _ H1 H2 H3 H4 Hs)). Qed.

Lemma stable_and me P P' : stable me P → stable me P' → stable me (λ s, P s ∧ P' s).
Proof. intros HP HP' w s s' H1 H2 H3 H4 [Hs Hs']. exact (conj (HP _ _ _ H1 H2 H3 H4 Hs) (HP' _ _ _ H1 H2 H3 H4 Hs')). Qed.

Lemma stable_const me (P : Prop) : stable me (λ _, P).
Proof. by intros w s s' _ _ _ _. Qed.

Fixpoint safe {A} me (Q : A → S → Prop) (p : prog Eff A) s : Prop :=
  match p with
  | Ret a => inv s ∧ Q a s
  | Act e k => ∀ s1, rtc (other me) s s1 → inv s1 →
      step me s1 (handle _ e s1).2 ∧ inv (handle _ e s1).2 ∧ safe me Q (k (handle _ e s1).1) (handle _ e s1).2
  end.

(** One operation, from a stable assertion. *)
Lemma safe_act {A X} me P (Q : A → S → Prop) (e : Eff X) k s : stable me P → P s →
  (∀ s1, inv s1 → P s1 → step me s1 (handle _ e s1).2 ∧ inv (handle _ e s1).2 ∧ safe me Q (k (handle _ e s1).1) (handle _ e s1).2) →
  safe me Q (Act e k) s.
Proof. intros HP Hs Hk s1 Hoth Hs1. apply Hk; [done|]. by eapply stable_others. Qed.

(** What follows a program may be exchanged. *)
Lemma safe_then {A B C} me (Q : B → S → Prop) (R : C → S → Prop) (p : prog Eff A) (g : A → prog Eff B) (h : A → prog Eff C) s :
  safe me Q (p ≫= g) s → (∀ a s, safe me Q (g a) s → safe me R (h a) s) → safe me R (p ≫= h) s.
Proof.
  intros Hp Hgh. revert s Hp. induction p as [a|X e k IH]; intros s Hp; [by apply Hgh|].
  intros s1 Hoth Hs1. destruct (Hp s1 Hoth Hs1) as (? & ? & Hk). split_and!; [done..|]. by apply IH.
Qed.

Lemma safe_bind {A B} me (Q : A → S → Prop) (R : B → S → Prop) (p : prog Eff A) (k : A → prog Eff B) s :
  safe me Q p s → (∀ a s, inv s → Q a s → safe me R (k a) s) → safe me R (p ≫= k) s.
Proof.
  intros Hp Hk. revert s Hp. induction p as [a|X e f IH]; intros s Hp; [by apply Hk; apply Hp|].
  intros s1 Hoth Hs1. destruct (Hp s1 Hoth Hs1) as (? & ? & Hf). split_and!; [done..|]. by apply IH.
Qed.

Lemma safe_wand {A} me (Q R : A → S → Prop) (p : prog Eff A) s :
  (∀ a s, inv s → Q a s → R a s) → safe me Q p s → safe me R p s.
Proof.
  intros HQ. revert s. induction p as [a|X e k IH]; intros s Hp; [split; [apply Hp|apply HQ; apply Hp]|].
  intros s1 Hoth Hs1. destruct (Hp s1 Hoth Hs1) as (? & ? & Hk). split_and!; [done..|]. by apply IH.
Qed.

Lemma safe_others {A X} me (Q : A → S → Prop) (e : Eff X) k s s' : other me s s' → safe me Q (Act e k) s → safe me Q (Act e k) s'.
Proof. intros Hoth Hp s1 Hoth1. apply Hp. by eapply rtc_l. Qed.

(** What every step keeps holds when the program ends, too. *)
Lemma safe_stays {A} me (Q : A → S → Prop) (R : S → Prop) (p : prog Eff A) s : compat me me = true →
  (∀ s s', other me s s' → R s → R s') → inv s → R s → safe me Q p s → safe me (λ a s, Q a s ∧ R s) p s.
Proof.
  intros Hme HR. revert s. induction p as [a|X e k IH]; intros s Hinv Hs Hp; [by destruct Hp; split_and!|].
  intros s1 Hoth Hs1. destruct (Hp s1 Hoth Hs1) as (Hstep & Hinv' & Hk). split_and!; [done..|].
  apply IH; [done| |done]. apply (HR s1); [by exists me|]. clear -HR Hoth Hs. induction Hoth; eauto.
Qed.

(** *** Tasks of a set *)

(** Each task may end as it does alone. *)
Definition all_safe me (ps : list (prog Eff unit)) s : Prop := ∀ p, List.In p ps → safe me (λ _ _, True) p s.

Lemma all_safe_other me ps s s' : other me s s' → all_safe me ps s → all_safe me ps s'.
Proof.
  intros Hoth Hps p Hp. specialize (Hps p Hp). destruct p as [a|X e k]; [|by eapply safe_others].
  destruct Hoth as (w & _ & _ & Hinv & _). by destruct Hps.
Qed.

Lemma all_safe_app me ps qs s : all_safe me (ps ++ qs) s ↔ all_safe me ps s ∧ all_safe me qs s.
Proof.
  split; [intros H; split; intros p Hp; apply H, List.in_or_app; auto|]. intros [Hp Hq] p [?|?]%List.in_app_or; auto.
Qed.

Lemma one_by_one_safe me ps s : compat me me = true → inv s → all_safe me ps s → safe me (λ _ _, True) (one_by_one ps) s.
Proof.
  intros Hme. revert s. induction ps as [|p ps IH]; intros s Hinv Hps; [by split|]. cbn [one_by_one].
  eapply safe_bind.
  - apply (safe_stays me (λ _ _, True) (all_safe me ps)); [done|intros; by eapply all_safe_other|done| |apply Hps; by left].
    intros q Hq. apply Hps. by right.
  - intros [] s1 Hs1 [_ Hps1]. by apply IH.
Qed.

Lemma all_safe_insert me i p ps s : all_safe me ps s → safe me (λ _ _, True) p s → all_safe me (<[i := p]> ps) s.
Proof.
  intros Hps Hp. revert i. induction ps as [|q ps IH]; intros [|i] r Hr; [done..| |]; destruct Hr as [<-|Hr]; try (by apply Hps; left); try done.
  - apply Hps. by right.
  - apply (IH (λ q Hq, Hps q (or_intror Hq)) i r Hr).
Qed.

(** Tasks that are safe alone are safe together, in any order of their
    operations. *)
Lemma concurrent_safe me limit schedule running todo s : compat me me = true → inv s → all_safe me (running ++ todo) s →
  safe me (λ _ _, True) (concurrent limit schedule running todo) s.
Proof.
  intros Hme. revert running todo s. induction schedule as [|i schedule IH]; intros running todo s Hinv Hps; [by apply one_by_one_safe|].
  cbn [concurrent]. set (room := (limit - length running)%nat).
  assert (all_safe me ((running ++ firstn room todo) ++ skipn room todo) s) as Hps' by (by rewrite <- app_assoc, List.firstn_skipn).
  clear Hps. revert Hps'. generalize (running ++ firstn room todo) (skipn room todo). clear running todo room. intros running todo Hps.
  destruct (List.nth_error running i) as [[a|X e k]|] eqn:Hi; [|  |by apply IH].
  - apply IH; [done|]. apply all_safe_app in Hps as [Hr Ht]. apply all_safe_app. split; [|done]. intros p Hp. apply Hr.
    rewrite <- (List.firstn_skipn i running). apply List.in_app_or in Hp as [?|Hp]; apply List.in_or_app; [by left|right].
    change (Datatypes.S i) with (1 + i)%nat in Hp. rewrite <- List.skipn_skipn in Hp. destruct (List.skipn i running); [done|by right].
  - apply all_safe_app in Hps as [Hr Ht]. pose proof (Hr _ (List.nth_error_In _ _ Hi)) as Hp. intros s1 Hoth Hs1.
    destruct (Hp s1 Hoth Hs1) as (Hstep & Hinv' & Hk). split_and!; [done..|]. apply IH; [done|]. apply all_safe_app.
    assert (∀ ps, all_safe me ps s → all_safe me ps (handle X e s1).2) as Hlater.
    { intros ps Hq. apply (all_safe_other me ps s1); [by exists me|]. clear -Hoth Hq. induction Hoth; [done|]. apply IHHoth. by eapply all_safe_other. }
    split; [|by apply Hlater]. apply all_safe_insert; [by apply Hlater|done].
Qed.

(** ** Pools *)

Definition Pool : Type := list (W * prog Eff unit).

Definition finished {A} (p : prog Eff A) : bool := match p with Ret _ => true | Act _ _ => false end.

Section pool.
Context {E : Type} (party : E → W) (body : E → prog Eff unit) (admissible : E → S → Prop).

(** An event starts, a program executes its next operation, or it is dropped. *)
Inductive label := Start (e : E) | Advance (n : nat) | Cancel (n : nat).

Definition exec_label (l : label) (st : Pool * S) : Pool * S :=
  match l with
  | Start e => (st.1 ++ [(party e, body e)], st.2)
  | Advance n =>
      match st.1 !! n with
      | None => st
      | Some (w, p) => let '(p', s') := advance_one handle p st.2 in (<[n := (w, p')]> st.1, s')
      end
  | Cancel n =>
      match st.1 !! n with
      | None => st
      | Some (w, _) => (<[n := (w, Ret tt)]> st.1, st.2)
      end
  end.

(** An event may start when the parties in progress are compatible with it. *)
Definition label_ok (l : label) (st : Pool * S) : Prop :=
  match l with
  | Start e => admissible e st.2 ∧ Forall (λ t, finished t.2 = false → compat (party e) t.1 = true) st.1
  | _ => True
  end.

Definition exec_labels (ls : list label) (st : Pool * S) : Pool * S := foldl (λ st l, exec_label l st) st ls.

Fixpoint labels_ok (ls : list label) (st : Pool * S) : Prop :=
  match ls with
  | [] => True
  | l :: ls => label_ok l st ∧ labels_ok ls (exec_label l st)
  end.

(** The second part of it, as a computation. *)
Definition label_fits (l : label) (st : Pool * S) : bool :=
  match l with
  | Start e => forallb (λ t, finished t.2 || compat (party e) t.1) st.1
  | _ => true
  end.

Fixpoint labels_fit (ls : list label) (st : Pool * S) : bool :=
  match ls with
  | [] => true
  | l :: ls => label_fits l st && labels_fit ls (exec_label l st)
  end.

Lemma labels_fit_ok ls st : Forall (λ l, ∀ e s, l = Start e → admissible e s) ls → labels_fit ls st = true → labels_ok ls st.
Proof.
  intros Hadm. revert st. induction Hadm as [|l ls Hl _ IH]; intros st; [done|]. cbn [labels_fit]. intros [Hfit Hrest]%andb_prop.
  split; [|by apply IH]. destruct l as [e|n|n]; [|done..]. split; [by apply Hl|]. simpl in Hfit. clear -Hfit.
  induction st.1 as [|t pool IH]; [constructor|]. simpl in Hfit. apply andb_prop in Hfit as [Ht Hp]. constructor; [|by apply IH].
  intros Hf. by rewrite Hf in Ht.
Qed.

Definition apart (t t' : W * prog Eff unit) : Prop :=
  finished t.2 = false → finished t'.2 = false → compat t.1 t'.1 = true.

(** Every program is safe, and those in progress are compatible. *)
Definition pool_ok (st : Pool * S) : Prop :=
  inv st.2 ∧ ∀ n t, st.1 !! n = Some t →
    safe t.1 (λ _ _, True) t.2 st.2 ∧ ∀ m t', m ≠ n → st.1 !! m = Some t' → apart t t'.

Lemma pool_snoc_lookup {T : Type} (l : list T) x n y : (l ++ [x]) !! n = Some y → l !! n = Some y ∨ n = length l ∧ y = x.
Proof.
  revert n. induction l as [|z l IH]; intros [|n] Hn; simplify_eq/=; auto. destruct (IH n Hn) as [?|[-> ->]]; auto.
Qed.

Lemma pool_start_ok e st : (∀ w w', compat w w' = compat w' w) → (admissible e st.2 → inv st.2 → safe (party e) (λ _ _, True) (body e) st.2) →
  label_ok (Start e) st → pool_ok st → pool_ok (exec_label (Start e) st).
Proof.
  intros Hsym Hsafe [Hadm Hcompat] [Hinv Hpool]. pose proof (pool_lookup _ _ Hcompat) as Hc. split; [done|].
  assert (∀ n t, st.1 !! n = Some t → apart (party e, body e) t ∧ apart t (party e, body e)) as Hnew.
  { intros n t Hn. split; intros H1 H2; [by eapply Hc|rewrite Hsym; by eapply Hc]. }
  intros n t [Hn|[-> ->]]%pool_snoc_lookup.
  - destruct (Hpool n t Hn) as [Ht Hother]. split; [done|]. intros m t' Hm [Hm'|[-> ->]]%pool_snoc_lookup.
    + by eapply Hother.
    + by eapply Hnew.
  - split; [by apply Hsafe|]. intros m t' Hm [Hm'|[-> ->]]%pool_snoc_lookup; [by eapply Hnew|done].
Qed.

Lemma pool_finish_ok n w p st : st.1 !! n = Some (w, p) → pool_ok st → pool_ok (<[n := (w, Ret tt)]> st.1, st.2).
Proof.
  intros Hn [Hinv Hpool]. split; [done|]. intros m t [[-> ->]|[Hne Hm]]%pool_lookup_insert.
  - split; [done|]. intros m t' _ _ [=].
  - destruct (Hpool m t Hm) as [Ht Ho]. split; [done|]. intros o t' Ho' [[-> ->]|[_ Hl]]%pool_lookup_insert; [by intros _ [=]|by eapply Ho].
Qed.

Lemma pool_advance_ok n st : (∀ w w', compat w w' = compat w' w) → pool_ok st → pool_ok (exec_label (Advance n) st).
Proof.
  intros Hsym [Hinv Hpool]. unfold exec_label. destruct (st.1 !! n) as [[w p]|] eqn:Hn; [|done].
  destruct (Hpool n _ Hn) as [Hp Hother]. destruct p as [[]|X e k]; simpl in *; [by apply (pool_finish_ok n w (Ret tt))|].
  destruct (Hp st.2 (rtc_refl _ _) Hinv) as (Hstep & Hinv' & Hk). destruct (handle X e st.2) as [x s']. simpl in *. split; [done|].
  intros m t [[-> ->]|[Hne Hm]]%pool_lookup_insert.
  - split; [done|]. intros o t' Ho [[-> _]|[_ Hl]]%pool_lookup_insert; [done|]. intros _ Ht'. by apply (Hother o t' Ho Hl).
  - destruct (Hpool m t Hm) as [Ht Ho]. split.
    + destruct t as [w' [u|Y f j]]; [by destruct Ht|]. eapply safe_others; [|exact Ht]. exists w. split_and!; try done.
      rewrite Hsym. by apply (Hother m (w', Act f j) Hne Hm).
    + intros o t' Ho' [[-> ->]|[_ Hl]]%pool_lookup_insert; [|by eapply Ho]. intros H1 _. by apply (Ho n (w, Act e k) (not_eq_sym Hne) Hn).
Qed.

(** Every run of safe programs keeps the invariant. *)
Lemma labels_keep ls st : (∀ w w', compat w w' = compat w' w) →
  (∀ e s, admissible e s → inv s → safe (party e) (λ _ _, True) (body e) s) →
  labels_ok ls st → pool_ok st → pool_ok (exec_labels ls st).
Proof.
  intros Hsym Hsafe. revert st. induction ls as [|l ls IH]; intros st Hls Hst; [done|]. destruct Hls as [Hl Hls].
  apply IH; [done|]. destruct l as [e|n|n]; [by apply pool_start_ok; auto|by apply pool_advance_ok|].
  simpl. destruct (st.1 !! n) as [[w p]|] eqn:Hn; [by eapply pool_finish_ok|done].
Qed.
End pool.
End rely.
#[global] Arguments Start {E}.
#[global] Arguments Advance {E}.
#[global] Arguments Cancel {E}.
