(* ===== verification/Routing.v ===== *)
(** Small pieces the services share (src/common): the signed player identity
    as an RPC route, the service types, and the token coder they are given. *)

From S2P Require Import Prelude.

Record RouteIdentity := mkRouteIdentity { route_key : Z; route_session : Z }.

(** [u64::try_from] of an [i64]. *)
Definition u64_try_from (z : Z) : option Z := if 0 <=? z then Some z else None.

Definition from_signed (key session : Z) : option RouteIdentity :=
  key ← u64_try_from key;
  session ← u64_try_from session;
  if (0 <? key) && (0 <? session) then Some (mkRouteIdentity key session) else None.

Lemma from_signed_Some key session r :
  from_signed key session = Some r ↔ 0 < key ∧ 0 < session ∧ r = mkRouteIdentity key session.
Proof.
  unfold from_signed, u64_try_from.
  destruct (Z.leb_spec 0 key), (Z.leb_spec 0 session); simpl;
    destruct (Z.ltb_spec 0 key), (Z.ltb_spec 0 session); simpl; split; intros; destruct_and?; simplify_eq; done || lia.
Qed.

(** The wire values of the service types (src/common/src/service_type.rs). *)
Module service_type.
Definition ROBOT : Z := 0.
Definition AUTH : Z := 1.
Definition LOGIC : Z := 2.
Definition GATE : Z := 3.
Definition PUBLIC : Z := 4.
Definition QUERY : Z := 5.
Definition BATTLE : Z := 6.

Definition DEFINITIONS : list (Z * string) :=
  [(ROBOT, "robot"); (AUTH, "auth"); (LOGIC, "logic"); (GATE, "gate");
   (PUBLIC, "public"); (QUERY, "query"); (BATTLE, "battle")].
End service_type.

(** [xtoken::TokenCoder::simple_token_decode]: the player of a valid token. *)
Class TokenCoder := { simple_token_decode : string → string → option Z }.
