(* ===== verification/Latency.v ===== *)
(** The latency histograms of the common crate (src/common/src/latency.rs):
    the bucket table, [LatencyRecorder] with its [record] and [snapshot], and
    the statistics of a snapshot.  The percentile rank is computed by the
    source in binary64, so it is written with the Standard Library's
    executable IEEE 754 semantics.  The theorem of the file characterises a
    percentile by the recorded samples. *)

From S2P Require Import Prelude.
From Stdlib Require Import Floats.SpecFloat.

(** ** Data *)

Definition BUCKETS_US : list Z :=
  [10; 25; 50; 100; 250; 500; 1000; 2500; 5000; 7500; 10000; 15000; 20000; 30000;
   50000; 75000; 100000; 150000; 250000; 500000; 2 ^ 64 - 1].

Record LatencyStats := mkLatencyStats {
  ls_counts : list Z;
  ls_total_micros : Z;
  ls_max_micros : Z
}.

Record LatencyRecorder := mkLatencyRecorder {
  counts : list Z;
  total_micros : Z;
  max_micros : Z
}.

Definition recorder_default : LatencyRecorder :=
  {| counts := replicate (length BUCKETS_US) 0; total_micros := 0; max_micros := 0 |}.

(** ** Recording *)

(** [slice::partition_point]. *)
Definition partition_point (p : Z → bool) (l : list Z) : nat := length (take_while p l).

(** [Duration::as_micros]: a duration is in nanoseconds. *)
Definition as_micros (elapsed : Z) : Z := elapsed / 1000.

(** An atomic [fetch_add] on an element of an array of 64-bit counters. *)
Definition fetch_add_at (bucket : nat) (n : Z) (l : list Z) : list Z :=
  alter (λ c, wrap_u64 (c + n)) bucket l.

Definition record (r : LatencyRecorder) (elapsed : Z) : LatencyRecorder :=
  let micros := Z.min (as_micros elapsed) (2 ^ 64 - 1) in
  let bucket := partition_point (λ bound, bound <? micros) BUCKETS_US in
  {| counts := fetch_add_at bucket 1 (counts r);
     total_micros := wrap_u64 (total_micros r + micros);
     max_micros := Z.max (max_micros r) micros |}.

Definition snapshot (r : LatencyRecorder) : LatencyStats :=
  {| ls_counts := counts r; ls_total_micros := total_micros r; ls_max_micros := max_micros r |}.

(** ** Statistics *)

(** [iter().sum()] on [u64]. *)
Definition sum_u64 (l : list Z) : Z := foldl (λ acc c, wrap_u64 (acc + c)) 0 l.

Definition count (s : LatencyStats) : Z := sum_u64 (ls_counts s).

Definition average_micros (s : LatencyStats) : option Z :=
  let c := count s in
  if c =? 0 then None else Some (ls_total_micros s / c).

(** Binary64 arithmetic: [as f64], multiplication, division, [ceil] and the
    saturating [as u64]. *)
Definition f64_of_Z (z : Z) : spec_float := binary_normalize 53 1024 z 0 false.
Definition f64_mul : spec_float → spec_float → spec_float := SFmul 53 1024.
Definition f64_div : spec_float → spec_float → spec_float := SFdiv 53 1024.

Definition f64_ceil_as_u64 (f : spec_float) : Z :=
  match f with
  | S754_finite sign m e =>
      let v := if sign then Z.neg m else Z.pos m in
      let c := if 0 <=? e then v * 2 ^ e else - ((- v) / 2 ^ (- e)) in
      Z.min (Z.max c 0) (2 ^ 64 - 1)
  | S754_infinity false => 2 ^ 64 - 1
  | _ => 0
  end.

Definition f64_le (a b : spec_float) : bool := SFleb a b.

(** [(count as f64 * percentile / 100.0).ceil() as u64).max(1)]. *)
Definition rank (c : Z) (percentile : spec_float) : Z :=
  Z.max (f64_ceil_as_u64 (f64_div (f64_mul (f64_of_Z c) percentile) (f64_of_Z 100))) 1.

Fixpoint percentile_loop (rank seen : Z) (l : list (Z * Z)) : option Z :=
  match l with
  | [] => None
  | (bound, c) :: l' =>
      let seen := wrap_u64 (seen + c) in
      if rank <=? seen then Some bound else percentile_loop rank seen l'
  end.

(** [None] is a panic (the [assert!] on the range of the percentile, or the
    [unreachable!] after the loop); [Some None] an empty histogram. *)
Definition percentile_micros (s : LatencyStats) (percentile : spec_float) : option (option Z) :=
  let c := count s in
  if c =? 0 then Some None
  else if negb (f64_le (f64_of_Z 0) percentile && f64_le percentile (f64_of_Z 100)) then None
  else match percentile_loop (rank c percentile) 0 (zip BUCKETS_US (ls_counts s)) with
       | Some b => Some (Some b)
       | None => None
       end.

Example percentile_test :
  let s := snapshot (record (record recorder_default (millis 1 / 10)) (millis 9 / 10)) in
  (count s, average_micros s, percentile_micros s (f64_of_Z 50), percentile_micros s (f64_of_Z 100), ls_max_micros s)
  = (2, Some 500, Some (Some 100), Some (Some 1000), 900).
Proof. vm_compute. reflexivity. Qed.

(** ** The histogram counts the samples *)

Definition micros_of (elapsed : Z) : Z := Z.min (as_micros elapsed) (2 ^ 64 - 1).
Definition bucket_of (elapsed : Z) : nat :=
  partition_point (λ bound, bound <? micros_of elapsed) BUCKETS_US.

(** How many samples of [es] satisfy [P]. *)
Definition tally (P : Z → Prop) `{∀ e, Decision (P e)} (es : list Z) : Z := len (filter P es).

Definition recorded (es : list Z) : LatencyRecorder := foldl record recorder_default es.

Lemma partition_point_sorted (l : list Z) m i b :
  StronglySorted Z.lt l → l !! i = Some b →
  (partition_point (λ bound, (bound <? m)%Z) l <= i)%nat ↔ m <= b.
Proof.
  unfold partition_point. intros Hs. revert i. induction Hs as [|x l Hs IH Hx]; intros i Hi; [done|].
  simpl. destruct i as [|i]; simplify_eq/=.
  - destruct (Z.ltb_spec b m); simpl; lia.
  - assert (x < b) as Hxb by (eapply Forall_forall; [exact Hx|by eapply list_elem_of_lookup_2]).
    destruct (Z.ltb_spec x m); simpl; [rewrite <- IH by done; lia|lia].
Qed.

Lemma BUCKETS_US_sorted : StronglySorted Z.lt BUCKETS_US.
Proof. repeat constructor. Qed.

Lemma bucket_of_le e i b : BUCKETS_US !! i = Some b → (bucket_of e <= i)%nat ↔ micros_of e <= b.
Proof. apply partition_point_sorted, BUCKETS_US_sorted. Qed.

Lemma bucket_of_lt e : (bucket_of e < length BUCKETS_US)%nat.
Proof.
  pose proof (bucket_of_le e 20 (2 ^ 64 - 1) eq_refl) as [_ Hle]. simpl length.
  unfold micros_of in Hle at 1. lia.
Qed.

Lemma tally_app P `{∀ e, Decision (P e)} es es' : tally P (es ++ es') = tally P es + tally P es'.
Proof. unfold tally. by rewrite filter_app, len_app. Qed.

Lemma tally_le P `{∀ e, Decision (P e)} es : tally P es <= len es.
Proof. apply len_filter. Qed.

Lemma tally_mono P Q `{∀ e, Decision (P e), ∀ e, Decision (Q e)} es :
  (∀ e, P e → Q e) → tally P es <= tally Q es.
Proof. apply len_filter_impl. Qed.

Lemma tally_ext P Q `{∀ e, Decision (P e), ∀ e, Decision (Q e)} es :
  (∀ e, P e ↔ Q e) → tally P es = tally Q es.
Proof. intros HPQ. apply Z.le_antisymm; apply tally_mono; intros e; apply HPQ. Qed.

Lemma tally_split P Q R `{∀ e, Decision (P e), ∀ e, Decision (Q e), ∀ e, Decision (R e)} es :
  (∀ e, R e ↔ P e ∨ Q e) → (∀ e, P e → Q e → False) → tally R es = tally P es + tally Q es.
Proof.
  intros HR HPQ. unfold tally. induction es as [|e es IH]; [done|].
  rewrite !filter_cons. pose proof (HR e) as HRe. pose proof (HPQ e) as Hd.
  repeat case_decide; rewrite ?len_cons; try lia; exfalso; tauto.
Qed.

Lemma recorded_counts es : len es < 2 ^ 64 →
  length (counts (recorded es)) = length BUCKETS_US
  ∧ ∀ i, (i < length BUCKETS_US)%nat →
      counts (recorded es) !! i = Some (tally (λ e, bucket_of e = i) es).
Proof.
  unfold recorded. induction es as [|e es IH] using rev_ind; intros Hlen.
  - split; [done|]. intros i Hi. by apply lookup_replicate_2.
  - rewrite len_app in Hlen. change (len [e]) with 1 in Hlen.
    destruct IH as [IHl IH]; [pose proof (len_nonneg es); lia|].
    rewrite foldl_snoc. unfold record at 1 3. cbn [counts]. unfold fetch_add_at. split; [by rewrite length_alter|].
    intros i Hi. change (partition_point _ BUCKETS_US) with (bucket_of e).
    rewrite tally_app. destruct (decide (bucket_of e = i)) as [<-|Hne].
    + rewrite list_lookup_alter_eq, IH by done. simpl. f_equal.
      pose proof (tally_le (λ e', bucket_of e' = bucket_of e) es).
      unfold tally at 3. rewrite filter_cons_True by done. change (len (_ :: _)) with 1.
      apply wrap_u64_id. unfold is_u64. pose proof (len_nonneg (filter (λ e', bucket_of e' = bucket_of e) es)).
      unfold tally in *. lia.
    + rewrite list_lookup_alter_ne, IH by done. f_equal.
      unfold tally at 3. rewrite filter_cons_False by done. change (len _) with 0. lia.
Qed.

Lemma tally_bucket_le_S es j :
  tally (λ e, (bucket_of e < S j)%nat) es
  = tally (λ e, (bucket_of e < j)%nat) es + tally (λ e, bucket_of e = j) es.
Proof. apply tally_split; intros e; lia. Qed.

(** From bucket [j] on, the loop finds the first bucket whose cumulative
    count reaches the rank. *)
Lemma percentile_loop_spec es cs rk k j : len es < 2 ^ 64 →
  length cs = length BUCKETS_US →
  (∀ i, (i < length BUCKETS_US)%nat → cs !! i = Some (tally (λ e, bucket_of e = i) es)) →
  (j + k = length BUCKETS_US)%nat →
  tally (λ e, (bucket_of e < j)%nat) es < rk <= len es →
  ∃ i b, BUCKETS_US !! i = Some b
    ∧ percentile_loop rk (tally (λ e, (bucket_of e < j)%nat) es) (drop j (zip BUCKETS_US cs)) = Some b
    ∧ tally (λ e, (bucket_of e < i)%nat) es < rk <= tally (λ e, (bucket_of e < S i)%nat) es.
Proof.
  intros Hes Hlen Hcs. revert j. induction k as [|k IH]; intros j Hj Hrk.
  { assert (tally (λ e, (bucket_of e < j)%nat) es = len es); [|lia].
    unfold tally. f_equal. apply filter_all, Forall_forall. intros e _.
    pose proof (bucket_of_lt e). lia. }
  assert (j < length BUCKETS_US)%nat as Hlt by lia.
  destruct (lookup_lt_is_Some_2 BUCKETS_US j Hlt) as [b Hb].
  rewrite (drop_S _ (b, tally (λ e, bucket_of e = j) es));
    [|rewrite lookup_zip_with, Hb; simpl; by rewrite Hcs].
  simpl percentile_loop. rewrite <- tally_bucket_le_S, wrap_u64_id.
  2: { pose proof (tally_le (λ e, (bucket_of e < S j)%nat) es).
       pose proof (len_nonneg (filter (λ e, (bucket_of e < S j)%nat) es)). unfold is_u64, tally in *. lia. }
  destruct (Z.leb_spec rk (tally (λ e, (bucket_of e < S j)%nat) es)).
  - exists j, b. split_and!; [done..|lia|done].
  - apply IH; lia.
Qed.

Lemma sum_u64_counts es cs k j : len es < 2 ^ 64 →
  length cs = length BUCKETS_US →
  (∀ i, (i < length BUCKETS_US)%nat → cs !! i = Some (tally (λ e, bucket_of e = i) es)) →
  (j + k = length BUCKETS_US)%nat →
  foldl (λ acc c, wrap_u64 (acc + c)) (tally (λ e, (bucket_of e < j)%nat) es) (drop j cs) = len es.
Proof.
  intros Hes Hlen Hcs. revert j. induction k as [|k IH]; intros j Hj.
  - rewrite drop_ge by lia. simpl. unfold tally. f_equal. apply filter_all, Forall_forall.
    intros e _. pose proof (bucket_of_lt e). lia.
  - rewrite (drop_S _ (tally (λ e, bucket_of e = j) es)) by (apply Hcs; lia).
    simpl. rewrite <- tally_bucket_le_S, wrap_u64_id; [apply IH; lia|].
    pose proof (tally_le (λ e, (bucket_of e < S j)%nat) es).
    pose proof (len_nonneg (filter (λ e, (bucket_of e < S j)%nat) es)). unfold is_u64, tally in *. lia.
Qed.

Lemma tally_none es : tally (λ e, (bucket_of e < 0)%nat) es = 0.
Proof. unfold tally. rewrite filter_none; [done|]. apply Forall_forall. lia. Qed.

Lemma count_recorded es : len es < 2 ^ 64 → count (snapshot (recorded es)) = len es.
Proof.
  intros Hes. destruct (recorded_counts es Hes) as [Hl Hc]. unfold count, sum_u64. simpl.
  rewrite <- (tally_none es) at 1. by apply (sum_u64_counts es _ (length BUCKETS_US) 0).
Qed.

(** The percentile of a histogram is the least bucket bound that enough
    samples stay under: after recording any samples, for a percentile whose
    binary64 rank does not exceed the number of samples, [percentile_micros]
    does not panic and returns a bound [b] of the table such that at least
    [rank] samples are at most [b], and fewer are at most any smaller bound. *)
Theorem percentile_is_least_bound es p :
  0 < len es < 2 ^ 64 → f64_le (f64_of_Z 0) p = true → f64_le p (f64_of_Z 100) = true →
  rank (len es) p <= len es →
  ∃ b, percentile_micros (snapshot (recorded es)) p = Some (Some b) ∧ b ∈ BUCKETS_US
    ∧ rank (len es) p <= tally (λ e, micros_of e <= b) es
    ∧ ∀ b', b' ∈ BUCKETS_US → b' < b → tally (λ e, micros_of e <= b') es < rank (len es) p.
Proof.
  intros Hes Hp0 Hp100 Hrk. destruct (recorded_counts es ltac:(lia)) as [Hl Hc].
  destruct (percentile_loop_spec es _ (rank (len es) p) (length BUCKETS_US) 0 ltac:(lia) Hl Hc eq_refl)
    as (i & b & Hb & Hloop & Hlo & Hhi).
  { rewrite tally_none. unfold rank in *. lia. }
  exists b. unfold percentile_micros. rewrite count_recorded by lia.
  destruct (Z.eqb_spec (len es) 0); [lia|]. rewrite Hp0, Hp100. simpl negb. cbv iota.
  rewrite tally_none in Hloop. change (drop 0 ?l) with l in Hloop.
  change (ls_counts (snapshot (recorded es))) with (counts (recorded es)). rewrite Hloop.
  split_and!; [done|by eapply list_elem_of_lookup_2|..].
  - rewrite (tally_ext _ (λ e, (bucket_of e < S i)%nat)); [done|].
    intros e. rewrite <- bucket_of_le by done. lia.
  - intros b' [i' Hb']%list_elem_of_lookup_1 Hlt. eapply Z.le_lt_trans, Hlo. apply tally_mono.
    intros e. rewrite <- bucket_of_le by done. intros He.
    pose proof (bucket_of_le e i' b' Hb') as HH.
    destruct (decide (i <= i')%nat) as [Hii|]; [|lia]. exfalso.
    pose proof (partition_point_sorted _ b i b BUCKETS_US_sorted Hb).
    pose proof (partition_point_sorted _ b i' b' BUCKETS_US_sorted Hb'). lia.
Qed.

Lemma percentile_is_least_bound_witness :
  ∃ b, percentile_micros (snapshot (recorded [millis 1 / 10; millis 9 / 10])) (f64_of_Z 99) = Some (Some b)
    ∧ b ∈ BUCKETS_US
    ∧ rank 2 (f64_of_Z 99) <= tally (λ e, micros_of e <= b) [millis 1 / 10; millis 9 / 10]
    ∧ ∀ b', b' ∈ BUCKETS_US → b' < b →
        tally (λ e, micros_of e <= b') [millis 1 / 10; millis 9 / 10] < rank 2 (f64_of_Z 99).
Proof.
  apply (percentile_is_least_bound [millis 1 / 10; millis 9 / 10] (f64_of_Z 99));
    [split; reflexivity|reflexivity|reflexivity|vm_compute; congruence].
Defined.
