(* ===== verification/LatencyRank.v ===== *)
(** Why a percentile never panics (src/common/src/latency.rs): its rank is
    computed in binary64, and a product and a quotient that round to nearest
    stay below an integer that the exact value stays below.  So the rank is at
    most the number of samples, and the loop over the buckets finds it. *)

From S2P Require Import Prelude Latency.
From Stdlib Require Import Floats.SpecFloat.

(** ** Rounding does not cross an integer *)

(** The value of [f] is between zero and [n]; its exponent is not positive. *)
Definition below (n : Z) (f : spec_float) : Prop :=
  match f with
  | S754_zero _ => True
  | S754_finite false m e => e <= 0 ∧ Z.pos m <= n * 2 ^ (- e)
  | _ => False
  end.

(** A mantissa with the two bits that were shifted out, at most [N]. *)
Definition fits (r : shr_record) (N : Z) : Prop :=
  0 <= shr_m r ∧ if shr_r r || shr_s r then shr_m r < N else shr_m r <= N.

Lemma digits2_pos_log2 p : Z.pos (digits2_pos p) = Z.log2 (Z.pos p) + 1.
Proof.
  induction p as [p IH|p IH|]; [..|done]; simpl digits2_pos; rewrite Pos2Z.inj_succ, IH.
  - rewrite Pos2Z.inj_xI, Z.log2_succ_double by lia. lia.
  - rewrite Pos2Z.inj_xO, Z.log2_double by lia. lia.
Qed.

Lemma digits2_le m e n : 0 <= m → e <= 0 → n < 2 ^ 53 → m <= n * 2 ^ (- e) → Zdigits2 m + e <= 53.
Proof.
  intros Hm He Hn Hle. destruct m as [|p|p]; [simpl; lia| |lia]. simpl Zdigits2. rewrite digits2_pos_log2.
  assert (Z.log2 (Z.pos p) < 53 - e); [|lia]. apply Z.log2_lt_pow2; [lia|].
  replace (53 - e) with (53 + - e) by lia. rewrite Z.pow_add_r by lia. nia.
Qed.

Lemma shr_1_fits r N : fits r (2 * N) → fits (shr_1 r) N.
Proof.
  destruct r as [m r s]. unfold fits. simpl. intros [Hm Hr].
  destruct m as [|[p|p|]|p]; simpl in *; destruct r, s; simpl in *; lia.
Qed.

Lemma shr_iter_fits k : ∀ r N, fits r (N * 2 ^ Z.pos k) → fits (iter_pos shr_1 k r) N.
Proof.
  induction k as [k IH|k IH|]; intros r N H; simpl.
  - apply IH, IH, shr_1_fits. replace (2 * _) with (N * 2 ^ Z.pos k~1); [done|].
    rewrite Pos2Z.inj_xI, Z.pow_add_r, Z.pow_twice_r by lia. nia.
  - apply IH, IH. by rewrite <- Z.mul_assoc, <- Z.pow_add_r, Z.add_diag, <- Pos2Z.inj_xO by lia.
  - apply shr_1_fits. by rewrite Z.mul_comm.
Qed.

Lemma shr_record_of_loc_m m l : shr_m (shr_record_of_loc m l) = m.
Proof. by destruct l as [|[]]. Qed.

Lemma shr_fexp_fits m e l n : e <= 0 → n < 2 ^ 53 → fits (shr_record_of_loc m l) (n * 2 ^ (- e)) →
  let '(r, e') := shr_fexp 53 1024 m e l in e' <= 0 ∧ fits r (n * 2 ^ (- e')).
Proof.
  intros He Hn Hfits. unfold shr_fexp.
  assert (Zdigits2 m + e <= 53) as Hd.
  { apply (digits2_le _ _ n); [..|done|]; [|done|]; destruct Hfits as [H0 H]; rewrite shr_record_of_loc_m in *; [done|].
    destruct (_ || _); lia. }
  assert (fexp 53 1024 (Zdigits2 m + e) <= 0) as Hf by (unfold fexp, emin; lia).
  unfold shr. destruct (fexp 53 1024 (Zdigits2 m + e) - e) as [|k|k] eqn:Hk; [done| |done].
  split; [lia|]. apply shr_iter_fits. by rewrite <- Z.mul_assoc, <- Z.pow_add_r, (ltac:(lia) : - (e + Z.pos k) + Z.pos k = - e) by lia.
Qed.

Lemma round_fits r N : fits r N → fits (shr_record_of_loc (round_nearest_even (shr_m r) (loc_of_shr_record r)) loc_Exact) N.
Proof. unfold fits. destruct r as [m [] []]; simpl; try case_match; lia. Qed.

Lemma binary_round_aux_below m e l n : e <= 0 → n < 2 ^ 53 → fits (shr_record_of_loc m l) (n * 2 ^ (- e)) →
  below n (binary_round_aux 53 1024 false m e l).
Proof.
  intros He Hn Hfits. unfold binary_round_aux. pose proof (shr_fexp_fits m e l n He Hn Hfits) as H1.
  destruct (shr_fexp _ _ m e l) as [r e1]. destruct H1 as [He1 H1]. apply round_fits in H1.
  pose proof (shr_fexp_fits _ e1 loc_Exact n He1 Hn H1) as H2. destruct (shr_fexp _ _ _ e1 _) as [r2 e2].
  destruct H2 as [He2 [H0 H2]]. destruct (shr_m r2) as [|p|p] eqn:Hp; [done| |lia].
  destruct (Z.leb_spec e2 (1024 - 53)); [|lia]. split; [done|]. destruct (_ || _); lia.
Qed.

Lemma exact_fits m N : 0 <= m <= N → fits (shr_record_of_loc m loc_Exact) N.
Proof. by unfold fits. Qed.

Lemma below_le a b f : a <= b → below a f → below b f.
Proof. destruct f as [| | |[] m e]; simpl; try done. intros Hab [He Hm]. split; [done|]. nia. Qed.

Lemma iter_xO p d : Z.pos (Pos.iter xO p d) = Z.pos p * 2 ^ Z.pos d.
Proof.
  induction d as [|d IH] using Pos.peano_ind; [simpl; lia|].
  rewrite Pos.iter_succ, Pos2Z.inj_xO, IH, Pos2Z.inj_succ, Z.pow_succ_r by lia. lia.
Qed.

Lemma f64_of_Z_below n : 0 <= n < 2 ^ 53 → below n (f64_of_Z n).
Proof.
  intros Hn. unfold f64_of_Z, binary_normalize. destruct n as [|p|p]; [done| |lia]. unfold binary_round.
  assert (Zdigits2 (Z.pos p) + 0 <= 53) as Hd by (apply (digits2_le _ _ (Z.pos p)); lia). simpl Zdigits2 in Hd.
  assert (fexp 53 1024 (Z.pos (digits2_pos p) + 0) <= 0) as Hf by (unfold fexp, emin; lia).
  unfold shl_align. rewrite Z.sub_0_r. destruct (fexp _ _ _) as [|d|d]; [|lia|];
    (apply binary_round_aux_below; [lia|lia|apply exact_fits]); [simpl; lia|]. rewrite iter_xO, Pos2Z.opp_neg. split; [|done].
  apply Z.mul_nonneg_nonneg; [lia|]. apply Z.pow_nonneg. lia.
Qed.

Lemma f64_mul_below a b x y : 0 <= a → 0 <= b → a * b < 2 ^ 53 → below a x → below b y → below (a * b) (f64_mul x y).
Proof.
  intros Ha Hb Hab. destruct x as [| | |[] mx ex], y as [| | |[] my ey]; simpl; try done. intros [Hex Hx] [Hey Hy].
  apply binary_round_aux_below; [lia|done|]. apply exact_fits. rewrite Pos2Z.inj_mul, Z.opp_add_distr, Z.pow_add_r by lia. nia.
Qed.

Lemma new_location_fits k q r N : 0 <= q → q < N ∨ (r = 0 ∧ q <= N) → fits (shr_record_of_loc q (new_location k r)) N.
Proof.
  intros Hq HN. unfold new_location, new_location_even, new_location_odd, fits. rewrite shr_record_of_loc_m. split; [done|].
  destruct (Z.even k), (Z.eqb_spec r 0); simpl; try lia; destruct (_ ?= _); simpl; lia.
Qed.

(** The divisor is the integer [k]. *)
Lemma f64_div_below n k x my ey : 0 < k → 0 <= n → n * k < 2 ^ 53 → ey <= 0 → Z.pos my = k * 2 ^ (- ey) →
  below (n * k) x → below n (f64_div x (S754_finite false my ey)).
Proof.
  intros Hk Hn Hnk Hey Hmy. destruct x as [| | |[] mx ex]; simpl; try done. intros [Hex Hx]. unfold SFdiv_core_binary.
  assert (Zdigits2 (Z.pos mx) + ex <= 53) as Hd1 by (apply (digits2_le _ _ (n * k)); lia). set (d1 := Zdigits2 (Z.pos mx)) in *.
  assert (1 <= Zdigits2 (Z.pos my) + ey) as Hd2.
  { simpl. rewrite digits2_pos_log2. assert (- ey <= Z.log2 (Z.pos my)); [|lia]. apply Z.log2_le_pow2; [lia|].
    rewrite Hmy. assert (0 < 2 ^ (- ey)) by lia. nia. }
  set (e' := Z.min _ (ex - ey)). assert (e' <= 0) as He' by (unfold e', fexp, emin; lia).
  assert (0 <= ex - ey - e') as Hs by lia. set (s := ex - ey - e') in *.
  replace (match s with Z0 => _ | Zpos _ => _ | Zneg _ => _ end) with (Z.pos mx * 2 ^ s).
  2: { destruct s as [|p|p]; [lia| |lia]. by rewrite Z.shiftl_mul_pow2. }
  pose proof (Z.div_eucl_eq (Z.pos mx * 2 ^ s) (Z.pos my) ltac:(lia)) as Heq.
  pose proof (Z.mod_pos_bound (Z.pos mx * 2 ^ s) (Z.pos my) ltac:(lia)) as Hr. unfold Z.modulo in Hr.
  destruct (Z.div_eucl _ _) as [q r]. assert (0 < 2 ^ s) by lia.
  apply binary_round_aux_below; [done|nia|]. apply new_location_fits; [nia|].
  assert (Z.pos my * q + r <= n * 2 ^ (- e') * Z.pos my); [|nia].
  rewrite <- Heq, Hmy, (ltac:(ring) : n * 2 ^ (- e') * (k * 2 ^ (- ey)) = n * k * (2 ^ (- e') * 2 ^ (- ey))).
  rewrite <- Z.pow_add_r, (ltac:(unfold s; lia) : - e' + - ey = - ex + s), Z.pow_add_r by lia. nia.
Qed.

Lemma f64_ceil_below n f : 0 <= n → below n f → f64_ceil_as_u64 f <= n.
Proof.
  intros Hn. destruct f as [| | |[] m e]; simpl; try done; try lia. intros [He Hm]. destruct (Z.leb_spec 0 e) as [H|H].
  - assert (e = 0) as -> by lia. simpl in *. lia.
  - assert (- n <= - Z.pos m / 2 ^ (- e)); [|change (Z.neg m) with (- Z.pos m) in *; lia].
    apply Z.div_le_lower_bound; [lia|]. nia.
Qed.

(** ** Percentiles of a histogram *)

(** The rank of a percentile up to 100 is at most the number of samples. *)
Lemma rank_le c p : 0 < c < 2 ^ 46 → below 100 p → rank c p <= c.
Proof.
  intros Hc Hp. unfold rank. assert (f64_of_Z 100 = S754_finite false 7036874417766400 (-46)) as -> by (by vm_compute).
  apply Z.max_lub; [|lia]. apply f64_ceil_below; [lia|]. apply (f64_div_below c 100); try lia.
  apply f64_mul_below; try lia; [|done]. apply f64_of_Z_below. lia.
Qed.

Definition samples (s : LatencyStats) : Z := foldr Z.add 0 (ls_counts s).

(** A snapshot, whose counters may have been read at different moments: only
    that they count fewer than 2^46 samples. *)
Definition histogram_ok (s : LatencyStats) : Prop :=
  length (ls_counts s) = length BUCKETS_US ∧ Forall (λ c, 0 <= c) (ls_counts s) ∧ samples s < 2 ^ 46.

Lemma sum_nonneg l : Forall (λ c, 0 <= c) l → 0 <= foldr Z.add 0 l.
Proof. induction 1; simpl; lia. Qed.

Lemma foldl_sum_u64 l acc : 0 <= acc → Forall (λ c, 0 <= c) l → acc + foldr Z.add 0 l < 2 ^ 64 →
  foldl (λ acc c, wrap_u64 (acc + c)) acc l = acc + foldr Z.add 0 l.
Proof.
  intros Hacc Hl. revert acc Hacc. induction Hl as [|c l Hc Hl IH]; intros acc Hacc Hsum; simpl in *; [lia|].
  pose proof (sum_nonneg l Hl). rewrite wrap_u64_id by (unfold is_u64; lia). rewrite IH; lia.
Qed.

Lemma count_samples s : histogram_ok s → count s = samples s.
Proof. intros (_ & Hpos & Hsum). unfold count, sum_u64, samples in *. rewrite foldl_sum_u64; lia || done. Qed.

Lemma percentile_loop_found r bounds cs : Forall (λ c, 0 <= c) cs → length cs = length bounds →
  ∀ seen, 0 <= seen → seen < r <= seen + foldr Z.add 0 cs → seen + foldr Z.add 0 cs < 2 ^ 64 →
  ∃ b, percentile_loop r seen (zip bounds cs) = Some b.
Proof.
  intros Hpos. revert bounds. induction Hpos as [|c cs Hc Hpos IH]; intros [|b bounds] Hlen seen Hseen Hr Hsum; simplify_eq/=; [lia|].
  pose proof (sum_nonneg cs Hpos). rewrite wrap_u64_id by (unfold is_u64; lia).
  destruct (Z.leb_spec r (seen + c)); [by exists b|]. apply IH; lia.
Qed.

Lemma sum_bound l n : Forall (λ c, c <= n) l → foldr Z.add 0 l <= len l * n.
Proof. unfold len. induction 1; simpl; lia. Qed.

(** The percentiles of the program, as Rust reads their literals: the nearest
    binary64 number. *)
Definition p99 : spec_float := f64_of_Z 99.
Definition p999 : spec_float := f64_div (f64_of_Z 999) (f64_of_Z 10).

Definition percentile_ok (p : spec_float) : Prop :=
  below 100 p ∧ f64_le (f64_of_Z 0) p = true ∧ f64_le p (f64_of_Z 100) = true.

Lemma p99_ok : percentile_ok p99.
Proof. unfold percentile_ok. vm_compute. repeat split; discriminate. Qed.

Lemma p999_ok : percentile_ok p999.
Proof. unfold percentile_ok. vm_compute. repeat split; discriminate. Qed.

(** No percentile of a snapshot panics. *)
Lemma percentile_defined s p : histogram_ok s → percentile_ok p → ∃ r, percentile_micros s p = Some r.
Proof.
  intros Hs (Hp & H0 & H100). unfold percentile_micros. rewrite H0, H100. cbn [negb andb].
  destruct (Z.eqb_spec (count s) 0); [by eexists|]. rewrite (count_samples s Hs) in *. destruct Hs as (Hlen & Hpos & Hsum).
  pose proof (sum_nonneg _ Hpos). unfold samples in *.
  assert (rank (foldr Z.add 0 (ls_counts s)) p <= foldr Z.add 0 (ls_counts s)) by (apply rank_le; [lia|done]).
  destruct (percentile_loop_found (rank (foldr Z.add 0 (ls_counts s)) p) BUCKETS_US (ls_counts s) Hpos Hlen 0) as [b ->];
    [lia| |lia|by eexists]. unfold rank at 1. lia.
Qed.

Lemma recorded_ok es : len es < 2 ^ 46 → histogram_ok (snapshot (recorded es)).
Proof.
  intros Hes. destruct (recorded_counts es ltac:(lia)) as [Hl Hc].
  assert (Forall (λ c, 0 <= c <= len es) (counts (recorded es))) as Hall.
  { apply Forall_lookup_2. intros i c Hi. rewrite Hc in Hi; [|rewrite <- Hl; by eapply lookup_lt_Some].
    simplify_eq. split; [apply len_nonneg|apply tally_le]. }
  assert (Forall (λ c, 0 <= c) (counts (recorded es))) as Hpos by (eapply Forall_impl; [exact Hall|simpl; lia]).
  split_and!; [done|done|]. pose proof (count_recorded es ltac:(lia)) as Hcount. unfold count, sum_u64 in Hcount. simpl in Hcount.
  assert (foldr Z.add 0 (counts (recorded es)) <= len (counts (recorded es)) * len es) as Hsum.
  { apply sum_bound. eapply Forall_impl; [exact Hall|simpl; lia]. }
  unfold len in Hsum at 1. rewrite Hl in Hsum. simpl length in Hsum.
  rewrite foldl_sum_u64 in Hcount; [unfold samples; simpl; lia|done|done|lia].
Qed.
