(* ===== verification/LogicStats.v ===== *)
(** The counters of the Logic service (src/service/logic/src/stats.rs):
    [StatsInner] with its atomic counters, latency recorders and the registry
    of dirty players, the snapshot structs [LogicStats], and the login
    metrics.  An [AtomicU64] is a [Z] whose [fetch_add] and [fetch_sub] wrap. *)

From S2P Require Import Prelude Latency.

(** [fetch_add(1)] and [fetch_sub(1)] on an [AtomicU64]. *)
Definition incr (z : Z) : Z := wrap_u64 (z + 1).
Definition decr (z : Z) : Z := wrap_u64 (z - 1).
(** [fetch_add(n)]. *)
Definition add_u64 (n z : Z) : Z := wrap_u64 (z + n).

Definition update_high_water (value high_water : Z) : Z := Z.max high_water value.

Module StatsInner.

Record t := mk {
  inflight_calls_high_water : Z;
  inflight_kib_high_water : Z;
  queued : Z;
  queued_high_water : Z;
  active_gids : Z;
  active_gids_high_water : Z;
  dirty_players : Z;
  dirty_slots_high_water : Z;
  accepted : Z;
  completed : Z;
  load_calls : Z;
  load_failed : Z;
  preload_calls : Z;
  preload_failed : Z;
  save_calls : Z;
  save_failed : Z;
  rejected_calls : Z;
  rejected_kib : Z;
  rejected_gid : Z;
  rejected_dirty : Z;
  rejected_draining : Z;
  queue_latency : LatencyRecorder;
  load_latency : LatencyRecorder;
  run_latency : LatencyRecorder;
  preload_latency : LatencyRecorder;
  save_latency : LatencyRecorder;
  total_latency : LatencyRecorder;
  flush_latency : LatencyRecorder;
  dirty_since : gmap Z Z
}.

Definition eta_t (s : t) : t :=
  mk (inflight_calls_high_water s) (inflight_kib_high_water s) (queued s) (queued_high_water s)
    (active_gids s) (active_gids_high_water s) (dirty_players s) (dirty_slots_high_water s)
    (accepted s) (completed s) (load_calls s) (load_failed s) (preload_calls s) (preload_failed s)
    (save_calls s) (save_failed s) (rejected_calls s) (rejected_kib s) (rejected_gid s)
    (rejected_dirty s) (rejected_draining s) (queue_latency s) (load_latency s) (run_latency s)
    (preload_latency s) (save_latency s) (total_latency s) (flush_latency s) (dirty_since s).
Definition on_inflight_calls_high_water : (Z → Z) → t → t := ltac:(derive_update eta_t inflight_calls_high_water).
Definition on_inflight_kib_high_water : (Z → Z) → t → t := ltac:(derive_update eta_t inflight_kib_high_water).
Definition on_queued : (Z → Z) → t → t := ltac:(derive_update eta_t queued).
Definition on_queued_high_water : (Z → Z) → t → t := ltac:(derive_update eta_t queued_high_water).
Definition on_active_gids : (Z → Z) → t → t := ltac:(derive_update eta_t active_gids).
Definition on_active_gids_high_water : (Z → Z) → t → t := ltac:(derive_update eta_t active_gids_high_water).
Definition on_dirty_players : (Z → Z) → t → t := ltac:(derive_update eta_t dirty_players).
Definition on_dirty_slots_high_water : (Z → Z) → t → t := ltac:(derive_update eta_t dirty_slots_high_water).
Definition on_accepted : (Z → Z) → t → t := ltac:(derive_update eta_t accepted).
Definition on_completed : (Z → Z) → t → t := ltac:(derive_update eta_t completed).
Definition on_load_calls : (Z → Z) → t → t := ltac:(derive_update eta_t load_calls).
Definition on_load_failed : (Z → Z) → t → t := ltac:(derive_update eta_t load_failed).
Definition on_preload_calls : (Z → Z) → t → t := ltac:(derive_update eta_t preload_calls).
Definition on_preload_failed : (Z → Z) → t → t := ltac:(derive_update eta_t preload_failed).
Definition on_save_calls : (Z → Z) → t → t := ltac:(derive_update eta_t save_calls).
Definition on_save_failed : (Z → Z) → t → t := ltac:(derive_update eta_t save_failed).
Definition on_rejected_calls : (Z → Z) → t → t := ltac:(derive_update eta_t rejected_calls).
Definition on_rejected_kib : (Z → Z) → t → t := ltac:(derive_update eta_t rejected_kib).
Definition on_rejected_gid : (Z → Z) → t → t := ltac:(derive_update eta_t rejected_gid).
Definition on_rejected_dirty : (Z → Z) → t → t := ltac:(derive_update eta_t rejected_dirty).
Definition on_rejected_draining : (Z → Z) → t → t := ltac:(derive_update eta_t rejected_draining).
Definition on_queue_latency : (LatencyRecorder → LatencyRecorder) → t → t := ltac:(derive_update eta_t queue_latency).
Definition on_load_latency : (LatencyRecorder → LatencyRecorder) → t → t := ltac:(derive_update eta_t load_latency).
Definition on_run_latency : (LatencyRecorder → LatencyRecorder) → t → t := ltac:(derive_update eta_t run_latency).
Definition on_preload_latency : (LatencyRecorder → LatencyRecorder) → t → t := ltac:(derive_update eta_t preload_latency).
Definition on_save_latency : (LatencyRecorder → LatencyRecorder) → t → t := ltac:(derive_update eta_t save_latency).
Definition on_total_latency : (LatencyRecorder → LatencyRecorder) → t → t := ltac:(derive_update eta_t total_latency).
Definition on_flush_latency : (LatencyRecorder → LatencyRecorder) → t → t := ltac:(derive_update eta_t flush_latency).
Definition on_dirty_since : (gmap Z Z → gmap Z Z) → t → t := ltac:(derive_update eta_t dirty_since).

Definition new : t :=
  {| inflight_calls_high_water := 0; inflight_kib_high_water := 0; queued := 0; queued_high_water := 0; active_gids := 0; active_gids_high_water := 0; dirty_players := 0;
     dirty_slots_high_water := 0; accepted := 0; completed := 0; load_calls := 0; load_failed := 0; preload_calls := 0; preload_failed := 0;
     save_calls := 0; save_failed := 0; rejected_calls := 0; rejected_kib := 0; rejected_gid := 0; rejected_dirty := 0; rejected_draining := 0;
     queue_latency := recorder_default; load_latency := recorder_default; run_latency := recorder_default;
     preload_latency := recorder_default; save_latency := recorder_default; total_latency := recorder_default;
     flush_latency := recorder_default; dirty_since := ∅ |}.

(** The registry of dirty players maps a player id to the instant it became
    dirty; [dirty_players] counts its entries. *)
Definition mark_dirty (player_id : Z) (dirty : bool) (now : Z) (s : t) : t :=
  if dirty then
    match dirty_since s !! player_id with
    | None => on_dirty_players incr (on_dirty_since <[player_id := now]> s)
    | Some _ => s
    end
  else
    match dirty_since s !! player_id with
    | Some _ => on_dirty_players decr (on_dirty_since (delete player_id) s)
    | None => s
    end.

Definition oldest_dirty_age (now : Z) (s : t) : Z :=
  match (map_to_list (dirty_since s)).*2 with
  | [] => 0
  | first :: others => duration_since now (foldl Z.min first others)
  end.
End StatsInner.

Module LogicStats.

(** The snapshot; the statistics of the cache library are not kept here. *)
Record t := mk {
  inflight_calls : Z;
  inflight_calls_high_water : Z;
  inflight_kib : Z;
  inflight_kib_high_water : Z;
  queued : Z;
  queued_high_water : Z;
  active_gids : Z;
  active_gids_high_water : Z;
  dirty_players : Z;
  dirty_slots : Z;
  dirty_slots_high_water : Z;
  accepted : Z;
  completed : Z;
  load_calls : Z;
  load_failed : Z;
  preload_calls : Z;
  preload_failed : Z;
  save_calls : Z;
  save_failed : Z;
  rejected_calls : Z;
  rejected_kib : Z;
  rejected_gid : Z;
  rejected_dirty : Z;
  rejected_draining : Z;
  queue_latency : LatencyStats;
  load_latency : LatencyStats;
  run_latency : LatencyStats;
  preload_latency : LatencyStats;
  save_latency : LatencyStats;
  total_latency : LatencyStats;
  flush_latency : LatencyStats;
  oldest_dirty_age : Z
}.
End LogicStats.

Module LoginMetrics.

Record t := mk {
  mongo_find : LatencyRecorder;
  mongo_create : LatencyRecorder;
  runtime_wait : LatencyRecorder;
  redis_owner : LatencyRecorder;
  total : LatencyRecorder
}.

Record LoginStats := mkLoginStats {
  mongo_find_stats : LatencyStats;
  mongo_create_stats : LatencyStats;
  runtime_wait_stats : LatencyStats;
  redis_owner_stats : LatencyStats;
  total_stats : LatencyStats
}.

Definition snapshot (m : t) : LoginStats :=
  {| mongo_find_stats := Latency.snapshot (mongo_find m);
     mongo_create_stats := Latency.snapshot (mongo_create m);
     runtime_wait_stats := Latency.snapshot (runtime_wait m);
     redis_owner_stats := Latency.snapshot (redis_owner m);
     total_stats := Latency.snapshot (total m) |}.
End LoginMetrics.

(** ** The registry agrees with its counter *)

Definition dirty_registry_ok (s : StatsInner.t) : Prop :=
  StatsInner.dirty_players s = Z.of_nat (size (StatsInner.dirty_since s)).

Lemma mark_dirty_ok player_id dirty now s :
  Z.of_nat (size (StatsInner.dirty_since s)) + 1 < 2 ^ 64 →
  dirty_registry_ok s → dirty_registry_ok (StatsInner.mark_dirty player_id dirty now s).
Proof.
  unfold dirty_registry_ok, StatsInner.mark_dirty. intros Hs Hok.
  destruct dirty, (StatsInner.dirty_since s !! player_id) as [t|] eqn:Hl; simpl; [done| | |done].
  - rewrite Hok, map_size_insert_None by done. unfold incr. rewrite wrap_u64_id; unfold is_u64; lia.
  - rewrite Hok, map_size_delete_Some by done. unfold decr.
    assert (size (StatsInner.dirty_since s) ≠ 0%nat) by (by apply (map_size_ne_0_lookup_2 _ player_id)).
    rewrite wrap_u64_id; unfold is_u64; lia.
Qed.
