(* ===== verification/GateStats.v ===== *)
(** The login latencies of the Gate (src/service/gate/src/stats.rs): a histogram
    per part of a login, and their snapshot. *)

From S2P Require Import Prelude Latency.

Module GateLogin.

Record LoginMetrics := mkLoginMetrics {
  token_decode : LatencyRecorder;
  redis_load_online : LatencyRecorder;
  route_select : LatencyRecorder;
  logic_rpc : LatencyRecorder;
  session_bind : LatencyRecorder;
  redis_save_online : LatencyRecorder;
  response_send : LatencyRecorder;
  total : LatencyRecorder
}.

Record LoginStats := mkLoginStats {
  token_decode_stats : LatencyStats;
  redis_load_online_stats : LatencyStats;
  route_select_stats : LatencyStats;
  logic_rpc_stats : LatencyStats;
  session_bind_stats : LatencyStats;
  redis_save_online_stats : LatencyStats;
  response_send_stats : LatencyStats;
  total_stats : LatencyStats
}.

Definition default : LoginMetrics :=
  mkLoginMetrics recorder_default recorder_default recorder_default recorder_default recorder_default recorder_default
    recorder_default recorder_default.

Definition snapshot (m : LoginMetrics) : LoginStats := {|
  token_decode_stats := Latency.snapshot (token_decode m);
  redis_load_online_stats := Latency.snapshot (redis_load_online m);
  route_select_stats := Latency.snapshot (route_select m);
  logic_rpc_stats := Latency.snapshot (logic_rpc m);
  session_bind_stats := Latency.snapshot (session_bind m);
  redis_save_online_stats := Latency.snapshot (redis_save_online m);
  response_send_stats := Latency.snapshot (response_send m);
  total_stats := Latency.snapshot (total m) |}.

Definition histograms (s : LoginStats) : list LatencyStats :=
  [token_decode_stats s; redis_load_online_stats s; route_select_stats s; logic_rpc_stats s; session_bind_stats s;
   redis_save_online_stats s; response_send_stats s; total_stats s].
End GateLogin.
