(* ===== verification/LogicAdmission.v ===== *)
(** Admission control of the Logic runtime (src/service/logic/src/runtime.rs):
    the limits of a Logic process, the global call and KiB budget with its
    closed bit, and the dirty-player slots.  [acquire] is written twice: as
    the sequential function the runtime model calls, and, below, as the
    sequence of atomic operations its threads interleave. *)

From S2P Require Import Prelude LogicStats.

Definition ADMISSION_CLOSED : Z := Z.shiftl 1 63.
Definition ADMISSION_COUNT_MASK : Z := ADMISSION_CLOSED - 1.

Module RejectReason.
Inductive t := Calls | KiB | Gid | Draining.

#[global] Instance eq_dec : EqDecision t.
Proof. solve_decision. Defined.
End RejectReason.

(** ** The limits *)

Module LogicConfig.
Record t := mk {
  resident_capacity : Z;
  ttl : Z;
  shards : Z;
  batch_save_count : Z;
  max_dirty_players : Z;
  max_inflight_calls : Z;
  max_inflight_kib : Z;
  max_calls_per_gid : Z;
  max_kib_per_gid : Z
}.

Definition HARD_LIMITS : t :=
  {| resident_capacity := 100000; ttl := secs (24 * 60 * 60); shards := 128;
     batch_save_count := 1000; max_dirty_players := 100000; max_inflight_calls := 100000;
     max_inflight_kib := 256 * 1024; max_calls_per_gid := 64; max_kib_per_gid := 1024 |}.

(** [usize::is_power_of_two]. *)
Definition is_power_of_two (n : Z) : bool := (0 <? n) && (Z.land n (n - 1) =? 0).

(** The conjunction of the [assert!]s: [false] is a panic of [LogicRuntime::new]. *)
Definition validate (c : t) : bool :=
  (0 <? resident_capacity c)
  && (0 <? ttl c)
  && is_power_of_two (shards c)
  && (0 <? batch_save_count c)
  && (0 <? max_dirty_players c)
  && ((0 <? max_inflight_calls c) && (max_inflight_calls c <=? ADMISSION_COUNT_MASK))
  && (0 <? max_inflight_kib c)
  && (0 <? max_calls_per_gid c)
  && (0 <? max_kib_per_gid c).
End LogicConfig.

(** ** The global budget *)

Module Admission.
Record t := mk {
  calls : Z;
  kib : Z;
  max_calls : Z;
  max_kib : Z
}.

Definition eta_t (s : t) : t := mk (calls s) (kib s) (max_calls s) (max_kib s).
Definition on_calls : (Z → Z) → t → t := ltac:(derive_update eta_t calls).
Definition on_kib : (Z → Z) → t → t := ltac:(derive_update eta_t kib).

Definition new (config : LogicConfig.t) : t :=
  {| calls := 0; kib := 0;
     max_calls := LogicConfig.max_inflight_calls config;
     max_kib := LogicConfig.max_inflight_kib config |}.

(** One successful round of the compare-and-swap loop of [acquire]; a failed
    compare-and-swap changes nothing and the loop reads again. *)
Definition admit_call (a : t) : Result RejectReason.t t :=
  if negb (Z.land (calls a) ADMISSION_CLOSED =? 0) then Err RejectReason.Draining
  else if max_calls a <=? calls a then Err RejectReason.Calls
  else Ok (on_calls (λ c, wrap_u64 (c + 1)) a).

(** The [fetch_update] of the KiB budget. *)
Definition admit_kib (retained_kib : Z) (a : t) : option t :=
  match checked_add_u64 (kib a) retained_kib with
  | Some next => if next <=? max_kib a then Some (on_kib (λ _, next) a) else None
  | None => None
  end.

Definition release_call : t → t := on_calls (λ c, wrap_u64 (c - 1)).
Definition release_kib (retained_kib : Z) : t → t := on_kib (λ k, wrap_u64 (k - retained_kib)).

Definition close : t → t := on_calls (λ c, Z.lor c ADMISSION_CLOSED).

Definition inflight_calls (a : t) : Z := Z.land (calls a) ADMISSION_COUNT_MASK.

(** The counter a rejection increments. *)
Definition count_reject (reason : RejectReason.t) : StatsInner.t → StatsInner.t :=
  match reason with
  | RejectReason.Calls => StatsInner.on_rejected_calls incr
  | RejectReason.KiB => StatsInner.on_rejected_kib incr
  | RejectReason.Gid => StatsInner.on_rejected_gid incr
  | RejectReason.Draining => StatsInner.on_rejected_draining incr
  end.

(** [acquire]: the permit is the KiB it retains. *)
Definition acquire (retained_kib : Z) (a : t) (stats : StatsInner.t)
  : t * StatsInner.t * Result RejectReason.t Z :=
  match admit_call a with
  | Err reason => (a, count_reject reason stats, Err reason)
  | Ok a1 =>
      match admit_kib retained_kib a1 with
      | None => (release_call a1, count_reject RejectReason.KiB stats, Err RejectReason.KiB)
      | Some a2 =>
          let stats := StatsInner.on_inflight_calls_high_water (update_high_water (inflight_calls a2)) stats in
          let stats := StatsInner.on_inflight_kib_high_water (update_high_water (kib a1 + retained_kib)) stats in
          (a2, stats, Ok retained_kib)
      end
  end.

(** [Drop for GlobalPermit]. *)
Definition drop_permit (retained_kib : Z) (a : t) : t := release_kib retained_kib (release_call a).
End Admission.

(** ** The dirty-player slots *)

Module DirtyAdmission.
Record t := mk { slots : Z; max : Z }.

Definition new (max_dirty_players : Z) : t := {| slots := 0; max := max_dirty_players |}.

Definition acquire (a : t) (stats : StatsInner.t) : option (t * StatsInner.t) :=
  if slots a <? max a then
    let stats := StatsInner.on_dirty_slots_high_water (update_high_water (slots a + 1)) stats in
    Some ({| slots := wrap_u64 (slots a + 1); max := max a |}, stats)
  else None.

(** [None] is the panic of the underflow assertion. *)
Definition release (a : t) : option t :=
  if 0 <? slots a then Some {| slots := slots a - 1; max := max a |} else None.
End DirtyAdmission.

(** ** The atomic counter with its closed bit *)

Definition encode_calls (closed : bool) (n : Z) : Z := n + (if closed then ADMISSION_CLOSED else 0).

Lemma encode_calls_closed closed n : 0 <= n <= ADMISSION_COUNT_MASK →
  (Z.land (encode_calls closed n) ADMISSION_CLOSED =? 0) = negb closed.
Proof.
  intros Hn. unfold encode_calls. change ADMISSION_COUNT_MASK with (2 ^ 63 - 1) in Hn.
  change ADMISSION_CLOSED with (2 ^ 63).
  assert (Z.land (n + (if closed then 2 ^ 63 else 0)) (2 ^ 63)
          = if closed then 2 ^ 63 else 0) as ->; [|by destruct closed].
  apply Z.bits_inj'. intros i Hi. rewrite Z.land_spec, Z.pow2_bits_eqb by lia.
  destruct (Z.eqb_spec 63 i) as [<-|Hne].
  - rewrite andb_true_r. destruct closed; rewrite Z.testbit_eqb by lia; [|rewrite Z.bits_0].
    + replace (n + 2 ^ 63) with (1 * 2 ^ 63 + n) by lia. rewrite Z.div_add_l, Z.div_small by lia. done.
    + rewrite Z.add_0_r, Z.div_small by lia. done.
  - rewrite andb_false_r. destruct closed; [by rewrite Z.pow2_bits_false by lia|by rewrite Z.bits_0].
Qed.

Lemma encode_calls_count closed n : 0 <= n <= ADMISSION_COUNT_MASK →
  Z.land (encode_calls closed n) ADMISSION_COUNT_MASK = n.
Proof.
  intros Hn. change ADMISSION_COUNT_MASK with (2 ^ 63 - 1) in *.
  change (2 ^ 63 - 1) with (Z.ones 63) at 1. rewrite Z.land_ones by lia.
  unfold encode_calls. change ADMISSION_CLOSED with (1 * 2 ^ 63).
  destruct closed; [rewrite Z.mod_add by lia|]; rewrite Z.mod_small; lia.
Qed.

Lemma encode_calls_close closed n : 0 <= n <= ADMISSION_COUNT_MASK →
  Z.lor (encode_calls closed n) ADMISSION_CLOSED = encode_calls true n.
Proof.
  intros Hn. pose proof (encode_calls_closed closed n Hn) as Hc.
  pose proof (Z.add_lor_land (encode_calls closed n) ADMISSION_CLOSED) as Hadd.
  unfold encode_calls in *. change ADMISSION_COUNT_MASK with (2 ^ 63 - 1) in Hn.
  change ADMISSION_CLOSED with (2 ^ 63) in *. destruct closed; simpl negb in Hc.
  - apply Z.bits_inj'. intros i Hi. rewrite Z.lor_spec, Z.pow2_bits_eqb by lia.
    destruct (Z.eqb_spec 63 i) as [<-|]; [|apply orb_false_r].
    rewrite orb_true_r, Z.testbit_eqb by lia.
    replace (n + 2 ^ 63) with (1 * 2 ^ 63 + n) by lia. by rewrite Z.div_add_l, Z.div_small by lia.
  - apply Z.eqb_eq in Hc. lia.
Qed.

(** ** Threads that race on the counters

    A thread that runs [acquire] and later drops its permit goes through four
    atomic operations; its phase is what it has to undo. *)
Module Phase.
Inductive t :=
| Counted (retained_kib : Z)   (** the call counter is taken, the KiB are not *)
| Rejecting (retained_kib : Z)  (** the KiB were refused, the call is not yet given back *)
| Permit (retained_kib : Z)     (** [acquire] returned a permit *)
| Releasing (retained_kib : Z). (** the permit is being dropped: the call is given back, the KiB are not *)

Definition holds_call (p : t) : Z := match p with Releasing _ => 0 | _ => 1 end.
Definition holds_kib (p : t) : Z := match p with Permit k | Releasing k => k | _ => 0 end.
Definition retained (p : t) : Z :=
  match p with Counted k | Rejecting k | Permit k | Releasing k => k end.
End Phase.

Abbreviation Threads := (gmap Z Phase.t).

Inductive admission_step : Admission.t * Threads → Admission.t * Threads → Prop :=
| step_admit_call tid k a a' T :
    T !! tid = None → 0 <= k →
    Admission.admit_call a = Ok a' → admission_step (a, T) (a', <[tid := Phase.Counted k]> T)
| step_admit_kib tid k a a' T :
    T !! tid = Some (Phase.Counted k) →
    Admission.admit_kib k a = Some a' → admission_step (a, T) (a', <[tid := Phase.Permit k]> T)
| step_refuse_kib tid k a T :
    T !! tid = Some (Phase.Counted k) →
    Admission.admit_kib k a = None → admission_step (a, T) (a, <[tid := Phase.Rejecting k]> T)
| step_give_back tid k a T :
    T !! tid = Some (Phase.Rejecting k) → admission_step (a, T) (Admission.release_call a, delete tid T)
| step_drop_call tid k a T :
    T !! tid = Some (Phase.Permit k) →
    admission_step (a, T) (Admission.release_call a, <[tid := Phase.Releasing k]> T)
| step_drop_kib tid k a T :
    T !! tid = Some (Phase.Releasing k) → admission_step (a, T) (Admission.release_kib k a, delete tid T)
| step_close a T : admission_step (a, T) (Admission.close a, T).

Definition admission_inv (x : Admission.t * Threads) (closed : bool) : Prop :=
  let '(a, T) := x in
  Admission.calls a = encode_calls closed (map_sum Phase.holds_call T)
  ∧ Admission.kib a = map_sum Phase.holds_kib T
  ∧ map_Forall (λ _ p, 0 <= Phase.retained p) T
  ∧ map_sum Phase.holds_call T <= Admission.max_calls a <= ADMISSION_COUNT_MASK
  ∧ Admission.kib a <= Admission.max_kib a < 2 ^ 64.

Lemma holds_bounds (p : Phase.t) : 0 <= Phase.retained p → 0 <= Phase.holds_call p ∧ 0 <= Phase.holds_kib p.
Proof. destruct p; simpl; lia. Qed.

Lemma holds_nonneg (T : Threads) : map_Forall (λ _ p, 0 <= Phase.retained p) T →
  map_Forall (λ _ p, 0 <= Phase.holds_call p) T ∧ map_Forall (λ _ p, 0 <= Phase.holds_kib p) T.
Proof.
  intros HT. split; (eapply map_Forall_impl; [exact HT|]); intros ? p Hp;
    by apply (holds_bounds p) in Hp as [].
Qed.

(** The counters after thread [tid], in phase [p], has moved to phase [p']
    or is gone. *)
Lemma threads_update (T : Threads) tid p p' : T !! tid = Some p →
  map_sum Phase.holds_call (<[tid:=p']> T) = map_sum Phase.holds_call T - Phase.holds_call p + Phase.holds_call p'
  ∧ map_sum Phase.holds_kib (<[tid:=p']> T) = map_sum Phase.holds_kib T - Phase.holds_kib p + Phase.holds_kib p'
  ∧ dom (<[tid:=p']> T) ⊆ dom T.
Proof.
  intros Ht. rewrite !(map_sum_update _ _ _ _ _ Ht). split_and!; [done..|].
  rewrite dom_insert_lookup_L by (by eexists). done.
Qed.

Lemma threads_delete (T : Threads) tid p : T !! tid = Some p →
  map_sum Phase.holds_call (delete tid T) = map_sum Phase.holds_call T - Phase.holds_call p
  ∧ map_sum Phase.holds_kib (delete tid T) = map_sum Phase.holds_kib T - Phase.holds_kib p
  ∧ dom (delete tid T) ⊆ dom T.
Proof.
  intros Ht. rewrite !(map_sum_delete _ _ _ _ Ht). split_and!; [done..|].
  rewrite dom_delete_L. apply subseteq_difference_l. done.
Qed.

Lemma encode_calls_shift closed n d : 0 <= n + d <= ADMISSION_COUNT_MASK →
  wrap_u64 (encode_calls closed n + d) = encode_calls closed (n + d).
Proof.
  change ADMISSION_COUNT_MASK with (2 ^ 63 - 1). unfold encode_calls. change ADMISSION_CLOSED with (2 ^ 63).
  intros Hn. rewrite wrap_u64_id; unfold is_u64; destruct closed; lia.
Qed.

Lemma admit_call_encoded a closed n : Admission.calls a = encode_calls closed n →
  0 <= n <= ADMISSION_COUNT_MASK → Admission.max_calls a <= ADMISSION_COUNT_MASK →
  Admission.admit_call a =
    if closed then Err RejectReason.Draining
    else if Admission.max_calls a <=? n then Err RejectReason.Calls
    else Ok (Admission.on_calls (λ _, encode_calls false (n + 1)) a).
Proof.
  intros Hc Hn Hm. unfold Admission.admit_call. rewrite Hc, encode_calls_closed by done.
  destruct closed; [done|]. simpl negb. cbv iota. unfold encode_calls at 1. rewrite Z.add_0_r.
  destruct (Z.leb_spec (Admission.max_calls a) n); [done|].
  f_equal. unfold Admission.on_calls. f_equal. rewrite Hc. apply encode_calls_shift. lia.
Qed.

Lemma admit_kib_Some k a a' : Admission.admit_kib k a = Some a' →
  a' = Admission.on_kib (λ _, Admission.kib a + k) a ∧ Admission.kib a + k <= Admission.max_kib a.
Proof.
  unfold Admission.admit_kib, checked_add_u64. intros Ha.
  repeat case_match; simplify_eq. split; [done|lia].
Qed.

Lemma admission_step_inv x y closed : admission_step x y → admission_inv x closed →
  ∃ closed', admission_inv y closed' ∧ (closed = true → closed' = true ∧ dom y.2 ⊆ dom x.2).
Proof.
  intros Hstep Hinv.
  destruct Hstep as [tid k a a' T Ht Hk Ha|tid k a a' T Ht Ha|tid k a T Ht Ha|tid k a T Ht|tid k a T Ht|tid k a T Ht|a T];
    destruct Hinv as (Hc & Hkib & HT & Hm & Hmk); pose proof (holds_nonneg T HT) as [Hn1 Hn2];
    pose proof (map_sum_nonneg _ _ Hn1); pose proof (map_sum_nonneg _ _ Hn2).
  1: { rewrite (admit_call_encoded a closed _ Hc) in Ha by lia. destruct closed; [discriminate|].
    case_match; [discriminate|]. simplify_eq. exists false. split; [|done]. unfold admission_inv.
    rewrite !map_sum_insert by done. simpl. split_and!; [f_equal; lia|lia| |lia..].
    apply map_Forall_insert_2; [simpl; lia|done]. }
  6: { exists true. split; [|done]. unfold admission_inv. simpl.
       split_and!; [rewrite Hc; apply encode_calls_close; lia|done|done|lia..]. }
  all: exists closed; pose proof (HT _ _ Ht) as Hp; simpl in Hp;
    pose proof (map_sum_ge _ _ _ _ Hn1 Ht); pose proof (map_sum_ge _ _ _ _ Hn2 Ht); simpl in *.
  1: apply admit_kib_Some in Ha as [-> Hle].
  1: destruct (threads_update T tid _ (Phase.Permit k) Ht) as (-> & -> & Hd).
  2: destruct (threads_update T tid _ (Phase.Rejecting k) Ht) as (-> & -> & Hd).
  3: destruct (threads_delete T tid _ Ht) as (-> & -> & Hd).
  4: destruct (threads_update T tid _ (Phase.Releasing k) Ht) as (-> & -> & Hd).
  5: destruct (threads_delete T tid _ Ht) as (-> & -> & Hd).
  all: split; [simpl|done]; split_and!;
    first [by apply map_Forall_insert_2 | by apply map_Forall_delete | lia
          | rewrite Hc; f_equal; lia
          | rewrite Hc, <- Z.add_opp_r; rewrite encode_calls_shift by lia; f_equal; lia
          | rewrite wrap_u64_id; unfold is_u64; lia].
Qed.

Lemma admission_run_inv x y closed : rtc admission_step x y → admission_inv x closed →
  ∃ closed', admission_inv y closed' ∧ (closed = true → closed' = true ∧ dom y.2 ⊆ dom x.2).
Proof.
  intros Hrun. revert closed. induction Hrun as [x|x z y Hxz _ IH]; intros closed Hinv; [by eauto|].
  destruct (admission_step_inv x z closed Hxz Hinv) as (c1 & Hz & H1).
  destruct (IH c1 Hz) as (c2 & Hy & H2). exists c2. split; [done|].
  intros Hc. destruct (H1 Hc) as [Hc1 Hd1]. destruct (H2 Hc1) as [Hc2 Hd2].
  split; [done|by etrans].
Qed.

Lemma admission_new_inv config : LogicConfig.validate config = true →
  LogicConfig.max_inflight_kib config < 2 ^ 64 → admission_inv (Admission.new config, ∅) false.
Proof.
  unfold LogicConfig.validate. intros Hv Hk. unfold admission_inv. simpl.
  rewrite !map_sum_empty. split_and!; [done..|lia|lia|lia|lia].
Qed.

Lemma admission_inflight a T closed : admission_inv (a, T) closed →
  Admission.inflight_calls a = map_sum Phase.holds_call T.
Proof.
  intros (Hc & _ & HT & Hm & _). unfold Admission.inflight_calls. rewrite Hc. apply encode_calls_count.
  destruct (holds_nonneg T HT) as [Hn _]. apply map_sum_nonneg in Hn. lia.
Qed.

Lemma admission_closed_draining a T k stats : admission_inv (a, T) true →
  Admission.acquire k a stats = (a, Admission.count_reject RejectReason.Draining stats, Err RejectReason.Draining).
Proof.
  intros (Hc & _ & HT & Hm & _). destruct (holds_nonneg T HT) as [Hn _]. apply map_sum_nonneg in Hn.
  unfold Admission.acquire. by rewrite (admit_call_encoded a true _ Hc) by lia.
Qed.

(** The constants of the budget do not change. *)
Lemma admission_run_limits x y : rtc admission_step x y →
  Admission.max_calls y.1 = Admission.max_calls x.1 ∧ Admission.max_kib y.1 = Admission.max_kib x.1.
Proof.
  induction 1 as [x|x z y Hxz _ [IH1 IH2]]; [done|]. rewrite IH1, IH2.
  destruct Hxz as [tid k a a' T _ _ Ha|tid k a a' T _ Ha| | | | |]; try done; simpl.
  - unfold Admission.admit_call in Ha. by repeat case_match; simplify_eq.
  - by apply admit_kib_Some in Ha as [-> _].
Qed.

(** C10: the global budget under every interleaving.  However the atomic
    operations of concurrent [acquire]s, permit drops and [close] interleave,
    the call counter is the number of threads that took it and never exceeds
    [max_inflight_calls], and the KiB counter is the KiB of the live permits
    and never exceeds [max_inflight_kib]. *)
Theorem admission_limits_hold config a T :
  LogicConfig.validate config = true → LogicConfig.max_inflight_kib config < 2 ^ 64 →
  rtc admission_step (Admission.new config, ∅) (a, T) →
  Admission.inflight_calls a = map_sum Phase.holds_call T
  ∧ Admission.inflight_calls a <= LogicConfig.max_inflight_calls config
  ∧ Admission.kib a = map_sum Phase.holds_kib T
  ∧ Admission.kib a <= LogicConfig.max_inflight_kib config.
Proof.
  intros Hv Hk Hrun. destruct (admission_run_limits _ _ Hrun) as [E1 E2]. simpl in E1, E2.
  destruct (admission_run_inv _ _ _ Hrun (admission_new_inv config Hv Hk)) as (closed & Hinv & _).
  rewrite (admission_inflight a T closed Hinv). destruct Hinv as (_ & Hkib & _ & Hm & Hmk).
  split_and!; [done|lia|done|lia].
Qed.

(** C11: closing drains.  After [close], in every continuation no new thread
    passes the gate (the threads that hold something are among those that did
    when it closed), every [acquire] is refused as [Draining], and once those
    threads are gone both counters are zero: no call or KiB leaks. *)
Theorem admission_close_drains config a T a' T' k stats :
  LogicConfig.validate config = true → LogicConfig.max_inflight_kib config < 2 ^ 64 →
  rtc admission_step (Admission.new config, ∅) (a, T) →
  rtc admission_step (Admission.close a, T) (a', T') →
  dom T' ⊆ dom T
  ∧ (Admission.acquire k a' stats).2 = Err RejectReason.Draining
  ∧ (T' = ∅ → Admission.inflight_calls a' = 0 ∧ Admission.kib a' = 0).
Proof.
  intros Hv Hk Hrun Hrun'.
  destruct (admission_run_inv _ _ _ Hrun (admission_new_inv config Hv Hk)) as (closed & Hinv & _).
  destruct (admission_step_inv _ (Admission.close a, T) closed (step_close a T) Hinv) as (c & Hclose & _).
  assert (admission_inv (Admission.close a, T) true) as Hcl.
  { destruct Hinv as (Hc & ? & HT & ? & ?). unfold admission_inv. simpl.
    destruct (holds_nonneg T HT) as [Hn _]. apply map_sum_nonneg in Hn.
    split_and!; [rewrite Hc; apply encode_calls_close; lia|done|done|lia..]. }
  destruct (admission_run_inv _ _ _ Hrun' Hcl) as (c' & Hinv' & Hd). destruct (Hd eq_refl) as [-> Hdom].
  split_and!; [done|by rewrite (admission_closed_draining a' T')|].
  intros ->. rewrite (admission_inflight _ _ _ Hinv'). by destruct Hinv' as (_ & -> & _).
Qed.

(** Two threads race for the KiB budget; one is refused and gives its call
    back, the other completes, then the runtime drains. *)
Module admission_example.
Definition config : LogicConfig.t :=
  {| LogicConfig.resident_capacity := 1; LogicConfig.ttl := secs 1; LogicConfig.shards := 1;
     LogicConfig.batch_save_count := 1; LogicConfig.max_dirty_players := 1;
     LogicConfig.max_inflight_calls := 2; LogicConfig.max_inflight_kib := 10;
     LogicConfig.max_calls_per_gid := 1; LogicConfig.max_kib_per_gid := 10 |}.

Definition a2 : Admission.t := Admission.on_calls (λ _, 2) (Admission.new config).
Definition a3 : Admission.t := Admission.on_kib (λ _, 7) a2.
Definition a4 : Admission.t := Admission.on_calls (λ _, 1) a3.

Lemma run_start : rtc admission_step (Admission.new config, ∅) (a4, {[ 1 := Phase.Permit 7 ]}).
Proof.
  eapply rtc_l; [by apply (step_admit_call 1 7)|].
  eapply rtc_l; [by apply (step_admit_call 2 8)|].
  eapply rtc_l; [by apply (step_admit_kib 1 7)|].
  eapply rtc_l; [by apply (step_refuse_kib 2 8)|].
  eapply rtc_l; [by apply (step_give_back 2 8)|].
  apply rtc_refl.
Qed.

Lemma run_drain :
  rtc admission_step (Admission.close a4, {[ 1 := Phase.Permit 7 ]})
    (Admission.on_kib (λ _, 0) (Admission.on_calls (λ _, ADMISSION_CLOSED) a4), ∅).
Proof.
  eapply rtc_l; [by apply (step_drop_call 1 7)|].
  eapply rtc_l; [by apply (step_drop_kib 1 7)|].
  apply rtc_refl.
Qed.
End admission_example.

Lemma admission_limits_hold_witness :
  Admission.inflight_calls admission_example.a4 = map_sum Phase.holds_call {[ 1 := Phase.Permit 7 ]}
  ∧ 1 <= 2
  ∧ Admission.kib admission_example.a4 = map_sum Phase.holds_kib {[ 1 := Phase.Permit 7 ]}
  ∧ 7 <= 10.
Proof.
  apply (admission_limits_hold admission_example.config admission_example.a4 {[ 1 := Phase.Permit 7 ]});
    [reflexivity|reflexivity|apply admission_example.run_start].
Defined.

Lemma admission_close_drains_witness :
  (Admission.acquire 1 (Admission.on_kib (λ _, 0) (Admission.on_calls (λ _, ADMISSION_CLOSED) admission_example.a4))
     StatsInner.new).2 = Err RejectReason.Draining.
Proof.
  apply (admission_close_drains admission_example.config admission_example.a4 {[ 1 := Phase.Permit 7 ]} _ ∅);
    [reflexivity|reflexivity|apply admission_example.run_start|apply admission_example.run_drain].
Defined.
