(* ===== verification/LogicRuntime.v ===== *)
(** The Logic runtime (src/service/logic/src/runtime.rs): per-player mailboxes
    in a sharded directory, one runner task per active player, the player
    cells with their save gate and dirty slot, the savers called by the player
    cache, and shutdown.  The ids of player cells, of slots and of oneshot
    channels stand for the identity of the shared objects and do not wrap.

    Every operation is a function of the runtime state; [exec] runs one of
    them, chosen by a [Label], so that a list of labels is an interleaving of
    callers, runner tasks, cache tasks and the shutdown task.  A step covers
    the code between two suspension points ([.await]) or lock acquisitions.
    The results of code outside the repository (the futures of the player
    cache, the storage and the preloads) come with the label.  [Panic] is a
    failed assertion of the source, or a closure of a caller that panics.  A
    run ends there: what the unwinding task leaves behind, and the mutexes it
    poisons, are not modelled, so the [expect]s on a poisoned mutex, which only
    an earlier panic can make fail, have no counterpart here. *)

From S2P Require Import Prelude Latency LogicStats LogicAdmission.

(** ** The directory of mailboxes *)

(** The shard of a player: a 64-bit mix of the player id, masked. *)
Definition mix_i64 (value : Z) : Z :=
  let value := wrap_u64 value in
  let value := wrap_u64 (Z.lxor value (Z.shiftr value 30) * 0xbf58476d1ce4e5b9) in
  let value := wrap_u64 (Z.lxor value (Z.shiftr value 27) * 0x94d049bb133111eb) in
  Z.lxor value (Z.shiftr value 31).

Definition directory_index (shards gid : Z) : Z := Z.land (mix_i64 gid) (shards - 1).

(** ** Errors *)

Module LogicCallError.
Inductive t (E : Type) :=
| Load (error : E)
| Preload (error : E)
| Persistence (error : E)
| DirtyCapacity
| RuntimeStopped.
#[global] Arguments Load {E}.
#[global] Arguments Preload {E}.
#[global] Arguments Persistence {E}.
#[global] Arguments DirtyCapacity {E}.
#[global] Arguments RuntimeStopped {E}.

(** [Display]; the error's own text is a parameter. *)
Definition to_string {E} (show : E → string) (e : t E) : string :=
  match e with
  | Load error => "logic player load failed: " +:+ show error
  | Preload error => "logic player preload failed: " +:+ show error
  | Persistence error => "logic player persistence failed: " +:+ show error
  | DirtyCapacity => "logic dirty player capacity exhausted"
  | RuntimeStopped => "logic runtime stopped before call completion"
  end.
End LogicCallError.

(** The error enumeration of the cache library, as the source matches it. *)
Module CacheError.
Inductive t (E : Type) := Load (error : E) | Save (error : E) | MissingLoader | MissingSaver.
#[global] Arguments Load {E}.
#[global] Arguments Save {E}.
#[global] Arguments MissingLoader {E}.
#[global] Arguments MissingSaver {E}.
End CacheError.

Module ShutdownError.
Inductive t (E : Type) := Persistence (error : E) | DirtyPlayers (count : Z).
#[global] Arguments Persistence {E}.
#[global] Arguments DirtyPlayers {E}.
End ShutdownError.

(** [None] is the [unreachable!]. *)
Definition map_cache_error {E} (error : CacheError.t E) : option (LogicCallError.t E) :=
  match error with
  | CacheError.Load error => Some (LogicCallError.Load error)
  | CacheError.Save error => Some (LogicCallError.Persistence error)
  | CacheError.MissingLoader | CacheError.MissingSaver => None
  end.

Module RuntimeState.
Inductive t := Running | Draining | Stopped.
#[global] Instance eq_dec : EqDecision t.
Proof. solve_decision. Defined.
End RuntimeState.

(** [trait LogicState]. *)
Class LogicState (P : Type) := is_dirty : P → bool.

(** What the saver of a [Persistence] leaves in the player when it returns:
    it may change it through [SavePlayer::with_mut]. *)
Class SaveEffect (P : Type) := save_effect : bool → P → P.

(** What a call answers: [Completed { value, persistence }] or an error. *)
Record Completed (R E : Type) := mkCompleted { value : R; persistence : Result E unit }.
#[global] Arguments mkCompleted {R E}.
#[global] Arguments value {R E}.
#[global] Arguments persistence {R E}.

Module Outcome.
Inductive t (S : Type) := Done (s : S) | Panic | Blocked.
#[global] Arguments Done {S}.
#[global] Arguments Panic {S}.
#[global] Arguments Blocked {S}.
End Outcome.
Import Outcome(Done, Panic, Blocked).

Section runtime.
Context {P E R A F : Type} `{!LogicState P} `{!SaveEffect P} `{!UnstableSort (Z * Z) fst}.

(** ** Data *)

(** A command with the sender of its oneshot channel: plain logic, or a
    preload that builds a future of type [F] from the player, and logic that
    takes the future's value.  The closures come from the callers; they run
    under the lock of the player, and [None] is a closure that panics there. *)
Inductive Command :=
| TypedCommand (logic : P → option (R * P)) (sender : Z)
| TypedPreloadedCommand (preload : P → option F) (logic : A → P → option (R * P)) (sender : Z).

Definition sender (c : Command) : Z :=
  match c with TypedCommand _ s | TypedPreloadedCommand _ _ s => s end.

Record Envelope := mkEnvelope {
  command : Command;
  permit : Z;
  retained_kib : Z;
  submitted_at : Z
}.

Record Mailbox := mkMailbox {
  queue : list Envelope;
  inflight_calls : Z;
  inflight_kib : Z
}.

(** Where a runner task is.  From [Getting] to [Completing] it works on an
    envelope; [run_started] and [started] are the instants its latencies are
    measured from. *)
Inductive Phase :=
| Spawned
| Getting (envelope : Envelope) (run_started : Z)
| Gating (envelope : Envelope) (run_started : Z)
| Preloading (envelope : Envelope) (run_started : Z) (logic : A → P → option (R * P))
    (dirty_reservation : bool) (future : F) (started : Z)
| Saving (envelope : Envelope) (value : R) (started : Z)
| Completing (envelope : Envelope)
| Releasing (permit : Z) (next : option Envelope)
| Retiring
| Leaving.

(** The local state of a [run_gid] task. *)
Record Runner := mkRunner {
  runner_gid : Z;
  player : option Z;
  phase : Phase
}.

(** A directory slot, with the task spawned to serve it. *)
Record KeySlot := mkKeySlot {
  mailbox : Mailbox;
  runner : Runner
}.

Definition eta_KeySlot (s : KeySlot) : KeySlot :=
  mkKeySlot (mailbox s) (runner s).
Definition on_mailbox : (Mailbox → Mailbox) → KeySlot → KeySlot := ltac:(derive_update eta_KeySlot mailbox).
Definition on_runner : (Runner → Runner) → KeySlot → KeySlot := ltac:(derive_update eta_KeySlot runner).

(** Who holds a save gate: the runner of a slot, or a task of the cache. *)
Inductive Owner := RunnerOf (sid : Z) | SaverTask (tid : Z).

#[local] Instance Owner_eq_dec : EqDecision Owner.
Proof. solve_decision. Defined.

Record PlayerCell := mkPlayerCell {
  state : P;
  save_gate : option Owner;
  dirty_slot : bool
}.

Definition eta_PlayerCell (s : PlayerCell) : PlayerCell :=
  mkPlayerCell (state s) (save_gate s) (dirty_slot s).
Definition on_state : (P → P) → PlayerCell → PlayerCell := ltac:(derive_update eta_PlayerCell state).
Definition on_save_gate : (option Owner → option Owner) → PlayerCell → PlayerCell := ltac:(derive_update eta_PlayerCell save_gate).
Definition on_dirty_slot : (bool → bool) → PlayerCell → PlayerCell := ltac:(derive_update eta_PlayerCell dirty_slot).

(** A saver called by the cache: the fallback saver of one player or the
    batch saver.  It first locks the gates of its entries in order, then
    writes the dirty ones. *)
Inductive Saver :=
| Locking (todo locked : list (Z * Z))
| Writing (dirty locked : list (Z * Z)) (started : Z).

Definition Answer : Type := Result (LogicCallError.t E) (Completed R E).

Record Runtime := mkRuntime {
  config : LogicConfig.t;
  rt_state : RuntimeState.t;
  admission : Admission.t;
  dirty_admission : DirtyAdmission.t;
  directory : gmap Z Z;
  slots : gmap Z KeySlot;
  next_slot : Z;
  cells : gmap Z PlayerCell;
  next_player_id : Z;
  resident : gmap Z Z;
  savers : gmap Z Saver;
  stats : StatsInner.t;
  next_sender : Z;
  accepted : list (Z * Z);
  answers : list (Z * Z * Answer)
}.

Definition eta_Runtime (s : Runtime) : Runtime :=
  mkRuntime (config s) (rt_state s) (admission s) (dirty_admission s) (directory s) (slots s)
    (next_slot s) (cells s) (next_player_id s) (resident s) (savers s) (stats s) (next_sender s)
    (accepted s) (answers s).
Definition on_rt_state : (RuntimeState.t → RuntimeState.t) → Runtime → Runtime := ltac:(derive_update eta_Runtime rt_state).
Definition on_admission : (Admission.t → Admission.t) → Runtime → Runtime := ltac:(derive_update eta_Runtime admission).
Definition on_dirty_admission : (DirtyAdmission.t → DirtyAdmission.t) → Runtime → Runtime := ltac:(derive_update eta_Runtime dirty_admission).
Definition on_directory : (gmap Z Z → gmap Z Z) → Runtime → Runtime := ltac:(derive_update eta_Runtime directory).
Definition on_slots : (gmap Z KeySlot → gmap Z KeySlot) → Runtime → Runtime := ltac:(derive_update eta_Runtime slots).
Definition on_next_slot : (Z → Z) → Runtime → Runtime := ltac:(derive_update eta_Runtime next_slot).
Definition on_cells : (gmap Z PlayerCell → gmap Z PlayerCell) → Runtime → Runtime := ltac:(derive_update eta_Runtime cells).
Definition on_next_player_id : (Z → Z) → Runtime → Runtime := ltac:(derive_update eta_Runtime next_player_id).
Definition on_resident : (gmap Z Z → gmap Z Z) → Runtime → Runtime := ltac:(derive_update eta_Runtime resident).
Definition on_savers : (gmap Z Saver → gmap Z Saver) → Runtime → Runtime := ltac:(derive_update eta_Runtime savers).
Definition on_stats : (StatsInner.t → StatsInner.t) → Runtime → Runtime := ltac:(derive_update eta_Runtime stats).
Definition on_next_sender : (Z → Z) → Runtime → Runtime := ltac:(derive_update eta_Runtime next_sender).
Definition on_accepted : (list (Z * Z) → list (Z * Z)) → Runtime → Runtime := ltac:(derive_update eta_Runtime accepted).
Definition on_answers : (list (Z * Z * Answer) → list (Z * Z * Answer)) → Runtime → Runtime := ltac:(derive_update eta_Runtime answers).

(** ** Player cells *)

(** [PlayerCell::refresh_dirty]. *)
Definition refresh_dirty (now : Z) (id : Z) (rt : Runtime) : Outcome.t Runtime :=
  match cells rt !! id with
  | None => Blocked
  | Some cell =>
      let dirty := is_dirty (state cell) in
      let mark := on_stats (StatsInner.mark_dirty id dirty now) in
      if dirty then
        if dirty_slot cell then Done (mark rt) else Panic
      else if dirty_slot cell then
        match DirtyAdmission.release (dirty_admission rt) with
        | None => Panic
        | Some d => Done (mark (on_dirty_admission (λ _, d) (on_cells (alter (on_dirty_slot (λ _, false)) id) rt)))
        end
      else Done (mark rt)
  end.

(** [Drop for DirtyPermit], when the permit is active. *)
Definition drop_reservation (dirty_reservation : bool) (rt : Runtime) : Outcome.t Runtime :=
  if dirty_reservation then
    match DirtyAdmission.release (dirty_admission rt) with
    | None => Panic
    | Some d => Done (on_dirty_admission (λ _, d) rt)
    end
  else Done rt.

(** [PlayerCell::finish_logic]: a reservation becomes the cell's slot when the
    logic made the player dirty, and is dropped otherwise. *)
Definition finish_logic (now : Z) (id : Z) (reservation : bool) (rt : Runtime) : Outcome.t Runtime :=
  match cells rt !! id with
  | None => Blocked
  | Some cell =>
      let dirty := is_dirty (state cell) in
      if dirty && negb (dirty_slot cell) then
        if reservation then refresh_dirty now id (on_cells (alter (on_dirty_slot (λ _, true)) id) rt)
        else Panic
      else if negb reservation || negb dirty then
        match refresh_dirty now id rt with
        | Done rt => drop_reservation reservation rt
        | o => o
        end
      else Panic
  end.

Definition lock_gate (owner : Owner) (id : Z) : Runtime → Runtime :=
  on_cells (alter (on_save_gate (λ _, Some owner)) id).
Definition unlock_gate (id : Z) : Runtime → Runtime :=
  on_cells (alter (on_save_gate (λ _, None)) id).

(** ** Steps of a runner *)

Definition set_phase (sid : Z) (p : Phase) : Runtime → Runtime :=
  on_slots (alter (on_runner (λ r, mkRunner (runner_gid r) (player r) p)) sid).

(** The head of the [while let] loop: the envelope's queue latency, and
    whether the player still has to be fetched. *)
Definition begin_envelope (now sid : Z) (r : Runner) (envelope : Envelope) (rt : Runtime) : Runtime :=
  let rt := on_stats (StatsInner.on_queue_latency (λ l, record l (duration_since now (submitted_at envelope)))) rt in
  set_phase sid (match player r with Some _ => Gating envelope now | None => Getting envelope now end) rt.

(** The oneshot send of a result, and the latencies and counter around it. *)
Definition answer_envelope (now sid gid : Z) (envelope : Envelope) (a : Answer) (rt : Runtime) : Runtime :=
  let rt := on_answers (λ l, l ++ [(gid, sender (command envelope), a)]) rt in
  let rt := on_stats (StatsInner.on_total_latency (λ l, record l (duration_since now (submitted_at envelope)))) rt in
  let rt := on_stats (StatsInner.on_completed incr) rt in
  set_phase sid (Completing envelope) rt.

Definition record_run (now run_started : Z) : Runtime → Runtime :=
  on_stats (StatsInner.on_run_latency (λ l, record l (duration_since now run_started))).

(** [take_next]: a new runner has one queued call. *)
Definition take_next (now sid : Z) (slot : KeySlot) (rt : Runtime) : Outcome.t Runtime :=
  match queue (mailbox slot) with
  | [] => Panic
  | next :: rest =>
      let m := mailbox slot in
      let rt := on_slots (alter (on_mailbox (λ _, mkMailbox rest (inflight_calls m) (inflight_kib m))) sid) rt in
      let rt := on_stats (StatsInner.on_queued decr) rt in
      Done (begin_envelope now sid (runner slot) next rt)
  end.

(** What [cache.get_i64(gid).await] returned: the resident cell, the state
    that the loader read, or an error. *)
Inductive CacheGet :=
| Hit (id : Z)
| Loaded (p : P)
| GetFailed (load : bool) (error : CacheError.t E).

Definition cache_got (now sid : Z) (slot : KeySlot) (envelope : Envelope) (run_started : Z)
    (got : CacheGet) (resident' : gmap Z Z) (rt : Runtime) : Outcome.t Runtime :=
  let gid := runner_gid (runner slot) in
  let with_player id :=
    on_slots (alter (on_runner (λ r, mkRunner gid (Some id) (Gating envelope run_started))) sid) in
  match got, resident rt !! gid with
  | Hit id, Some id' =>
      if bool_decide (id = id') && bool_decide (resident' ⊆ resident rt)
      then Done (with_player id (on_resident (λ _, resident') rt))
      else Blocked
  | Loaded p, None =>
      let id := next_player_id rt in
      if bool_decide (resident' ⊆ <[gid := id]> (resident rt)) then
        if is_dirty p then Panic
        else
          let rt := on_next_player_id (λ id, id + 1) rt in
          let rt := on_stats (StatsInner.on_load_calls incr) rt in
          let rt := on_stats (StatsInner.on_load_latency (λ l, record l (duration_since now run_started))) rt in
          let rt := on_cells <[id := mkPlayerCell p None false]> rt in
          let rt := on_stats (StatsInner.mark_dirty id false now) rt in
          Done (with_player id (on_resident (λ _, resident') rt))
      else Blocked
  | GetFailed load error, None =>
      match map_cache_error error with
      | None => Panic
      | Some error =>
          if bool_decide (resident' ⊆ resident rt) then
            let rt :=
              if load then
                on_stats (StatsInner.on_load_failed incr)
                  (on_stats (StatsInner.on_load_latency (λ l, record l (duration_since now run_started)))
                     (on_stats (StatsInner.on_load_calls incr) (on_next_player_id (λ id, id + 1) rt)))
              else rt in
            let rt := on_resident (λ _, resident') rt in
            Done (answer_envelope now sid gid envelope (Err error) (record_run now run_started rt))
          else Blocked
      end
  | _, _ => Blocked
  end.

(** [command.execute] under the player mutex, [finish_logic], and either the
    start of [save_one] (the player is dirty) or the answer. *)
Definition execute (now sid gid id : Z) (envelope : Envelope) (run_started : Z)
    (reservation : bool) (logic : P → option (R * P)) (rt : Runtime) : Outcome.t Runtime :=
  match cells rt !! id with
  | None => Blocked
  | Some cell =>
      match logic (state cell) with
      | None => Panic
      | Some (v, p) =>
          match finish_logic now id reservation (on_cells (alter (on_state (λ _, p)) id) rt) with
          | Done rt =>
              let rt := record_run now run_started rt in
              if is_dirty p then
                Done (set_phase sid (Saving envelope v now) (on_stats (StatsInner.on_save_calls incr) rt))
              else
                Done (answer_envelope now sid gid envelope (Ok (mkCompleted v (Ok tt))) (unlock_gate id rt))
          | o => o
          end
      end
  end.

(** From the lock of the save gate to the preload, or to the logic when there
    is none. *)
Definition gate_locked (now sid : Z) (slot : KeySlot) (envelope : Envelope) (run_started : Z)
    (rt : Runtime) : Outcome.t Runtime :=
  let gid := runner_gid (runner slot) in
  match player (runner slot) with
  | None => Panic
  | Some id =>
      match cells rt !! id with
      | None => Blocked
      | Some cell =>
          if save_gate cell is Some _ then Blocked
          else
            let go (reservation : bool) (rt : Runtime) :=
              match command envelope with
              | TypedCommand logic _ => execute now sid gid id envelope run_started reservation logic rt
              | TypedPreloadedCommand preload logic _ =>
                  match preload (state cell) with
                  | None => Panic
                  | Some future =>
                      Done (set_phase sid (Preloading envelope run_started logic reservation future now)
                              (on_stats (StatsInner.on_preload_calls incr) rt))
                  end
              end in
            let rt := lock_gate (RunnerOf sid) id rt in
            if dirty_slot cell then go false rt
            else
              match DirtyAdmission.acquire (dirty_admission rt) (stats rt) with
              | Some (d, s) => go true (on_stats (λ _, s) (on_dirty_admission (λ _, d) rt))
              | None =>
                  let rt := on_stats (StatsInner.on_rejected_dirty incr) (unlock_gate id rt) in
                  Done (answer_envelope now sid gid envelope (Err LogicCallError.DirtyCapacity)
                          (record_run now run_started rt))
              end
      end
  end.

Definition preloaded (now sid : Z) (slot : KeySlot) (envelope : Envelope) (run_started : Z)
    (logic : A → P → option (R * P)) (reservation : bool) (started : Z) (outcome : Result E A)
    (rt : Runtime) : Outcome.t Runtime :=
  let gid := runner_gid (runner slot) in
  match player (runner slot) with
  | None => Panic
  | Some id =>
      let rt := on_stats (StatsInner.on_preload_latency (λ l, record l (duration_since now started))) rt in
      match outcome with
      | Ok value => execute now sid gid id envelope run_started reservation (logic value) rt
      | Err error =>
          match drop_reservation reservation rt with
          | Done rt =>
              let rt := on_stats (StatsInner.on_preload_failed incr) (unlock_gate id rt) in
              Done (answer_envelope now sid gid envelope (Err (LogicCallError.Preload error))
                      (record_run now run_started rt))
          | o => o
          end
      end
  end.

(** The end of [save_one], after the saver returned. *)
Definition save_returned (now id started : Z) (ok : bool) (rt : Runtime) : Outcome.t Runtime :=
  let rt := on_cells (alter (on_state (save_effect ok)) id) rt in
  let rt := on_stats (StatsInner.on_save_latency (λ l, record l (duration_since now started))) rt in
  let rt := if ok then rt else on_stats (StatsInner.on_save_failed incr) rt in
  refresh_dirty now id rt.

Definition is_ok {X Y} (r : Result X Y) : bool := match r with Ok _ => true | Err _ => false end.

Definition saved (now sid : Z) (slot : KeySlot) (envelope : Envelope) (v : R) (started : Z)
    (outcome : Result E unit) (rt : Runtime) : Outcome.t Runtime :=
  match player (runner slot) with
  | None => Panic
  | Some id =>
      match save_returned now id started (is_ok outcome) rt with
      | Done rt =>
          Done (answer_envelope now sid (runner_gid (runner slot)) envelope (Ok (mkCompleted v outcome))
                  (unlock_gate id rt))
      | o => o
      end
  end.

(** [complete_and_take_next]. *)
Definition complete_and_take_next (sid : Z) (slot : KeySlot) (envelope : Envelope) (rt : Runtime) : Runtime :=
  let m := mailbox slot in
  let calls := wrap_u64 (inflight_calls m - 1) in
  let kib := wrap_u64 (inflight_kib m - retained_kib envelope) in
  match queue m with
  | [] =>
      set_phase sid (Releasing (permit envelope) None)
        (on_slots (alter (on_mailbox (λ _, mkMailbox [] calls kib)) sid) rt)
  | next :: rest =>
      set_phase sid (Releasing (permit envelope) (Some next))
        (on_stats (StatsInner.on_queued decr)
           (on_slots (alter (on_mailbox (λ _, mkMailbox rest calls kib)) sid) rt))
  end.

(** [drop(permit)], and the next envelope or the way out. *)
Definition permit_dropped (now sid : Z) (slot : KeySlot) (permit : Z) (next : option Envelope) (rt : Runtime) : Runtime :=
  let rt := on_admission (Admission.drop_permit permit) rt in
  match next with
  | Some envelope => begin_envelope now sid (runner slot) envelope rt
  | None => set_phase sid Retiring rt
  end.

(** The first half of [retire_or_take_next]: the player is put back in the
    cache when it was evicted meanwhile. *)
Definition cache_set (sid : Z) (slot : KeySlot) (resident' : gmap Z Z) (rt : Runtime) : Outcome.t Runtime :=
  match player (runner slot) with
  | None => Done (set_phase sid Leaving rt)
  | Some id =>
      match resident rt !! runner_gid (runner slot) with
      | Some id' => if bool_decide (id' = id) then Done (set_phase sid Leaving rt) else Panic
      | None =>
          if bool_decide (resident' ⊆ <[runner_gid (runner slot) := id]> (resident rt))
          then Done (set_phase sid Leaving (on_resident (λ _, resident') rt))
          else Blocked
      end
  end.

(** The second half, under the directory lock. *)
Definition retire_or_take_next (now sid : Z) (slot : KeySlot) (rt : Runtime) : Outcome.t Runtime :=
  let gid := runner_gid (runner slot) in
  match directory rt !! gid with
  | None => Panic
  | Some _ =>
      let m := mailbox slot in
      match queue m with
      | next :: rest =>
          let rt := on_slots (alter (on_mailbox (λ _, mkMailbox rest (inflight_calls m) (inflight_kib m))) sid) rt in
          Done (begin_envelope now sid (runner slot) next (on_stats (StatsInner.on_queued decr) rt))
      | [] =>
          let rt := on_directory (delete gid) (on_slots (delete sid) rt) in
          Done (on_stats (StatsInner.on_active_gids decr) rt)
      end
  end.

(** ** Callers *)

(** What a caller passes to [try_use] or [try_use_preloaded]. *)
Inductive Request :=
| Use (logic : P → option (R * P))
| UsePreloaded (preload : P → option F) (logic : A → P → option (R * P)).

Definition command_of (r : Request) (sender : Z) : Command :=
  match r with
  | Use logic => TypedCommand logic sender
  | UsePreloaded preload logic => TypedPreloadedCommand preload logic sender
  end.

(** [enqueue], under the lock of the directory shard. *)
Definition enqueue (now gid kib : Z) (command : Command) (rt : Runtime) : Runtime * Result RejectReason.t unit :=
  let '(sid, slot, spawn_runner, dir) :=
    match directory rt !! gid with
    | Some sid =>
        (sid, default (mkKeySlot (mkMailbox [] 0 0) (mkRunner gid None Spawned)) (slots rt !! sid), false, directory rt)
    | None =>
        (next_slot rt, mkKeySlot (mkMailbox [] 0 0) (mkRunner gid None Spawned), true, <[gid := next_slot rt]> (directory rt))
    end in
  let m := mailbox slot in
  let remove_slot : Runtime → Runtime :=
    if spawn_runner then on_directory (λ _, delete gid dir) else id in
  if (LogicConfig.max_calls_per_gid (config rt) <=? inflight_calls m)
     || (LogicConfig.max_kib_per_gid (config rt) - inflight_kib m <? kib)
  then (remove_slot (on_stats (StatsInner.on_rejected_gid incr) rt), Err RejectReason.Gid)
  else
    match Admission.acquire kib (admission rt) (stats rt) with
    | (a, s, Err error) => (remove_slot (on_stats (λ _, s) (on_admission (λ _, a) rt)), Err error)
    | (a, s, Ok permit) =>
        let m := mkMailbox (queue m ++ [mkEnvelope command permit kib now]) (inflight_calls m + 1) (inflight_kib m + kib) in
        let rt := on_stats (λ _, s) (on_admission (λ _, a) rt) in
        let rt := on_slots <[sid := on_mailbox (λ _, m) slot]> (on_directory (λ _, dir) rt) in
        let queued := incr (StatsInner.queued (stats rt)) in
        let rt := on_stats (StatsInner.on_queued (λ _, queued)) rt in
        let rt := on_stats (StatsInner.on_queued_high_water (update_high_water queued)) rt in
        let rt := on_stats (StatsInner.on_accepted incr) rt in
        let rt := on_accepted (λ l, l ++ [(gid, sender command)]) rt in
        let rt :=
          if spawn_runner then
            let active := incr (StatsInner.active_gids (stats rt)) in
            let rt := on_next_slot (λ n, n + 1) rt in
            on_stats (StatsInner.on_active_gids_high_water (update_high_water active))
              (on_stats (StatsInner.on_active_gids (λ _, active)) rt)
          else rt in
        (rt, Ok tt)
    end.

(** [try_use] and [try_use_preloaded]: a fresh oneshot channel, at least one
    KiB; the result is the channel whose answer the caller awaits. *)
Definition try_use (now gid retained_kib : Z) (request : Request) (rt : Runtime) : Runtime * Result RejectReason.t Z :=
  let sender := next_sender rt in
  let rt := on_next_sender (λ n, n + 1) rt in
  match enqueue now gid (Z.max retained_kib 1) (command_of request sender) rt with
  | (rt, Ok _) => (rt, Ok sender)
  | (rt, Err error) => (rt, Err error)
  end.

(** ** Savers called by the cache *)

Definition entry_dirty (rt : Runtime) (entry : Z * Z) : bool :=
  match cells rt !! entry.2 with Some cell => is_dirty (state cell) | None => false end.

(** The cache calls a saver with some resident players; the batch saver locks
    their gates in the order of their player ids. *)
Definition saver_start (tid : Z) (entries : list (Z * Z)) (rt : Runtime) : Outcome.t Runtime :=
  match savers rt !! tid with
  | Some _ => Blocked
  | None =>
      if bool_decide (NoDup entries.*2)
      then Done (on_savers <[tid := Locking (sort_unstable_by_key fst entries) []]> rt)
      else Blocked
  end.

(** The next gate of the saver, or, when it holds them all, the decision what
    to write. *)
Definition saver_advance (now tid : Z) (s : Saver) (rt : Runtime) : Outcome.t Runtime :=
  match s with
  | Locking (entry :: todo) locked =>
      match cells rt !! entry.2 with
      | None => Blocked
      | Some cell =>
          if save_gate cell is Some _ then Blocked
          else Done (on_savers <[tid := Locking todo (locked ++ [entry])]> (lock_gate (SaverTask tid) entry.2 rt))
      end
  | Locking [] locked =>
      let dirty := filter (λ entry, entry_dirty rt entry = true) locked in
      match dirty with
      | [] => Done (on_savers (delete tid) (foldr (λ entry, unlock_gate entry.2) rt locked))
      | _ =>
          Done (on_savers <[tid := Writing dirty locked now]>
                  (on_stats (StatsInner.on_save_calls (add_u64 (len dirty))) rt))
      end
  | Writing _ _ _ => Blocked
  end.

Fixpoint refresh_all (now : Z) (entries : list (Z * Z)) (rt : Runtime) : Outcome.t Runtime :=
  match entries with
  | [] => Done rt
  | entry :: entries =>
      match refresh_dirty now entry.2 rt with
      | Done rt => refresh_all now entries rt
      | o => o
      end
  end.

(** The saver of the [Persistence] returned: per player for the fallback
    saver, once for a batch; [ok] tells which players it wrote. *)
Definition saver_done (now tid : Z) (s : Saver) (outcome : Result E unit) (ok : Z → bool)
    (rt : Runtime) : Outcome.t Runtime :=
  match s with
  | Writing dirty locked started =>
      let rt := on_cells (λ m, foldr (λ entry, alter (on_state (save_effect (ok entry.1))) entry.2) m dirty) rt in
      let rt := on_stats (StatsInner.on_save_latency (λ l, record l (duration_since now started))) rt in
      let rt := if is_ok outcome then rt else on_stats (StatsInner.on_save_failed (add_u64 (len dirty))) rt in
      match refresh_all now dirty rt with
      | Done rt => Done (on_savers (delete tid) (foldr (λ entry, unlock_gate entry.2) rt locked))
      | o => o
      end
  | Locking _ _ => Blocked
  end.

(** ** Shutdown *)

Definition shutdown_begin (rt : Runtime) : Runtime :=
  match rt_state rt with
  | RuntimeState.Stopped => rt
  | RuntimeState.Running => on_rt_state (λ _, RuntimeState.Draining) (on_admission Admission.close rt)
  | RuntimeState.Draining => on_admission Admission.close rt
  end.

Definition drained (rt : Runtime) : bool :=
  (Admission.inflight_calls (admission rt) =? 0) && (StatsInner.active_gids (stats rt) =? 0).

(** After the wait, with the result of [cache.flush().await]: [None] is the
    [unreachable!]. *)
Definition shutdown_finish (now flush_started : Z) (flushed : Result (CacheError.t E) unit) (rt : Runtime)
  : option (Runtime * Result (ShutdownError.t E) unit) :=
  let rt := on_stats (StatsInner.on_flush_latency (λ l, record l (duration_since now flush_started))) rt in
  match flushed with
  | Err (CacheError.Save error) | Err (CacheError.Load error) => Some (rt, Err (ShutdownError.Persistence error))
  | Err CacheError.MissingLoader | Err CacheError.MissingSaver => None
  | Ok _ =>
      let dirty := Z.max (StatsInner.dirty_players (stats rt)) (DirtyAdmission.slots (dirty_admission rt)) in
      if negb (dirty =? 0) then Some (rt, Err (ShutdownError.DirtyPlayers dirty))
      else Some (on_rt_state (λ _, RuntimeState.Stopped) rt, Ok tt)
  end.

(** [stats()], at instant [now]. *)
Definition stats_of (now : Z) (rt : Runtime) : LogicStats.t :=
  let s := stats rt in
  LogicStats.mk (Admission.inflight_calls (admission rt)) (StatsInner.inflight_calls_high_water s)
    (Admission.kib (admission rt)) (StatsInner.inflight_kib_high_water s)
    (StatsInner.queued s) (StatsInner.queued_high_water s)
    (StatsInner.active_gids s) (StatsInner.active_gids_high_water s)
    (StatsInner.dirty_players s) (DirtyAdmission.slots (dirty_admission rt)) (StatsInner.dirty_slots_high_water s)
    (StatsInner.accepted s) (StatsInner.completed s) (StatsInner.load_calls s) (StatsInner.load_failed s)
    (StatsInner.preload_calls s) (StatsInner.preload_failed s) (StatsInner.save_calls s) (StatsInner.save_failed s)
    (StatsInner.rejected_calls s) (StatsInner.rejected_kib s) (StatsInner.rejected_gid s)
    (StatsInner.rejected_dirty s) (StatsInner.rejected_draining s)
    (snapshot (StatsInner.queue_latency s)) (snapshot (StatsInner.load_latency s))
    (snapshot (StatsInner.run_latency s)) (snapshot (StatsInner.preload_latency s))
    (snapshot (StatsInner.save_latency s)) (snapshot (StatsInner.total_latency s))
    (snapshot (StatsInner.flush_latency s)) (StatsInner.oldest_dirty_age now s).

(** [LogicRuntime::new]; [None] is a failed [assert!] of [validate]. *)
Definition new (config : LogicConfig.t) : option Runtime :=
  if LogicConfig.validate config then
    Some (mkRuntime config RuntimeState.Running (Admission.new config)
            (DirtyAdmission.new (LogicConfig.max_dirty_players config)) ∅ ∅ 0 ∅ 1 ∅ ∅ StatsInner.new 0 [] [])
  else None.

(** ** Interleavings *)

Inductive Label :=
| LTryUse (gid retained_kib : Z) (request : Request)
| LTakeNext (sid : Z)
| LCacheGot (sid : Z) (got : CacheGet) (resident' : gmap Z Z)
| LGateLocked (sid : Z)
| LPreloaded (sid : Z) (outcome : Result E A)
| LSaved (sid : Z) (outcome : Result E unit)
| LComplete (sid : Z)
| LPermitDropped (sid : Z)
| LCacheSet (sid : Z) (resident' : gmap Z Z)
| LRetire (sid : Z)
| LEvict (resident' : gmap Z Z)
| LSaverStart (tid : Z) (entries : list (Z * Z))
| LSaverAdvance (tid : Z)
| LSaverDone (tid : Z) (outcome : Result E unit) (ok : Z → bool)
| LShutdownBegin
| LShutdownFinish (flush_started : Z) (flushed : Result (CacheError.t E) unit).

(** The step of a runner, if its phase is the one the label expects. *)
Definition exec_runner (now : Z) (l : Label) (sid : Z) (rt : Runtime) : Outcome.t Runtime :=
  match slots rt !! sid with
  | None => Blocked
  | Some slot =>
      match l, phase (runner slot) with
      | LTakeNext _, Spawned => take_next now sid slot rt
      | LCacheGot _ got resident', Getting e run => cache_got now sid slot e run got resident' rt
      | LGateLocked _, Gating e run => gate_locked now sid slot e run rt
      | LPreloaded _ outcome, Preloading e run logic res _ started =>
          preloaded now sid slot e run logic res started outcome rt
      | LSaved _ outcome, Saving e v started => saved now sid slot e v started outcome rt
      | LComplete _, Completing e => Done (complete_and_take_next sid slot e rt)
      | LPermitDropped _, Releasing permit next => Done (permit_dropped now sid slot permit next rt)
      | LCacheSet _ resident', Retiring => cache_set sid slot resident' rt
      | LRetire _, Leaving => retire_or_take_next now sid slot rt
      | _, _ => Blocked
      end
  end.

Definition exec (now : Z) (l : Label) (rt : Runtime) : Outcome.t Runtime :=
  match l with
  | LTryUse gid kib request => Done (try_use now gid kib request rt).1
  | LTakeNext sid | LCacheGot sid _ _ | LGateLocked sid | LPreloaded sid _ | LSaved sid _
  | LComplete sid | LPermitDropped sid | LCacheSet sid _ | LRetire sid => exec_runner now l sid rt
  | LEvict resident' => if bool_decide (resident' ⊆ resident rt) then Done (on_resident (λ _, resident') rt) else Blocked
  | LSaverStart tid entries => saver_start tid entries rt
  | LSaverAdvance tid =>
      match savers rt !! tid with Some s => saver_advance now tid s rt | None => Blocked end
  | LSaverDone tid outcome ok =>
      match savers rt !! tid with Some s => saver_done now tid s outcome ok rt | None => Blocked end
  | LShutdownBegin => Done (shutdown_begin rt)
  | LShutdownFinish flush_started flushed =>
      match rt_state rt with
      | RuntimeState.Draining =>
          if drained rt then
            match shutdown_finish now flush_started flushed rt with
            | Some (rt, _) => Done rt
            | None => Panic
            end
          else Blocked
      | _ => Blocked
      end
  end.

(** A run: labels with their instants. *)
Fixpoint exec_all (ls : list (Z * Label)) (rt : Runtime) : Outcome.t Runtime :=
  match ls with
  | [] => Done rt
  | (now, l) :: ls => match exec now l rt with Done rt => exec_all ls rt | o => o end
  end.
End runtime.
