(* ===== verification/LogicDispatch.v ===== *)
(** Dispatch in the Logic runtime: the invariant of the directory, the
    mailboxes, the runners' envelopes, the permits and the log of accepted and
    answered calls, preserved by every step of [LogicRuntime.exec]. *)

From S2P Require Import Prelude Latency LogicStats LogicAdmission LogicRuntime.
Import Outcome(Done, Panic, Blocked).

(** [alter] on a key that is there is an insertion. *)
Lemma alter_as_insert {A} (f : A → A) (m : gmap Z A) k v :
  m !! k = Some v → alter f k m = <[k := f v]> m.
Proof.
  intros Hk. apply map_eq. intros i. destruct (decide (i = k)) as [->|Hne].
  - by rewrite lookup_alter_eq, Hk, lookup_insert_eq.
  - by rewrite lookup_alter_ne, lookup_insert_ne by done.
Qed.

Section dispatch.
Context {P E R A F : Type} `{!LogicState P} `{!SaveEffect P} `{!UnstableSort (Z * Z) fst}.
Abbreviation Runtime := (@Runtime P E R A F).
Abbreviation KeySlot := (@KeySlot P R A F).
Abbreviation Envelope := (@Envelope P R A F).
Abbreviation Phase := (@Phase P R A F).
Abbreviation Label := (@Label P E R A F).
Implicit Types (rt : Runtime) (slot : KeySlot) (p : Phase).

(** ** What a slot holds *)

(** The envelope the runner works on, as counted by its mailbox. *)
Definition carried p : list Envelope :=
  match p with
  | Getting e _ | Gating e _ | Preloading e _ _ _ _ _ | Saving e _ _ | Completing e => [e]
  | Releasing _ (Some e) => [e]
  | _ => []
  end.

(** The envelope whose caller has no answer yet. *)
Definition unanswered p : list Envelope :=
  match p with
  | Getting e _ | Gating e _ | Preloading e _ _ _ _ _ | Saving e _ _ => [e]
  | Releasing _ (Some e) => [e]
  | _ => []
  end.

(** The permit of a finished envelope that is not dropped yet. *)
Definition old_permit p : list Z := match p with Releasing permit _ => [permit] | _ => [] end.

Definition envelopes slot : list Envelope := carried (phase (runner slot)) ++ queue (mailbox slot).
Definition permits slot : list Z := old_permit (phase (runner slot)) ++ (permit <$> envelopes slot).
Definition pending slot : list Z :=
  (λ e, sender (command e)) <$> (unanswered (phase (runner slot)) ++ queue (mailbox slot)).

Definition sum (l : list Z) : Z := foldr Z.add 0 l.

Lemma sum_cons x l : sum (x :: l) = x + sum l.
Proof. done. Qed.

Lemma sum_app l k : sum (l ++ k) = sum l + sum k.
Proof. induction l as [|x l IH]; [done|]. simpl app. rewrite !sum_cons, IH. lia. Qed.

Lemma sum_pos l : Forall (λ k, 1 <= k) l → len l <= sum l.
Proof. induction 1 as [|x l Hx _ IH]; [done|]. rewrite len_cons. simpl. lia. Qed.

Definition slot_calls slot : Z := len (permits slot).
Definition slot_kib slot : Z := sum (permits slot).
Definition slot_queued slot : Z := len (queue (mailbox slot)).

(** ** The invariant *)

Definition envelope_ok (e : Envelope) : Prop := permit e = retained_kib e ∧ 1 <= retained_kib e.

Record slot_ok (cfg : LogicConfig.t) slot : Prop := {
  s_calls : inflight_calls (mailbox slot) = len (envelopes slot);
  s_kib : inflight_kib (mailbox slot) = sum (retained_kib <$> envelopes slot);
  s_max_calls : inflight_calls (mailbox slot) <= LogicConfig.max_calls_per_gid cfg;
  s_max_kib : inflight_kib (mailbox slot) <= LogicConfig.max_kib_per_gid cfg;
  s_envelopes : Forall envelope_ok (envelopes slot);
  s_permit : Forall (λ k, 1 <= k) (old_permit (phase (runner slot)));
  s_spawned : phase (runner slot) = Spawned → queue (mailbox slot) ≠ []
}.

(** The configuration is one that [LogicRuntime::new] accepts, of machine
    integers. *)
Definition config_ok (cfg : LogicConfig.t) : Prop :=
  LogicConfig.validate cfg = true
  ∧ is_u64 (LogicConfig.max_inflight_kib cfg)
  ∧ is_u64 (LogicConfig.max_calls_per_gid cfg)
  ∧ is_u64 (LogicConfig.max_kib_per_gid cfg)
  ∧ is_u64 (LogicConfig.max_dirty_players cfg).

Definition closed rt : bool := negb (bool_decide (rt_state rt = RuntimeState.Running)).

Record adm_ok (closed : bool) (cfg : LogicConfig.t) (a : Admission.t) (calls kib : Z) : Prop := {
  a_calls : Admission.calls a = encode_calls closed calls;
  a_kib : Admission.kib a = kib;
  a_max_calls : Admission.max_calls a = LogicConfig.max_inflight_calls cfg;
  a_max_kib : Admission.max_kib a = LogicConfig.max_inflight_kib cfg;
  a_calls_le : 0 <= calls <= LogicConfig.max_inflight_calls cfg;
  a_kib_le : 0 <= kib <= LogicConfig.max_inflight_kib cfg
}.

(** The calls of player [gid], by their channels, in the order of a log. *)
Definition calls_of (gid : Z) (log : list (Z * Z)) : list Z := (filter (λ x, x.1 = gid) log).*2.
Definition answered rt : list (Z * Z) := (answers rt).*1.

Record dispatch_ok rt : Prop := {
  d_config : config_ok (config rt);
  d_dir gid sid : directory rt !! gid = Some sid ↔
    ∃ slot, slots rt !! sid = Some slot ∧ runner_gid (runner slot) = gid;
  d_fresh sid slot : slots rt !! sid = Some slot → sid < next_slot rt;
  d_slots sid slot : slots rt !! sid = Some slot → slot_ok (config rt) slot;
  d_adm : adm_ok (closed rt) (config rt) (admission rt) (map_sum slot_calls (slots rt)) (map_sum slot_kib (slots rt));
  d_queued : StatsInner.queued (stats rt) = wrap_u64 (map_sum slot_queued (slots rt));
  d_active : StatsInner.active_gids (stats rt) = wrap_u64 (Z.of_nat (size (slots rt)));
  d_fifo sid slot : slots rt !! sid = Some slot →
    calls_of (runner_gid (runner slot)) (accepted rt)
    = calls_of (runner_gid (runner slot)) (answered rt) ++ pending slot;
  d_idle gid : directory rt !! gid = None → calls_of gid (accepted rt) = calls_of gid (answered rt);
  d_senders : StronglySorted Z.lt (accepted rt).*2 ∧ Forall (λ s, s < next_sender rt) (accepted rt).*2
}.

(** The fields the invariant reads, apart from slots and answers. *)
Definition frame rt :=
  (config rt, rt_state rt, admission rt, directory rt, next_slot rt, next_sender rt, accepted rt,
   StatsInner.queued (stats rt), StatsInner.active_gids (stats rt)).
Definition full_frame rt := (frame rt, slots rt, answers rt).

Lemma dispatch_full_frame rt rt' : full_frame rt' = full_frame rt → dispatch_ok rt → dispatch_ok rt'.
Proof.
  unfold full_frame, frame. intros Hf [? Hd ? ? Ha ? ? ? ? ?].
  injection Hf as E1 E2 E3 E4 E5 E6 E7 E8 E9 E10 E11.
  split; unfold closed, answered in *; rewrite ?E1, ?E2, ?E3, ?E4, ?E5, ?E6, ?E7, ?E8, ?E9, ?E10, ?E11; done.
Qed.

Lemma slot_envelopes_sum cfg slot : slot_ok cfg slot →
  slot_calls slot = len (old_permit (phase (runner slot))) + len (envelopes slot)
  ∧ slot_kib slot = sum (old_permit (phase (runner slot))) + sum (retained_kib <$> envelopes slot)
  ∧ len (old_permit (phase (runner slot))) <= sum (old_permit (phase (runner slot)))
  ∧ len (envelopes slot) <= sum (retained_kib <$> envelopes slot).
Proof.
  intros [_ _ _ _ He Hp _]. unfold slot_calls, slot_kib, permits. rewrite len_app, sum_app.
  split_and!.
  - unfold len. by rewrite length_fmap.
  - f_equal. f_equal. apply Forall_fmap_ext_1, (Forall_impl _ _ _ He). by intros e [].
  - by apply sum_pos.
  - replace (len (envelopes slot)) with (len (retained_kib <$> envelopes slot)) by (unfold len; by rewrite length_fmap).
    apply sum_pos, Forall_fmap. eapply Forall_impl; [exact He|]. by intros e [_ ?].
Qed.

Lemma slot_bounds cfg slot : slot_ok cfg slot → 0 <= slot_calls slot ∧ 0 <= slot_kib slot.
Proof.
  intros Hs. destruct (slot_envelopes_sum cfg slot Hs) as (-> & -> & H1 & H2).
  pose proof (len_nonneg (old_permit (phase (runner slot)))). pose proof (len_nonneg (envelopes slot)). lia.
Qed.

Lemma slots_nonneg rt : dispatch_ok rt →
  map_Forall (λ _ s, 0 <= slot_calls s) (slots rt) ∧ map_Forall (λ _ s, 0 <= slot_kib s) (slots rt).
Proof. intros Hd. split; intros sid s Hs; by apply (d_slots rt Hd), slot_bounds in Hs as []. Qed.
(** ** One slot changes

    The steps of a runner replace its own slot, may append its answer, and may
    take or give back permits; the invariant survives when the new slot
    accounts for the difference. *)
Lemma dispatch_update rt rt' sid slot slot' ans :
  dispatch_ok rt → slots rt !! sid = Some slot →
  slots rt' = <[sid := slot']> (slots rt) →
  config rt' = config rt → rt_state rt' = rt_state rt → directory rt' = directory rt →
  next_slot rt' = next_slot rt → next_sender rt' = next_sender rt → accepted rt' = accepted rt →
  runner_gid (runner slot') = runner_gid (runner slot) →
  slot_ok (config rt) slot' →
  answers rt' = answers rt ++ ((λ x, (runner_gid (runner slot), x.1, x.2)) <$> ans) →
  pending slot = ans.*1 ++ pending slot' →
  adm_ok (closed rt) (config rt) (admission rt')
    (map_sum slot_calls (slots rt) - slot_calls slot + slot_calls slot')
    (map_sum slot_kib (slots rt) - slot_kib slot + slot_kib slot') →
  StatsInner.queued (stats rt')
    = wrap_u64 (StatsInner.queued (stats rt) - (slot_queued slot - slot_queued slot')) →
  StatsInner.active_gids (stats rt') = StatsInner.active_gids (stats rt) →
  dispatch_ok rt'.
Proof.
  intros Hd Hs Hslots E1 E2 E3 E4 E5 E6 Hgid Hok Hans Hpend Hadm Hq Hact.
  destruct Hd as [Dc Ddir Dfresh Dslots Dadm Dq Da Dfifo Didle Dsend].
  assert (∀ gid, calls_of gid (answered rt') = calls_of gid (answered rt)
            ++ (if decide (runner_gid (runner slot) = gid) then ans.*1 else [])) as Hlog.
  { intros gid. unfold answered, calls_of. rewrite Hans, fmap_app, filter_app, fmap_app. f_equal.
    rewrite <- list_fmap_compose. case_decide as Hg.
    - rewrite filter_all by (apply Forall_fmap, Forall_forall; intros x _; exact Hg).
      by rewrite <- list_fmap_compose.
    - rewrite filter_none by (apply Forall_fmap, Forall_forall; intros x _; exact Hg). done. }
  split; rewrite ?E1, ?E3, ?E4, ?E5, ?E6; try done.
  - intros gid sid'. rewrite Ddir, Hslots. split; intros (s & Hs' & Hg).
    + destruct (decide (sid' = sid)) as [->|Hne]; [|exists s; by rewrite lookup_insert_ne by done].
      exists slot'. rewrite lookup_insert_eq. simplify_eq. by rewrite Hgid.
    + destruct (decide (sid' = sid)) as [->|Hne]; [|exists s; by rewrite lookup_insert_ne in Hs' by done].
      rewrite lookup_insert_eq in Hs'. simplify_eq. exists slot. by rewrite Hgid.
  - intros sid' s. rewrite Hslots. destruct (decide (sid' = sid)) as [->|Hne];
      [intros _; by eapply Dfresh|rewrite lookup_insert_ne by done; by apply Dfresh].
  - intros sid' s. rewrite Hslots, lookup_insert_Some. intros [[_ <-]|[_ Hl]]; [done|by eapply Dslots].
  - unfold closed in *. rewrite E2, Hslots, !(map_sum_update _ _ _ _ _ Hs). exact Hadm.
  - rewrite Hslots, (map_sum_update _ _ _ _ _ Hs), Hq, Dq. unfold wrap_u64.
    rewrite Zminus_mod_idemp_l. f_equal. lia.
  - rewrite Hslots, map_size_insert_Some by (by eexists). by rewrite Hact, Da.
  - intros sid' s. rewrite Hslots, lookup_insert_Some, Hlog. intros [[<- <-]|[Hne Hl]].
    + rewrite Hgid. rewrite decide_True by done. rewrite (Dfifo _ _ Hs), Hpend. by rewrite app_assoc.
    + rewrite decide_False, app_nil_r; [by apply Dfifo with sid'|]. intros Hg.
      assert (directory rt !! runner_gid (runner s) = Some sid) as D1 by (apply Ddir; by exists slot).
      assert (directory rt !! runner_gid (runner s) = Some sid') as D2 by (apply Ddir; by exists s).
      congruence.
  - intros gid Hg. rewrite Hlog. rewrite decide_False, app_nil_r; [by apply Didle|].
    intros Hg'. assert (directory rt !! gid = Some sid) as D1 by (apply Ddir; by exists slot). congruence.
Qed.

(** A runner moves to a phase with the same envelope and permits, possibly
    after it answered the envelope. *)
Definition moved sid slot rt rt' : Prop :=
  ∃ pl p ans,
    frame rt' = frame rt
    ∧ slots rt' = <[sid := mkKeySlot (mailbox slot) (mkRunner (runner_gid (runner slot)) pl p)]> (slots rt)
    ∧ answers rt' = answers rt ++ ((λ x, (runner_gid (runner slot), x.1, x.2)) <$> ans)
    ∧ carried p = carried (phase (runner slot)) ∧ old_permit p = old_permit (phase (runner slot))
    ∧ p ≠ Spawned
    ∧ ((λ e, sender (command e)) <$> unanswered (phase (runner slot)))
      = ans.*1 ++ ((λ e, sender (command e)) <$> unanswered p).

Lemma dispatch_moved rt rt' sid slot :
  dispatch_ok rt → slots rt !! sid = Some slot → moved sid slot rt rt' → dispatch_ok rt'.
Proof.
  intros Hd Hs (pl & p & ans & Hf & Hslots & Hans & Hc & Ho & Hns & Hu).
  unfold frame in Hf. injection Hf as F1 F2 F3 F4 F5 F6 F7 F8 F9.
  assert (envelopes (mkKeySlot (mailbox slot) (mkRunner (runner_gid (runner slot)) pl p)) = envelopes slot) as He
    by (unfold envelopes; simpl; by rewrite Hc).
  assert (permits (mkKeySlot (mailbox slot) (mkRunner (runner_gid (runner slot)) pl p)) = permits slot) as Hp
    by (unfold permits; simpl; by rewrite He, Ho).
  eapply (dispatch_update rt rt' sid slot _ ans Hd Hs Hslots); try done.
  - destruct (d_slots rt Hd sid slot Hs) as [S1 S2 S3 S4 S5 S6 S7].
    split; rewrite ?He; simpl; rewrite ?Ho; done.
  - unfold pending. simpl. by rewrite !fmap_app, Hu, app_assoc.
  - unfold slot_calls, slot_kib. rewrite Hp, F3, !Z.sub_add. apply Hd.
  - unfold slot_queued. simpl. rewrite F8, Z.sub_diag, Z.sub_0_r, (d_queued rt Hd).
    unfold wrap_u64. by rewrite Zmod_mod.
Qed.

(** ** Frames of the player operations *)

Lemma mark_dirty_frame id dirty now (s : StatsInner.t) :
  StatsInner.queued (StatsInner.mark_dirty id dirty now s) = StatsInner.queued s
  ∧ StatsInner.active_gids (StatsInner.mark_dirty id dirty now s) = StatsInner.active_gids s.
Proof. unfold StatsInner.mark_dirty. by repeat case_match. Qed.

Lemma full_frame_mark id dirty now rt :
  full_frame (on_stats (StatsInner.mark_dirty id dirty now) rt) = full_frame rt.
Proof.
  unfold full_frame, frame. simpl. destruct (mark_dirty_frame id dirty now (stats rt)) as [-> ->]. done.
Qed.

Lemma refresh_dirty_frame now id rt rt' : refresh_dirty now id rt = Done rt' → full_frame rt' = full_frame rt.
Proof.
  unfold refresh_dirty. intros Hr. repeat case_match; simplify_eq; by rewrite full_frame_mark.
Qed.

Lemma drop_reservation_frame b rt rt' : drop_reservation b rt = Done rt' → full_frame rt' = full_frame rt.
Proof. unfold drop_reservation. intros Hr. by repeat case_match; simplify_eq. Qed.

Lemma finish_logic_frame now id b rt rt' : finish_logic now id b rt = Done rt' → full_frame rt' = full_frame rt.
Proof.
  unfold finish_logic. intros Hr.
  destruct (cells rt !! id) as [cell|]; [|done].
  destruct (is_dirty (state cell) && negb (dirty_slot cell)).
  { destruct b; [|done]. by apply refresh_dirty_frame in Hr. }
  destruct (negb b || negb (is_dirty (state cell))); [|done].
  destruct (refresh_dirty now id rt) as [rt1| |] eqn:Hr1; try done.
  apply refresh_dirty_frame in Hr1. apply drop_reservation_frame in Hr. congruence.
Qed.

Lemma save_returned_frame now id started ok rt rt' :
  save_returned now id started ok rt = Done rt' → full_frame rt' = full_frame rt.
Proof. unfold save_returned. intros Hr. apply refresh_dirty_frame in Hr. rewrite Hr. by destruct ok. Qed.

Lemma refresh_all_frame now entries rt rt' : refresh_all now entries rt = Done rt' → full_frame rt' = full_frame rt.
Proof.
  revert rt. induction entries as [|e entries IH]; intros rt; simpl; [by intros [= ->]|].
  destruct (refresh_dirty now e.2 rt) as [rt1| |] eqn:Hr1; try done.
  intros Hr. apply IH in Hr. apply refresh_dirty_frame in Hr1. congruence.
Qed.

Lemma unlock_all_frame (entries : list (Z * Z)) rt :
  full_frame (foldr (λ entry, unlock_gate entry.2) rt entries) = full_frame rt.
Proof. by induction entries as [|e entries IH]; simpl. Qed.
(** ** The steps of a runner that keep its envelope *)

(** The runner is at an envelope [e] that is not answered. *)
Definition works_on slot (e : Envelope) : Prop :=
  carried (phase (runner slot)) = [e] ∧ unanswered (phase (runner slot)) = [e]
  ∧ old_permit (phase (runner slot)) = [].

Lemma full_frame_slots rt rt' : full_frame rt' = full_frame rt →
  frame rt' = frame rt ∧ slots rt' = slots rt ∧ answers rt' = answers rt.
Proof.
  intros Hf. split_and!; [exact (f_equal (λ x, x.1.1) Hf)|exact (f_equal (λ x, x.1.2) Hf)|exact (f_equal snd Hf)].
Qed.

Lemma set_phase_moved sid slot p rt rt1 :
  slots rt !! sid = Some slot → full_frame rt1 = full_frame rt →
  carried p = carried (phase (runner slot)) → unanswered p = unanswered (phase (runner slot)) →
  old_permit p = old_permit (phase (runner slot)) → p ≠ Spawned →
  moved sid slot rt (set_phase sid p rt1).
Proof.
  intros Hs (Hf & Hsl & Ha)%full_frame_slots Hc Hu Ho Hp. exists (player (runner slot)), p, [].
  split_and!; [exact Hf| |simpl; by rewrite Ha, app_nil_r|done..|by rewrite Hu].
  simpl. rewrite Hsl. by rewrite (alter_as_insert _ _ _ _ Hs).
Qed.

Lemma answer_moved now sid slot e a rt rt1 :
  slots rt !! sid = Some slot → full_frame rt1 = full_frame rt → works_on slot e →
  moved sid slot rt (answer_envelope now sid (runner_gid (runner slot)) e a rt1).
Proof.
  intros Hs (Hf & Hsl & Ha)%full_frame_slots (Hc & Hu & Ho).
  exists (player (runner slot)), (Completing e), [(sender (command e), a)].
  split_and!; [exact Hf| |simpl; by rewrite Ha|done..|by rewrite Hu].
  simpl. rewrite Hsl. by rewrite (alter_as_insert _ _ _ _ Hs).
Qed.

Lemma execute_moved now sid slot id e run b logic rt rt1 rt' :
  slots rt !! sid = Some slot → full_frame rt1 = full_frame rt → works_on slot e →
  execute now sid (runner_gid (runner slot)) id e run b logic rt1 = Done rt' → moved sid slot rt rt'.
Proof.
  intros Hs Hf (Hc & Hu & Ho). unfold execute. destruct (cells rt1 !! id) as [cell|]; [|done].
  destruct (logic (state cell)) as [[v p]|]; [|done].
  destruct (finish_logic now id b _) as [rt2| |] eqn:Hfin; try done.
  apply finish_logic_frame in Hfin. case_match; intros [= <-].
  - apply set_phase_moved; try done. rewrite <- Hf. exact Hfin.
  - apply answer_moved; try done. rewrite <- Hf. exact Hfin.
Qed.

Lemma gate_locked_moved now sid slot e run rt rt' :
  slots rt !! sid = Some slot → phase (runner slot) = Gating e run →
  gate_locked now sid slot e run rt = Done rt' → moved sid slot rt rt'.
Proof.
  intros Hs Hp. assert (works_on slot e) as Hw by (unfold works_on; by rewrite Hp).
  unfold gate_locked. destruct (player (runner slot)) as [id|]; [|done].
  destruct (cells rt !! id) as [cell|]; [|done]. destruct (save_gate cell); [done|].
  assert (∀ b rt1 rt', full_frame rt1 = full_frame rt →
    match command e with
    | TypedCommand logic _ => execute now sid (runner_gid (runner slot)) id e run b logic rt1
    | TypedPreloadedCommand preload logic _ =>
        match preload (state cell) with
        | None => Panic
        | Some future =>
            Done (set_phase sid (Preloading e run logic b future now) (on_stats (StatsInner.on_preload_calls incr) rt1))
        end
    end = Done rt' → moved sid slot rt rt') as Hgo.
  { intros b rt1 rt2 Hf. destruct (command e) as [logic s|preload logic s].
    - by apply execute_moved.
    - destruct (preload (state cell)); [|done]. intros [= <-]. apply set_phase_moved; try done; by rewrite Hp. }
  destruct (dirty_slot cell); [by apply Hgo|].
  destruct (DirtyAdmission.acquire _ _) as [[d st]|] eqn:Hacq.
  - apply Hgo. unfold DirtyAdmission.acquire in Hacq. by case_match; simplify_eq.
  - intros [= <-]. by apply answer_moved.
Qed.

Lemma preloaded_moved now sid slot e run logic b fut started outcome rt rt' :
  slots rt !! sid = Some slot → phase (runner slot) = Preloading e run logic b fut started →
  preloaded now sid slot e run logic b started outcome rt = Done rt' → moved sid slot rt rt'.
Proof.
  intros Hs Hp. assert (works_on slot e) as Hw by (unfold works_on; by rewrite Hp).
  unfold preloaded. destruct (player (runner slot)) as [id|]; [|done].
  destruct outcome as [v|err]; [by apply execute_moved|].
  destruct (drop_reservation b _) as [rt1| |] eqn:Hdrop; try done. intros [= <-].
  apply answer_moved; try done. by apply drop_reservation_frame in Hdrop.
Qed.

Lemma saved_moved now sid slot e v started outcome rt rt' :
  slots rt !! sid = Some slot → phase (runner slot) = Saving e v started →
  saved now sid slot e v started outcome rt = Done rt' → moved sid slot rt rt'.
Proof.
  intros Hs Hp. assert (works_on slot e) as Hw by (unfold works_on; by rewrite Hp).
  unfold saved. destruct (player (runner slot)) as [id|]; [|done].
  destruct (save_returned _ _ _ _ _) as [rt1| |] eqn:Hsave; try done. intros [= <-].
  apply answer_moved; try done. by apply save_returned_frame in Hsave.
Qed.

Lemma cache_got_moved now sid slot e run got resident' rt rt' :
  slots rt !! sid = Some slot → phase (runner slot) = Getting e run →
  cache_got now sid slot e run got resident' rt = Done rt' → moved sid slot rt rt'.
Proof.
  intros Hs Hp. assert (works_on slot e) as Hw by (unfold works_on; by rewrite Hp).
  assert (∀ id rt1, full_frame rt1 = full_frame rt →
    moved sid slot rt (on_slots (alter (on_runner (λ r : Runner, mkRunner (runner_gid (runner slot)) (Some id) (Gating e run))) sid) rt1)) as Hpl.
  { intros id rt1 (Hf & Hsl & Ha)%full_frame_slots. exists (Some id), (Gating e run), [].
    rewrite Hp. split_and!; [exact Hf| |simpl; by rewrite Ha, app_nil_r|done..].
    simpl. rewrite Hsl. by rewrite (alter_as_insert _ _ _ _ Hs). }
  unfold cache_got. destruct got as [id|q|load err], (resident rt !! _) as [id'|] eqn:Hres; try done.
  - case_if; [|done]. intros [= <-]. by apply Hpl.
  - case_if; [|done]. destruct (is_dirty q); [done|]. intros [= <-]. apply Hpl.
    match goal with
    | |- full_frame (on_resident _ (on_stats _ ?rt1)) = _ =>
        exact (full_frame_mark (next_player_id rt) false now rt1)
    end.
  - destruct (map_cache_error err); [|done]. case_if; [|done]. intros [= <-].
    apply answer_moved; [done| |done]. by destruct load.
Qed.

Lemma cache_set_moved sid slot resident' rt rt' :
  slots rt !! sid = Some slot → phase (runner slot) = Retiring →
  cache_set sid slot resident' rt = Done rt' → moved sid slot rt rt'.
Proof.
  intros Hs Hp. unfold cache_set. intros Hset.
  assert (∃ rt1, full_frame rt1 = full_frame rt ∧ rt' = set_phase sid Leaving rt1) as (rt1 & Hf & ->).
  { repeat case_match; simplify_eq; (eexists; split; [|reflexivity]); done. }
  apply set_phase_moved; try done; by rewrite Hp.
Qed.
(** ** The steps that move envelopes and permits *)

Lemma config_limits cfg : config_ok cfg →
  LogicConfig.max_inflight_calls cfg <= ADMISSION_COUNT_MASK
  ∧ LogicConfig.max_inflight_kib cfg < 2 ^ 64
  ∧ LogicConfig.max_calls_per_gid cfg < 2 ^ 64 ∧ LogicConfig.max_kib_per_gid cfg < 2 ^ 64.
Proof. unfold config_ok, LogicConfig.validate, is_u64. intros (? & ? & ? & ? & ?). lia. Qed.

Lemma adm_drop c cfg a calls kib k : config_ok cfg →
  adm_ok c cfg a calls kib → 1 <= calls → 0 <= k <= kib →
  adm_ok c cfg (Admission.drop_permit k a) (calls - 1) (kib - k).
Proof.
  intros Hc [A1 A2 A3 A4 A5 A6] H1 H2. apply config_limits in Hc as (C1 & C2 & _).
  split; simpl; try done; try lia.
  - rewrite A1, <- Z.add_opp_r, encode_calls_shift by lia. done.
  - rewrite A2, wrap_u64_id by (unfold is_u64; lia). done.
Qed.

Lemma acquire_spec c cfg a calls kib k s a' s' r : config_ok cfg →
  adm_ok c cfg a calls kib → 0 <= k → Admission.acquire k a s = (a', s', r) →
  StatsInner.queued s' = StatsInner.queued s ∧ StatsInner.active_gids s' = StatsInner.active_gids s
  ∧ match r with
    | Ok p => c = false ∧ p = k ∧ adm_ok c cfg a' (calls + 1) (kib + k)
    | Err RejectReason.Draining => c = true ∧ a' = a
    | Err _ => c = false ∧ adm_ok c cfg a' calls kib
    end.
Proof.
  intros Hc [A1 A2 A3 A4 A5 A6] Hk. apply config_limits in Hc as (C1 & C2 & _).
  unfold Admission.acquire. rewrite (admit_call_encoded a c calls) by (done || lia).
  destruct c; [by intros [= <- <- <-]|]. case_if.
  { intros [= <- <- <-]. by split_and!. }
  destruct (Admission.admit_kib k _) as [a2|] eqn:Hkib; intros [= <- <- <-]; (split_and!; [done..|]).
  - apply admit_kib_Some in Hkib as [-> Hle]. simpl in Hle.
    split; simpl; try done; try lia.
  - split; simpl; try done; try lia.
    rewrite <- Z.add_opp_r, encode_calls_shift by lia. f_equal. lia.
Qed.

Lemma begin_envelope_slot now sid slot r e rt :
  slots rt !! sid = Some slot →
  ∃ p, begin_envelope now sid r e rt
       = on_slots <[sid := mkKeySlot (mailbox slot) (mkRunner (runner_gid (runner slot)) (player (runner slot)) p)]>
           (on_stats (StatsInner.on_queue_latency (λ l, record l (duration_since now (submitted_at e)))) rt)
     ∧ carried p = [e] ∧ unanswered p = [e] ∧ old_permit p = [] ∧ p ≠ Spawned.
Proof.
  intros Hs. unfold begin_envelope, set_phase.
  destruct (player r); eexists; (split; [unfold on_slots; simpl; by rewrite (alter_as_insert _ _ _ _ Hs)|done]).
Qed.

(** A slot whose runner takes the next envelope of the queue. *)
Lemma pop_slot_ok cfg slot p next rest : slot_ok cfg slot →
  carried (phase (runner slot)) = [] → old_permit (phase (runner slot)) = [] →
  queue (mailbox slot) = next :: rest → carried p = [next] → old_permit p = [] → p ≠ Spawned →
  let slot' := mkKeySlot (mkMailbox rest (inflight_calls (mailbox slot)) (inflight_kib (mailbox slot)))
                 (mkRunner (runner_gid (runner slot)) (player (runner slot)) p) in
  slot_ok cfg slot' ∧ slot_calls slot' = slot_calls slot ∧ slot_kib slot' = slot_kib slot
  ∧ slot_queued slot - slot_queued slot' = 1.
Proof.
  intros [S1 S2 S3 S4 S5 S6 S7] Hc Ho Hq Hc' Ho' Hp slot'.
  assert (envelopes slot' = envelopes slot) as He by (unfold envelopes; simpl; by rewrite Hc, Hc', Hq).
  split_and!.
  - split; rewrite ?He; simpl; rewrite ?Ho'; done.
  - unfold slot_calls, permits. by rewrite He; simpl; rewrite Ho, Ho'.
  - unfold slot_kib, permits. by rewrite He; simpl; rewrite Ho, Ho'.
  - unfold slot_queued. simpl. rewrite Hq, len_cons. lia.
Qed.

(** Popping an envelope, from the start of a runner or from its last look
    under the directory lock. *)
Lemma dispatch_pop now sid slot next rest rt rt' :
  dispatch_ok rt → slots rt !! sid = Some slot →
  carried (phase (runner slot)) = [] → unanswered (phase (runner slot)) = [] →
  old_permit (phase (runner slot)) = [] → queue (mailbox slot) = next :: rest →
  (let m := mailbox slot in
   rt' = begin_envelope now sid (runner slot) next
           (on_stats (StatsInner.on_queued decr)
              (on_slots (alter (on_mailbox (λ _, mkMailbox rest (inflight_calls m) (inflight_kib m))) sid) rt))) →
  dispatch_ok rt'.
Proof.
  intros Hd Hs Hc Hu Ho Hq Hrt'. cbv zeta in Hrt'.
  edestruct (begin_envelope_slot now sid (on_mailbox (λ _, mkMailbox rest (inflight_calls (mailbox slot)) (inflight_kib (mailbox slot))) slot)
    (runner slot) next) as (p & Hbe & Hc' & Hu' & Ho' & Hp);
    [|rewrite Hbe in Hrt'; clear Hbe].
  { simpl. rewrite (alter_as_insert _ _ _ _ Hs). apply lookup_insert_eq. }
  edestruct (pop_slot_ok (config rt) slot p next rest (d_slots rt Hd sid slot Hs)) as (Hok & Hcalls & Hkib & Hqd); [done..|].
  subst rt'. eapply (dispatch_update rt _ sid slot _ [] Hd Hs); simpl.
  - rewrite (alter_as_insert _ _ _ _ Hs). apply insert_insert_eq.
  - done.
  - done.
  - done.
  - done.
  - done.
  - done.
  - done.
  - exact Hok.
  - by rewrite app_nil_r.
  - unfold pending. simpl. by rewrite Hu, Hu', Hq.
  - simpl in Hcalls, Hkib. rewrite Hcalls, Hkib, !Z.sub_add. apply Hd.
  - simpl in Hqd. rewrite Hqd. done.
  - done.
Qed.
(** A slot adds what it holds to the totals. *)
Lemma slot_total rt sid slot : dispatch_ok rt → slots rt !! sid = Some slot →
  slot_calls slot <= map_sum slot_calls (slots rt) ∧ slot_kib slot <= map_sum slot_kib (slots rt).
Proof.
  intros Hd Hs. destruct (slots_nonneg rt Hd) as [H1 H2].
  split; by eapply map_sum_ge.
Qed.

Lemma slot_queued_wrap rt sid slot slot' : dispatch_ok rt → slots rt !! sid = Some slot →
  queue (mailbox slot') = queue (mailbox slot) →
  StatsInner.queued (stats rt) = wrap_u64 (StatsInner.queued (stats rt) - (slot_queued slot - slot_queued slot')).
Proof.
  intros Hd Hs Hq. unfold slot_queued. rewrite Hq, Z.sub_diag, Z.sub_0_r, (d_queued rt Hd).
  unfold wrap_u64. by rewrite Zmod_mod.
Qed.

(** [complete_and_take_next]: the mailbox forgets the finished envelope; its
    permit is still held. *)
Lemma complete_slot_ok cfg slot e p rest : config_ok cfg → slot_ok cfg slot →
  phase (runner slot) = Completing e →
  envelopes (mkKeySlot (mailbox slot) (mkRunner (runner_gid (runner slot)) (player (runner slot)) Spawned)) = carried p ++ rest →
  old_permit p = [permit e] → p ≠ Spawned →
  let slot' := mkKeySlot (mkMailbox rest (wrap_u64 (inflight_calls (mailbox slot) - 1))
                            (wrap_u64 (inflight_kib (mailbox slot) - retained_kib e)))
                 (mkRunner (runner_gid (runner slot)) (player (runner slot)) p) in
  slot_ok cfg slot' ∧ slot_calls slot' = slot_calls slot ∧ slot_kib slot' = slot_kib slot.
Proof.
  intros Hcfg Hslot Hp Hq Ho Hns slot'. apply config_limits in Hcfg as (_ & _ & C3 & C4).
  pose proof Hslot as [S1 S2 S3 S4 S5 S6 S7].
  assert (envelopes slot = e :: envelopes slot') as He.
  { unfold envelopes in *. simpl in *. by rewrite Hp, <- Hq. }
  rewrite He in S1, S2, S5. rewrite len_cons in S1. rewrite fmap_cons, sum_cons in S2.
  apply Forall_cons in S5 as [[E1 E2] S5].
  assert (0 <= sum (retained_kib <$> envelopes slot')) as Hnn.
  { pose proof (len_nonneg (retained_kib <$> envelopes slot')).
    assert (len (retained_kib <$> envelopes slot') <= sum (retained_kib <$> envelopes slot')); [|lia].
    apply sum_pos, Forall_fmap. eapply Forall_impl; [exact S5|]. by intros ? []. }
  pose proof (len_nonneg (envelopes slot')) as Hln.
  assert (inflight_calls (mailbox slot') = inflight_calls (mailbox slot) - 1) as Hc'
    by (simpl; rewrite wrap_u64_id; unfold is_u64; lia).
  assert (inflight_kib (mailbox slot') = inflight_kib (mailbox slot) - retained_kib e) as Hk'
    by (simpl; rewrite wrap_u64_id; unfold is_u64; lia).
  split_and!.
  - split; rewrite ?Hc', ?Hk'; try done; try lia.
    change (phase (runner slot')) with p. rewrite Ho. constructor; [lia|done].
  - unfold slot_calls, permits. rewrite He, Hp. subst slot'. cbn [old_permit runner phase]. by rewrite Ho.
  - unfold slot_kib, permits. rewrite He, Hp. subst slot'. cbn [old_permit runner phase]. by rewrite Ho.
Qed.

Lemma dispatch_complete sid slot e rt :
  dispatch_ok rt → slots rt !! sid = Some slot → phase (runner slot) = Completing e →
  dispatch_ok (complete_and_take_next sid slot e rt).
Proof.
  intros Hd Hs Hp. unfold complete_and_take_next.
  destruct (queue (mailbox slot)) as [|next rest] eqn:Hq.
  - edestruct (complete_slot_ok (config rt) slot e (Releasing (permit e) None) [])
      as (Hok & Hcalls & Hkib); [apply Hd|by eapply d_slots|done|by unfold envelopes; simpl; rewrite Hq|done..|].
    eapply (dispatch_update rt _ sid slot _ [] Hd Hs); simpl; try exact Hok; try done.
    + rewrite (alter_as_insert _ _ _ _ Hs), (alter_as_insert _ _ _ _ (lookup_insert_eq _ _ _)).
      apply insert_insert_eq.
    + by rewrite app_nil_r.
    + unfold pending. simpl. by rewrite Hp, Hq.
    + simpl in Hcalls, Hkib. rewrite Hcalls, Hkib, !Z.sub_add. apply Hd.
    + by eapply slot_queued_wrap.
  - edestruct (complete_slot_ok (config rt) slot e (Releasing (permit e) (Some next)) rest)
      as (Hok & Hcalls & Hkib); [apply Hd|by eapply d_slots|done|by unfold envelopes; simpl; rewrite Hq|done..|].
    eapply (dispatch_update rt _ sid slot _ [] Hd Hs); simpl; try exact Hok; try done.
    + rewrite (alter_as_insert _ _ _ _ Hs), (alter_as_insert _ _ _ _ (lookup_insert_eq _ _ _)).
      apply insert_insert_eq.
    + by rewrite app_nil_r.
    + unfold pending. simpl. by rewrite Hp, Hq.
    + simpl in Hcalls, Hkib. rewrite Hcalls, Hkib, !Z.sub_add. apply Hd.
    + unfold slot_queued. simpl. rewrite Hq, len_cons. unfold decr. f_equal. lia.
Qed.

Lemma dispatch_permit_dropped now sid slot k next rt :
  dispatch_ok rt → slots rt !! sid = Some slot → phase (runner slot) = Releasing k next →
  dispatch_ok (permit_dropped now sid slot k next rt).
Proof.
  intros Hd Hs Hp. pose proof (d_slots rt Hd sid slot Hs) as Hslot.
  pose proof (slot_total rt sid slot Hd Hs) as [Ht1 Ht2].
  pose proof Hslot as [S1 S2 S3 S4 S5 S6 S7]. rewrite Hp in S6. simpl in S6.
  apply Forall_cons in S6 as [Hk _].
  assert (∃ p, permit_dropped now sid slot k next rt
     = on_slots <[sid := mkKeySlot (mailbox slot) (mkRunner (runner_gid (runner slot)) (player (runner slot)) p)]>
         (on_admission (Admission.drop_permit k) (on_stats (match next with
            | Some e => StatsInner.on_queue_latency (λ l, record l (duration_since now (submitted_at e)))
            | None => id end) rt))
     ∧ carried p = carried (phase (runner slot)) ∧ unanswered p = unanswered (phase (runner slot))
     ∧ old_permit p = [] ∧ p ≠ Spawned) as (p & -> & Hc & Hu & Ho & Hns).
  { unfold permit_dropped. rewrite Hp. destruct next as [e|].
    - edestruct (begin_envelope_slot now sid slot (runner slot) e (on_admission (Admission.drop_permit k) rt))
        as (p & -> & ?); [done|]. by exists p.
    - exists Retiring. split; [|done]. unfold set_phase, on_slots. simpl.
      by rewrite (alter_as_insert _ _ _ _ Hs). }
  set (slot' := mkKeySlot (mailbox slot) (mkRunner (runner_gid (runner slot)) (player (runner slot)) p)).
  assert (envelopes slot' = envelopes slot) as He by (unfold envelopes; simpl; by rewrite Hc).
  assert (permits slot = k :: permits slot') as Hpm
    by (unfold permits; rewrite He, Hp; subst slot'; simpl; by rewrite Ho).
  assert (slot_ok (config rt) slot') as Hok'
    by (split; rewrite ?He; subst slot'; simpl; rewrite ?Ho; done).
  destruct (slot_bounds _ _ Hok') as [B1 B2].
  assert (slot_calls slot = 1 + slot_calls slot') as Hcalls
    by (unfold slot_calls; by rewrite Hpm, len_cons).
  assert (slot_kib slot = k + slot_kib slot') as Hkib
    by (unfold slot_kib; by rewrite Hpm, sum_cons).
  eapply (dispatch_update rt _ sid slot slot' [] Hd Hs); try done; cbn [on_slots on_admission on_stats].
  - simpl. by rewrite app_nil_r.
  - unfold pending. subst slot'. simpl. by rewrite Hu.
  - replace (_ - slot_calls slot + slot_calls slot') with (map_sum slot_calls (slots rt) - 1) by lia.
    replace (_ - slot_kib slot + slot_kib slot') with (map_sum slot_kib (slots rt) - k) by lia.
    apply adm_drop; [apply Hd|apply Hd|lia|lia].
  - destruct next; simpl; by eapply slot_queued_wrap.
  - by destruct next.
Qed.
(** The last look under the directory lock finds the queue empty: the slot
    leaves the directory with its runner. *)
Lemma dispatch_retired sid slot rt :
  dispatch_ok rt → slots rt !! sid = Some slot → phase (runner slot) = Leaving → queue (mailbox slot) = [] →
  dispatch_ok (on_stats (StatsInner.on_active_gids decr)
    (on_directory (delete (runner_gid (runner slot))) (on_slots (delete sid) rt))).
Proof.
  intros Hd Hs Hp Hq.
  assert (permits slot = []) as Hpm by (unfold permits, envelopes; by rewrite Hp, Hq).
  assert (slot_calls slot = 0 ∧ slot_kib slot = 0) as [Hc Hk] by (unfold slot_calls, slot_kib; by rewrite Hpm).
  assert (slot_queued slot = 0) as Hqd by (unfold slot_queued; by rewrite Hq).
  assert (directory rt !! runner_gid (runner slot) = Some sid) as Hdir by (apply (d_dir rt Hd); by exists slot).
  destruct Hd as [Dc Ddir Dfresh Dslots Dadm Dq Da Dfifo Didle Dsend].
  split; simpl; try done.
  - intros gid sid'. rewrite lookup_delete_Some, Ddir. split.
    + intros (Hne & s & Hs' & Hg). exists s. rewrite lookup_delete_Some. split_and!; [|done..].
      intros ->. simplify_eq.
    + intros (s & [Hne Hs']%lookup_delete_Some & Hg). split; [|by exists s].
      intros Hg'. apply Hne. rewrite Hg', <- Hg in Hdir.
      assert (directory rt !! runner_gid (runner s) = Some sid') as D2 by (apply Ddir; by exists s).
      congruence.
  - intros sid' s [_ Hl]%lookup_delete_Some. by eapply Dfresh.
  - intros sid' s [_ Hl]%lookup_delete_Some. by eapply Dslots.
  - rewrite !(map_sum_delete _ _ _ _ Hs), Hc, Hk, !Z.sub_0_r. exact Dadm.
  - by rewrite (map_sum_delete _ _ _ _ Hs), Hqd, Z.sub_0_r.
  - rewrite map_size_delete_Some by (by eexists). rewrite Da. unfold decr, wrap_u64.
    rewrite Zminus_mod_idemp_l. f_equal.
    assert (size (slots rt) ≠ 0%nat) by (by apply (map_size_ne_0_lookup_2 _ sid)). lia.
  - intros sid' s [_ Hl]%lookup_delete_Some. by apply (Dfifo sid').
  - intros gid Hg. apply lookup_delete_None in Hg as [<-|Hg]; [|by apply Didle].
    rewrite (Dfifo sid slot Hs). unfold pending. rewrite Hp, Hq. by rewrite app_nil_r.
Qed.

(** ** Submission *)

(** A refused call leaves no trace but its counter. *)
Lemma dispatch_refused rt rt' a s dir :
  dispatch_ok rt →
  config rt' = config rt → rt_state rt' = rt_state rt → slots rt' = slots rt →
  next_slot rt' = next_slot rt → next_sender rt <= next_sender rt' →
  accepted rt' = accepted rt → answers rt' = answers rt →
  admission rt' = a → stats rt' = s → directory rt' = dir → dir = directory rt →
  adm_ok (closed rt) (config rt) a (map_sum slot_calls (slots rt)) (map_sum slot_kib (slots rt)) →
  StatsInner.queued s = StatsInner.queued (stats rt) →
  StatsInner.active_gids s = StatsInner.active_gids (stats rt) →
  dispatch_ok rt'.
Proof.
  intros [Dc Ddir Dfresh Dslots Dadm Dq Da Dfifo Didle [Ds1 Ds2]] E1 E2 E3 E4 E5 E6 E7 E8 E9 E10 E11 Ha Hq Hact.
  split; unfold closed, answered in *; rewrite ?E1, ?E2, ?E3, ?E4, ?E6, ?E7, ?E8, ?E9, ?E10, ?E11; try done.
  - by rewrite Hq.
  - by rewrite Hact.
  - split; [done|]. eapply Forall_impl; [exact Ds2|]. simpl. intros; lia.
Qed.

(** The slot of player [gid], after its mailbox received an envelope. *)
Definition pushed slot (e : Envelope) : KeySlot :=
  mkKeySlot (mkMailbox (queue (mailbox slot) ++ [e]) (inflight_calls (mailbox slot) + 1)
               (inflight_kib (mailbox slot) + retained_kib e)) (runner slot).

Lemma pushed_ok cfg slot e :
  (inflight_calls (mailbox slot) = len (envelopes slot)
   ∧ inflight_kib (mailbox slot) = sum (retained_kib <$> envelopes slot)
   ∧ Forall envelope_ok (envelopes slot) ∧ Forall (λ k, 1 <= k) (old_permit (phase (runner slot)))) →
  envelope_ok e → inflight_calls (mailbox slot) < LogicConfig.max_calls_per_gid cfg →
  inflight_kib (mailbox slot) + retained_kib e <= LogicConfig.max_kib_per_gid cfg →
  slot_ok cfg (pushed slot e)
  ∧ slot_calls (pushed slot e) = slot_calls slot + 1
  ∧ slot_kib (pushed slot e) = slot_kib slot + permit e
  ∧ slot_queued (pushed slot e) = slot_queued slot + 1
  ∧ pending (pushed slot e) = pending slot ++ [sender (command e)].
Proof.
  intros (S1 & S2 & S5 & S6) He Hc Hk.
  assert (envelopes (pushed slot e) = envelopes slot ++ [e]) as Hev
    by (unfold envelopes, pushed; simpl; by rewrite app_assoc).
  split_and!.
  - split; rewrite ?Hev; simpl; try done; try lia.
    + rewrite len_app. change (len [e]) with 1. lia.
    + rewrite fmap_app, sum_app. change (sum (retained_kib <$> [e])) with (retained_kib e + 0). lia.
    + apply Forall_app. by split; [|constructor].
    + intros _ Hnil. by destruct (queue (mailbox slot)).
  - unfold slot_calls, permits. rewrite Hev, fmap_app, !len_app. simpl. change (len [_]) with 1. lia.
  - unfold slot_kib, permits. rewrite Hev, fmap_app, !sum_app. change (sum (permit <$> [e])) with (permit e + 0). simpl. lia.
  - unfold slot_queued, pushed. simpl. rewrite len_app. done.
  - unfold pending, pushed. simpl. by rewrite app_assoc, fmap_app.
Qed.

(** The log of accepted calls after one more. *)
Lemma calls_of_snoc gid gid' c (log : list (Z * Z)) :
  calls_of gid (log ++ [(gid', c)]) = calls_of gid log ++ (if decide (gid' = gid) then [c] else []).
Proof.
  unfold calls_of. rewrite filter_app, fmap_app. f_equal.
  rewrite filter_cons. simpl. by case_decide.
Qed.
(** The slot an accepted call goes to: the one of its player, or a fresh one. *)
Definition target rt (gid sid : Z) slot : Prop :=
  runner_gid (runner slot) = gid
  ∧ (slots rt !! sid = Some slot
     ∨ slot = mkKeySlot (mkMailbox [] 0 0) (mkRunner gid None Spawned)
       ∧ slots rt !! sid = None ∧ directory rt !! gid = None ∧ sid = next_slot rt).

Lemma target_ok rt gid sid slot : dispatch_ok rt → target rt gid sid slot →
  (inflight_calls (mailbox slot) = len (envelopes slot)
   ∧ inflight_kib (mailbox slot) = sum (retained_kib <$> envelopes slot)
   ∧ Forall envelope_ok (envelopes slot) ∧ Forall (λ k, 1 <= k) (old_permit (phase (runner slot))))
  ∧ calls_of gid (accepted rt) = calls_of gid (answered rt) ++ pending slot
  ∧ directory rt !! gid = (if slots rt !! sid is Some _ then Some sid else None).
Proof.
  intros Hd [<- [Hs|(-> & Hs & Hdir & ->)]]; rewrite Hs.
  - pose proof (d_slots rt Hd sid slot Hs) as []. split_and!; [done..|by apply (d_fifo rt Hd sid)|].
    apply (d_dir rt Hd). by exists slot.
  - simpl in *. split_and!; [done..| |done]. rewrite (d_idle rt Hd _ Hdir). by rewrite app_nil_r.
Qed.

Lemma target_sum rt gid sid slot slot' (f : KeySlot → Z) : target rt gid sid slot →
  f (mkKeySlot (mkMailbox [] 0 0) (mkRunner gid None Spawned)) = 0 →
  map_sum f (<[sid := slot']> (slots rt)) = map_sum f (slots rt) - f slot + f slot'.
Proof.
  intros [_ [Hs|(-> & Hs & _)]] Hf; [by apply map_sum_update|]. rewrite map_sum_insert, Hf by done. lia.
Qed.

Lemma dispatch_push rt rt' gid sid slot e :
  dispatch_ok rt → target rt gid sid slot → slot_ok (config rt) (pushed slot e) →
  slots rt' = <[sid := pushed slot e]> (slots rt) → directory rt' = <[gid := sid]> (directory rt) →
  config rt' = config rt → rt_state rt' = rt_state rt → next_sender rt' = next_sender rt →
  next_slot rt' = (if slots rt !! sid is Some _ then next_slot rt else next_slot rt + 1) →
  accepted rt' = accepted rt ++ [(gid, sender (command e))] → answers rt' = answers rt →
  Forall (λ s, s < sender (command e)) (accepted rt).*2 → sender (command e) < next_sender rt →
  pending (pushed slot e) = pending slot ++ [sender (command e)] →
  adm_ok (closed rt) (config rt) (admission rt')
    (map_sum slot_calls (slots rt')) (map_sum slot_kib (slots rt')) →
  StatsInner.queued (stats rt') = wrap_u64 (map_sum slot_queued (slots rt')) →
  StatsInner.active_gids (stats rt') = wrap_u64 (Z.of_nat (size (slots rt'))) →
  dispatch_ok rt'.
Proof.
  intros Hd Ht Hok Hslots Hdir E1 E2 E3 E4 E5 E6 Hlt Hns Hpend Hadm Hq Hact.
  destruct (target_ok rt gid sid slot Hd Ht) as (_ & Hfifo & Hold). destruct Ht as [Hgid Ht].
  assert (∀ sid' s, slots rt !! sid' = Some s → runner_gid (runner s) = gid → sid' = sid) as Huniq.
  { intros sid' s Hs' Hg'. assert (directory rt !! gid = Some sid') as D by (apply (d_dir rt Hd); by exists s).
    rewrite Hold in D. by case_match; simplify_eq. }
  destruct Hd as [Dc Ddir Dfresh Dslots Dadm Dq Da Dfifo Didle [Ds1 Ds2]].
  split; rewrite ?E1, ?E3; try done.
  - intros gid' sid'. rewrite Hdir, Hslots. split.
    + intros [[<- <-]|[Hne Hl]]%lookup_insert_Some; [exists (pushed slot e); by rewrite lookup_insert_eq|].
      apply Ddir in Hl as (s & Hs' & Hg). exists s. rewrite lookup_insert_ne; [done|]. intros <-.
      destruct Ht as [Hs|(_ & Hs & _)]; simplify_eq.
    + intros (s & [[<- <-]|[Hne Hl]]%lookup_insert_Some & Hg).
      * simpl in Hg. rewrite Hgid in Hg. subst. by rewrite lookup_insert_eq.
      * rewrite lookup_insert_ne; [apply Ddir; by exists s|]. intros <-. by destruct Hne; symmetry; eapply Huniq.
  - intros sid' s. rewrite Hslots, E4. intros [[<- <-]|[Hne Hl]]%lookup_insert_Some.
    + destruct Ht as [Hs|(_ & Hs & _ & ->)]; rewrite Hs; [by eapply Dfresh|lia].
    + apply Dfresh in Hl. case_match; lia.
  - intros sid' s. rewrite Hslots. intros [[<- <-]|[Hne Hl]]%lookup_insert_Some; [done|by eapply Dslots].
  - unfold closed in *. by rewrite E2.
  - intros sid' s. unfold answered in *. rewrite Hslots, E5, E6. intros [[<- <-]|[Hne Hl]]%lookup_insert_Some.
    + simpl. rewrite Hgid, calls_of_snoc, decide_True, Hfifo, Hpend by done. by rewrite app_assoc.
    + rewrite calls_of_snoc, decide_False, app_nil_r; [by apply (Dfifo sid')|].
      intros Hg. apply Hne. symmetry. by eapply Huniq.
  - intros gid'. unfold answered in *. rewrite Hdir, E5, E6. intros [Hg Hne]%lookup_insert_None.
    rewrite calls_of_snoc, decide_False, app_nil_r by done. by apply Didle.
  - rewrite E5, fmap_app. split.
    + apply StronglySorted_app. split_and!; [|done|repeat constructor].
      intros x y Hx Hy. apply list_elem_of_singleton in Hy as ->. rewrite Forall_forall in Hlt. by apply Hlt.
    + apply Forall_app. split; [done|]. by constructor.
Qed.

(** Where [enqueue] puts the call of a player. *)
Lemma enqueue_target rt gid : dispatch_ok rt →
  ∃ sid slot spawn, target rt gid sid slot
    ∧ (match directory rt !! gid with
       | Some sid => (sid, default (mkKeySlot (mkMailbox [] 0 0) (mkRunner gid None Spawned)) (slots rt !! sid), false, directory rt)
       | None => (next_slot rt, mkKeySlot (mkMailbox [] 0 0) (mkRunner gid None Spawned), true, <[gid := next_slot rt]> (directory rt))
       end) = (sid, slot, spawn, <[gid := sid]> (directory rt))
    ∧ spawn = (if slots rt !! sid is Some _ then false else true)
    ∧ (spawn = true → delete gid (<[gid := sid]> (directory rt)) = directory rt).
Proof.
  intros Hd. destruct (directory rt !! gid) as [sid|] eqn:Hdir.
  - pose proof Hdir as (slot & Hs & Hg)%(d_dir rt Hd). exists sid, slot, false.
    rewrite Hs, insert_id by done. split_and!; [split; [done|by left]|done..].
  - exists (next_slot rt), (mkKeySlot (mkMailbox [] 0 0) (mkRunner gid None Spawned)), true.
    assert (slots rt !! next_slot rt = None) as Hnone.
    { destruct (slots rt !! next_slot rt) as [s|] eqn:Hs; [|done]. apply (d_fresh rt Hd) in Hs. lia. }
    rewrite Hnone. split_and!; [split; [done|by right]|done..|].
    intros _. rewrite delete_insert_eq. by apply delete_id.
Qed.

(** The counters of the mailboxes after an accepted call. *)
Lemma pushed_sums rt gid sid slot e a s spawn : dispatch_ok rt → target rt gid sid slot →
  slot_calls (pushed slot e) = slot_calls slot + 1 → slot_kib (pushed slot e) = slot_kib slot + permit e →
  slot_queued (pushed slot e) = slot_queued slot + 1 →
  spawn = (if slots rt !! sid is Some _ then false else true) →
  adm_ok (closed rt) (config rt) a (map_sum slot_calls (slots rt) + 1) (map_sum slot_kib (slots rt) + permit e) →
  StatsInner.queued s = StatsInner.queued (stats rt) → StatsInner.active_gids s = StatsInner.active_gids (stats rt) →
  let slots' := <[sid := pushed slot e]> (slots rt) in
  adm_ok (closed rt) (config rt) a (map_sum slot_calls slots') (map_sum slot_kib slots')
  ∧ incr (StatsInner.queued s) = wrap_u64 (map_sum slot_queued slots')
  ∧ (if spawn then incr (StatsInner.active_gids s) else StatsInner.active_gids s) = wrap_u64 (Z.of_nat (size slots')).
Proof.
  intros Hd Ht P1 P2 P3 Hspawn Hadm Hq Hact slots'. subst slots'. rewrite !(target_sum _ _ _ _ _ _ Ht) by done. split_and!.
  - rewrite P1, P2.
    replace (_ - slot_calls slot + (slot_calls slot + 1)) with (map_sum slot_calls (slots rt) + 1) by lia.
    replace (_ - slot_kib slot + (slot_kib slot + permit e)) with (map_sum slot_kib (slots rt) + permit e) by lia. done.
  - rewrite P3, Hq, (d_queued rt Hd). unfold incr, wrap_u64. rewrite Zplus_mod_idemp_l. f_equal. lia.
  - rewrite Hspawn, Hact, (d_active rt Hd). destruct (slots rt !! sid) as [s1|] eqn:Hs1.
    + by rewrite map_size_insert_Some by (by eexists).
    + rewrite map_size_insert_None by done. unfold incr, wrap_u64. rewrite Zplus_mod_idemp_l. f_equal. lia.
Qed.

Lemma dispatch_enqueue now gid k command rt : dispatch_ok rt → 1 <= k →
  Forall (λ s, s < sender command) (accepted rt).*2 → sender command < next_sender rt →
  dispatch_ok (enqueue now gid k command rt).1.
Proof.
  intros Hd Hk Hlt Hns. unfold enqueue. destruct (enqueue_target rt gid Hd) as (sid & slot & spawn & Ht & -> & Hspawn & Hdel).
  cbv beta iota. destruct (target_ok rt gid sid slot Hd Ht) as (Hslot & _ & _).
  case_if.
  { destruct spawn; (eapply (dispatch_refused rt); [done|..]); try done; try apply Hd. simpl. by apply Hdel. }
  apply orb_false_iff in E0 as [Hmc%Z.leb_gt Hmk%Z.ltb_ge].
  destruct (Admission.acquire k (admission rt) (stats rt)) as [[a s] r] eqn:Hacq.
  pose proof (acquire_spec _ _ _ _ _ k _ _ _ _ (d_config rt Hd) (d_adm rt Hd) ltac:(lia) Hacq) as (Hq & Hact & Hr).
  destruct r as [p|reason].
  - destruct Hr as (Hcl & -> & Hadm). set (e := mkEnvelope command k k now : Envelope).
    destruct (pushed_ok (config rt) slot e Hslot) as (Hok & P1 & P2 & P3 & P4); [split; simpl; lia|lia|simpl; lia|].
    destruct (pushed_sums rt gid sid slot e a s spawn Hd Ht P1 P2 P3 Hspawn Hadm Hq Hact) as (Hadm' & Hq' & Hact').
    eapply (dispatch_push rt _ gid sid slot e Hd Ht Hok); destruct spawn; simpl; try done; by destruct (slots rt !! sid).
  - assert (adm_ok (closed rt) (config rt) a (map_sum slot_calls (slots rt)) (map_sum slot_kib (slots rt))) as Hadm.
    { pose proof (d_adm rt Hd). destruct reason, Hr as [? ?]; by subst. }
    destruct spawn; (eapply (dispatch_refused rt); [done|..]); try done; simpl; by apply Hdel.
Qed.

Lemma dispatch_try_use now gid kib request rt : dispatch_ok rt → dispatch_ok (try_use now gid kib request rt).1.
Proof.
  intros Hd. unfold try_use. set (rt0 := on_next_sender (λ n, n + 1) rt).
  assert (dispatch_ok rt0) as Hd0 by (eapply (dispatch_refused rt rt0); try done; [simpl; lia|apply Hd]).
  assert (sender (command_of request (next_sender rt)) = next_sender rt) as Hc by by destruct request.
  pose proof (dispatch_enqueue now gid (Z.max kib 1) (command_of request (next_sender rt)) rt0 Hd0) as Hq.
  rewrite Hc in Hq. simpl in Hq.
  destruct (enqueue now gid (Z.max kib 1) _ rt0) as [rt1 [r|r]]; apply Hq; try lia; apply Hd.
Qed.

(** ** Every step *)

Lemma dispatch_new cfg rt : config_ok cfg → new cfg = Some rt → dispatch_ok rt.
Proof.
  intros Hc. unfold new. rewrite (proj1 Hc). intros [= <-].
  pose proof Hc as (Hv & Hkib & _). unfold LogicConfig.validate, is_u64 in *.
  split; simpl; try done.
  - intros gid sid. rewrite lookup_empty. split; [done|]. intros (s & Hs & _). by rewrite lookup_empty in Hs.
  - rewrite !map_sum_empty. split; simpl; lia || done.
  - split; constructor.
Qed.

Lemma exec_runner_dispatch now l sid rt rt' :
  exec_runner now l sid rt = Done rt' → dispatch_ok rt → dispatch_ok rt'.
Proof.
  unfold exec_runner. intros Hx Hd. destruct (slots rt !! sid) as [slot|] eqn:Hs; [|done].
  assert (moved sid slot rt rt' → dispatch_ok rt') as Hm by (by eapply dispatch_moved).
  destruct l, (phase (runner slot)) eqn:Hp; try done.
  - unfold take_next in Hx. destruct (queue (mailbox slot)) as [|next rest] eqn:Hq; [done|].
    injection Hx as <-. by eapply dispatch_pop; rewrite ?Hp.
  - by eapply Hm, cache_got_moved.
  - by eapply Hm, gate_locked_moved.
  - by eapply Hm, preloaded_moved.
  - by eapply Hm, saved_moved.
  - injection Hx as <-. by apply dispatch_complete.
  - injection Hx as <-. by apply dispatch_permit_dropped.
  - by eapply Hm, cache_set_moved.
  - unfold retire_or_take_next in Hx. destruct (directory rt !! _); [|done].
    destruct (queue (mailbox slot)) as [|next rest] eqn:Hq; injection Hx as <-.
    + by apply dispatch_retired.
    + by eapply dispatch_pop; rewrite ?Hp.
Qed.

Lemma saver_frame now tid s rt rt' :
  saver_advance now tid s rt = Done rt' ∨ (∃ o ok, saver_done now tid s o ok rt = Done rt') →
  full_frame rt' = full_frame rt.
Proof.
  intros [Hx|(o & ok & Hx)]; destruct s as [[|entry todo] locked|dirty locked started]; simpl in Hx; try done.
  - destruct (filter _ locked); injection Hx as <-; [apply unlock_all_frame|done].
  - destruct (cells rt !! entry.2) as [cell|]; [|done]. by destruct (save_gate cell); simplify_eq.
  - destruct (refresh_all now dirty _) as [rt1| |] eqn:Hr; simplify_eq. apply refresh_all_frame in Hr.
    etrans; [apply unlock_all_frame|]. rewrite Hr. by destruct (is_ok o).
Qed.

(** Shutdown closes the admission and leaves the state [Running] for good. *)
Lemma dispatch_shutdown rt rt' : dispatch_ok rt →
  config rt' = config rt → slots rt' = slots rt → directory rt' = directory rt →
  next_slot rt' = next_slot rt → next_sender rt' = next_sender rt →
  accepted rt' = accepted rt → answers rt' = answers rt →
  StatsInner.queued (stats rt') = StatsInner.queued (stats rt) →
  StatsInner.active_gids (stats rt') = StatsInner.active_gids (stats rt) →
  rt_state rt' ≠ RuntimeState.Running →
  admission rt' = Admission.close (admission rt)
  ∨ (rt_state rt ≠ RuntimeState.Running ∧ admission rt' = admission rt) →
  dispatch_ok rt'.
Proof.
  intros [Dc Ddir Dfresh Dslots Dadm Dq Da Dfifo Didle Dsend] E1 E2 E3 E4 E5 E6 E7 E8 E9 Hst Hadm.
  split; unfold answered in *; rewrite ?E1, ?E2, ?E3, ?E4, ?E5, ?E6, ?E7, ?E8, ?E9; try done.
  unfold closed in *. rewrite bool_decide_eq_false_2 by done. simpl.
  destruct Hadm as [->|[Hst' ->]]; [|by rewrite bool_decide_eq_false_2 in Dadm].
  destruct Dadm as [A1 A2 A3 A4 A5 A6]. pose proof (config_limits _ Dc) as (C1 & _).
  split; simpl; try done. rewrite A1. apply encode_calls_close. lia.
Qed.

(** Every step keeps the dispatch invariant. *)
Lemma exec_dispatch now l rt rt' : exec now l rt = Done rt' → dispatch_ok rt → dispatch_ok rt'.
Proof.
  intros Hx Hd. destruct l; simpl in Hx; try (by eapply exec_runner_dispatch).
  - injection Hx as <-. by apply dispatch_try_use.
  - case_match; [|done]. injection Hx as <-. by eapply dispatch_full_frame, Hd.
  - unfold saver_start in Hx. repeat case_match; simplify_eq. by eapply dispatch_full_frame, Hd.
  - destruct (savers rt !! tid); [|done]. eapply dispatch_full_frame, Hd. eapply saver_frame. by left.
  - destruct (savers rt !! tid); [|done]. eapply dispatch_full_frame, Hd. eapply saver_frame. by eauto.
  - injection Hx as <-. unfold shutdown_begin. destruct (rt_state rt) eqn:Hst; [| |done];
      apply (dispatch_shutdown rt); simpl; try done; try congruence; by left.
  - destruct (rt_state rt) eqn:Hst; [done| |done]. destruct (drained rt); [|done].
    destruct (shutdown_finish now flush_started flushed rt) as [[rt1 r]|] eqn:Hf; [|done]. injection Hx as <-.
    unfold shutdown_finish in Hf. repeat case_match; simplify_eq; (apply (dispatch_shutdown rt); simpl; try done; try congruence);
      right; (split; [congruence|done]).
Qed.
End dispatch.
