(* ===== verification/LogicCells.v ===== *)
(** Player cells in the Logic runtime: the invariant of dirty players, dirty
    slots, reservations and save gates, preserved by every step; with it, no
    step fails an assertion of the source. *)

From S2P Require Import Prelude Latency LogicStats LogicAdmission LogicRuntime LogicDispatch.
Import Outcome(Done, Panic, Blocked).

#[local] Arguments StatsInner.mark_dirty : simpl never.

(** A step that does not panic, and whose result satisfies [Q]. *)
Definition sat {S} (o : Outcome.t S) (Q : S → Prop) : Prop :=
  match o with Done s => Q s | Panic => False | Blocked => True end.

Lemma sat_mono {S} (o : Outcome.t S) (Q Q' : S → Prop) : sat o Q → (∀ s, Q s → Q' s) → sat o Q'.
Proof. destruct o; simpl; auto. Qed.

Section cells.
Context {P E R A F : Type} `{!LogicState P} `{!SaveEffect P} `{!UnstableSort (Z * Z) fst}.
Abbreviation Runtime := (@Runtime P E R A F).
Abbreviation KeySlot := (@KeySlot P R A F).
Abbreviation Envelope := (@Envelope P R A F).
Abbreviation Phase := (@Phase P R A F).
Abbreviation Label := (@Label P E R A F).
Implicit Types (rt : Runtime) (slot : KeySlot) (p : Phase) (cell : @PlayerCell P).

(** ** Dirty players and dirty slots *)

Definition b2z (b : bool) : Z := if b then 1 else 0.
Definition cell_slot cell : Z := b2z (dirty_slot cell).

(** The reservation a runner holds while its preload is pending. *)
Definition slot_reserved slot : Z :=
  match phase (runner slot) with Preloading _ _ _ b _ _ => b2z b | _ => 0 end.

(** Inside a step, [stale] are the cells whose state changed and whose slot
    and registry entry are still to be refreshed, and [r] the reservations. *)
Record cells_ok (stale : gset Z) (r : Z) rt : Prop := {
  c_count : DirtyAdmission.slots (dirty_admission rt) = map_sum cell_slot (cells rt) + r;
  c_reserved : 0 <= r;
  c_max : DirtyAdmission.slots (dirty_admission rt) <= DirtyAdmission.max (dirty_admission rt);
  c_config : DirtyAdmission.max (dirty_admission rt) = LogicConfig.max_dirty_players (config rt);
  c_dirty id cell : cells rt !! id = Some cell → id ∉ stale → is_dirty (state cell) = true → dirty_slot cell = true;
  c_registry id : id ∉ stale →
    is_Some (StatsInner.dirty_since (stats rt) !! id)
    ↔ ∃ cell, cells rt !! id = Some cell ∧ is_dirty (state cell) = true;
  c_ids id cell : cells rt !! id = Some cell → id < next_player_id rt
}.

(** What the operations on one cell leave alone. *)
Definition pframe rt := (config rt, slots rt, resident rt, savers rt, next_player_id rt, dirty_admission rt).
Definition pframe' rt := (config rt, slots rt, resident rt, savers rt, next_player_id rt).

Lemma cell_slot_nonneg (m : gmap Z PlayerCell) : map_Forall (λ _ c, 0 <= cell_slot c) m.
Proof. intros i c _. unfold cell_slot, b2z. destruct (dirty_slot c); lia. Qed.

Lemma dirty_since_mark id b now (s : StatsInner.t) id' :
  is_Some (StatsInner.dirty_since (StatsInner.mark_dirty id b now s) !! id')
  ↔ (if decide (id' = id) then b = true else is_Some (StatsInner.dirty_since s !! id')).
Proof.
  unfold StatsInner.mark_dirty.
  destruct (decide (id' = id)) as [->|Hne]; destruct b;
    destruct (StatsInner.dirty_since s !! id) as [t|] eqn:Hid; simpl;
    rewrite ?lookup_insert_eq, ?lookup_delete_eq, ?lookup_insert_ne, ?lookup_delete_ne, ?Hid by done;
    split; try done; try (intros _; by eexists); by intros [].
Qed.

Lemma not_stale (stale : gset Z) id id' : id' ∉ stale ∖ {[id]} → id' ≠ id → id' ∉ stale.
Proof. rewrite elem_of_difference, elem_of_singleton. tauto. Qed.

(** [refresh_dirty] on a cell that holds a slot if it is dirty. *)
Lemma refresh_dirty_sat now id cell stale r rt :
  cells_ok stale r rt → cells rt !! id = Some cell →
  (is_dirty (state cell) = true → dirty_slot cell = true) →
  sat (refresh_dirty now id rt) (λ rt',
    cells_ok (stale ∖ {[id]}) r rt' ∧ pframe' rt' = pframe' rt
    ∧ cells rt' = <[id := mkPlayerCell (state cell) (save_gate cell) (is_dirty (state cell))]> (cells rt)).
Proof.
  intros [C1 C2 C3 C4 C5 C6 C7] Hid Hdirty. unfold refresh_dirty. rewrite Hid.
  assert (∀ rt', cells rt' = <[id := mkPlayerCell (state cell) (save_gate cell) (is_dirty (state cell))]> (cells rt) →
    stats rt' = StatsInner.mark_dirty id (is_dirty (state cell)) now (stats rt) →
    config rt' = config rt → next_player_id rt' = next_player_id rt →
    DirtyAdmission.max (dirty_admission rt') = DirtyAdmission.max (dirty_admission rt) →
    DirtyAdmission.slots (dirty_admission rt')
      = DirtyAdmission.slots (dirty_admission rt) - cell_slot cell + b2z (is_dirty (state cell)) →
    cells_ok (stale ∖ {[id]}) r rt') as Hfin.
  { intros rt' E1 E2 E3 E4 E5 E6. split; rewrite ?E1, ?E2, ?E3, ?E4, ?E5, ?E6; try done.
    - rewrite (map_sum_update _ _ _ _ _ Hid), C1.
      change (cell_slot (mkPlayerCell _ _ ?b)) with (b2z b). lia.
    - destruct (is_dirty (state cell)); unfold cell_slot, b2z; [rewrite Hdirty by done; simpl; lia|].
      destruct (dirty_slot cell); simpl; lia.
    - intros id' cell' [[<- <-]|[Hne Hl]]%lookup_insert_Some Hst; [done|].
      apply (C5 id'); [done|]. by eapply not_stale.
    - intros id' Hst. rewrite dirty_since_mark. destruct (decide (id' = id)) as [->|Hne].
      + rewrite lookup_insert_eq. split; [intros Hd; by eexists|]. by intros (c & [= <-] & Hd).
      + rewrite lookup_insert_ne by done. apply C6. by eapply not_stale.
    - intros id' cell' [[<- <-]|[Hne Hl]]%lookup_insert_Some; by eapply C7. }
  destruct (is_dirty (state cell)) eqn:Hd.
  - rewrite Hdirty by done. simpl. split_and!; [apply Hfin|done|]; simpl; try done.
    + rewrite insert_id; [done|]. rewrite Hid. destruct cell; simpl in *. by rewrite Hdirty.
    + unfold cell_slot. rewrite Hdirty by done. simpl. lia.
    + rewrite insert_id; [done|]. rewrite Hid. destruct cell; simpl in *. by rewrite Hdirty.
  - destruct (dirty_slot cell) eqn:Hslot.
    + unfold DirtyAdmission.release.
      pose proof (map_sum_ge cell_slot _ _ _ (cell_slot_nonneg (cells rt)) Hid) as Hge.
      unfold cell_slot in Hge at 1. rewrite Hslot in Hge. simpl in Hge.
      case_if; [|lia]. simpl.
      split_and!; [apply Hfin|done|]; simpl; try done.
      * rewrite (alter_as_insert _ _ _ _ Hid). done.
      * unfold cell_slot. rewrite Hslot. simpl. lia.
      * rewrite (alter_as_insert _ _ _ _ Hid). done.
    + simpl. split_and!; [apply Hfin|done|]; simpl; try done.
      * rewrite insert_id; [done|]. rewrite Hid. destruct cell; simpl in *. by subst.
      * unfold cell_slot. rewrite Hslot. simpl. lia.
      * rewrite insert_id; [done|]. rewrite Hid. destruct cell; simpl in *. by subst.
Qed.

Lemma drop_reservation_sat b r rt : 0 <= r → cells_ok ∅ (r + b2z b) rt →
  sat (drop_reservation b rt) (λ rt', cells_ok ∅ r rt' ∧ pframe' rt' = pframe' rt ∧ cells rt' = cells rt).
Proof.
  intros Hr [C1 C2 C3 C4 C5 C6 C7]. unfold drop_reservation, DirtyAdmission.release.
  pose proof (map_sum_nonneg _ _ (cell_slot_nonneg (cells rt))). destruct b; simpl in *.
  - case_if; [|lia]. simpl. split_and!; [|done..]. split; simpl; try done; lia.
  - split_and!; [|done..]. split; simpl; try done; lia.
Qed.
(** A change of one cell's state makes it stale; a reservation can become the
    cell's slot. *)
Lemma cells_touch id cell cell' r r' rt rt' :
  cells_ok ∅ r rt → cells rt !! id = Some cell →
  cells rt' = <[id := cell']> (cells rt) → stats rt' = stats rt → config rt' = config rt →
  next_player_id rt' = next_player_id rt → dirty_admission rt' = dirty_admission rt →
  r - r' = cell_slot cell' - cell_slot cell → 0 <= r' →
  cells_ok {[id]} r' rt'.
Proof.
  intros [C1 C2 C3 C4 C5 C6 C7] Hid E1 E2 E3 E4 E5 Hr Hr'.
  split; rewrite ?E1, ?E2, ?E3, ?E4, ?E5; try done.
  - rewrite (map_sum_update _ _ _ _ _ Hid), C1. lia.
  - intros id' c [[<- <-]|[Hne Hl]]%lookup_insert_Some Hst; [by destruct Hst; apply elem_of_singleton|].
    by apply (C5 id').
  - intros id' Hst. rewrite elem_of_singleton in Hst. rewrite lookup_insert_ne by done. by apply C6.
  - intros id' c [[<- <-]|[Hne Hl]]%lookup_insert_Some; by eapply C7.
Qed.

(** [finish_logic] on a stale cell, with a reservation exactly when the cell
    had no slot. *)
Lemma finish_logic_sat now id b cell r rt :
  cells_ok {[id]} (r + b2z b) rt → 0 <= r → cells rt !! id = Some cell → b = negb (dirty_slot cell) →
  sat (finish_logic now id b rt) (λ rt',
    cells_ok ∅ r rt' ∧ pframe' rt' = pframe' rt
    ∧ cells rt' = <[id := mkPlayerCell (state cell) (save_gate cell) (is_dirty (state cell))]> (cells rt)).
Proof.
  intros Hc Hr Hid Hb. unfold finish_logic. rewrite Hid.
  assert ({[id]} ∖ {[id]} = (∅ : gset Z)) as Hdiff by apply difference_diag_L.
  destruct (is_dirty (state cell) && negb (dirty_slot cell)) eqn:Hdn.
  - apply andb_prop in Hdn as [Hd Hs]. rewrite Hs in Hb. subst b.
    pose proof Hc as [C1 C2 C3 C4 C5 C6 C7].
    eapply sat_mono; [eapply (refresh_dirty_sat now id (on_dirty_slot (λ _, true) cell) {[id]} r)|].
    + split; simpl; try done.
      * rewrite (alter_as_insert _ _ _ _ Hid), (map_sum_update _ _ _ _ _ Hid), C1.
        apply negb_true_iff in Hs. unfold cell_slot at 3 4. simpl. rewrite Hs. simpl. lia.
      * intros id' c. rewrite (alter_as_insert _ _ _ _ Hid).
        intros [[<- <-]|[Hne Hl]]%lookup_insert_Some Hst; [done|by apply (C5 id')].
      * intros id' Hst. rewrite (alter_as_insert _ _ _ _ Hid).
        rewrite lookup_insert_ne; [by apply C6|]. intros ->. by destruct Hst; apply elem_of_singleton.
      * intros id' c. rewrite (alter_as_insert _ _ _ _ Hid).
        intros [[<- <-]|[Hne Hl]]%lookup_insert_Some; by eapply C7.
    + simpl. by rewrite (alter_as_insert _ _ _ _ Hid), lookup_insert_eq.
    + done.
    + intros rt' (H1 & H2 & H3). rewrite Hdiff in H1. split_and!; [done|exact H2|].
      rewrite H3. simpl. by rewrite (alter_as_insert _ _ _ _ Hid), insert_insert_eq.
  - assert (is_dirty (state cell) = true → dirty_slot cell = true) as Hdirty.
    { intros Hd. rewrite Hd in Hdn. by destruct (dirty_slot cell). }
    case_if.
    2: { destruct b, (is_dirty (state cell)); try done. rewrite Hdirty in Hb by done. done. }
    pose proof (refresh_dirty_sat now id cell {[id]} _ rt Hc Hid Hdirty) as Hsat.
    destruct (refresh_dirty now id rt) as [rt1| |]; [|done..]. destruct Hsat as (H1 & H2 & H3).
    rewrite Hdiff in H1. eapply sat_mono; [by apply (drop_reservation_sat b r)|].
    intros rt' (H4 & H5 & H6). split_and!; [done|congruence|congruence].
Qed.

(** What the invariant of the cells reads, and its independence of gates. *)
Definition cframe rt :=
  (dirty_admission rt, config rt, StatsInner.dirty_since (stats rt)).

Lemma cells_gate stale r rt rt' id cell g : cells_ok stale r rt → cells rt !! id = Some cell →
  cells rt' = <[id := mkPlayerCell (state cell) g (dirty_slot cell)]> (cells rt) →
  cframe rt' = cframe rt → next_player_id rt <= next_player_id rt' → cells_ok stale r rt'.
Proof.
  intros [C1 C2 C3 C4 C5 C6 C7] Hid E1 Hf Hn. unfold cframe in Hf. injection Hf as F1 F2 F3.
  split; rewrite ?E1, ?F1, ?F2, ?F3; try done.
  - rewrite (map_sum_update _ _ _ _ _ Hid), C1.
    change (cell_slot (mkPlayerCell _ _ (dirty_slot cell))) with (cell_slot cell). lia.
  - intros id' c [[<- <-]|[Hne Hl]]%lookup_insert_Some Hst; [by apply (C5 id cell)|by apply (C5 id')].
  - intros id' Hst. rewrite C6 by done. split; intros (c & Hl & Hd).
    + destruct (decide (id' = id)) as [->|Hne]; [|exists c; by rewrite lookup_insert_ne].
      rewrite lookup_insert_eq. simplify_eq. by eexists.
    + destruct (decide (id' = id)) as [->|Hne]; [|exists c; by rewrite lookup_insert_ne in Hl].
      rewrite lookup_insert_eq in Hl. simplify_eq. by exists cell.
  - intros id' c [[<- <-]|[Hne Hl]]%lookup_insert_Some; [apply C7 in Hid; lia|].
    apply C7 in Hl. lia.
Qed.

Lemma cells_frame stale r rt rt' : cells_ok stale r rt → cells rt' = cells rt →
  cframe rt' = cframe rt → next_player_id rt <= next_player_id rt' → cells_ok stale r rt'.
Proof.
  intros [C1 C2 C3 C4 C5 C6 C7] E1 Hf Hn. unfold cframe in Hf. injection Hf as F1 F2 F3.
  split; rewrite ?E1, ?F1, ?F2, ?F3; try done.
  intros id c Hl. apply C7 in Hl. lia.
Qed.

(** The cell of a player at the end of its logic. *)
Definition after_logic (st : P) (gate : option Owner) : PlayerCell :=
  mkPlayerCell st (if is_dirty st then gate else None) (is_dirty st).

Lemma execute_sat now sid gid id e run b logic cell v st r rt :
  cells_ok ∅ (r + b2z b) rt → 0 <= r → cells rt !! id = Some cell → b = negb (dirty_slot cell) →
  logic (state cell) = Some (v, st) →
  sat (execute now sid gid id e run b logic rt) (λ rt', ∃ p,
    cells_ok ∅ r rt'
    ∧ (config rt', resident rt', savers rt', next_player_id rt') = (config rt, resident rt, savers rt, next_player_id rt)
    ∧ cells rt' = <[id := after_logic st (save_gate cell)]> (cells rt)
    ∧ slots rt' = alter (on_runner (λ r, mkRunner (runner_gid r) (player r) p)) sid (slots rt)
    ∧ match p with
      | Saving _ _ _ => is_dirty st = true
      | Completing _ => is_dirty st = false
      | _ => False
      end).
Proof.
  intros Hc Hr Hid Hb Hl. unfold execute. rewrite Hid, Hl.
  set (rt1 := on_cells (alter (on_state (λ _, st)) id) rt).
  assert (cells rt1 = <[id := on_state (λ _, st) cell]> (cells rt)) as Hc1 by apply (alter_as_insert _ _ _ _ Hid).
  assert (cells_ok {[id]} (r + b2z b) rt1) as Hok.
  { eapply (cells_touch id cell _ (r + b2z b)); try done; [unfold cell_slot; simpl; lia|destruct b; simpl; lia]. }
  pose proof (finish_logic_sat now id b (on_state (λ _, st) cell) r rt1 Hok Hr) as Hsat.
  destruct (finish_logic now id b rt1) as [rt2| |];
    [|by apply Hsat; [rewrite Hc1; apply lookup_insert_eq|]|done].
  destruct Hsat as (H1 & H2 & H3); [rewrite Hc1; apply lookup_insert_eq|done|].
  rewrite Hc1, insert_insert_eq in H3. unfold pframe' in H2. injection H2 as F1 F2 F3 F4 F5.
  simpl in H3. unfold after_logic. destruct (is_dirty st) eqn:Hd.
  - exists (Saving e v now). split_and!; [by eapply cells_frame|simpl; congruence|done| |done].
    simpl. by rewrite F2.
  - exists (Completing e).
    assert (cells (unlock_gate id rt2) = <[id := mkPlayerCell st None false]> (cells rt)) as Hun.
    { simpl. rewrite H3, (alter_as_insert _ _ _ _ (lookup_insert_eq _ _ _)). by rewrite insert_insert_eq. }
    split_and!; [|simpl; congruence|done| |done].
    + eapply (cells_gate ∅ r rt2 _ id (mkPlayerCell st (save_gate cell) false) None); try done.
      * rewrite H3. apply lookup_insert_eq.
      * change (cells (answer_envelope _ _ _ _ _ ?x)) with (cells x). simpl state. simpl dirty_slot.
        change (cells (unlock_gate id (record_run now run rt2))) with (cells (unlock_gate id rt2)).
        by rewrite Hun, H3, insert_insert_eq.
    + simpl. by rewrite F2.
Qed.
(** ** Save gates and the cache *)

Definition phase_ok rt (sid : Z) slot : Prop :=
  match phase (runner slot) with
  | Getting _ _ => player (runner slot) = None
  | Gating _ _ => is_Some (player (runner slot))
  | Preloading _ _ _ b _ _ =>
      ∃ id cell, player (runner slot) = Some id ∧ cells rt !! id = Some cell
        ∧ save_gate cell = Some (RunnerOf sid) ∧ b = negb (dirty_slot cell)
  | Saving _ _ _ =>
      ∃ id cell, player (runner slot) = Some id ∧ cells rt !! id = Some cell
        ∧ save_gate cell = Some (RunnerOf sid) ∧ dirty_slot cell = true
  | _ => True
  end.

Definition locked_by rt (tid : Z) (entry : Z * Z) : Prop :=
  ∃ cell, cells rt !! entry.2 = Some cell ∧ save_gate cell = Some (SaverTask tid).

Definition saver_ok rt (tid : Z) (s : Saver) : Prop :=
  match s with
  | Locking _ locked => Forall (locked_by rt tid) locked
  | Writing dirty locked _ =>
      Forall (locked_by rt tid) locked ∧ dirty ⊆ locked
      ∧ Forall (λ entry, ∃ cell, cells rt !! entry.2 = Some cell ∧ dirty_slot cell = true) dirty
  end.

Record gates_ok rt : Prop := {
  g_phase sid slot : slots rt !! sid = Some slot → phase_ok rt sid slot;
  g_cell sid slot id : slots rt !! sid = Some slot → player (runner slot) = Some id → is_Some (cells rt !! id);
  g_res gid id : resident rt !! gid = Some id → is_Some (cells rt !! id);
  g_claim sid slot id id' : slots rt !! sid = Some slot → player (runner slot) = Some id →
    resident rt !! runner_gid (runner slot) = Some id' → id' = id;
  g_savers tid s : savers rt !! tid = Some s → saver_ok rt tid s
}.

Definition players_ok rt : Prop :=
  cells_ok ∅ (map_sum slot_reserved (slots rt)) rt ∧ gates_ok rt.

(** Cells whose gate belongs to neither party survive its change. *)
Definition cells_kept (mine : option Owner → Prop) rt rt' : Prop :=
  ∀ id c, cells rt !! id = Some c → ∃ c', cells rt' !! id = Some c' ∧ (c' = c ∨ mine (save_gate c)).

Lemma phase_ok_kept mine rt rt' sid slot : cells_kept mine rt rt' → ¬ mine (Some (RunnerOf sid)) →
  phase_ok rt sid slot → phase_ok rt' sid slot.
Proof.
  intros Hk Hm. unfold phase_ok. destruct (phase (runner slot)); try done;
    intros (id & cell & H1 & H2 & H3 & H4); destruct (Hk id cell H2) as (c' & Hc' & [->|Hg]);
    (by exists id, cell) || (by rewrite H3 in Hg).
Qed.

Lemma saver_ok_kept mine rt rt' tid s : cells_kept mine rt rt' → ¬ mine (Some (SaverTask tid)) →
  saver_ok rt tid s → saver_ok rt' tid s.
Proof.
  intros Hk Hm.
  assert (∀ entry, locked_by rt tid entry → locked_by rt' tid entry) as Hl.
  { intros entry (cell & H1 & H2). destruct (Hk _ _ H1) as (c' & Hc' & [->|Hg]); [by exists cell|by rewrite H2 in Hg]. }
  unfold saver_ok. destruct s as [todo locked|dirty locked started].
  - intros H. eapply Forall_impl; [exact H|exact Hl].
  - intros (H1 & H2 & H3). split_and!; [eapply Forall_impl; [exact H1|exact Hl]|done|].
    rewrite Forall_forall in H3 |- *. rewrite Forall_forall in H1.
    intros entry Hin. destruct (H3 entry Hin) as (cell & Hc & Hd).
    destruct (H1 entry (H2 entry Hin)) as (cell' & Hc' & Hg). simplify_eq.
    destruct (Hk _ _ Hc) as (c' & Hc' & [->|Hg']); [by exists cell|by rewrite Hg in Hg'].
Qed.

(** A step of the runner of slot [sid]. *)
Lemma gates_step rt rt' sid slot slot' :
  gates_ok rt → slots rt !! sid = Some slot → slots rt' = <[sid := slot']> (slots rt) →
  savers rt' = savers rt →
  cells_kept (λ g, g = None ∨ g = Some (RunnerOf sid)) rt rt' →
  phase_ok rt' sid slot' →
  (∀ id, player (runner slot') = Some id → is_Some (cells rt' !! id)) →
  (∀ gid id, resident rt' !! gid = Some id → is_Some (cells rt' !! id)) →
  (∀ sid1 s1 id id', slots rt' !! sid1 = Some s1 → player (runner s1) = Some id →
     resident rt' !! runner_gid (runner s1) = Some id' → id' = id) →
  gates_ok rt'.
Proof.
  intros [G1 G2 G3 G4 G5] Hs Hslots Hsav Hk Hph Hpl Hres Hclaim. split; try done.
  - intros sid1 s1. rewrite Hslots. intros [[<- <-]|[Hne Hl]]%lookup_insert_Some; [done|].
    eapply phase_ok_kept; [exact Hk| |by apply G1]. intros [?|?]; congruence.
  - intros sid1 s1 id. rewrite Hslots. intros [[<- <-]|[Hne Hl]]%lookup_insert_Some; [apply Hpl|].
    intros Hp. destruct (G2 _ _ _ Hl Hp) as [c Hc]. destruct (Hk _ _ Hc) as (c' & -> & _). by eexists.
  - intros tid s. rewrite Hsav. intros Hl. eapply saver_ok_kept; [exact Hk| |by apply G5].
    intros [?|?]; congruence.
Qed.

(** Residents that were there before, and a runner that keeps its player. *)
Lemma claim_kept rt rt' sid slot slot' :
  gates_ok rt → slots rt !! sid = Some slot → slots rt' = <[sid := slot']> (slots rt) →
  runner_gid (runner slot') = runner_gid (runner slot) → player (runner slot') = player (runner slot) →
  resident rt' ⊆ resident rt →
  ∀ sid1 s1 id id', slots rt' !! sid1 = Some s1 → player (runner s1) = Some id →
     resident rt' !! runner_gid (runner s1) = Some id' → id' = id.
Proof.
  intros Hg Hs Hslots H1 H2 Hsub sid1 s1 id id'. rewrite Hslots. intros Hl Hp Hr.
  eapply lookup_weaken in Hr; [|exact Hsub].
  apply lookup_insert_Some in Hl as [[<- <-]|[Hne Hl]].
  - rewrite H1 in Hr. rewrite H2 in Hp. by eapply (g_claim rt Hg).
  - by eapply (g_claim rt Hg).
Qed.

Lemma res_kept mine rt rt' : gates_ok rt → cells_kept mine rt rt' → resident rt' ⊆ resident rt →
  ∀ gid id, resident rt' !! gid = Some id → is_Some (cells rt' !! id).
Proof.
  intros Hg Hk Hsub gid id Hr. eapply lookup_weaken in Hr; [|exact Hsub].
  destruct (g_res rt Hg _ _ Hr) as [c Hc]. destruct (Hk _ _ Hc) as (c' & -> & _). by eexists.
Qed.

Lemma cells_kept_refl mine rt rt' : cells rt' = cells rt → cells_kept mine rt rt'.
Proof. intros Hc id c Hl. exists c. rewrite Hc. auto. Qed.

Lemma cells_kept_insert (mine : option Owner → Prop) rt rt' id cell cell' :
  cells rt !! id = Some cell → mine (save_gate cell) → cells rt' = <[id := cell']> (cells rt) →
  cells_kept mine rt rt'.
Proof.
  intros Hid Hm Hc id' c Hl. rewrite Hc. destruct (decide (id' = id)) as [->|Hne].
  - rewrite lookup_insert_eq. simplify_eq. eauto.
  - rewrite lookup_insert_ne by done. eauto.
Qed.
(** ** The steps of a runner *)

(** Phases that ask nothing of the cells. *)
Definition phase_plain slot : Prop :=
  slot_reserved slot = 0
  ∧ match phase (runner slot) with
    | Getting _ _ => player (runner slot) = None
    | Gating _ _ => is_Some (player (runner slot))
    | Preloading _ _ _ _ _ _ | Saving _ _ _ => False
    | _ => True
    end.

Lemma phase_plain_ok rt sid slot : phase_plain slot → phase_ok rt sid slot.
Proof. unfold phase_plain, phase_ok. intros [_ ?]. by destruct (phase (runner slot)). Qed.

(** Only the slot changes, between phases that ask nothing of the cells. *)
Lemma players_slot rt rt' sid slot slot' :
  players_ok rt → slots rt !! sid = Some slot → slots rt' = <[sid := slot']> (slots rt) →
  slot_reserved slot = 0 → phase_plain slot' →
  cells rt' = cells rt → cframe rt' = cframe rt → next_player_id rt <= next_player_id rt' →
  savers rt' = savers rt → resident rt' ⊆ resident rt →
  runner_gid (runner slot') = runner_gid (runner slot) → player (runner slot') = player (runner slot) →
  players_ok rt'.
Proof.
  intros [Hc Hg] Hs Hslots Hr0 Hplain Hcells Hf Hn Hsav Hsub Hgid Hpl. split.
  - rewrite Hslots, (map_sum_update _ _ _ _ _ Hs), Hr0, (proj1 Hplain), Z.sub_0_r, Z.add_0_r.
    by eapply cells_frame.
  - eapply (gates_step rt rt' sid slot slot'); try done.
    + by apply cells_kept_refl.
    + by apply phase_plain_ok.
    + intros id Hp. rewrite Hcells. rewrite Hpl in Hp. by eapply (g_cell rt Hg).
    + eapply (res_kept (λ _, False)); [done|by apply cells_kept_refl|done].
    + by eapply claim_kept.
Qed.

Lemma begin_envelope_plain now sid r e rt slot : slots rt !! sid = Some slot →
  player r = player (runner slot) →
  ∃ slot', begin_envelope now sid r e rt
    = on_slots <[sid := slot']> (on_stats (StatsInner.on_queue_latency (λ l, record l (duration_since now (submitted_at e)))) rt)
    ∧ phase_plain slot' ∧ runner_gid (runner slot') = runner_gid (runner slot)
    ∧ player (runner slot') = player (runner slot).
Proof.
  intros Hs Hp. unfold begin_envelope, set_phase. rewrite Hp.
  destruct (player (runner slot)) as [id|] eqn:Hpl; eexists;
    (split; [unfold on_slots; simpl; by rewrite (alter_as_insert _ _ _ _ Hs)|]);
    (split_and!; [split; simpl; by rewrite ?Hpl|done|by simpl]).
Qed.

Lemma players_pop now sid slot next m rt rt' :
  players_ok rt → slots rt !! sid = Some slot → slot_reserved slot = 0 →
  rt' = begin_envelope now sid (runner slot) next
          (on_stats (StatsInner.on_queued decr) (on_slots (alter (on_mailbox (λ _, m)) sid) rt)) →
  players_ok rt'.
Proof.
  intros Hpl Hs Hr ->.
  edestruct (begin_envelope_plain now sid (runner slot) next
    (on_stats (StatsInner.on_queued decr) (on_slots (alter (on_mailbox (λ _, m)) sid) rt)) (on_mailbox (λ _, m) slot))
    as (slot' & -> & Hplain & H1 & H2).
  { simpl. rewrite (alter_as_insert _ _ _ _ Hs). apply lookup_insert_eq. }
  { done. }
  eapply (players_slot rt _ sid slot slot'); try done.
  simpl. rewrite (alter_as_insert _ _ _ _ Hs). apply insert_insert_eq.
Qed.

(** A runner whose logic ran: its cell and its slot change. *)
Lemma players_execute now sid slot e run b logic id cell rt rt0 :
  dispatch_ok rt0 → players_ok rt0 → slots rt0 !! sid = Some slot →
  player (runner slot) = Some id → cells rt0 !! id = Some cell →
  (save_gate cell = None ∨ save_gate cell = Some (RunnerOf sid)) → b = negb (dirty_slot cell) →
  slots rt = slots rt0 → savers rt = savers rt0 → resident rt = resident rt0 → config rt = config rt0 →
  cells rt = <[id := mkPlayerCell (state cell) (Some (RunnerOf sid)) (dirty_slot cell)]> (cells rt0) →
  cells_ok ∅ (map_sum slot_reserved (slots rt0) - slot_reserved slot + b2z b) rt →
  0 <= map_sum slot_reserved (slots rt0) - slot_reserved slot →
  is_Some (logic (state cell)) →
  sat (execute now sid (runner_gid (runner slot)) id e run b logic rt) players_ok.
Proof.
  intros Hd [Hc Hg] Hs Hpl Hid Hgate Hb E1 E2 E3 E4 Hcells Hok Hnn [[v st] Hl].
  eapply sat_mono.
  { eapply (execute_sat _ _ _ _ _ _ _ _ (mkPlayerCell (state cell) (Some (RunnerOf sid)) (dirty_slot cell))); [exact Hok|done| |done|exact Hl].
    rewrite Hcells. apply lookup_insert_eq. }
  intros rt' (p & H1 & H2 & H3 & H4 & H5). injection H2 as F1 F2 F3 F4.
  rewrite Hcells, insert_insert_eq in H3. simpl in H3. simpl in H5.
  rewrite E1, (alter_as_insert _ _ _ _ Hs) in H4.
  set (slot' := on_runner (λ r, mkRunner (runner_gid r) (player r) p) slot) in *.
  assert (cells_kept (λ g, g = None ∨ g = Some (RunnerOf sid)) rt0 rt') as Hk
    by (by eapply cells_kept_insert).
  split.
  - rewrite H4, (map_sum_update _ _ _ _ _ Hs). unfold slot_reserved at 3. simpl.
    destruct p; try done; by rewrite Z.add_0_r.
  - eapply (gates_step rt0 rt' sid slot slot'); try done; [congruence| | | |].
    + unfold phase_ok. subst slot'. simpl. destruct p; try done.
      exists id, (after_logic st (Some (RunnerOf sid))). rewrite H3, lookup_insert_eq.
      unfold after_logic. rewrite H5. done.
    + intros id' Hp'. subst slot'. simpl in Hp'. rewrite Hpl in Hp'. simplify_eq. rewrite H3, lookup_insert_eq. by eexists.
    + eapply (res_kept _ rt0 rt'); [done|exact Hk|]. by rewrite F2, E3.
    + eapply claim_kept; try done. by rewrite F2, E3.
Qed.
(** The runner of slot [sid] moves to phase [p] and may have changed the
    cells it owns. *)
Lemma gates_own rt rt' sid slot p :
  gates_ok rt → slots rt !! sid = Some slot →
  slots rt' = alter (on_runner (λ r, mkRunner (runner_gid r) (player r) p)) sid (slots rt) →
  savers rt' = savers rt → resident rt' ⊆ resident rt →
  cells_kept (λ g, g = None ∨ g = Some (RunnerOf sid)) rt rt' →
  phase_ok rt' sid (on_runner (λ r, mkRunner (runner_gid r) (player r) p) slot) →
  gates_ok rt'.
Proof.
  intros Hg Hs Hslots Hsav Hsub Hk Hph. rewrite (alter_as_insert _ _ _ _ Hs) in Hslots.
  eapply (gates_step rt rt' sid slot _ Hg Hs Hslots Hsav Hk Hph).
  - simpl. intros id Hp. destruct (g_cell rt Hg _ _ _ Hs Hp) as [c Hc].
    destruct (Hk _ _ Hc) as (c' & -> & _). by eexists.
  - by eapply res_kept.
  - by eapply (claim_kept rt rt' sid slot _ Hg Hs Hslots).
Qed.

Lemma acquire_cells r rt d s : config_ok (config rt) → cells_ok ∅ r rt →
  DirtyAdmission.acquire (dirty_admission rt) (stats rt) = Some (d, s) →
  cells_ok ∅ (r + 1) (on_stats (λ _, s) (on_dirty_admission (λ _, d) rt)).
Proof.
  intros (_ & _ & _ & _ & Hmax) [C1 C2 C3 C4 C5 C6 C7]. unfold DirtyAdmission.acquire, is_u64 in *.
  case_if; [|done]. intros [= <- <-]. apply Z.ltb_lt in E0.
  pose proof (map_sum_nonneg _ _ (cell_slot_nonneg (cells rt))).
  split; simpl; try done; try lia; rewrite wrap_u64_id; unfold is_u64; lia.
Qed.

Lemma reserved_rest rt sid slot : slots rt !! sid = Some slot →
  0 <= map_sum slot_reserved (slots rt) - slot_reserved slot.
Proof.
  intros Hs. rewrite <- (map_sum_delete _ _ _ _ Hs). apply map_sum_nonneg. intros i s _.
  unfold slot_reserved, b2z. destruct (phase (runner s)) as [| | | ? ? ? b | | | | |]; try lia. destruct b; lia.
Qed.

(** Whether the command panics, once it may run, on the state of the player. *)
Definition command_panics (c : @Command P R A F) (p : P) : bool :=
  match c with
  | TypedCommand logic _ => if logic p is None then true else false
  | TypedPreloadedCommand preload _ _ => if preload p is None then true else false
  end.

(** The command of the envelope of slot [sid] runs after the lock of the save
    gate, unless the dirty slots are exhausted, and panics. *)
Definition gate_locked_panics slot (e : Envelope) rt : bool :=
  match player (runner slot) ≫= (cells rt !!.) with
  | None => false
  | Some cell =>
      (dirty_slot cell || (if DirtyAdmission.acquire (dirty_admission rt) (stats rt) is Some _ then true else false))
      && command_panics (command e) (state cell)
  end.

(** The logic that takes the value of the preload panics. *)
Definition preloaded_panics slot (logic : A → P → option (R * P)) (outcome : Result E A) rt : bool :=
  match player (runner slot) ≫= (cells rt !!.), outcome with
  | Some cell, Ok value => if logic value (state cell) is None then true else false
  | _, _ => false
  end.

Lemma gate_locked_sat now sid slot e run rt :
  dispatch_ok rt → players_ok rt → slots rt !! sid = Some slot → phase (runner slot) = Gating e run →
  gate_locked_panics slot e rt = false →
  sat (gate_locked now sid slot e run rt) players_ok.
Proof.
  intros Hd [Hc Hg] Hs Hp. pose proof (g_phase rt Hg sid slot Hs) as Hph. unfold phase_ok in Hph. rewrite Hp in Hph.
  destruct Hph as [id Hpl]. unfold gate_locked, gate_locked_panics. rewrite Hpl. simpl.
  destruct (cells rt !! id) as [cell|] eqn:Hid; [|done]. intros Hrun. destruct (save_gate cell) eqn:Hgate; [done|].
  assert (slot_reserved slot = 0) as Hr0 by (unfold slot_reserved; by rewrite Hp).
  pose proof (reserved_rest rt sid slot Hs) as Hnn. rewrite Hr0 in Hnn.
  set (rt1 := lock_gate (RunnerOf sid) id rt).
  set (cell1 := mkPlayerCell (state cell) (Some (RunnerOf sid)) (dirty_slot cell)).
  assert (cells rt1 = <[id := cell1]> (cells rt)) as Hc1
    by (etrans; [exact (alter_as_insert _ _ _ _ Hid)|done]).
  assert (cells_ok ∅ (map_sum slot_reserved (slots rt)) rt1) as Hok1 by by eapply cells_gate.
  assert (∀ b rt2, b = negb (dirty_slot cell) → slots rt2 = slots rt → savers rt2 = savers rt →
    resident rt2 = resident rt → config rt2 = config rt → cells rt2 = cells rt1 →
    cells_ok ∅ (map_sum slot_reserved (slots rt) + b2z b) rt2 →
    command_panics (command e) (state cell) = false →
    sat match command e with
        | TypedCommand logic _ => execute now sid (runner_gid (runner slot)) id e run b logic rt2
        | TypedPreloadedCommand preload logic _ =>
            match preload (state cell) with
            | None => Panic
            | Some future =>
                Done (set_phase sid (Preloading e run logic b future now) (on_stats (StatsInner.on_preload_calls incr) rt2))
            end
        end players_ok) as Hgo.
  { intros b rt2 Hb E1 E2 E3 E4 E5 Hok2 Hret. rewrite Hc1 in E5. destruct (command e) as [logic sd|preload logic sd]; simpl in Hret.
    - eapply (players_execute now sid slot e run b logic id cell rt2 rt); try done; [by left| | |].
      + rewrite Hr0, Z.sub_0_r. done.
      + rewrite Hr0. done.
      + destruct (logic (state cell)); [by eexists|done].
    - destruct (preload (state cell)) as [future|]; [|done]. simpl. split.
      + simpl. rewrite E1, (alter_as_insert _ _ _ _ Hs), (map_sum_update _ _ _ _ _ Hs), Hr0, Z.sub_0_r.
        unfold slot_reserved at 2. simpl. by eapply cells_frame.
      + eapply (gates_own rt _ sid slot); simpl; [done|done|by rewrite E1|done|by rewrite E3| |].
        * eapply cells_kept_insert; [exact Hid|by left|exact E5].
        * exists id, cell1. simpl cells. rewrite E5, lookup_insert_eq. done. }
  destruct (dirty_slot cell) eqn:Hslot.
  { apply Hgo; try done. rewrite Z.add_0_r. done. }
  simpl in Hrun. change (dirty_admission rt1) with (dirty_admission rt). change (stats rt1) with (stats rt).
  destruct (DirtyAdmission.acquire (dirty_admission rt) (stats rt)) as [[d st]|] eqn:Hacq.
  - apply Hgo; try done. eapply acquire_cells; [apply Hd|exact Hok1|exact Hacq].
  - eapply (players_slot rt _ sid slot); [done|done|exact (alter_as_insert _ _ _ _ Hs)|done|done| |done..]. simpl.
    rewrite (alter_as_insert _ _ _ _ Hid), (alter_as_insert _ _ _ _ (lookup_insert_eq _ _ _)), insert_insert_eq.
    apply insert_id. rewrite Hid. destruct cell; simpl in *; by subst.
Qed.

Lemma preloaded_sat now sid slot e run logic b fut started outcome rt :
  dispatch_ok rt → players_ok rt → slots rt !! sid = Some slot →
  phase (runner slot) = Preloading e run logic b fut started →
  preloaded_panics slot logic outcome rt = false →
  sat (preloaded now sid slot e run logic b started outcome rt) players_ok.
Proof.
  intros Hd [Hc Hg] Hs Hp. pose proof (g_phase rt Hg sid slot Hs) as Hph. unfold phase_ok in Hph. rewrite Hp in Hph.
  destruct Hph as (id & cell & Hpl & Hid & Hgate & Hb). unfold preloaded, preloaded_panics. rewrite Hpl. simpl.
  rewrite Hid. intros Hret. assert (slot_reserved slot = b2z b) as Hr0 by (unfold slot_reserved; by rewrite Hp).
  pose proof (reserved_rest rt sid slot Hs) as Hnn.
  set (rt1 := on_stats (StatsInner.on_preload_latency (λ l, record l (duration_since now started))) rt).
  assert (cells_ok ∅ (map_sum slot_reserved (slots rt) - slot_reserved slot + b2z b) rt1) as Hok.
  { rewrite Hr0, Z.sub_add. by eapply cells_frame. }
  destruct outcome as [v|err].
  - eapply (players_execute now sid slot e run b (logic v) id cell rt1 rt); try done; [by right| |].
    + simpl. rewrite insert_id; [done|]. rewrite Hid. destruct cell; simpl in *; by subst.
    + destruct (logic v (state cell)); [by eexists|done].
  - pose proof (drop_reservation_sat b _ rt1 Hnn Hok) as Hsat.
    destruct (drop_reservation b rt1) as [rt2| |]; [|done..]. destruct Hsat as (H1 & H2 & H3).
    unfold pframe' in H2. injection H2 as F1 F2 F3 F4 F5. simpl.
    assert (cells rt2 !! id = Some cell) as Hid2 by by rewrite H3.
    split.
    + simpl. rewrite F2, (alter_as_insert _ _ _ _ Hs), (map_sum_update _ _ _ _ _ Hs).
      unfold slot_reserved at 3. simpl. rewrite Z.add_0_r.
      eapply (cells_gate ∅ _ rt2 _ id cell None); simpl; try done.
      etrans; [exact (alter_as_insert _ _ _ _ Hid2)|done].
    + assert (cells (unlock_gate id rt2) = <[id := mkPlayerCell (state cell) None (dirty_slot cell)]> (cells rt)) as Hcells.
      { simpl. rewrite (alter_as_insert _ _ _ _ Hid2), H3. done. }
      eapply (gates_own rt _ sid slot); simpl; [done|done|by rewrite F2|done|by rewrite F3| |done].
      eapply (cells_kept_insert _ rt); [exact Hid|by right|exact Hcells].
Qed.
Lemma saved_sat now sid slot e v started outcome rt :
  players_ok rt → slots rt !! sid = Some slot → phase (runner slot) = Saving e v started →
  sat (saved now sid slot e v started outcome rt) players_ok.
Proof.
  intros [Hc Hg] Hs Hp. pose proof (g_phase rt Hg sid slot Hs) as Hph. unfold phase_ok in Hph. rewrite Hp in Hph.
  destruct Hph as (id & cell & Hpl & Hid & Hgate & Hslot). unfold saved. rewrite Hpl.
  unfold save_returned. generalize (is_ok outcome). intros ok.
  set (cell1 := on_state (save_effect ok) cell).
  match goal with |- context [refresh_dirty now id ?x] => set (rt1 := x) end.
  assert (cells rt1 = <[id := cell1]> (cells rt)) as Hc1.
  { etrans; [|exact (alter_as_insert (on_state (save_effect ok)) _ _ _ Hid)]. subst rt1. by destruct ok. }
  assert (cells_ok {[id]} (map_sum slot_reserved (slots rt)) rt1) as Hok1.
  { eapply (cells_frame _ _ (on_cells (alter (on_state (save_effect ok)) id) rt)); [|by subst rt1; destruct ok..].
    eapply (cells_touch id cell cell1); try done.
    - by apply alter_as_insert.
    - unfold cell_slot. simpl. lia.
    - apply Hc. }
  assert (cells rt1 !! id = Some cell1) as Hid1 by (rewrite Hc1; apply lookup_insert_eq).
  assert (pframe' rt1 = pframe' rt) as Hf1 by (subst rt1; by destruct ok).
  pose proof (refresh_dirty_sat now id cell1 _ _ rt1 Hok1 Hid1 (λ _, Hslot)) as Hsat.
  destruct (refresh_dirty now id rt1) as [rt2| |]; [|done..]. destruct Hsat as (H1 & H2 & H3).
  rewrite difference_diag_L in H1. rewrite Hf1 in H2. unfold pframe' in H2. injection H2 as F1 F2 F3 F4 F5.
  rewrite Hc1, insert_insert_eq in H3. simpl. clear Hok1 Hid1 Hf1 Hc1.
  set (cell2 := mkPlayerCell (state cell1) (save_gate cell1) (is_dirty (state cell1))) in *.
  assert (cells rt2 !! id = Some cell2) as Hid2 by (rewrite H3; apply lookup_insert_eq).
  assert (slot_reserved slot = 0) as Hr0 by (unfold slot_reserved; by rewrite Hp).
  split.
  - simpl. rewrite F2, (alter_as_insert _ _ _ _ Hs), (map_sum_update _ _ _ _ _ Hs), Hr0, Z.sub_0_r, Z.add_0_r.
    eapply (cells_gate ∅ _ rt2 _ id cell2 None); simpl; try done.
    etrans; [exact (alter_as_insert _ _ _ _ Hid2)|done].
  - assert (cells (unlock_gate id rt2) = <[id := mkPlayerCell (state cell2) None (dirty_slot cell2)]> (cells rt)) as Hcells.
    { simpl. rewrite (alter_as_insert _ _ _ _ Hid2), H3, insert_insert_eq. done. }
    eapply (gates_own rt _ sid slot); simpl; [done|done|by rewrite F2|done|by rewrite F3| |done].
    eapply (cells_kept_insert _ rt); [exact Hid|by right|exact Hcells].
Qed.

(** A player has one runner. *)
Lemma runner_unique rt sid sid' slot slot' : dispatch_ok rt → slots rt !! sid = Some slot → slots rt !! sid' = Some slot' →
  runner_gid (runner slot') = runner_gid (runner slot) → sid' = sid.
Proof.
  intros Hd H1 H2 Heq.
  assert (directory rt !! runner_gid (runner slot) = Some sid') as D1 by (apply (d_dir rt Hd); by exists slot').
  assert (directory rt !! runner_gid (runner slot) = Some sid) as D2 by (apply (d_dir rt Hd); by exists slot).
  congruence.
Qed.

(** The cache answered: the runner learns its player. *)
Definition with_player (id : Z) (e : Envelope) (run : Z) slot : KeySlot :=
  mkKeySlot (mailbox slot) (mkRunner (runner_gid (runner slot)) (Some id) (Gating e run)).

Lemma cache_hit_sat sid slot e run id resident' rt rt' :
  players_ok rt → slots rt !! sid = Some slot → phase (runner slot) = Getting e run →
  resident rt !! runner_gid (runner slot) = Some id → resident' ⊆ resident rt →
  slots rt' = <[sid := with_player id e run slot]> (slots rt) → resident rt' = resident' → cells rt' = cells rt →
  savers rt' = savers rt → cframe rt' = cframe rt → next_player_id rt' = next_player_id rt →
  players_ok rt'.
Proof.
  intros [Hc Hg] Hs Hp Hres Hsub Hsl Hr Hcl Hsv Hcf Hn.
  assert (slot_reserved slot = 0) as Hr0 by (unfold slot_reserved; by rewrite Hp). split.
  - rewrite Hsl, (map_sum_update _ _ _ _ _ Hs), Hr0, Z.sub_0_r, Z.add_0_r. eapply cells_frame; try done. lia.
  - eapply (gates_step rt _ sid slot (with_player id e run slot)); rewrite ?Hsl, ?Hr; try done.
    + by apply cells_kept_refl.
    + by eexists.
    + intros id' [= <-]. rewrite Hcl. by eapply (g_res rt Hg).
    + intros gid id' Hr'. rewrite Hcl. eapply (g_res rt Hg), lookup_weaken; done.
    + intros sid1 s1 id1 id2 [[<- <-]|[Hne Hl]]%lookup_insert_Some Hpl Hr'; (eapply lookup_weaken in Hr'; [|exact Hsub]).
      * simpl in *. simplify_eq. done.
      * by eapply (g_claim rt Hg).
Qed.

(** A loaded player gets a cell of his own. *)
Lemma loaded_cells q now rt rt' : let id := next_player_id rt in
  ∀ r, cells_ok ∅ r rt → is_dirty q = false → cells rt' = <[id := mkPlayerCell q None false]> (cells rt) →
  config rt' = config rt → dirty_admission rt' = dirty_admission rt → next_player_id rt' = id + 1 →
  (∃ s, stats rt' = StatsInner.mark_dirty id false now s ∧ StatsInner.dirty_since s = StatsInner.dirty_since (stats rt)) →
  cells_ok ∅ r rt'.
Proof.
  intros id r [C1 C2 C3 C4 C5 C6 C7] Hq Hcl E1 E2 E3 (s & E4 & E5).
  assert (cells rt !! id = None) as Hnone.
  { destruct (cells rt !! id) as [c|] eqn:Hcell; [|done]. apply C7 in Hcell. lia. }
  split; rewrite ?Hcl, ?E1, ?E2, ?E3, ?E4; try done.
  - rewrite map_sum_insert by done. unfold cell_slot at 1. simpl. lia.
  - intros id1 c [[<- <-]|[Hne Hl]]%lookup_insert_Some _; [|by apply (C5 id1)]. simpl. by rewrite Hq.
  - intros id1 _. rewrite dirty_since_mark, E5. destruct (decide (id1 = id)) as [->|Hne].
    + rewrite lookup_insert_eq. split; [done|]. intros (c & [= <-] & Hd'). simpl in Hd'. congruence.
    + rewrite lookup_insert_ne by done. by apply C6.
  - intros id1 c [[<- <-]|[Hne Hl]]%lookup_insert_Some; [lia|]. apply C7 in Hl. lia.
Qed.

Lemma loaded_gates sid slot e run q resident' rt rt' : let id := next_player_id rt in
  dispatch_ok rt → players_ok rt → slots rt !! sid = Some slot → phase (runner slot) = Getting e run →
  resident rt !! runner_gid (runner slot) = None → resident' ⊆ <[runner_gid (runner slot) := id]> (resident rt) →
  slots rt' = <[sid := with_player id e run slot]> (slots rt) → resident rt' = resident' →
  cells rt' = <[id := mkPlayerCell q None false]> (cells rt) → savers rt' = savers rt →
  gates_ok rt'.
Proof.
  intros id Hd [Hc Hg] Hs Hp Hres Hsub Hsl Hr Hcl Hsv.
  assert (cells rt !! id = None) as Hnone.
  { destruct (cells rt !! id) as [c|] eqn:Hcell; [|done]. apply (c_ids _ _ _ Hc) in Hcell. lia. }
  assert (∀ gid, resident' !! gid = Some id ∧ gid = runner_gid (runner slot)
            ∨ resident' !! gid = resident rt !! gid ∨ resident' !! gid = None) as Hr'.
  { intros gid. destruct (resident' !! gid) as [x|] eqn:Hx; [|tauto].
    eapply lookup_weaken in Hx as Hx'; [|exact Hsub].
    apply lookup_insert_Some in Hx' as [[<- <-]|[Hne Hl]]; [tauto|]. rewrite Hl. tauto. }
  assert (∀ x, is_Some (cells rt !! x) → is_Some (cells rt' !! x)) as Hmono.
  { intros x Hx. rewrite Hcl, lookup_insert_is_Some'. by right. }
  eapply (gates_step rt _ sid slot (with_player id e run slot)); rewrite ?Hsl, ?Hr; try done.
  - intros x c Hx. exists c. rewrite Hcl, lookup_insert_ne; [auto|]. congruence.
  - by eexists.
  - intros x [= <-]. rewrite Hcl, lookup_insert_eq. by eexists.
  - intros gid x Hx. destruct (Hr' gid) as [[Hg1 _]|[Hg1|Hg1]]; rewrite Hx in Hg1; simplify_eq.
    + rewrite Hcl, lookup_insert_eq. by eexists.
    + symmetry in Hg1. by eapply Hmono, (g_res rt Hg).
  - intros sid1 s1 x x' [[<- <-]|[Hne Hl]]%lookup_insert_Some Hpl Hx.
    + simpl in *. destruct (Hr' (runner_gid (runner slot))) as [[Hg1 _]|[Hg1|Hg1]]; congruence.
    + destruct (Hr' (runner_gid (runner s1))) as [[Hg1 Hg2]|[Hg1|Hg1]];
        [by destruct Hne; symmetry; eapply (runner_unique rt sid)| |congruence].
      rewrite Hx in Hg1. symmetry in Hg1. by eapply (g_claim rt Hg).
Qed.

Lemma cache_got_sat now sid slot e run got resident' rt :
  dispatch_ok rt → players_ok rt → slots rt !! sid = Some slot → phase (runner slot) = Getting e run →
  match got with
  | Hit _ => True
  | Loaded p => is_dirty p = false
  | GetFailed _ err => map_cache_error err ≠ None
  end →
  sat (cache_got now sid slot e run got resident' rt) players_ok.
Proof.
  intros Hd Hpl Hs Hp Hgot. unfold cache_got.
  destruct got as [id|q|load err], (resident rt !! runner_gid (runner slot)) as [id'|] eqn:Hres; try done.
  - case_if; [|done]. apply andb_prop in E0 as [->%bool_decide_eq_true Hsub%bool_decide_eq_true].
    eapply (cache_hit_sat sid slot e run id'); try done. simpl. by rewrite (alter_as_insert _ _ _ _ Hs).
  - case_if; [|done]. apply bool_decide_eq_true in E0 as Hsub. rewrite Hgot. split.
    + simpl. rewrite (alter_as_insert _ _ _ _ Hs), (map_sum_update _ _ _ _ _ Hs).
      assert (slot_reserved slot = 0) as -> by (unfold slot_reserved; by rewrite Hp). rewrite Z.sub_0_r, Z.add_0_r.
      eapply (loaded_cells q now rt); try done; [apply Hpl|]. by eexists.
    + eapply (loaded_gates sid slot e run q); try done. simpl. by rewrite (alter_as_insert _ _ _ _ Hs).
  - destruct (map_cache_error err) as [err'|]; [|done]. case_if; [|done]. apply bool_decide_eq_true in E0 as Hsub.
    assert (slot_reserved slot = 0) as Hr0 by (unfold slot_reserved; by rewrite Hp).
    destruct load;
      (eapply (players_slot rt _ sid slot);
       [done|done|exact (alter_as_insert _ _ _ _ Hs)|done|first [done|exact Hsub|simpl; lia]..]).
Qed.

Lemma cache_set_sat sid slot resident' rt :
  dispatch_ok rt → players_ok rt → slots rt !! sid = Some slot → phase (runner slot) = Retiring →
  sat (cache_set sid slot resident' rt) players_ok.
Proof.
  intros Hd [Hc Hg] Hs Hp. assert (slot_reserved slot = 0) as Hr0 by (unfold slot_reserved; by rewrite Hp).
  unfold cache_set. destruct (player (runner slot)) as [id|] eqn:Hpl.
  2: { eapply (players_slot rt _ sid slot); [done|done|exact (alter_as_insert _ _ _ _ Hs)|done|done..]. }
  destruct (resident rt !! runner_gid (runner slot)) as [id'|] eqn:Hres.
  - rewrite (g_claim rt Hg sid slot id id' Hs Hpl Hres). rewrite bool_decide_eq_true_2 by done.
    eapply (players_slot rt _ sid slot); [done|done|exact (alter_as_insert _ _ _ _ Hs)|done|done..].
  - case_if; [|done]. apply bool_decide_eq_true in E0 as Hsub.
    assert (∀ sid1 s1, slots rt !! sid1 = Some s1 → runner_gid (runner s1) = runner_gid (runner slot) → sid1 = sid) as Huniq.
    { intros sid1 s1 H1 H2.
      assert (directory rt !! runner_gid (runner slot) = Some sid1) as D1 by (apply (d_dir rt Hd); by exists s1).
      assert (directory rt !! runner_gid (runner slot) = Some sid) as D2 by (apply (d_dir rt Hd); by exists slot).
      congruence. }
    simpl. split.
    + simpl. rewrite (alter_as_insert _ _ _ _ Hs), (map_sum_update _ _ _ _ _ Hs), Hr0, Z.sub_0_r, Z.add_0_r.
      by eapply cells_frame.
    + eapply (gates_step rt _ sid slot (on_runner (λ r, mkRunner (runner_gid r) (player r) Leaving) slot));
        simpl; rewrite ?(alter_as_insert _ _ _ _ Hs); try done.
      * by apply cells_kept_refl.
      * intros x Hx. by eapply (g_cell rt Hg).
      * intros gid x Hr. eapply lookup_weaken in Hr; [|exact Hsub].
        apply lookup_insert_Some in Hr as [[<- <-]|[Hne Hl]]; [by eapply (g_cell rt Hg)|by eapply (g_res rt Hg)].
      * intros sid1 s1 x x' Hl Hx Hr. eapply lookup_weaken in Hr; [|exact Hsub].
        apply lookup_insert_Some in Hr as [[Hge <-]|[Hne Hr]].
        -- apply lookup_insert_Some in Hl as [[<- <-]|[Hne Hl]]; [simpl in Hx; congruence|].
           destruct Hne. symmetry. by eapply Huniq.
        -- apply lookup_insert_Some in Hl as [[<- <-]|[Hne' Hl]]; [done|]. by eapply (g_claim rt Hg).
Qed.

Lemma take_next_sat now sid slot rt :
  dispatch_ok rt → players_ok rt → slots rt !! sid = Some slot → phase (runner slot) = Spawned →
  sat (take_next now sid slot rt) players_ok.
Proof.
  intros Hd Hpl Hs Hp. unfold take_next.
  destruct (queue (mailbox slot)) as [|next rest] eqn:Hq.
  { by destruct (s_spawned _ _ (d_slots rt Hd _ _ Hs) Hp). }
  simpl. eapply players_pop; [done|done| |done]. unfold slot_reserved. by rewrite Hp.
Qed.

Lemma complete_sat sid slot e rt :
  players_ok rt → slots rt !! sid = Some slot → phase (runner slot) = Completing e →
  players_ok (complete_and_take_next sid slot e rt).
Proof.
  intros Hpl Hs Hp. assert (slot_reserved slot = 0) as Hr0 by (unfold slot_reserved; by rewrite Hp).
  unfold complete_and_take_next. destruct (queue (mailbox slot)) as [|next rest];
    (eapply (players_slot rt _ sid slot); [done|done| |done|..]; simpl;
     [rewrite (alter_as_insert _ _ _ _ Hs), (alter_as_insert _ _ _ _ (lookup_insert_eq _ _ _)); apply insert_insert_eq
     |done..]).
Qed.

Lemma permit_dropped_sat now sid slot k next rt :
  players_ok rt → slots rt !! sid = Some slot → phase (runner slot) = Releasing k next →
  players_ok (permit_dropped now sid slot k next rt).
Proof.
  intros Hpl Hs Hp. assert (slot_reserved slot = 0) as Hr0 by (unfold slot_reserved; by rewrite Hp).
  unfold permit_dropped. destruct next as [e|].
  - edestruct (begin_envelope_plain now sid (runner slot) e (on_admission (Admission.drop_permit k) rt) slot)
      as (slot' & -> & Hplain & H1 & H2); [done|done|].
    by eapply (players_slot rt _ sid slot slot').
  - eapply (players_slot rt _ sid slot); [done|done|exact (alter_as_insert _ _ _ _ Hs)|done|done..].
Qed.

Lemma retire_sat now sid slot rt :
  dispatch_ok rt → players_ok rt → slots rt !! sid = Some slot → phase (runner slot) = Leaving →
  sat (retire_or_take_next now sid slot rt) players_ok.
Proof.
  intros Hd Hpl Hs Hp. assert (slot_reserved slot = 0) as Hr0 by (unfold slot_reserved; by rewrite Hp).
  unfold retire_or_take_next.
  assert (directory rt !! runner_gid (runner slot) = Some sid) as -> by (apply (d_dir rt Hd); by exists slot).
  destruct (queue (mailbox slot)) as [|next rest].
  - simpl. destruct Hpl as [Hc [G1 G2 G3 G4 G5]]. split.
    + simpl. rewrite (map_sum_delete _ _ _ _ Hs), Hr0, Z.sub_0_r. by eapply cells_frame.
    + split; simpl; try done.
      * intros sid1 s1 [_ Hl]%lookup_delete_Some. by eapply phase_ok_kept, G1; [apply (cells_kept_refl (λ _, False))|auto|].
      * intros sid1 s1 id [_ Hl]%lookup_delete_Some. by apply (G2 sid1 s1).
      * intros sid1 s1 id id' [_ Hl]%lookup_delete_Some. by apply (G4 sid1 s1).
  - simpl. by eapply players_pop.
Qed.
(** ** Callers, cache tasks and shutdown *)

Lemma acquire_dirty_since k a s a' s' r : Admission.acquire k a s = (a', s', r) →
  StatsInner.dirty_since s' = StatsInner.dirty_since s.
Proof.
  unfold Admission.acquire. destruct (Admission.admit_call a) as [a1|reason].
  - by destruct (Admission.admit_kib k a1); intros [= <- <- <-].
  - by destruct reason; intros [= <- <- <-].
Qed.

(** A submission touches at most the mailbox of its player's slot. *)
Lemma try_use_shape now gid kib request rt : dispatch_ok rt →
  let rt' := (try_use now gid kib request rt).1 in
  cells rt' = cells rt ∧ cframe rt' = cframe rt ∧ next_player_id rt' = next_player_id rt
  ∧ savers rt' = savers rt ∧ resident rt' = resident rt
  ∧ (slots rt' = slots rt
     ∨ ∃ sid slot m, target rt gid sid slot ∧ slots rt' = <[sid := mkKeySlot m (runner slot)]> (slots rt)).
Proof.
  intros Hd rt'. subst rt'. unfold try_use, enqueue.
  set (fresh := mkKeySlot (mkMailbox [] 0 0) (mkRunner gid None Spawned) : KeySlot).
  destruct (directory rt !! gid) as [sid|] eqn:Hdir; simpl; rewrite Hdir.
  - pose proof Hdir as (slot & Hs & Hg)%(d_dir rt Hd). rewrite Hs. simpl.
    case_if; [simpl; split_and!; [done..|by left]|].
    destruct (Admission.acquire _ (admission rt) (stats rt)) as [[a s] r] eqn:Hacq.
    apply acquire_dirty_since in Hacq. unfold cframe. destruct r; simpl; rewrite Hacq; (split_and!; [done..|]).
    + right. exists sid, slot. eexists. split; [split; [done|by left]|done].
    + by left.
  - case_if; [simpl; split_and!; [done..|by left]|].
    destruct (Admission.acquire _ (admission rt) (stats rt)) as [[a s] r] eqn:Hacq.
    apply acquire_dirty_since in Hacq. unfold cframe. destruct r; simpl; rewrite Hacq; (split_and!; [done..|]).
    + right. exists (next_slot rt), fresh. eexists. split; [|done]. split; [done|right].
      split_and!; [done| |done|done].
      destruct (slots rt !! next_slot rt) as [s1|] eqn:Hs; [|done]. apply (d_fresh rt Hd) in Hs. lia.
    + by left.
Qed.

Lemma try_use_players now gid kib request rt : dispatch_ok rt → players_ok rt →
  players_ok (try_use now gid kib request rt).1.
Proof.
  intros Hd [Hc Hg]. destruct (try_use_shape now gid kib request rt Hd) as (E1 & E2 & E3 & E4 & E5 & E6).
  set (rt' := (try_use now gid kib request rt).1) in *. clearbody rt'.
  assert (cells_ok ∅ (map_sum slot_reserved (slots rt)) rt') as Hc' 
    by (apply (cells_frame ∅ _ rt rt' Hc E1 E2); lia).
  destruct Hg as [G1 G2 G3 G4 G5].
  destruct E6 as [E6|(sid & slot & m & Ht & E6)].
  - split; [by rewrite E6|]. split; rewrite ?E1, ?E4, ?E5, ?E6; try done.
    + intros sid s Hl. by eapply (phase_ok_kept (λ _, False)), G1; [apply cells_kept_refl|auto|].
    + intros tid s Hl. by eapply (saver_ok_kept (λ _, False)), G5; [apply cells_kept_refl|auto|].
  - assert (slot_reserved (mkKeySlot m (runner slot)) = slot_reserved slot) as Hr by done.
    assert (map_sum slot_reserved (slots rt') = map_sum slot_reserved (slots rt)) as Hsum.
    { rewrite E6, (target_sum _ _ _ _ _ _ Ht), Hr by done. lia. }
    assert (∀ sid1 s1, slots rt' !! sid1 = Some s1 →
      (∃ s0, slots rt !! sid1 = Some s0 ∧ runner s0 = runner s1)
      ∨ player (runner s1) = None ∧ phase (runner s1) = Spawned) as Hrun.
    { intros sid1 s1. rewrite E6. intros [[<- <-]|[Hne Hl]]%lookup_insert_Some; [|left; by exists s1].
      destruct Ht as [_ [Hs|(-> & _)]]; [left; by exists slot|right; done]. }
    split; [by rewrite Hsum|]. split; rewrite ?E1, ?E4, ?E5; try done.
    + intros sid1 s1 Hl. destruct (Hrun _ _ Hl) as [(s0 & Hs0 & Hr0)|[_ Hp]]; [|unfold phase_ok; by rewrite Hp].
      assert (phase_ok rt' sid1 s0) as Hp by (eapply (phase_ok_kept (λ _, False)), G1; [by apply cells_kept_refl|auto|done]).
      unfold phase_ok in *. by rewrite <- Hr0.
    + intros sid1 s1 id Hl Hp. destruct (Hrun _ _ Hl) as [(s0 & Hs0 & Hr0)|[Hn _]]; [|congruence].
      apply (G2 sid1 s0); [done|by rewrite Hr0].
    + intros sid1 s1 id id' Hl Hp. destruct (Hrun _ _ Hl) as [(s0 & Hs0 & Hr0)|[Hn _]]; [|congruence].
      rewrite <- Hr0 in *. by apply (G4 sid1 s0).
    + intros tid s Hl. by eapply (saver_ok_kept (λ _, False)), G5; [apply cells_kept_refl|auto|].
Qed.

(** A task of the cache changed cells whose gates it holds or takes. *)
Lemma gates_saver rt rt' tid s :
  gates_ok rt → slots rt' = slots rt → resident rt' = resident rt →
  cells_kept (λ g, g = None ∨ g = Some (SaverTask tid)) rt rt' →
  (savers rt' = <[tid := s]> (savers rt) ∧ saver_ok rt' tid s ∨ savers rt' = delete tid (savers rt)) →
  gates_ok rt'.
Proof.
  intros [G1 G2 G3 G4 G5] E1 E2 Hk Hsav.
  assert (∀ id, is_Some (cells rt !! id) → is_Some (cells rt' !! id)) as Hmono.
  { intros id [c Hc]. destruct (Hk _ _ Hc) as (c' & -> & _). by eexists. }
  split; rewrite ?E1, ?E2; try done.
  - intros sid slot Hs. eapply phase_ok_kept; [exact Hk| |by apply G1]. intros [?|?]; congruence.
  - intros sid slot id Hs Hp. apply Hmono. by eapply G2.
  - intros gid id Hr. apply Hmono. by eapply G3.
  - intros tid1 s1 Hl. destruct (decide (tid1 = tid)) as [->|Hne].
    + destruct Hsav as [[Hsav Hok]|Hsav]; rewrite Hsav in Hl.
      * rewrite lookup_insert_eq in Hl. by simplify_eq.
      * by rewrite lookup_delete_eq in Hl.
    + eapply saver_ok_kept; [exact Hk|intros [?|?]; congruence|]. apply G5.
      destruct Hsav as [[Hsav _]|Hsav]; rewrite Hsav in Hl;
        [by rewrite lookup_insert_ne in Hl|by rewrite lookup_delete_ne in Hl].
Qed.
(** *** The savers of the cache *)

(** The cells keep their gates, and those outside [ids] do not change. *)
Definition same_gates (ids : list Z) rt rt' : Prop :=
  ∀ id c, cells rt !! id = Some c →
    ∃ c', cells rt' !! id = Some c' ∧ save_gate c' = save_gate c ∧ (c' = c ∨ id ∈ ids).

Lemma same_gates_trans ids rt1 rt2 rt3 : same_gates ids rt1 rt2 → same_gates ids rt2 rt3 → same_gates ids rt1 rt3.
Proof.
  intros H1 H2 id c Hc. destruct (H1 id c Hc) as (c1 & Hc1 & Hg1 & Ho1).
  destruct (H2 id c1 Hc1) as (c2 & Hc2 & Hg2 & Ho2). exists c2.
  split_and!; [done|congruence|]. destruct Ho1 as [->|]; auto.
Qed.

Lemma same_gates_kept (mine : option Owner → Prop) ids rt rt' : same_gates ids rt rt' →
  (∀ id c, cells rt !! id = Some c → id ∈ ids → mine (save_gate c)) → cells_kept mine rt rt'.
Proof.
  intros Hs Hm id c Hc. destruct (Hs id c Hc) as (c' & Hc' & _ & [->|Hin]); [by exists c; auto|].
  exists c'. split; [done|]. right. by eapply Hm.
Qed.

Lemma touch_state stale r rt id cell (f : P → P) :
  cells_ok stale r rt → cells rt !! id = Some cell →
  cells_ok ({[id]} ∪ stale) r (on_cells (alter (on_state f) id) rt).
Proof.
  intros [C1 C2 C3 C4 C5 C6 C7] Hid. pose proof (alter_as_insert (on_state f) _ _ _ Hid) as Hal.
  split; simpl; rewrite ?Hal; try done.
  - rewrite (map_sum_update _ _ _ _ _ Hid), C1.
    change (cell_slot (on_state f cell)) with (cell_slot cell). lia.
  - intros id' c. rewrite elem_of_union, elem_of_singleton.
    intros [[<- <-]|[Hne Hl]]%lookup_insert_Some Hst; [exfalso; apply Hst; by left|]. apply (C5 id'); [done|tauto].
  - intros id' Hst. rewrite elem_of_union, elem_of_singleton in Hst.
    rewrite lookup_insert_ne by (intros <-; tauto). apply C6. tauto.
  - intros id' c [[<- <-]|[Hne Hl]]%lookup_insert_Some; by eapply C7.
Qed.

Definition write_all (ok : Z → bool) (dirty : list (Z * Z)) rt : Runtime :=
  on_cells (λ m, foldr (λ entry, alter (on_state (save_effect (ok entry.1))) entry.2) m dirty) rt.

#[local] Arguments write_all : simpl never.

Lemma write_all_ok ok dirty r rt :
  cells_ok ∅ r rt → Forall (λ entry, ∃ cell, cells rt !! entry.2 = Some cell ∧ dirty_slot cell = true) dirty →
  cells_ok (list_to_set dirty.*2) r (write_all ok dirty rt)
  ∧ same_gates dirty.*2 rt (write_all ok dirty rt)
  ∧ Forall (λ id, ∃ cell, cells (write_all ok dirty rt) !! id = Some cell ∧ dirty_slot cell = true) dirty.*2.
Proof.
  intros Hc. induction 1 as [|entry dirty (cell & Hid & Hslot) Hd (IH1 & IH2 & IH3)].
  { split_and!; [by eapply cells_frame| |by constructor]. intros id c Hl. exists c. by split_and!; [..|left]. }
  destruct (IH2 _ _ Hid) as (cell1 & Hid1 & Hg1 & Hc1).
  assert (dirty_slot cell1 = true) as Hslot1.
  { destruct Hc1 as [->|Hin]; [done|]. rewrite Forall_forall in IH3.
    destruct (IH3 _ Hin) as (c2 & Hc2 & Hs2). by simplify_eq. }
  set (f := on_state (save_effect (ok entry.1)) : PlayerCell → PlayerCell).
  assert (cells (write_all ok (entry :: dirty) rt) = <[entry.2 := f cell1]> (cells (write_all ok dirty rt))) as Hal
    by exact (alter_as_insert f _ _ _ Hid1).
  split_and!.
  - exact (touch_state _ _ _ _ _ (save_effect (ok entry.1)) IH1 Hid1).
  - eapply same_gates_trans.
    + intros id c Hl. destruct (IH2 id c Hl) as (c' & H1 & H2 & H3). exists c'.
      split_and!; [done..|]. simpl. rewrite elem_of_cons. tauto.
    + intros id c Hl. rewrite Hal. destruct (decide (id = entry.2)) as [->|Hne].
      * rewrite lookup_insert_eq. simplify_eq. eexists. split_and!; [done..|]. right. apply list_elem_of_here.
      * rewrite lookup_insert_ne by done. exists c. by split_and!; [..|left].
  - simpl fmap. constructor.
    + rewrite Hal, lookup_insert_eq. by eexists.
    + eapply Forall_impl; [exact IH3|]. intros id (c & Hl & Hs). rewrite Hal.
      destruct (decide (id = entry.2)) as [->|Hne]; [rewrite lookup_insert_eq|rewrite lookup_insert_ne by done; by exists c].
      by eexists.
Qed.

Lemma refresh_all_sat now (entries : list (Z * Z)) stale r rt :
  cells_ok stale r rt →
  Forall (λ id, ∃ cell, cells rt !! id = Some cell ∧ (is_dirty (state cell) = true → dirty_slot cell = true)) entries.*2 →
  sat (refresh_all now entries rt) (λ rt',
    cells_ok (stale ∖ list_to_set entries.*2) r rt' ∧ pframe' rt' = pframe' rt ∧ same_gates entries.*2 rt rt').
Proof.
  revert stale rt. induction entries as [|entry entries IH]; intros stale rt Hc He; simpl.
  { split_and!; [by rewrite difference_empty_L|done|]. intros id c Hl. exists c. by split_and!; [..|left]. }
  apply Forall_cons in He as [(cell & Hid & Hdirty) He].
  pose proof (refresh_dirty_sat now entry.2 cell _ _ rt Hc Hid Hdirty) as Hsat.
  destruct (refresh_dirty now entry.2 rt) as [rt1| |]; [|done..]. destruct Hsat as (H1 & H2 & H3).
  eapply sat_mono; [apply (IH _ rt1 H1)|].
  - eapply Forall_impl; [exact He|]. simpl. intros id (c & Hl & Hd). rewrite H3.
    destruct (decide (id = entry.2)) as [->|Hne]; [rewrite lookup_insert_eq|rewrite lookup_insert_ne by done; by exists c].
    eexists. split; [done|]. done.
  - simpl. intros rt2 (H4 & H5 & H6). split_and!; [by rewrite difference_difference_l_L in H4|congruence|].
    eapply same_gates_trans.
    + intros id c Hl. rewrite H3. destruct (decide (id = entry.2)) as [->|Hne].
      * rewrite lookup_insert_eq. simplify_eq. eexists. split_and!; [done..|]. right. apply list_elem_of_here.
      * rewrite lookup_insert_ne by done. exists c. by split_and!; [..|left].
    + intros id c Hl. destruct (H6 id c Hl) as (c' & K1 & K2 & K3). exists c'.
      split_and!; [done..|]. rewrite elem_of_cons. tauto.
Qed.

Lemma unlock_all_ok tid (locked : list (Z * Z)) r rt rt0 :
  cells_ok ∅ r rt → cells_kept (λ g, g = None ∨ g = Some (SaverTask tid)) rt0 rt →
  Forall (λ entry, is_Some (cells rt0 !! entry.2) ∧ locked_by rt0 tid entry) locked →
  let rt' := foldr (λ entry, unlock_gate entry.2) rt locked in
  cells_ok ∅ r rt' ∧ cells_kept (λ g, g = None ∨ g = Some (SaverTask tid)) rt0 rt'
  ∧ slots rt' = slots rt ∧ resident rt' = resident rt ∧ savers rt' = savers rt.
Proof.
  intros Hc Hk. induction 1 as [|entry locked [[c Hl] (cell & Hid & Hg)] _ (H1 & H2 & H3)]; simpl; [done|].
  set (rt1 := foldr _ rt locked) in *.
  destruct (H2 _ _ Hid) as (c1 & Hc1 & _).
  pose proof (alter_as_insert (on_save_gate (λ _, None)) _ _ _ Hc1) as Hal.
  split_and!; [|..].
  - eapply (cells_gate ∅ r rt1 _ entry.2 c1 None); try done.
  - intros id c' Hc'. simpl. rewrite Hal. destruct (decide (id = entry.2)) as [->|Hne].
    + rewrite lookup_insert_eq. eexists. split; [done|]. right. simplify_eq. auto.
    + rewrite lookup_insert_ne by done. by apply H2.
  - apply H3.
  - apply H3.
  - apply H3.
Qed.
Lemma locked_forall rt tid (locked : list (Z * Z)) : Forall (locked_by rt tid) locked →
  Forall (λ entry, is_Some (cells rt !! entry.2) ∧ locked_by rt tid entry) locked.
Proof.
  intros H. eapply Forall_impl; [exact H|]. intros entry (cell & Hc & Hg). split; [by eexists|by exists cell].
Qed.

Lemma saver_advance_sat now tid s rt :
  players_ok rt → savers rt !! tid = Some s → sat (saver_advance now tid s rt) players_ok.
Proof.
  intros [Hc Hg] Hs. pose proof (g_savers rt Hg tid s Hs) as Hok.
  destruct s as [[|entry todo] locked|dirty locked started]; simpl; [| |done].
  - simpl in Hok. destruct (filter _ locked) as [|x dirty] eqn:Hf; simpl.
    + destruct (unlock_all_ok tid locked _ rt rt Hc (cells_kept_refl _ _ _ eq_refl) (locked_forall _ _ _ Hok))
        as (H1 & H2 & H3 & H4 & H5). set (rt1 := foldr _ rt locked) in *. split.
      * simpl. rewrite H3. by eapply cells_frame.
      * eapply (gates_saver rt _ tid (Locking [] locked)); simpl; try done. right. by rewrite H5.
    + split; [by eapply cells_frame|].
      eapply (gates_saver rt _ tid (Writing (x :: dirty) locked now)); simpl; try done; [by apply cells_kept_refl|].
      left. split; [done|]. rewrite <- Hf. split_and!; [done| |].
      * intros y [_ Hy]%list_elem_of_filter. done.
      * apply Forall_forall. intros y [Hy1 Hy2]%list_elem_of_filter. unfold entry_dirty in Hy1. simpl.
        destruct (cells rt !! y.2) as [cell|] eqn:Hcell; [|done]. exists cell. split; [done|].
        eapply (c_dirty _ _ _ Hc); [done|apply not_elem_of_empty|done].
  - destruct (cells rt !! entry.2) as [cell|] eqn:Hid; [|done]. destruct (save_gate cell) eqn:Hgate; [done|].
    pose proof (alter_as_insert (on_save_gate (λ _, Some (SaverTask tid))) _ _ _ Hid) as Hal.
    assert (cells_kept (λ g, g = None ∨ g = Some (SaverTask tid)) rt (lock_gate (SaverTask tid) entry.2 rt)) as Hk.
    { eapply (cells_kept_insert _ rt); [exact Hid|by left|exact Hal]. }
    split.
    + simpl. eapply (cells_gate ∅ _ rt _ entry.2 cell); simpl; [exact Hc|done| |done|done].
      etrans; [exact Hal|done].
    + eapply (gates_saver rt _ tid (Locking todo (locked ++ [entry]))); simpl; try done.
      left. split; [done|]. apply Forall_app. split.
      * eapply Forall_impl; [exact Hok|]. intros y (c & H1 & H2). unfold locked_by. simpl. rewrite Hal.
        destruct (decide (y.2 = entry.2)) as [->|Hne]; [rewrite lookup_insert_eq; by eexists|].
        rewrite lookup_insert_ne by done. by exists c.
      * constructor; [|done]. unfold locked_by. simpl. rewrite Hal, lookup_insert_eq. by eexists.
Qed.

Lemma saver_done_sat now tid s outcome ok rt :
  players_ok rt → savers rt !! tid = Some s → sat (saver_done now tid s outcome ok rt) players_ok.
Proof.
  intros [Hc Hg] Hs. pose proof (g_savers rt Hg tid s Hs) as Hok.
  destruct s as [todo locked|dirty locked started]; simpl; [done|]. destruct Hok as (Hlocked & Hsub & Hdirty).
  destruct (write_all_ok ok dirty _ rt Hc Hdirty) as (W1 & W2 & W3).
  match goal with |- context [refresh_all now dirty ?x] => set (rt1 := x) end.
  assert (cells rt1 = cells (write_all ok dirty rt) ∧ cframe rt1 = cframe rt ∧ pframe' rt1 = pframe' rt) as (E1 & E2 & E3)
    by (subst rt1; by destruct (is_ok outcome)).
  unfold pframe' in E3. injection E3 as F1 F2 F3 F4 F5.
  assert (cells_ok (list_to_set dirty.*2) (map_sum slot_reserved (slots rt)) rt1) as Hc1.
  { eapply cells_frame; [exact W1|exact E1|exact E2|]. rewrite F5. reflexivity. }
  pose proof (refresh_all_sat now dirty _ _ rt1 Hc1) as Hsat.
  destruct (refresh_all now dirty rt1) as [rt2| |]; [|apply Hsat|done].
  2: { eapply Forall_impl; [exact W3|]. intros id (c & H1 & H2). exists c. by rewrite E1. }
  destruct Hsat as (H1 & H2 & H3).
  { eapply Forall_impl; [exact W3|]. intros id (c & K1 & K2). exists c. by rewrite E1. }
  rewrite difference_diag_L in H1. unfold pframe' in H2. injection H2 as K1 K2 K3 K4 K5.
  assert (same_gates dirty.*2 rt rt2) as Hsame.
  { eapply same_gates_trans; [|exact H3]. intros id c Hl. rewrite E1. by apply W2. }
  assert (cells_kept (λ g, g = None ∨ g = Some (SaverTask tid)) rt rt2) as Hk.
  { eapply same_gates_kept; [exact Hsame|]. intros id c Hl (entry & -> & Hin)%list_elem_of_fmap.
    rewrite Forall_forall in Hlocked. destruct (Hlocked entry (Hsub _ Hin)) as (c' & Hc' & Hg'). simplify_eq. by right. }
  destruct (unlock_all_ok tid locked _ rt2 rt H1 Hk (locked_forall _ _ _ Hlocked)) as (U1 & U2 & U3 & U4 & U5).
  set (rt3 := foldr _ rt2 locked) in *. simpl. split.
  - simpl. rewrite U3, K2, F2. by eapply cells_frame.
  - eapply (gates_saver rt _ tid (Writing dirty locked started)); simpl; try done; [congruence|congruence|].
    right. congruence.
Qed.

(** ** Every step *)

(** What goes wrong outside the runtime: the loader returns a dirty player,
    the cache, whose callbacks are configured, reports a missing one, or a
    closure of a caller panics on the player it is given. *)
Definition runner_fault (l : Label) slot rt : bool :=
  match l, phase (runner slot) with
  | LCacheGot _ (Loaded p) _, _ => is_dirty p
  | LCacheGot _ (GetFailed _ error) _, _ => if map_cache_error error is None then true else false
  | LGateLocked _, Gating e _ => gate_locked_panics slot e rt
  | LPreloaded _ outcome, Preloading _ _ logic _ _ _ => preloaded_panics slot logic outcome rt
  | _, _ => false
  end.

Definition fault (l : Label) rt : bool :=
  match l with
  | LCacheGot sid _ _ | LGateLocked sid | LPreloaded sid _ =>
      match slots rt !! sid with Some slot => runner_fault l slot rt | None => false end
  | LShutdownFinish _ (Err error) => if map_cache_error error is None then true else false
  | _ => false
  end.

Lemma exec_runner_sat now l sid rt :
  dispatch_ok rt → players_ok rt →
  match slots rt !! sid with Some slot => runner_fault l slot rt | None => false end = false →
  sat (exec_runner now l sid rt) players_ok.
Proof.
  intros Hd Hpl. unfold exec_runner. destruct (slots rt !! sid) as [slot|] eqn:Hs; [|done].
  unfold runner_fault. destruct l, (phase (runner slot)) eqn:Hp; try done; intros Hl.
  - by apply take_next_sat.
  - eapply cache_got_sat; try done. destruct got as [id|q|load err]; [done..|]. by destruct (map_cache_error err).
  - by eapply gate_locked_sat.
  - by eapply preloaded_sat.
  - by eapply saved_sat.
  - by eapply complete_sat.
  - by eapply permit_dropped_sat.
  - by eapply cache_set_sat.
  - by eapply retire_sat.
Qed.

(** Without such a fault no step fails an assertion of the source, and the
    invariant is kept. *)
Lemma exec_sat now l rt : dispatch_ok rt → players_ok rt → fault l rt = false → sat (exec now l rt) players_ok.
Proof.
  intros Hd Hpl Hl. destruct l; simpl; try (apply exec_runner_sat; [done..|exact Hl]);
    try (apply exec_runner_sat; [done..|by case_match]).
  - by apply try_use_players.
  - case_if; [|done]. apply bool_decide_eq_true in E0 as Hsub. destruct Hpl as [Hc [G1 G2 G3 G4 G5]]. split.
    + by eapply cells_frame.
    + split; simpl; try done.
      * intros gid id Hr. eapply G3, lookup_weaken; done.
      * intros sid slot id id' H1 H2 Hr. eapply G4; [done..|]. by eapply lookup_weaken.
  - unfold saver_start. destruct (savers rt !! tid) eqn:Hs; [done|]. case_if; [|done].
    destruct Hpl as [Hc Hg]. split; [by eapply cells_frame|].
    eapply (gates_saver rt _ tid (Locking _ [])); simpl; try done; [by apply cells_kept_refl|].
    left. split; [done|constructor].
  - destruct (savers rt !! tid) eqn:Hs; [|done]. by apply saver_advance_sat.
  - destruct (savers rt !! tid) eqn:Hs; [|done]. by apply saver_done_sat.
  - unfold shutdown_begin. destruct Hpl as [Hc Hg]. destruct (rt_state rt); (split; [by eapply cells_frame|by destruct Hg]).
  - destruct (rt_state rt); [done| |done]. destruct (drained rt); [|done]. destruct Hpl as [Hc Hg].
    unfold shutdown_finish. destruct flushed as [u|[]]; simpl; try done;
      [case_if| |]; (split; [by eapply cells_frame|by destruct Hg]).
Qed.

Definition not_done {S} (o : Outcome.t S) : Prop := match o with Done _ => False | _ => True end.

Lemma runner_fault_stops now l sid slot rt : slots rt !! sid = Some slot → runner_fault l slot rt = true →
  not_done (exec_runner now l sid rt).
Proof.
  intros Hs Hf. unfold exec_runner. rewrite Hs. unfold runner_fault in Hf.
  destruct l, (phase (runner slot)) eqn:Hp; try done.
  - unfold cache_got. destruct got as [id|q|load err]; [done| |].
    + destruct (resident rt !! _); [done|]. case_if; [|done]. by rewrite Hf.
    + destruct (resident rt !! _); [done|]. by destruct (map_cache_error err).
  - unfold gate_locked, gate_locked_panics in *. destruct (player (runner slot)) as [id|]; [|done]. simpl in Hf.
    destruct (cells rt !! id) as [cell|] eqn:Hid; [|done]. destruct (save_gate cell); [done|].
    apply andb_prop in Hf as [Hrun Hf].
    assert (∀ b rt1, cells rt1 = cells (lock_gate (RunnerOf sid) id rt) → not_done
      match command envelope with
      | TypedCommand logic _ => execute now sid (runner_gid (runner slot)) id envelope run_started b logic rt1
      | TypedPreloadedCommand preload logic _ =>
          match preload (state cell) with
          | None => Panic
          | Some future => Done (set_phase sid (Preloading envelope run_started logic b future now)
                                   (on_stats (StatsInner.on_preload_calls incr) rt1))
          end
      end) as Hgo.
    { intros b rt1 Hc. destruct (command envelope) as [logic sd|preload logic sd]; simpl in Hf.
      - unfold execute. rewrite Hc. simpl. rewrite lookup_alter_eq, Hid. simpl. by destruct (logic (state cell)).
      - by destruct (preload (state cell)). }
    destruct (dirty_slot cell); [by apply Hgo|]. simpl in Hrun.
    change (dirty_admission (lock_gate _ _ rt)) with (dirty_admission rt). change (stats (lock_gate _ _ rt)) with (stats rt).
    destruct (DirtyAdmission.acquire _ _) as [[d st]|]; [by apply Hgo|done].
  - unfold preloaded, preloaded_panics in *. destruct (player (runner slot)) as [id|]; [|done]. simpl in Hf.
    destruct (cells rt !! id) as [cell|] eqn:Hid; [|done]. destruct outcome as [v|err]; [|done].
    unfold execute. simpl. rewrite Hid. by destruct (logic v (state cell)).
Qed.

(** With such a fault the step does not complete. *)
Lemma fault_stops now l rt : fault l rt = true → not_done (exec now l rt).
Proof.
  unfold fault. intros Hf. destruct l; try done; simpl; try (by destruct (slots rt !! sid) eqn:Hs; [eapply runner_fault_stops|]).
  destruct (rt_state rt); [done| |done]. destruct (drained rt); [|done]. destruct flushed as [|[]]; done.
Qed.

(** So a step that completes had none, and kept the invariant. *)
Lemma exec_done now l rt rt' : dispatch_ok rt → players_ok rt → exec now l rt = Done rt' → players_ok rt' ∧ fault l rt = false.
Proof.
  intros Hd Hp Hx. destruct (fault l rt) eqn:Hf.
  - apply (fault_stops now) in Hf. by rewrite Hx in Hf.
  - pose proof (exec_sat now l rt Hd Hp Hf) as Hs. by rewrite Hx in Hs.
Qed.

Lemma players_new cfg rt : config_ok cfg → new cfg = Some rt → players_ok rt.
Proof.
  intros (Hv & _). unfold new. rewrite Hv. intros [= <-]. split.
  - split; simpl; try done.
    + unfold LogicConfig.validate in Hv. lia.
    + intros id _. rewrite lookup_empty. split; [by intros []|]. intros (c & Hl & _). by rewrite lookup_empty in Hl.
  - split; done.
Qed.
End cells.
