(* ===== verification/LogicRuntimeSpec.v ===== *)
(** What the Logic runtime promises, for every interleaving of callers,
    runners, cache tasks and shutdown: no assertion of its own fails, limits hold, calls
    are answered once and in order, and shutdown loses nothing. *)

From S2P Require Import Prelude Latency LogicStats LogicAdmission LogicRuntime LogicDispatch LogicCells.
Import Outcome(Done, Panic, Blocked).

(** ** The directory index *)

Lemma land_bounds a b : 0 <= a → 0 <= b → 0 <= Z.land a b <= b.
Proof.
  intros Ha Hb. split; [apply Z.land_nonneg; by left|].
  rewrite <- (Z2N.id a), <- (Z2N.id b) by done. rewrite <- N2Z.inj_land.
  apply N2Z.inj_le, N.land_le_r.
Qed.

Lemma mix_i64_nonneg v : 0 <= mix_i64 v.
Proof.
  unfold mix_i64, wrap_u64.
  match goal with |- 0 <= Z.lxor ?x _ => assert (0 <= x) as Hx by (apply Z.mod_pos_bound; lia) end.
  apply Z.lxor_nonneg. rewrite Z.shiftr_nonneg. tauto.
Qed.

(** The index of a player's shard is always inside the directory, so the
    indexing of [directories] never panics. *)
Theorem directory_index_in_bounds cfg gid :
  LogicConfig.validate cfg = true →
  0 <= directory_index (LogicConfig.shards cfg) gid < LogicConfig.shards cfg.
Proof.
  unfold LogicConfig.validate. intros Hv. unfold directory_index.
  assert (0 < LogicConfig.shards cfg) as Hs by (unfold LogicConfig.is_power_of_two in Hv; lia).
  pose proof (land_bounds (mix_i64 gid) (LogicConfig.shards cfg - 1) (mix_i64_nonneg gid) ltac:(lia)). lia.
Qed.

Lemma directory_index_in_bounds_witness :
  0 <= directory_index (LogicConfig.shards LogicConfig.HARD_LIMITS) (-42) < LogicConfig.shards LogicConfig.HARD_LIMITS.
Proof. apply (directory_index_in_bounds LogicConfig.HARD_LIMITS). reflexivity. Defined.

Lemma NoDup_filter_snd {X} (Q : X * Z → Prop) `{∀ x, Decision (Q x)} (l : list (X * Z)) :
  NoDup l.*2 → NoDup (filter Q l).*2.
Proof.
  induction l as [|x l IH]; simpl; [done|]. intros [Hx Hl]%NoDup_cons. rewrite filter_cons.
  case_decide; simpl; [|by apply IH]. constructor; [|by apply IH].
  intros (y & Hy & [_ Hin]%list_elem_of_filter)%list_elem_of_fmap. apply Hx. rewrite Hy. by apply list_elem_of_fmap_2.
Qed.

Section spec.
Context {P E R A F : Type} `{!LogicState P} `{!SaveEffect P} `{!UnstableSort (Z * Z) fst}.
Abbreviation Runtime := (@Runtime P E R A F).
Abbreviation Label := (@Label P E R A F).
Implicit Types (rt : Runtime) (l : Label) (slot : @KeySlot P R A F).

(** A state that some interleaving of steps reaches from [LogicRuntime::new]:
    any calls, any answers of the cache, the storage and the preloads. *)
Definition reachable (cfg : LogicConfig.t) rt : Prop :=
  ∃ rt0 ls, new cfg = Some rt0 ∧ exec_all ls rt0 = Done rt.

(** No step changes the configuration or reopens a runtime that shuts down. *)
Definition keeps_static rt rt' : Prop :=
  config rt' = config rt ∧ (rt_state rt ≠ RuntimeState.Running → rt_state rt' ≠ RuntimeState.Running).

Lemma frame_static rt rt' : frame rt' = frame rt → keeps_static rt rt'.
Proof. unfold frame. intros Hf. injection Hf as E1 E2 _ _ _ _ _ _ _. split; [exact E1|by rewrite E2]. Qed.

Lemma exec_runner_static now l sid rt rt' : exec_runner now l sid rt = Done rt' → keeps_static rt rt'.
Proof.
  assert (∀ slot rt', moved sid slot rt rt' → keeps_static rt rt') as Hm.
  { intros slot rt1 (pl & p & ans & Hf & _). by apply frame_static. }
  unfold exec_runner. destruct (slots rt !! sid) as [slot|] eqn:Hs; [|done].
  destruct l, (phase (runner slot)) eqn:Hp; try done; intros Hx.
  - unfold take_next in Hx. by destruct (queue (mailbox slot)); simplify_eq.
  - by eapply Hm, cache_got_moved.
  - by eapply Hm, gate_locked_moved.
  - by eapply Hm, preloaded_moved.
  - by eapply Hm, saved_moved.
  - unfold complete_and_take_next in Hx. by destruct (queue (mailbox slot)); simplify_eq.
  - unfold permit_dropped in Hx. by destruct next; simplify_eq.
  - by eapply Hm, cache_set_moved.
  - unfold retire_or_take_next in Hx. destruct (directory rt !! _); [|done].
    by destruct (queue (mailbox slot)); simplify_eq.
Qed.

Lemma exec_static now l rt rt' : exec now l rt = Done rt' → keeps_static rt rt'.
Proof.
  assert (∀ rt', full_frame rt' = full_frame rt → keeps_static rt rt') as Hff.
  { intros rt1 [Hf _]%full_frame_slots. by apply frame_static. }
  destruct l; simpl; try (by apply exec_runner_static).
  - intros [= <-]. unfold try_use, enqueue.
    destruct (directory (on_next_sender _ rt) !! gid);
      (case_if; [done|]; by destruct (Admission.acquire _ _ _) as [[a s] []]).
  - by case_if; intros; simplify_eq.
  - unfold saver_start. by repeat case_match; intros; simplify_eq.
  - destruct (savers rt !! tid); [|done]. intros Hx. eapply Hff, saver_frame. by left.
  - destruct (savers rt !! tid); [|done]. intros Hx. eapply Hff, saver_frame. by eauto.
  - intros [= <-]. unfold shutdown_begin, keeps_static. destruct (rt_state rt) eqn:Hst; simpl; (split; [done|congruence]).
  - unfold shutdown_finish, keeps_static. repeat case_match; intros; simplify_eq; simpl; (split; [done|congruence]).
Qed.

Lemma exec_all_ok ls rt rt' : dispatch_ok rt → players_ok rt →
  exec_all ls rt = Done rt' → dispatch_ok rt' ∧ players_ok rt' ∧ config rt' = config rt.
Proof.
  revert rt. induction ls as [|[now l] ls IH]; intros rt Hd Hp; simpl.
  { by intros [= <-]. }
  destruct (exec now l rt) as [rt1| |] eqn:Hx; [|done..]. intros Hrun.
  destruct (exec_done now l rt rt1 Hd Hp Hx) as [Hp1 _].
  rewrite <- (proj1 (exec_static now l rt rt1 Hx)). apply IH; [by eapply exec_dispatch|done|done].
Qed.

Lemma reachable_ok cfg rt : config_ok cfg → reachable cfg rt → dispatch_ok rt ∧ players_ok rt ∧ config rt = cfg.
Proof.
  intros Hc (rt0 & ls & Hn & Hx).
  assert (config rt0 = cfg) as H0 by (unfold new in Hn; by case_match; simplify_eq).
  rewrite <- H0. eapply exec_all_ok; [by eapply dispatch_new|by eapply players_new|done..].
Qed.

(** C4: the runtime's own assertions hold.  In every state that a runtime with a
    valid configuration reaches, a step
    that does not have to wait panics exactly when something outside the
    runtime fails in it: the loader hands over a dirty player, the cache, whose
    callbacks are configured, reports a missing one, or a closure of a caller
    panics on the player it is given.  So no other [assert!], [expect] or
    [unreachable!] is ever the first to fail: dirty transitions own a
    reservation, a dirty player never acquires a second slot, the slot count
    does not underflow, a new runner has a queued call, the directory slot of a
    runner does not disappear and the cache never holds another generation of
    an active player.  What follows a panic is not modelled. *)
Theorem runtime_panics_only_for_faults cfg rt now l :
  config_ok cfg → reachable cfg rt → exec now l rt ≠ Blocked →
  exec now l rt = Panic ↔ fault l rt = true.
Proof.
  intros Hc Hr Hb. destruct (reachable_ok cfg rt Hc Hr) as (Hd & Hp & _). split.
  - intros Hx. destruct (fault l rt) eqn:Hf; [done|].
    pose proof (exec_sat now l rt Hd Hp Hf) as Hsat. by rewrite Hx in Hsat.
  - intros Hf%(fault_stops now). by destruct (exec now l rt).
Qed.

(** C3: calls of one player are answered once, in the order they were
    accepted: the answers of a player are a prefix of its accepted calls, no
    call is answered twice, and a player with no runner has no call left. *)
Theorem calls_answered_in_order cfg rt gid :
  config_ok cfg → reachable cfg rt →
  ∃ waiting, calls_of gid (accepted rt) = calls_of gid (answered rt) ++ waiting
    ∧ NoDup (calls_of gid (accepted rt))
    ∧ (directory rt !! gid = None → waiting = []).
Proof.
  intros Hc Hr. destruct (reachable_ok cfg rt Hc Hr) as (Hd & _ & _).
  assert (NoDup (calls_of gid (accepted rt))) as Hnd.
  { destruct (d_senders rt Hd) as [Hs _]. unfold calls_of.
    assert (NoDup (accepted rt).*2) as Hn.
    { revert Hs. generalize (accepted rt).*2. intros log. induction 1 as [|x log Hs IH Hx]; constructor; [|done].
      intros Hin. rewrite Forall_forall in Hx. apply Hx in Hin. lia. }
    by apply NoDup_filter_snd. }
  destruct (directory rt !! gid) as [sid|] eqn:Hdir.
  - apply (d_dir rt Hd) in Hdir as (slot & Hs & <-). exists (pending slot).
    split_and!; [by apply (d_fifo rt Hd sid)|done|done].
  - exists []. rewrite app_nil_r. split_and!; [by apply (d_idle rt Hd)|done|done].
Qed.

(** C5: the limits of the runtime hold in every reachable state: per player
    (calls and KiB in a mailbox), globally (calls and KiB admitted, which are
    what the slots hold), and for the dirty slots. *)
Theorem runtime_limits_hold cfg rt :
  config_ok cfg → reachable cfg rt →
  (∀ sid slot, slots rt !! sid = Some slot →
     inflight_calls (mailbox slot) = len (envelopes slot)
     ∧ inflight_calls (mailbox slot) <= LogicConfig.max_calls_per_gid cfg
     ∧ inflight_kib (mailbox slot) <= LogicConfig.max_kib_per_gid cfg)
  ∧ Admission.inflight_calls (admission rt) = map_sum slot_calls (slots rt)
  ∧ Admission.inflight_calls (admission rt) <= LogicConfig.max_inflight_calls cfg
  ∧ Admission.kib (admission rt) = map_sum slot_kib (slots rt)
  ∧ Admission.kib (admission rt) <= LogicConfig.max_inflight_kib cfg
  ∧ DirtyAdmission.slots (dirty_admission rt) <= LogicConfig.max_dirty_players cfg.
Proof.
  intros Hc Hr. destruct (reachable_ok cfg rt Hc Hr) as (Hd & [Hcells _] & Hcfg).
  destruct (d_adm rt Hd) as [A1 A2 A3 A4 A5 A6]. pose proof (config_limits _ (d_config rt Hd)) as (C1 & _).
  rewrite Hcfg in *. unfold Admission.inflight_calls. rewrite A1, encode_calls_count by lia.
  split_and!; [|done|lia|done|lia|].
  - intros sid slot Hs. apply (d_slots rt Hd) in Hs as []. by rewrite Hcfg in *.
  - rewrite <- Hcfg, <- (c_config _ _ _ Hcells). apply Hcells.
Qed.

(** Unsaved players are bounded.  Every player with unsaved changes owns a
    dirty slot, so in every reachable state at most [max_dirty_players]
    players, cached or evicted, have changes that are not saved. *)
Theorem dirty_players_bounded cfg rt :
  config_ok cfg → reachable cfg rt →
  (∀ id cell, cells rt !! id = Some cell → is_dirty (state cell) = true → dirty_slot cell = true)
  ∧ map_sum (λ cell, b2z (is_dirty (state cell))) (cells rt) <= LogicConfig.max_dirty_players cfg.
Proof.
  intros Hc Hr. destruct (reachable_ok cfg rt Hc Hr) as (Hd & [Hcells _] & Hcfg).
  assert (∀ id cell, cells rt !! id = Some cell → is_dirty (state cell) = true → dirty_slot cell = true) as Hdirty.
  { intros id cell Hl. by apply (c_dirty _ _ _ Hcells id); [|apply not_elem_of_empty]. }
  split; [done|]. destruct Hcells as [C1 C2 C3 C4 _ _ _]. rewrite C4, Hcfg in C3.
  assert (map_sum (λ cell, b2z (is_dirty (state cell))) (cells rt) <= map_sum cell_slot (cells rt)); [|lia].
  apply map_sum_mono. intros id cell Hl. unfold cell_slot, b2z.
  destruct (is_dirty (state cell)) eqn:Hdc; [by rewrite (Hdirty _ _ Hl Hdc)|]. destruct (dirty_slot cell); lia.
Qed.

(** The runner is between the lock of the save gate and its release. *)
Definition owns_player slot : bool :=
  match phase (runner slot) with Preloading _ _ _ _ _ _ | Saving _ _ _ => true | _ => false end.

(** C6: players are handled one task at a time: two different runners never
    serve the same player, and never own the same player cell at once, between
    the lock of its save gate and its release across suspension points. *)
Theorem runners_are_exclusive cfg rt sid1 sid2 slot1 slot2 :
  config_ok cfg → reachable cfg rt →
  slots rt !! sid1 = Some slot1 → slots rt !! sid2 = Some slot2 → sid1 ≠ sid2 →
  runner_gid (runner slot1) ≠ runner_gid (runner slot2)
  ∧ (owns_player slot1 = true → owns_player slot2 = true → player (runner slot1) ≠ player (runner slot2)).
Proof.
  intros Hc Hr H1 H2 Hne. destruct (reachable_ok cfg rt Hc Hr) as (Hd & [_ Hg] & _). split.
  - intros Heq. apply Hne. by eapply (runner_unique rt sid2 sid1).
  - assert (∀ sid slot, slots rt !! sid = Some slot → owns_player slot = true →
      ∃ id cell, player (runner slot) = Some id ∧ cells rt !! id = Some cell ∧ save_gate cell = Some (RunnerOf sid)) as Hown.
    { intros sid slot Hs Ho. pose proof (g_phase rt Hg sid slot Hs) as Hp. unfold owns_player, phase_ok in *.
      destruct (phase (runner slot)); try done; destruct Hp as (id & cell & ? & ? & ? & _); by exists id, cell. }
    intros O1 O2 Heq. destruct (Hown _ _ H1 O1) as (id1 & c1 & P1 & L1 & G1).
    destruct (Hown _ _ H2 O2) as (id2 & c2 & P2 & L2 & G2). congruence.
Qed.

End spec.

(** ** A run

    Two players: 7 with a plain and a preloaded call, 9 with a preloaded one;
    then shutdown. *)
Module runtime_example.
Definition Player : Type := Z * bool.
#[global] Instance player_dirty : LogicState Player := λ p, p.2.
#[global] Instance player_saved : SaveEffect Player := λ ok p, if ok then (p.1, false) else p.
#[global] Instance entry_sort : UnstableSort (Z * Z) fst := merge_sort_instance fst.

Definition label : Type := @Label Player Z Z Z unit.
Definition runtime : Type := @Runtime Player Z Z Z unit.

Definition add (n : Z) : Player → option (Z * Player) := λ p, Some (p.1 + n, (p.1 + n, true)).
Definition preload (p : Player) : option unit := Some tt.

Definition start : list (Z * label) :=
  [(1, LTryUse 7 1 (Use (add 5)));
   (2, LTryUse 7 3 (UsePreloaded preload add));
   (3, LTryUse 9 0 (UsePreloaded preload add));
   (4, LTakeNext 0); (5, LTakeNext 1);
   (6, LCacheGot 0 (Loaded (10, false)) {[7 := 1]});
   (7, LCacheGot 1 (Loaded (20, false)) {[7 := 1; 9 := 2]});
   (8, LGateLocked 0); (9, LSaved 0 (Ok tt)); (10, LComplete 0); (11, LPermitDropped 0);
   (12, LGateLocked 0); (13, LGateLocked 1)].

Definition finish : list (Z * label) :=
  [(14, LPreloaded 0 (Ok 1)); (15, LPreloaded 1 (Err 3)); (16, LSaved 0 (Ok tt));
   (17, LComplete 0); (18, LComplete 1); (19, LPermitDropped 0); (20, LPermitDropped 1);
   (21, LEvict {[9 := 2]}); (22, LCacheSet 0 {[7 := 1; 9 := 2]}); (23, LCacheSet 1 ∅);
   (24, LRetire 0); (25, LRetire 1); (26, LShutdownBegin)].

Definition rt0 : runtime := default (mkRuntime LogicConfig.HARD_LIMITS RuntimeState.Stopped
  (Admission.new LogicConfig.HARD_LIMITS) (DirtyAdmission.new 0) ∅ ∅ 0 ∅ 0 ∅ ∅ StatsInner.new 0 [] [])
  (new LogicConfig.HARD_LIMITS).

Definition state_after (ls : list (Z * label)) : runtime :=
  match exec_all ls rt0 with Done rt => rt | _ => rt0 end.

Definition busy : runtime := state_after start.
Definition idle : runtime := state_after (start ++ finish).

Lemma hard_limits_ok : config_ok LogicConfig.HARD_LIMITS.
Proof. unfold config_ok, is_u64. by vm_compute. Qed.

Lemma busy_reachable : reachable LogicConfig.HARD_LIMITS busy.
Proof. exists rt0, start. split; [done|by vm_compute]. Qed.

Lemma idle_reachable : reachable LogicConfig.HARD_LIMITS idle.
Proof. exists rt0, (start ++ finish). split; [done|by vm_compute]. Qed.

(** The runner of player 7 waits for the loader; and it has a player on whom
    the closure of the call panics. *)
Definition call_overflows : list (Z * label) :=
  [(1, LTryUse 7 1 (Use (λ p, if 1000 <? p.1 then None else Some (0, p)))); (2, LTakeNext 0);
   (3, LCacheGot 0 (Loaded (2000, false)) {[7 := 1]})].

Definition loading : runtime := state_after (take 5 start).
Definition overflowing : runtime := state_after call_overflows.

Lemma loading_reachable : reachable LogicConfig.HARD_LIMITS loading.
Proof. exists rt0, (take 5 start). split; [done|by vm_compute]. Qed.

Lemma overflowing_reachable : reachable LogicConfig.HARD_LIMITS overflowing.
Proof. exists rt0, call_overflows. split; [done|by vm_compute]. Qed.

Definition slot_of (sid : Z) : @KeySlot Player Z Z unit :=
  default (mkKeySlot (mkMailbox [] 0 0) (mkRunner 0 None Spawned)) (slots busy !! sid).

Definition stopped : runtime :=
  match shutdown_finish 30 29 (Ok tt) idle with Some (rt, _) => rt | None => idle end.

(** Both calls of player 7 and the failed one of player 9 were answered. *)
Example idle_answers : answers idle =
  [(7, 0, Ok (mkCompleted 15 (Ok tt))); (9, 2, Err (LogicCallError.Preload 3)); (7, 1, Ok (mkCompleted 16 (Ok tt)))].
Proof. vm_compute. reflexivity. Qed.
End runtime_example.

Lemma runtime_panics_only_for_faults_witness :
  exec 14 (LPreloaded 0 (Ok 1)) runtime_example.busy ≠ Panic
  ∧ exec 6 (LCacheGot 0 (Loaded (10, true)) ∅) runtime_example.loading = Panic
  ∧ exec 7 (LGateLocked 0) runtime_example.overflowing = Panic.
Proof.
  split_and!.
  - intros Hp. apply (runtime_panics_only_for_faults LogicConfig.HARD_LIMITS) in Hp;
      [vm_compute in Hp; discriminate|apply runtime_example.hard_limits_ok|apply runtime_example.busy_reachable|vm_compute; discriminate].
  - apply (runtime_panics_only_for_faults LogicConfig.HARD_LIMITS);
      [apply runtime_example.hard_limits_ok|apply runtime_example.loading_reachable|vm_compute; discriminate|vm_compute; reflexivity].
  - apply (runtime_panics_only_for_faults LogicConfig.HARD_LIMITS);
      [apply runtime_example.hard_limits_ok|apply runtime_example.overflowing_reachable|vm_compute; discriminate|vm_compute; reflexivity].
Defined.

Lemma calls_answered_in_order_witness :
  ∃ waiting, calls_of 7 (accepted runtime_example.busy) = calls_of 7 (answered runtime_example.busy) ++ waiting
    ∧ NoDup (calls_of 7 (accepted runtime_example.busy))
    ∧ (directory runtime_example.busy !! 7 = None → waiting = []).
Proof.
  apply (calls_answered_in_order LogicConfig.HARD_LIMITS);
    [apply runtime_example.hard_limits_ok|apply runtime_example.busy_reachable].
Defined.

Lemma runtime_limits_hold_witness :
  Admission.inflight_calls (admission runtime_example.busy) = map_sum slot_calls (slots runtime_example.busy)
  ∧ Admission.kib (admission runtime_example.busy) <= 256 * 1024.
Proof.
  destruct (runtime_limits_hold LogicConfig.HARD_LIMITS runtime_example.busy runtime_example.hard_limits_ok
              runtime_example.busy_reachable) as (_ & H1 & _ & _ & H2 & _).
  exact (conj H1 H2).
Defined.

Lemma dirty_players_bounded_witness :
  map_sum (λ cell : PlayerCell, b2z (is_dirty (state cell))) (cells runtime_example.busy) <= 100000.
Proof.
  apply (dirty_players_bounded LogicConfig.HARD_LIMITS runtime_example.busy runtime_example.hard_limits_ok
           runtime_example.busy_reachable).
Defined.

Lemma runners_are_exclusive_witness :
  player (runner (runtime_example.slot_of 0)) ≠ player (runner (runtime_example.slot_of 1)).
Proof.
  apply (runners_are_exclusive LogicConfig.HARD_LIMITS runtime_example.busy 0 1
           (runtime_example.slot_of 0) (runtime_example.slot_of 1));
    [apply runtime_example.hard_limits_ok|apply runtime_example.busy_reachable|vm_compute; reflexivity
    |vm_compute; reflexivity|discriminate|vm_compute; reflexivity|vm_compute; reflexivity].
Defined.

