(* ===== verification/LogicProgress.v ===== *)
(** What the Logic runtime eventually does: its tasks wait for each other only
    at the save gates, and never in a circle, and every step of a task brings
    the runtime closer to being drained.  So a shutdown drains the runtime,
    however its tasks, the callers and the cache interleave. *)

From S2P Require Import Prelude Latency LogicStats LogicAdmission LogicRuntime LogicDispatch LogicCells LogicRuntimeSpec.
Import Outcome(Done, Panic, Blocked).

#[local] Arguments StatsInner.mark_dirty : simpl never.
#[local] Existing Instance Owner_eq_dec.

Section progress.
Context {P E R A F : Type} `{!LogicState P} `{!SaveEffect P} `{!UnstableSort (Z * Z) fst}.
Abbreviation Runtime := (@Runtime P E R A F).
Abbreviation KeySlot := (@KeySlot P R A F).
Abbreviation Phase := (@Phase P R A F).
Abbreviation Label := (@Label P E R A F).
Abbreviation PlayerCell := (@PlayerCell P).
Implicit Types (rt : Runtime) (slot : KeySlot) (p : Phase) (l : Label).

(** ** The gates and their holders *)

Definition gates rt : gmap Z (option Owner) := (save_gate : PlayerCell → option Owner) <$> cells rt.

(** What the operations on a player leave alone here. *)
Definition view rt := (gates rt, slots rt, savers rt).

Lemma gates_keep (f : PlayerCell → PlayerCell) id (m : gmap Z PlayerCell) :
  (∀ c, save_gate (f c) = save_gate c) → save_gate <$> alter f id m = save_gate <$> m.
Proof.
  intros Hf. apply map_eq. intros i. rewrite !lookup_fmap. destruct (decide (i = id)) as [->|Hne].
  - rewrite lookup_alter_eq. destruct (m !! id); simpl; by rewrite ?Hf.
  - by rewrite lookup_alter_ne by done.
Qed.

Lemma gates_set g id (m : gmap Z PlayerCell) :
  save_gate <$> alter (on_save_gate (λ _, g)) id m = alter (λ _, g) id (save_gate <$> m).
Proof.
  apply map_eq. intros i. rewrite lookup_fmap. destruct (decide (i = id)) as [->|Hne].
  - rewrite !lookup_alter_eq, lookup_fmap. by destruct (m !! id).
  - by rewrite !lookup_alter_ne, lookup_fmap by done.
Qed.

Lemma gates_write_all (ok : Z → bool) dirty (m : gmap Z PlayerCell) :
  save_gate <$> foldr (λ entry, alter (on_state (save_effect (ok entry.1))) entry.2) m dirty = save_gate <$> m.
Proof. induction dirty as [|e dirty IH]; simpl; [done|]. by rewrite gates_keep. Qed.

Lemma gates_cell rt id : is_Some (gates rt !! id) ↔ is_Some (cells rt !! id).
Proof. unfold gates. rewrite lookup_fmap. apply fmap_is_Some. Qed.

Lemma refresh_dirty_view now id rt rt' : refresh_dirty now id rt = Done rt' → view rt' = view rt.
Proof.
  unfold refresh_dirty, view, gates. intros Hr. repeat case_match; simplify_eq; simpl; try done.
  by rewrite gates_keep.
Qed.

Lemma drop_reservation_view b rt rt' : drop_reservation b rt = Done rt' → view rt' = view rt.
Proof. unfold drop_reservation. intros Hr. by repeat case_match; simplify_eq. Qed.

Lemma finish_logic_view now id b rt rt' : finish_logic now id b rt = Done rt' → view rt' = view rt.
Proof.
  unfold finish_logic. intros Hr. destruct (cells rt !! id) as [cell|]; [|done].
  case_match; [|case_match; [|done]].
  - destruct b; [|done]. apply refresh_dirty_view in Hr. rewrite Hr. unfold view, gates. simpl. by rewrite gates_keep.
  - destruct (refresh_dirty now id rt) as [rt1| |] eqn:Hr1; try done.
    apply refresh_dirty_view in Hr1. apply drop_reservation_view in Hr. congruence.
Qed.

Lemma save_returned_view now id started ok rt rt' : save_returned now id started ok rt = Done rt' → view rt' = view rt.
Proof.
  unfold save_returned. intros Hr. apply refresh_dirty_view in Hr. rewrite Hr.
  unfold view, gates. destruct ok; simpl; by rewrite gates_keep.
Qed.

Lemma refresh_all_view now entries rt rt' : refresh_all now entries rt = Done rt' → view rt' = view rt.
Proof.
  revert rt. induction entries as [|e entries IH]; intros rt; simpl; [by intros [= ->]|].
  destruct (refresh_dirty now e.2 rt) as [rt1| |] eqn:Hr1; try done.
  intros Hr. apply IH in Hr. apply refresh_dirty_view in Hr1. congruence.
Qed.

(** A task is never blocked on a player that exists. *)
Lemma refresh_dirty_moves now id rt : is_Some (gates rt !! id) → refresh_dirty now id rt ≠ Blocked.
Proof. intros [cell Hc]%gates_cell. unfold refresh_dirty. rewrite Hc. by repeat case_match. Qed.

Lemma finish_logic_moves now id b rt : is_Some (gates rt !! id) → finish_logic now id b rt ≠ Blocked.
Proof.
  intros Hg. unfold finish_logic. pose proof Hg as [cell ->]%gates_cell.
  case_match; [case_match; [|done]|case_match; [|done]].
  - apply refresh_dirty_moves. unfold gates. simpl. by rewrite gates_keep.
  - pose proof (refresh_dirty_moves now id rt Hg). destruct (refresh_dirty now id rt); [|done..].
    unfold drop_reservation. by repeat case_match.
Qed.

Lemma refresh_all_moves now entries rt : Forall (λ e, is_Some (gates rt !! e.2)) entries → refresh_all now entries rt ≠ Blocked.
Proof.
  intros Hall. revert rt Hall. induction entries as [|e entries IH]; intros rt Hall; simpl; [done|].
  apply Forall_cons in Hall as [He Hall]. pose proof (refresh_dirty_moves now e.2 rt He).
  destruct (refresh_dirty now e.2 rt) as [rt1| |] eqn:Hr; [|done..]. apply IH.
  apply refresh_dirty_view in Hr. unfold view in Hr. injection Hr as Hg _ _. by rewrite Hg.
Qed.

(** ** Who holds a gate *)

Definition locked_of (s : Saver) : list (Z * Z) := match s with Locking _ locked | Writing _ locked _ => locked end.

Definition runner_keeps (o : option KeySlot) (id : Z) : Prop :=
  ∃ slot, o = Some slot ∧ owns_player slot = true ∧ player (runner slot) = Some id.
Definition saver_keeps (o : option Saver) (id : Z) : Prop := ∃ s, o = Some s ∧ id ∈ (locked_of s).*2.

(** Every gate that is held is held by a runner that works on its player or by
    a saver that locked it. *)
Definition held_ok rt : Prop := ∀ id o, gates rt !! id = Some (Some o) →
  match o with RunnerOf sid => runner_keeps (slots rt !! sid) id | SaverTask tid => saver_keeps (savers rt !! tid) id end.

(** After a step of the task [o], a held gate is one that [o] keeps, or one
    that another task held before. *)
Definition released (o : Owner) (keeps : Z → Prop) (g g' : gmap Z (option Owner)) : Prop :=
  (∀ id, is_Some (g !! id) → is_Some (g' !! id))
  ∧ ∀ id o', g' !! id = Some (Some o') → if decide (o' = o) then keeps id else g !! id = Some (Some o').

Lemma released_mono o (keeps keeps' : Z → Prop) g g' : (∀ id, keeps id → keeps' id) → released o keeps g g' → released o keeps' g g'.
Proof. intros Hk [Hd Hr]. split; [done|]. intros id o' Hl. apply Hr in Hl. case_decide; auto. Qed.

Lemma released_same o (keeps : Z → Prop) g : (∀ id, g !! id = Some (Some o) → keeps id) → released o keeps g g.
Proof. intros Hk. split; [done|]. intros id o' Hl. case_decide; [subst; auto|done]. Qed.

Lemma released_lock o (keeps : Z → Prop) id g : (∀ i, g !! i = Some (Some o) → keeps i) → keeps id →
  released o keeps g (alter (λ _, Some o) id g).
Proof.
  intros Hg Hid. split; [intros i; by rewrite lookup_alter_is_Some|]. intros i o'.
  rewrite lookup_alter_Some. intros [(-> & g0 & _ & [= ->])|[Hne Hl]]; case_decide; subst; auto; done.
Qed.

Lemma released_unlock o (keeps : Z → Prop) id g g' : released o (eq id) g g' → released o keeps g (alter (λ _, None) id g').
Proof.
  intros [Hd Hr]. split; [intros i Hi; rewrite lookup_alter_is_Some; auto|]. intros i o'.
  rewrite lookup_alter_Some. intros [(-> & g0 & _ & [=])|[Hne Hl]]. apply Hr in Hl. by case_decide.
Qed.

Lemma held_runner rt rt' sid o : held_ok rt → slots rt' = partial_alter (λ _, o) sid (slots rt) → savers rt' = savers rt →
  released (RunnerOf sid) (runner_keeps o) (gates rt) (gates rt') → held_ok rt'.
Proof.
  intros Hh Hs Hv [_ Hr] id o' Hl. apply Hr in Hl. rewrite Hs, Hv. case_decide as Ho; [subst; by rewrite lookup_partial_alter_eq|].
  apply Hh in Hl. destruct o'; [|done]. by rewrite lookup_partial_alter_ne by congruence.
Qed.

Lemma held_saver rt rt' tid o : held_ok rt → savers rt' = partial_alter (λ _, o) tid (savers rt) → slots rt' = slots rt →
  released (SaverTask tid) (saver_keeps o) (gates rt) (gates rt') → held_ok rt'.
Proof.
  intros Hh Hs Hv [_ Hr] id o' Hl. apply Hr in Hl. rewrite Hs, Hv. case_decide as Ho; [subst; by rewrite lookup_partial_alter_eq|].
  apply Hh in Hl. destruct o'; [done|]. by rewrite lookup_partial_alter_ne by congruence.
Qed.

(** ** The work that is left

    What a runner has to do for the envelope it works on, for those in its
    queue, and to leave; and the gates and the write of a saver. *)
Definition phase_work p : Z :=
  match p with
  | Releasing _ (Some _) => 9
  | Getting _ _ => 8
  | Gating _ _ => 7
  | Preloading _ _ _ _ _ _ => 6
  | Saving _ _ _ => 5
  | Completing _ => 4
  | Releasing _ None => 3
  | Retiring => 2
  | Leaving | Spawned => 1
  end.
Definition slot_work slot : Z := phase_work (phase (runner slot)) + 10 * len (queue (mailbox slot)).
Definition saver_work (s : Saver) : Z := match s with Locking todo _ => 2 + len todo | Writing _ _ _ => 1 end.
Definition work rt : Z := map_sum slot_work (slots rt) + map_sum saver_work (savers rt).

Definition work_of {X} (f : X → Z) (o : option X) : Z := from_option f 0 o.

Lemma work_alter {X} (f : X → Z) (m : gmap Z X) k x o : m !! k = Some x →
  map_sum f (partial_alter (λ _, o) k m) = map_sum f m - f x + work_of f o.
Proof.
  intros Hk. destruct o as [y|]; simpl.
  - change (partial_alter (λ _, Some y) k m) with (<[k := y]> m). by apply map_sum_update.
  - change (partial_alter (λ _, None) k m) with (delete k m). rewrite (map_sum_delete _ _ _ _ Hk). lia.
Qed.

Lemma slot_work_pos slot : 0 < slot_work slot.
Proof.
  unfold slot_work. pose proof (len_nonneg (queue (mailbox slot))). destruct (phase (runner slot)) as [| | | | | |? []| |]; simpl; lia.
Qed.

Lemma saver_work_pos s : 0 < saver_work s.
Proof. destruct s as [todo|]; simpl; [pose proof (len_nonneg todo)|]; lia. Qed.

Lemma work_nonneg rt : 0 <= work rt.
Proof.
  unfold work. assert (0 <= map_sum slot_work (slots rt)) by (apply map_sum_nonneg; intros sid slot _; pose proof (slot_work_pos slot); lia).
  assert (0 <= map_sum saver_work (savers rt)) by (apply map_sum_nonneg; intros tid s _; pose proof (saver_work_pos s); lia).
  lia.
Qed.

(** ** A step of a runner *)

Definition runner_moves sid slot rt rt' : Prop :=
  ∃ o, slots rt' = partial_alter (λ _, o) sid (slots rt) ∧ savers rt' = savers rt
    ∧ released (RunnerOf sid) (runner_keeps o) (gates rt) (gates rt') ∧ work_of slot_work o < slot_work slot.

Lemma held_by_runner rt sid slot : held_ok rt → slots rt !! sid = Some slot →
  ∀ id, gates rt !! id = Some (Some (RunnerOf sid)) → owns_player slot = true ∧ player (runner slot) = Some id.
Proof. intros Hh Hs id Hl. apply Hh in Hl as (slot' & Hs' & Ho & Hp). simplify_eq. done. Qed.

Lemma quiet_released rt sid slot keeps : held_ok rt → slots rt !! sid = Some slot → owns_player slot = false →
  released (RunnerOf sid) keeps (gates rt) (gates rt).
Proof.
  intros Hh Hs Ho. apply released_same. intros id Hl. apply (held_by_runner rt sid slot Hh Hs) in Hl as [Ho' _]. congruence.
Qed.

(** A runner that holds no gate takes a step without one. *)
Lemma quiet_moves rt rt' sid slot slot' : held_ok rt → slots rt !! sid = Some slot → owns_player slot = false →
  slots rt' = <[sid := slot']> (slots rt) → savers rt' = savers rt → gates rt' = gates rt →
  slot_work slot' < slot_work slot → runner_moves sid slot rt rt'.
Proof.
  intros Hh Hs Ho Hsl Hsv Hg Hw. exists (Some slot'). split_and!; [exact Hsl|exact Hsv| |exact Hw].
  rewrite Hg. by eapply quiet_released.
Qed.

Definition in_phase p slot : KeySlot := mkKeySlot (mailbox slot) (mkRunner (runner_gid (runner slot)) (player (runner slot)) p).

Lemma set_phase_slots sid slot p rt rt1 : slots rt !! sid = Some slot → slots rt1 = slots rt →
  slots (set_phase sid p rt1) = <[sid := in_phase p slot]> (slots rt).
Proof. intros Hs Hsl. simpl. rewrite Hsl. by rewrite (alter_as_insert _ _ _ _ Hs). Qed.

Lemma phase_moves sid slot p rt rt1 : slots rt !! sid = Some slot → slots rt1 = slots rt → savers rt1 = savers rt →
  released (RunnerOf sid) (runner_keeps (Some (in_phase p slot))) (gates rt) (gates rt1) →
  phase_work p < phase_work (phase (runner slot)) → runner_moves sid slot rt (set_phase sid p rt1).
Proof.
  intros Hs Hsl Hsv Hr Hw. exists (Some (in_phase p slot)).
  split_and!; [by apply set_phase_slots|done|done|unfold slot_work; simpl; lia].
Qed.

Lemma answer_moves now sid gid slot e a rt rt1 : slots rt !! sid = Some slot → slots rt1 = slots rt → savers rt1 = savers rt →
  released (RunnerOf sid) (λ _, False) (gates rt) (gates rt1) →
  4 < phase_work (phase (runner slot)) → runner_moves sid slot rt (answer_envelope now sid gid e a rt1).
Proof. intros Hs Hsl Hsv Hr Hw. apply phase_moves; try done. eapply released_mono; [|exact Hr]. done. Qed.

(** The logic runs while the gate of the player is held. *)
Lemma execute_moves_runner now sid gid id e run b logic slot rt rt1 rt' :
  slots rt !! sid = Some slot → slots rt1 = slots rt → savers rt1 = savers rt →
  released (RunnerOf sid) (eq id) (gates rt) (gates rt1) → player (runner slot) = Some id →
  5 < phase_work (phase (runner slot)) →
  execute now sid gid id e run b logic rt1 = Done rt' → runner_moves sid slot rt rt'.
Proof.
  intros Hs Hsl Hsv Hr Hpl Hw. unfold execute. destruct (cells rt1 !! id) as [cell|]; [|done].
  destruct (logic (state cell)) as [[v st]|]; [|done]. destruct (finish_logic now id b _) as [rt2| |] eqn:Hf; try done.
  apply finish_logic_view in Hf. unfold view in Hf. injection Hf as Hg Hsl2 Hsv2.
  assert (gates rt2 = gates rt1) as Hg2 by (rewrite Hg; unfold gates; simpl; by rewrite gates_keep). clear Hg. simpl in Hsl2, Hsv2.
  case_match; intros [= <-].
  - apply phase_moves; [done|simpl; congruence|simpl; congruence| |simpl; lia].
    change (gates (on_stats _ (record_run now run rt2))) with (gates rt2). rewrite Hg2.
    eapply released_mono; [|exact Hr]. intros i <-. by exists (in_phase (Saving e v now) slot).
  - apply answer_moves; [done|simpl; congruence|simpl; congruence| |lia].
    unfold gates at 2. simpl. rewrite gates_set. apply (released_unlock _ _ id).
    change (released (RunnerOf sid) (eq id) (gates rt) (gates rt2)). by rewrite Hg2.
Qed.

Lemma gate_locked_moves now sid slot e run rt rt' : held_ok rt → slots rt !! sid = Some slot →
  phase (runner slot) = Gating e run → gate_locked now sid slot e run rt = Done rt' → runner_moves sid slot rt rt'.
Proof.
  intros Hh Hs Hp. assert (owns_player slot = false) as Ho by (unfold owns_player; by rewrite Hp).
  assert (∀ i, gates rt !! i ≠ Some (Some (RunnerOf sid))) as Hnone.
  { intros i Hl. apply (held_by_runner rt sid slot Hh Hs) in Hl as [? _]. congruence. }
  unfold gate_locked. destruct (player (runner slot)) as [id|] eqn:Hpl; [|done].
  destruct (cells rt !! id) as [cell|] eqn:Hc; [|done]. destruct (save_gate cell); [done|].
  set (rt1 := lock_gate (RunnerOf sid) id rt).
  assert (released (RunnerOf sid) (eq id) (gates rt) (gates rt1)) as Hr.
  { unfold rt1, gates at 2. simpl. rewrite gates_set. apply released_lock; [|done]. intros i Hl. by apply Hnone in Hl. }
  assert (∀ b rt2 rt', gates rt2 = gates rt1 → slots rt2 = slots rt → savers rt2 = savers rt →
    match command e with
    | TypedCommand logic _ => execute now sid (runner_gid (runner slot)) id e run b logic rt2
    | TypedPreloadedCommand preload logic _ =>
        match preload (state cell) with
        | None => Panic
        | Some future =>
            Done (set_phase sid (Preloading e run logic b future now) (on_stats (StatsInner.on_preload_calls incr) rt2))
        end
    end = Done rt' → runner_moves sid slot rt rt') as Hgo.
  { intros b rt2 rt3 Hg Hsl Hsv. destruct (command e) as [logic s|preload logic s].
    - eapply execute_moves_runner; try done; [by rewrite Hg|rewrite Hp; simpl; lia].
    - destruct (preload (state cell)) as [future|]; [|done]. intros [= <-].
      apply phase_moves; try done; [|rewrite Hp; simpl; lia].
      change (gates (on_stats _ rt2)) with (gates rt2). rewrite Hg. eapply released_mono; [|exact Hr].
      intros i <-. eexists. split_and!; [done|done|exact Hpl]. }
  destruct (dirty_slot cell); [by apply Hgo|].
  destruct (DirtyAdmission.acquire _ _) as [[d st]|] eqn:Hacq; [by apply Hgo|].
  intros [= <-]. apply answer_moves; try done; [|rewrite Hp; simpl; lia].
  unfold gates at 2. simpl. rewrite gates_set. by apply released_unlock.
Qed.

(** The runner that works on a player holds its gate only. *)
Lemma owner_released rt sid slot id : held_ok rt → slots rt !! sid = Some slot → player (runner slot) = Some id →
  released (RunnerOf sid) (eq id) (gates rt) (gates rt).
Proof.
  intros Hh Hs Hp. apply released_same. intros i Hl. apply (held_by_runner rt sid slot Hh Hs) in Hl as [_ Hi]. congruence.
Qed.

Lemma preloaded_moves now sid slot e run logic b fut started outcome rt rt' : held_ok rt → slots rt !! sid = Some slot →
  phase (runner slot) = Preloading e run logic b fut started →
  preloaded now sid slot e run logic b started outcome rt = Done rt' → runner_moves sid slot rt rt'.
Proof.
  intros Hh Hs Hp. unfold preloaded. destruct (player (runner slot)) as [id|] eqn:Hpl; [|done].
  pose proof (owner_released rt sid slot id Hh Hs Hpl) as Hr.
  destruct outcome as [v|err].
  - apply execute_moves_runner; [exact Hs|done|done|exact Hr|exact Hpl|rewrite Hp; simpl; lia].
  - destruct (drop_reservation b _) as [rt1| |] eqn:Hdrop; try done. intros [= <-].
    apply drop_reservation_view in Hdrop. unfold view in Hdrop. injection Hdrop as Hg Hsl Hsv.
    apply answer_moves; try done; [|rewrite Hp; simpl; lia].
    unfold gates at 2. simpl. rewrite gates_set. apply (released_unlock _ _ id).
    change (released (RunnerOf sid) (eq id) (gates rt) (gates rt1)). rewrite Hg. exact Hr.
Qed.

Lemma saved_moves now sid slot e v started outcome rt rt' : held_ok rt → slots rt !! sid = Some slot →
  phase (runner slot) = Saving e v started →
  saved now sid slot e v started outcome rt = Done rt' → runner_moves sid slot rt rt'.
Proof.
  intros Hh Hs Hp. unfold saved. destruct (player (runner slot)) as [id|] eqn:Hpl; [|done].
  destruct (save_returned _ _ _ _ _) as [rt1| |] eqn:Hsave; try done. intros [= <-].
  apply save_returned_view in Hsave. unfold view in Hsave. injection Hsave as Hg Hsl Hsv.
  apply answer_moves; try done; [|rewrite Hp; simpl; lia].
  unfold gates at 2. simpl. rewrite gates_set. apply (released_unlock _ _ id).
  change (released (RunnerOf sid) (eq id) (gates rt) (gates rt1)). rewrite Hg. by eapply owner_released.
Qed.

Lemma cache_got_moves now sid slot e run got resident' rt rt' : held_ok rt → slots rt !! sid = Some slot →
  phase (runner slot) = Getting e run → cache_got now sid slot e run got resident' rt = Done rt' → runner_moves sid slot rt rt'.
Proof.
  intros Hh Hs Hp. assert (owns_player slot = false) as Ho by (unfold owns_player; by rewrite Hp).
  assert (∀ i, gates rt !! i ≠ Some (Some (RunnerOf sid))) as Hnone.
  { intros i Hl. apply (held_by_runner rt sid slot Hh Hs) in Hl as [? _]. congruence. }
  assert (∀ id rt1, slots rt1 = slots rt → savers rt1 = savers rt →
    (∀ keeps, released (RunnerOf sid) keeps (gates rt) (gates rt1)) →
    runner_moves sid slot rt (on_slots (alter (on_runner (λ r, mkRunner (runner_gid (runner slot)) (Some id) (Gating e run))) sid) rt1)) as Hpl.
  { intros id rt1 Hsl Hsv Hr. eexists (Some _). split_and!; [simpl; by rewrite Hsl, (alter_as_insert _ _ _ _ Hs)|done|apply Hr|].
    unfold slot_work. simpl. rewrite Hp. simpl. lia. }
  assert (∀ keeps, released (RunnerOf sid) keeps (gates rt) (gates rt)) as Hsame.
  { intros keeps. apply released_same. intros i Hl. by apply Hnone in Hl. }
  unfold cache_got. destruct got as [id|q|load err], (resident rt !! _) as [id'|] eqn:Hres; try done.
  - case_if; [|done]. intros [= <-]. by apply Hpl.
  - case_if; [|done]. destruct (is_dirty q); [done|]. intros [= <-]. apply Hpl; try done.
    intros keeps. unfold gates at 2. simpl. rewrite fmap_insert. simpl. split.
    + intros i Hi. rewrite lookup_insert_is_Some'. by right.
    + intros i o'. rewrite lookup_insert_Some. intros [[_ [=]]|[_ Hl]].
      destruct (decide (o' = RunnerOf sid)) as [->|Hne]; [by apply Hnone in Hl|exact Hl].
  - destruct (map_cache_error err); [|done]. case_if; [|done]. intros [= <-].
    apply answer_moves; [done|by destruct load|by destruct load| |rewrite Hp; simpl; lia]. destruct load; apply Hsame.
Qed.

Lemma begin_moves now sid slot m e rt rt1 : held_ok rt → slots rt !! sid = Some slot → owns_player slot = false →
  slots rt1 = <[sid := mkKeySlot m (runner slot)]> (slots rt) → savers rt1 = savers rt → gates rt1 = gates rt →
  8 + 10 * len (queue m) < slot_work slot → runner_moves sid slot rt (begin_envelope now sid (runner slot) e rt1).
Proof.
  intros Hh Hs Ho Hsl Hsv Hg Hw. eapply quiet_moves; [done..| |done|done|].
  - unfold begin_envelope. simpl. rewrite Hsl. rewrite (alter_as_insert _ _ _ _ (lookup_insert_eq _ _ _)). by rewrite insert_insert_eq.
  - unfold slot_work at 1. simpl. destruct (player (runner slot)); simpl; lia.
Qed.

Lemma exec_runner_moves now l sid slot rt rt' : held_ok rt → slots rt !! sid = Some slot →
  exec_runner now l sid rt = Done rt' → runner_moves sid slot rt rt'.
Proof.
  intros Hh Hs. unfold exec_runner. rewrite Hs.
  destruct l, (phase (runner slot)) as [| | | | | |k next| |] eqn:Hp; try done; intros Hx.
  - unfold take_next in Hx. destruct (queue (mailbox slot)) as [|next rest] eqn:Hq; [done|]. injection Hx as <-.
    eapply begin_moves; try done; [unfold owns_player; by rewrite Hp|simpl; by rewrite (alter_as_insert _ _ _ _ Hs)|].
    unfold slot_work. rewrite Hp, Hq, len_cons. simpl. lia.
  - by eapply cache_got_moves.
  - by eapply gate_locked_moves.
  - by eapply preloaded_moves.
  - by eapply saved_moves.
  - injection Hx as <-. unfold complete_and_take_next. destruct (queue (mailbox slot)) as [|next rest] eqn:Hq;
      (eapply quiet_moves; [done|done|unfold owns_player; by rewrite Hp
        |simpl; rewrite (alter_as_insert _ _ _ _ Hs), (alter_as_insert _ _ _ _ (lookup_insert_eq _ _ _)), insert_insert_eq; done
        |done|done|]);
      unfold slot_work; simpl; rewrite Hp, Hq; simpl; rewrite ?len_cons, ?len_nil; lia.
  - injection Hx as <-. unfold permit_dropped. destruct next as [next|].
    + apply (begin_moves _ _ _ (mailbox slot)); try done; [unfold owns_player; by rewrite Hp| |].
      { symmetry. apply insert_id. etrans; [exact Hs|]. by destruct slot. }
      unfold slot_work. rewrite Hp. simpl. lia.
    + apply phase_moves; try done; [|by rewrite Hp]. apply (quiet_released rt _ slot); try done. unfold owns_player. by rewrite Hp.
  - assert (∃ rt1, view rt1 = view rt ∧ rt' = set_phase sid Leaving rt1) as (rt1 & Hv & ->).
    { unfold cache_set in Hx. repeat case_match; simplify_eq; (eexists; split; [|reflexivity]); done. }
    unfold view in Hv. injection Hv as Hg Hsl Hsv. apply phase_moves; try done; [|by rewrite Hp]. rewrite Hg.
    apply (quiet_released rt _ slot); try done. unfold owns_player. by rewrite Hp.
  - unfold retire_or_take_next in Hx. destruct (directory rt !! _); [|done].
    destruct (queue (mailbox slot)) as [|next rest] eqn:Hq; injection Hx as <-.
    + exists None. split_and!; [done|done| |apply slot_work_pos].
      apply (quiet_released rt _ slot); try done. unfold owns_player. by rewrite Hp.
    + eapply begin_moves; try done; [unfold owns_player; by rewrite Hp|simpl; by rewrite (alter_as_insert _ _ _ _ Hs)|].
      unfold slot_work. rewrite Hp, Hq, len_cons. simpl. lia.
Qed.

(** ** The envelopes that are left

    A step of a runner leaves a part of the envelopes of its slot. *)
Lemma begin_envelope_slots now sid r slot e rt :
  slots rt !! sid = Some slot → runner slot = r →
  ∃ slot', slots (begin_envelope now sid r e rt) = <[sid := slot']> (slots rt)
    ∧ envelopes slot' = e :: queue (mailbox slot).
Proof.
  intros Hs <-. unfold begin_envelope. destruct (player (runner slot)) as [id|];
    (eexists; split; [simpl; by rewrite (alter_as_insert _ _ _ _ Hs)|done]).
Qed.

(** The slot of [rt'] is gone, or holds no envelope it did not hold in [slot]. *)
Definition envelopes_left sid slot rt rt' : Prop :=
  ∃ o, slots rt' = partial_alter (λ _, o) sid (slots rt) ∧ ∀ slot', o = Some slot' → envelopes slot' ⊆ envelopes slot.

Lemma moved_left sid slot rt rt' : moved sid slot rt rt' → envelopes_left sid slot rt rt'.
Proof.
  intros (pl & p & ans & _ & Hs & _ & Hc & _). eexists (Some _). split; [exact Hs|]. intros slot' [= <-].
  unfold envelopes. simpl. by rewrite Hc.
Qed.

Lemma begin_left now sid m e slot rt rt1 : slots rt !! sid = Some slot →
  slots rt1 = <[sid := mkKeySlot m (runner slot)]> (slots rt) →
  e ∈ envelopes slot → queue m ⊆ envelopes slot →
  envelopes_left sid slot rt (begin_envelope now sid (runner slot) e rt1).
Proof.
  intros Hs Hs1 He Hm.
  destruct (begin_envelope_slots now sid (runner slot) (mkKeySlot m (runner slot)) e rt1) as (slot' & Hs' & Henv);
    [by rewrite Hs1, lookup_insert_eq|done|].
  exists (Some slot'). split; [rewrite Hs', Hs1, insert_insert_eq; done|]. intros slot'' [= <-]. rewrite Henv. simpl.
  set_solver.
Qed.

Lemma exec_runner_left now l sid slot rt rt' : slots rt !! sid = Some slot →
  exec_runner now l sid rt = Done rt' → envelopes_left sid slot rt rt'.
Proof.
  intros Hs. unfold exec_runner. rewrite Hs.
  destruct l, (phase (runner slot)) as [| | | | | |k next| |] eqn:Hp; try done; intros Hx.
  - unfold take_next in Hx. destruct (queue (mailbox slot)) as [|next rest] eqn:Hq; [done|]. injection Hx as <-.
    eapply begin_left; [done|simpl; by rewrite (alter_as_insert _ _ _ _ Hs)|..];
      unfold envelopes; rewrite Hp, Hq; simpl; set_solver.
  - by eapply moved_left, cache_got_moved.
  - by eapply moved_left, gate_locked_moved.
  - by eapply moved_left, preloaded_moved.
  - by eapply moved_left, saved_moved.
  - injection Hx as <-. unfold complete_and_take_next. destruct (queue (mailbox slot)) as [|next rest] eqn:Hq;
      (eexists (Some _); split; [simpl; rewrite (alter_as_insert _ _ _ _ Hs), (alter_as_insert _ _ _ _ (lookup_insert_eq _ _ _)), insert_insert_eq; done|]);
      intros slot' [= <-]; unfold envelopes; simpl; rewrite Hp, Hq; simpl; set_solver.
  - injection Hx as <-. unfold permit_dropped. destruct next as [next|].
    + eapply (begin_left _ _ (mailbox slot)); [done| |unfold envelopes; rewrite Hp; simpl; set_solver..].
      symmetry. apply insert_id. etrans; [exact Hs|]. by destruct slot.
    + eexists (Some _). split; [simpl; by rewrite (alter_as_insert _ _ _ _ Hs)|]. intros slot' [= <-].
      unfold envelopes. simpl. set_solver.
  - by eapply moved_left, cache_set_moved.
  - unfold retire_or_take_next in Hx. destruct (directory rt !! _); [|done].
    destruct (queue (mailbox slot)) as [|next rest] eqn:Hq; injection Hx as <-; [by exists None|].
    eapply begin_left; [done|simpl; by rewrite (alter_as_insert _ _ _ _ Hs)|..];
      unfold envelopes; rewrite Hp, Hq; simpl; set_solver.
Qed.

(** ** A step of a saver *)

Definition entries_of (s : Saver) : list (Z * Z) :=
  match s with Locking todo locked => locked ++ todo | Writing _ locked _ => locked end.

Definition saver_moves tid (s : Saver) rt rt' : Prop :=
  ∃ o, savers rt' = partial_alter (λ _, o) tid (savers rt) ∧ slots rt' = slots rt
    ∧ released (SaverTask tid) (saver_keeps o) (gates rt) (gates rt')
    ∧ work_of saver_work o < saver_work s
    ∧ ∀ s', o = Some s' → entries_of s' = entries_of s.

Lemma unlock_all_view (locked : list (Z * Z)) rt :
  let rt' := foldr (λ entry, unlock_gate entry.2) rt locked in
  slots rt' = slots rt ∧ savers rt' = savers rt
  ∧ (∀ id, is_Some (gates rt !! id) → is_Some (gates rt' !! id))
  ∧ ∀ id o, gates rt' !! id = Some (Some o) → id ∉ locked.*2 ∧ gates rt !! id = Some (Some o).
Proof.
  induction locked as [|e locked (IH1 & IH2 & IH3 & IH4)]; simpl.
  { split_and!; [done..|]. intros id o Hl. split; [apply not_elem_of_nil|done]. }
  split_and!; [exact IH1|exact IH2| |].
  - intros id Hi. unfold gates at 1. simpl. rewrite gates_set, lookup_alter_is_Some. by apply IH3.
  - intros id o. unfold gates at 1. simpl. rewrite gates_set, lookup_alter_Some.
    intros [(_ & g & _ & [=])|[Hne Hl]]. apply IH4 in Hl as [Hni Hl]. split; [|done].
    rewrite elem_of_cons. intros [->|?]; done.
Qed.

Lemma held_by_saver rt tid s : held_ok rt → savers rt !! tid = Some s →
  ∀ id, gates rt !! id = Some (Some (SaverTask tid)) → id ∈ (locked_of s).*2.
Proof. intros Hh Hs id Hl. apply Hh in Hl as (s' & Hs' & Hin). simplify_eq. done. Qed.

(** A saver that is done lets go of its gates and ends. *)
Lemma saver_ends tid s rt rt1 : held_ok rt → savers rt !! tid = Some s → gates rt1 = gates rt → slots rt1 = slots rt →
  savers rt1 = savers rt →
  saver_moves tid s rt (on_savers (delete tid) (foldr (λ entry, unlock_gate entry.2) rt1 (locked_of s))).
Proof.
  intros Hh Hs Hg Hsl Hsv. destruct (unlock_all_view (locked_of s) rt1) as (U1 & U2 & U3 & U4).
  exists None. split_and!; [simpl; by rewrite U2, Hsv|simpl; congruence| |apply saver_work_pos|done].
  split.
  - intros id Hi. apply U3. by rewrite Hg.
  - intros id o Hl. apply U4 in Hl as [Hni Hl]. rewrite Hg in Hl.
    destruct (decide (o = SaverTask tid)) as [->|Hne]; [|done]. by apply (held_by_saver rt tid s Hh Hs) in Hl.
Qed.

Lemma saver_advance_moves now tid s rt rt' : held_ok rt → savers rt !! tid = Some s →
  saver_advance now tid s rt = Done rt' → saver_moves tid s rt rt'.
Proof.
  intros Hh Hs. pose proof (held_by_saver rt tid s Hh Hs) as Hheld. destruct s as [[|entry todo] locked|]; simpl; [| |done].
  - destruct (filter _ locked) as [|e es] eqn:Hd; intros [= <-]; [by apply (saver_ends tid (Locking [] locked))|].
    exists (Some (Writing (e :: es) locked now)). split_and!; [done|done| |simpl; rewrite len_nil; lia|].
    + apply released_same. intros id Hl. eexists. split; [done|]. by apply Hheld.
    + intros s' [= <-]. simpl. by rewrite app_nil_r.
  - destruct (cells rt !! entry.2) as [cell|]; [|done]. destruct (save_gate cell); [done|]. intros [= <-].
    exists (Some (Locking todo (locked ++ [entry]))). split_and!; [done|done| |simpl; rewrite len_cons; lia|].
    + unfold gates at 2. simpl. rewrite gates_set. apply released_lock.
      * intros id Hl. eexists. split; [done|]. simpl. rewrite fmap_app, elem_of_app. left. by apply Hheld.
      * eexists. split; [done|]. simpl. rewrite fmap_app, elem_of_app. right. by apply list_elem_of_singleton.
    + intros s' [= <-]. simpl. by rewrite <- app_assoc.
Qed.

Lemma saver_done_moves now tid s outcome ok rt rt' : held_ok rt → savers rt !! tid = Some s →
  saver_done now tid s outcome ok rt = Done rt' → saver_moves tid s rt rt'.
Proof.
  intros Hh Hs. destruct s as [|dirty locked started]; simpl; [done|].
  destruct (refresh_all now dirty _) as [rt1| |] eqn:Hr; try done. intros [= <-].
  apply refresh_all_view in Hr. unfold view in Hr. injection Hr as Hg Hsl Hsv.
  apply (saver_ends tid (Writing dirty locked started)); try done; [|by rewrite Hsl; destruct (is_ok outcome)|by rewrite Hsv; destruct (is_ok outcome)].
  rewrite Hg. destruct (is_ok outcome); apply gates_write_all.
Qed.

(** ** What the tasks rely on

    The cache hands every player to a saver once, under the key he was loaded
    for: [gid_of] is the player that a cell was loaded for. *)
Variable gid_of : Z → Z.

(** The closures that the callers submit return, whatever player they are
    given: one that panics kills its runner, and the player's later calls wait
    for ever. *)
Definition command_returns (c : @Command P R A F) : Prop :=
  match c with
  | TypedCommand logic _ => ∀ st, is_Some (logic st)
  | TypedPreloadedCommand preload logic _ => (∀ st, is_Some (preload st)) ∧ ∀ a st, is_Some (logic a st)
  end.

Definition env_ok rt l : Prop :=
  match l with
  | LTryUse _ _ request => command_returns (command_of request 0)
  | LSaverStart _ entries => NoDup entries.*1 ∧ Forall (λ e, gid_of e.2 = e.1 ∧ is_Some (cells rt !! e.2)) entries
  | _ => True
  end.

(** A run from [rt] whose steps are all possible, in such an environment. *)
Fixpoint run_ok (ls : list (Z * Label)) rt : Prop :=
  match ls with
  | [] => True
  | (now, l) :: ls => env_ok rt l ∧ match exec now l rt with Done rt' => run_ok ls rt' | _ => False end
  end.

(** The entries of a saver have their gates locked in the order of the
    players. *)
Definition ordered rt (entries : list (Z * Z)) : Prop :=
  StronglySorted (λ x y, x.1 < y.1) entries ∧ Forall (λ e, gid_of e.2 = e.1 ∧ is_Some (gates rt !! e.2)) entries.

(** The commands that wait in the mailboxes, or that a runner works on,
    return. *)
Definition commands_ok rt : Prop :=
  ∀ sid slot, slots rt !! sid = Some slot → Forall (λ e, command_returns (command e)) (envelopes slot).

Definition flow_ok rt : Prop :=
  held_ok rt ∧ (∀ tid s, savers rt !! tid = Some s → ordered rt (entries_of s)) ∧ commands_ok rt.

Lemma commands_left sid slot rt rt' : slots rt !! sid = Some slot → envelopes_left sid slot rt rt' →
  commands_ok rt → commands_ok rt'.
Proof.
  intros Hs (o & Hs' & Hsub) Hc sid' slot'. rewrite Hs'. destruct (decide (sid' = sid)) as [->|Hne].
  - rewrite lookup_partial_alter_eq. intros ->. specialize (Hc sid slot Hs). rewrite Forall_forall in Hc |- *.
    intros e He. by apply Hc, (Hsub slot').
  - rewrite lookup_partial_alter_ne by done. apply Hc.
Qed.

Lemma command_returns_sender request s s' :
  command_returns (command_of request s) → command_returns (command_of request s').
Proof. by destruct request. Qed.

Lemma commands_try_use now gid kib request rt : dispatch_ok rt → command_returns (command_of request 0) →
  commands_ok rt → commands_ok (try_use now gid kib request rt).1.
Proof.
  intros Hd Hr Hc. unfold try_use, enqueue. simpl.
  destruct (directory rt !! gid) as [sid|] eqn:Hdir; simpl; (case_if; [exact Hc|]);
    destruct (Admission.acquire _ _ _) as [[a s] []]; [|exact Hc| |exact Hc];
    intros sid' slot'; simpl; rewrite lookup_insert_Some; (intros [[<- <-]|[_ Hl]]; [|by eapply Hc]);
    unfold envelopes; simpl.
  - pose proof Hdir as (slot & Hs & _)%(d_dir rt Hd). rewrite Hs. simpl. rewrite app_assoc, Forall_app.
    split; [by eapply Hc|]. constructor; [|done]. by eapply command_returns_sender.
  - constructor; [|done]. by eapply command_returns_sender.
Qed.

Lemma ordered_mono rt rt' entries : (∀ id, is_Some (gates rt !! id) → is_Some (gates rt' !! id)) → ordered rt entries → ordered rt' entries.
Proof.
  intros Hd [Hs Hf]. split; [done|]. eapply Forall_impl; [exact Hf|]. intros e [? ?]. auto.
Qed.

Lemma sorted_strict (entries : list (Z * Z)) : NoDup entries.*1 → StronglySorted (λ x y, x.1 <= y.1) entries →
  StronglySorted (λ x y, x.1 < y.1) entries.
Proof.
  induction entries as [|e entries IH]; simpl; [constructor|]. rewrite NoDup_cons. intros [Hni Hnd] Hs.
  apply StronglySorted_inv in Hs as [Hs Hle]. constructor; [by apply IH|]. rewrite Forall_forall in Hle |- *.
  intros x Hx. specialize (Hle x Hx). assert (e.1 ≠ x.1); [|lia]. intros Heq. apply Hni. rewrite Heq. by apply list_elem_of_fmap_2.
Qed.

Lemma flow_runner rt rt' sid slot : flow_ok rt → slots rt !! sid = Some slot → runner_moves sid slot rt rt' →
  envelopes_left sid slot rt rt' → flow_ok rt' ∧ work rt' < work rt.
Proof.
  intros (Hh & Ho & Hc) Hs (o & Hsl & Hsv & Hr & Hw) Hleft. split; [split_and!|].
  - by eapply held_runner.
  - intros tid s. rewrite Hsv. intros Hl. eapply ordered_mono; [apply Hr|]. by eapply Ho.
  - by eapply commands_left.
  - unfold work. rewrite Hsl, Hsv, (work_alter _ _ _ _ _ Hs). lia.
Qed.

Lemma flow_saver rt rt' tid s : flow_ok rt → savers rt !! tid = Some s → saver_moves tid s rt rt' →
  flow_ok rt' ∧ work rt' < work rt.
Proof.
  intros (Hh & Ho & Hc) Hs (o & Hsv & Hsl & Hr & Hw & He). split; [split_and!|].
  - by eapply held_saver.
  - intros tid' s'. rewrite Hsv. destruct (decide (tid' = tid)) as [->|Hne].
    + rewrite lookup_partial_alter_eq. intros ->. rewrite (He s' eq_refl). eapply ordered_mono; [apply Hr|]. by eapply Ho.
    + rewrite lookup_partial_alter_ne by done. intros Hl. eapply ordered_mono; [apply Hr|]. by eapply Ho.
  - intros sid slot. rewrite Hsl. apply Hc.
  - unfold work. rewrite Hsl, Hsv, (work_alter _ _ _ _ _ Hs). lia.
Qed.

(** A call that is refused, as all are during shutdown, leaves no work. *)
Lemma try_use_closed now gid kib request rt : dispatch_ok rt → rt_state rt ≠ RuntimeState.Running →
  slots (try_use now gid kib request rt).1 = slots rt.
Proof.
  intros Hd Hst. unfold try_use, enqueue.
  pose proof (d_adm rt Hd) as Ha. unfold closed in Ha. rewrite bool_decide_eq_false_2 in Ha by done.
  destruct (directory _ !! gid); (case_if; [done|]);
    destruct (Admission.acquire _ _ _) as [[a s] r] eqn:Hacq;
    pose proof (acquire_spec _ _ _ _ _ _ _ _ _ _ (d_config rt Hd) Ha (Z.le_trans 0 1 _ ltac:(done) (Z.le_max_r kib 1)) Hacq) as (_ & _ & Hrej);
    (destruct r as [k|reason]; [by destruct Hrej|done]).
Qed.

Lemma flow_try_use now gid kib request rt : dispatch_ok rt → command_returns (command_of request 0) → flow_ok rt →
  flow_ok (try_use now gid kib request rt).1.
Proof.
  intros Hd Hret (Hh & Ho & Hc). pose proof (commands_try_use now gid kib request rt Hd Hret Hc) as Hc'. destruct (try_use_shape now gid kib request rt Hd) as (E1 & _ & _ & E4 & _ & E6).
  set (rt' := (try_use now gid kib request rt).1) in *. clearbody rt'.
  assert (gates rt' = gates rt) as Hg by (unfold gates; by rewrite E1). split_and!; [| |exact Hc'].
  - intros id o. rewrite Hg. intros Hl. apply Hh in Hl. destruct o as [sid|tid]; [|by rewrite E4].
    destruct E6 as [->|(sid' & slot & m & [_ Ht] & ->)]; [done|].
    destruct (decide (sid' = sid)) as [->|Hne]; [|by rewrite lookup_insert_ne].
    rewrite lookup_insert_eq. destruct Hl as (slot' & Hs & Ho' & Hp).
    destruct Ht as [Hs'|(_ & Hs' & _)]; [|congruence]. simplify_eq. by eexists.
  - intros tid s. rewrite E4. intros Hl. eapply ordered_mono; [|by eapply Ho]. intros id. by rewrite Hg.
Qed.

(** ** Every step

    [task_step] are the steps of the runners and the savers. *)
Definition task_step l : bool :=
  match l with
  | LTryUse _ _ _ | LEvict _ | LSaverStart _ _ | LShutdownBegin | LShutdownFinish _ _ => false
  | _ => true
  end.

(** The work that the start of a saver adds. *)
Definition started_work l : Z := match l with LSaverStart _ entries => 2 + len entries | _ => 0 end.

Lemma flow_same rt rt' : gates rt' = gates rt → slots rt' = slots rt → savers rt' = savers rt → flow_ok rt →
  flow_ok rt' ∧ work rt' = work rt.
Proof.
  intros Hg Hs Hv (Hh & Ho & Hc). split; [split_and!|unfold work; by rewrite Hs, Hv].
  - intros id o. rewrite Hg, Hs, Hv. apply Hh.
  - intros tid s. rewrite Hv. intros Hl. eapply ordered_mono; [|by eapply Ho]. intros id. by rewrite Hg.
  - intros sid slot. rewrite Hs. apply Hc.
Qed.

Lemma flow_saver_start tid entries rt rt' : flow_ok rt → env_ok rt (LSaverStart tid entries) →
  saver_start tid entries rt = Done rt' → flow_ok rt' ∧ work rt' = work rt + 2 + len entries.
Proof.
  intros (Hh & Ho & Hc) [Hnd Hall]. unfold saver_start. destruct (savers rt !! tid) as [|] eqn:Hs; [done|].
  case_if; [|done]. intros [= <-]. pose proof (sort_unstable_perm (key := fst) entries) as Hperm. split; [split_and!|].
  - intros id o Hl. apply Hh in Hl. destruct o as [sid|tid']; [done|]. destruct Hl as (s & Hs' & Hin).
    exists s. split; [|done]. simpl. rewrite lookup_insert_ne; [done|congruence].
  - intros tid' s. simpl. rewrite lookup_insert_Some. intros [[<- <-]|[_ Hl]]; [|by eapply (ordered_mono rt); [|eapply Ho]].
    simpl. split.
    + apply sorted_strict; [by rewrite Hperm|apply sort_unstable_sorted].
    + rewrite Hperm. eapply Forall_impl; [exact Hall|]. intros e [He Hce]. split; [done|]. by apply gates_cell.
  - exact Hc.
  - unfold work. simpl. rewrite (map_sum_insert _ _ _ _ Hs). simpl.
    assert (len (sort_unstable_by_key fst entries) = len entries) as -> by (unfold len; by rewrite Hperm). lia.
Qed.

Lemma exec_flow now l rt rt' : dispatch_ok rt → flow_ok rt → env_ok rt l → exec now l rt = Done rt' →
  flow_ok rt' ∧ (rt_state rt ≠ RuntimeState.Running → work rt' + (if task_step l then 1 else 0) <= work rt + started_work l).
Proof.
  intros Hd Hf He Hx.
  assert (∀ rt1, gates rt1 = gates rt → slots rt1 = slots rt → savers rt1 = savers rt →
    flow_ok rt1 ∧ (rt_state rt ≠ RuntimeState.Running → work rt1 + 0 <= work rt + 0)) as Hsame.
  { intros rt1 Hg Hs Hv. destruct (flow_same rt rt1 Hg Hs Hv Hf) as [? ->]. split; [done|lia]. }
  assert (∀ sid, exec_runner now l sid rt = Done rt' →
    flow_ok rt' ∧ (rt_state rt ≠ RuntimeState.Running → work rt' + 1 <= work rt + 0)) as Hrun.
  { intros sid Hr. destruct (slots rt !! sid) as [slot|] eqn:Hs; [|unfold exec_runner in Hr; by rewrite Hs in Hr].
    destruct (flow_runner rt rt' sid slot Hf Hs) as [? ?]; [by eapply exec_runner_moves; [apply Hf|..]|by eapply exec_runner_left|]. split; [done|lia]. }
  destruct l; simpl in Hx |- *; try (by eapply Hrun).
  - injection Hx as <-. split; [by apply flow_try_use|]. intros Hst.
    unfold work. rewrite try_use_closed by done. destruct (try_use_shape now gid retained_kib request rt Hd) as (_ & _ & _ & -> & _). lia.
  - case_match; [|done]. injection Hx as <-. by apply Hsame.
  - destruct (flow_saver_start tid entries rt rt' Hf He Hx) as [? Hw]. split; [done|lia].
  - destruct (savers rt !! tid) as [s|] eqn:Hs; [|done].
    destruct (flow_saver rt rt' tid s Hf Hs) as [? ?]; [by eapply saver_advance_moves; [apply Hf|..]|]. split; [done|lia].
  - destruct (savers rt !! tid) as [s|] eqn:Hs; [|done].
    destruct (flow_saver rt rt' tid s Hf Hs) as [? ?]; [by eapply saver_done_moves; [apply Hf|..]|]. split; [done|lia].
  - injection Hx as <-. unfold shutdown_begin. destruct (rt_state rt); by apply Hsame.
  - destruct (rt_state rt); [done| |done]. destruct (drained rt); [|done].
    destruct (shutdown_finish _ _ _ _) as [[rt1 r]|] eqn:Hfin; [|done]. injection Hx as <-.
    unfold shutdown_finish in Hfin. repeat case_match; simplify_eq; by apply Hsame.
Qed.

(** ** No circle of waiting tasks *)

(** The environment answers a runner that waits for it: a load, a preload or a
    save may at least fail. *)
Context `{!Inhabited E}.

(** Some task can take a step. *)
Definition possible now rt : Prop := ∃ l rt', task_step l = true ∧ env_ok rt l ∧ exec now l rt = Done rt'.

Lemma unblocked now l rt : dispatch_ok rt → players_ok rt → task_step l = true → fault l rt = false → exec now l rt ≠ Blocked → possible now rt.
Proof.
  intros Hd Hp Ht Hl Hb. pose proof (exec_sat now l rt Hd Hp Hl) as Hsat.
  destruct (exec now l rt) as [rt'| |] eqn:Hx; [|done..]. exists l, rt'. split_and!; [done| |done].
  by destruct l.
Qed.

Lemma execute_unblocked now sid gid id e run b (logic : P → option (R * P)) rt :
  is_Some (gates rt !! id) → execute now sid gid id e run b logic rt ≠ Blocked.
Proof.
  intros Hg. unfold execute. pose proof Hg as [cell Hc]%gates_cell. rewrite Hc.
  destruct (logic (state cell)) as [[v p]|]; [|done].
  assert (finish_logic now id b (on_cells (alter (on_state (λ _, p)) id) rt) ≠ Blocked) as Hf.
  { apply finish_logic_moves. unfold gates. simpl. by rewrite gates_keep. }
  destruct (finish_logic _ _ _ _); [by case_match|done|done].
Qed.

(** A runner waits for a gate that another task holds. *)
Definition waits rt slot : bool :=
  match phase (runner slot), player (runner slot) with
  | Gating _ _, Some id => match gates rt !! id with Some (Some _) => true | _ => false end
  | _, _ => false
  end.

Lemma gate_locked_unblocked now sid slot e run id rt : player (runner slot) = Some id → gates rt !! id = Some None →
  gate_locked now sid slot e run rt ≠ Blocked.
Proof.
  intros Hpl Hg. unfold gate_locked. rewrite Hpl. pose proof Hg as Hc. unfold gates in Hc. rewrite lookup_fmap in Hc.
  destruct (cells rt !! id) as [cell|]; [|done]. simpl in Hc. injection Hc as ->.
  assert (∀ rt1, gates rt1 = gates (lock_gate (RunnerOf sid) id rt) → is_Some (gates rt1 !! id)) as Hlock.
  { intros rt1 ->. unfold gates. simpl. rewrite gates_set, lookup_alter_is_Some. by eexists. }
  destruct (dirty_slot cell); [|destruct (DirtyAdmission.acquire _ _) as [[d st]|]; [|done]];
    (destruct (command e) as [|preload]; [|by destruct (preload (state cell))]); by apply execute_unblocked, Hlock.
Qed.

Lemma returning_runs slot e rt : command_returns (command e) → gate_locked_panics slot e rt = false.
Proof.
  intros Hr. unfold gate_locked_panics. destruct (_ ≫= _) as [cell|]; [|done]. apply andb_false_iff. right.
  unfold command_panics. destruct (command e) as [logic s|preload logic s].
  - destruct (Hr (state cell)) as [? ->]. done.
  - destruct Hr as [Hr _]. destruct (Hr (state cell)) as [? ->]. done.
Qed.

(** A runner that does not wait for a gate can take its step. *)
Lemma runner_possible now sid slot rt : dispatch_ok rt → players_ok rt → commands_ok rt → slots rt !! sid = Some slot → waits rt slot = false → possible now rt.
Proof using Inhabited0.
  intros Hd Hpl Hcm Hs Hw. pose proof Hpl as [_ Hg]. pose proof (g_phase rt Hg sid slot Hs) as Hp. unfold phase_ok in Hp.
  assert (∀ l, task_step l = true → fault l rt = false → exec now l rt = exec_runner now l sid rt → exec_runner now l sid rt ≠ Blocked → possible now rt) as Hgo.
  { intros l Ht Hl Heq Hb. apply (unblocked now l); try done. by rewrite Heq. }
  destruct (phase (runner slot)) as [|e run|e run|e run logic b fut st|e v st|e|k next| |] eqn:Hph.
  - apply (Hgo (LTakeNext sid)); try done. unfold exec_runner, take_next. rewrite Hs, Hph. by destruct (queue (mailbox slot)).
  - destruct (resident rt !! runner_gid (runner slot)) as [id|] eqn:Hres.
    + apply (Hgo (LCacheGot sid (Hit id) (resident rt))); try done; [simpl; by rewrite Hs|]. unfold exec_runner, cache_got. rewrite Hs, Hph, Hres.
      by rewrite !bool_decide_eq_true_2.
    + apply (Hgo (LCacheGot sid (GetFailed false (CacheError.Load inhabitant)) (resident rt))); try done; [simpl; by rewrite Hs|].
      unfold exec_runner, cache_got. rewrite Hs, Hph, Hres. simpl. by rewrite bool_decide_eq_true_2.
  - destruct Hp as [id Hid]. pose proof (g_cell rt Hg sid slot id Hs Hid) as Hc. apply gates_cell in Hc as [[o|] Hgate].
    { unfold waits in Hw. by rewrite Hph, Hid, Hgate in Hw. }
    apply (Hgo (LGateLocked sid)); try done; [|unfold exec_runner; rewrite Hs, Hph; by eapply gate_locked_unblocked].
    simpl. rewrite Hs. unfold runner_fault. rewrite Hph. apply returning_runs.
    specialize (Hcm sid slot Hs). unfold envelopes in Hcm. rewrite Hph in Hcm. by apply Forall_cons in Hcm as [].
  - apply (Hgo (LPreloaded sid (Err inhabitant))); try done.
    { simpl. rewrite Hs. unfold runner_fault, preloaded_panics. rewrite Hph. by case_match. }
    unfold exec_runner, preloaded. rewrite Hs, Hph.
    destruct Hp as (id & cell & -> & _). unfold drop_reservation. by repeat case_match.
  - apply (Hgo (LSaved sid (Ok tt))); try done. unfold exec_runner, saved. rewrite Hs, Hph.
    destruct Hp as (id & cell & -> & Hc & _). unfold save_returned.
    match goal with |- match ?o with _ => _ end ≠ _ => assert (o ≠ Blocked) as Hr; [|by destruct o] end.
    apply refresh_dirty_moves. apply gates_cell. simpl. rewrite lookup_alter_is_Some. by eexists.
  - apply (Hgo (LComplete sid)); try done. unfold exec_runner. by rewrite Hs, Hph.
  - apply (Hgo (LPermitDropped sid)); try done. unfold exec_runner. by rewrite Hs, Hph.
  - apply (Hgo (LCacheSet sid (default (resident rt) ((λ id, <[runner_gid (runner slot) := id]> (resident rt)) <$> player (runner slot))))); try done.
    unfold exec_runner, cache_set. rewrite Hs, Hph. destruct (player (runner slot)) as [id|]; [|done].
    destruct (resident rt !! runner_gid (runner slot)); [by case_match|]. simpl. by rewrite bool_decide_eq_true_2.
  - apply (Hgo (LRetire sid)); try done. unfold exec_runner, retire_or_take_next. rewrite Hs, Hph. by repeat case_match.
Qed.

(** A saver that does not wait for a gate can take its step. *)
Definition next_gate (s : Saver) : option (Z * Z) := match s with Locking (entry :: _) _ => Some entry | _ => None end.

Lemma saver_possible now tid s rt : dispatch_ok rt → players_ok rt → savers rt !! tid = Some s →
  (∀ e, next_gate s = Some e → gates rt !! e.2 = Some None) → possible now rt.
Proof.
  intros Hd Hpl Hs Hnext. pose proof Hpl as [_ Hg]. pose proof (g_savers rt Hg tid s Hs) as Hok.
  destruct s as [[|e todo] locked|dirty locked started]; simpl in Hnext, Hok.
  - apply (unblocked now (LSaverAdvance tid)); try done. simpl. rewrite Hs. simpl. by case_match.
  - specialize (Hnext e eq_refl). unfold gates in Hnext. rewrite lookup_fmap in Hnext.
    apply (unblocked now (LSaverAdvance tid)); try done. simpl. rewrite Hs. simpl.
    destruct (cells rt !! e.2) as [cell|]; [|done]. simpl in Hnext. by injection Hnext as ->.
  - apply (unblocked now (LSaverDone tid (Ok tt) (λ _, true))); try done. simpl. rewrite Hs. simpl.
    match goal with |- match ?o with _ => _ end ≠ _ => assert (o ≠ Blocked) as Hr; [|by destruct o] end.
    apply refresh_all_moves. destruct Hok as (_ & _ & Hdirty). eapply Forall_impl; [exact Hdirty|].
    intros e (cell & Hc & _). pose proof (gates_write_all (λ _, true) dirty (cells rt)) as Hw.
    unfold gates. simpl in Hw |- *. rewrite Hw, lookup_fmap, Hc. by eexists.
Qed.

(** The player a saver waits for is greater than those it has locked. *)
Lemma next_is_greater rt s e entry : ordered rt (entries_of s) → next_gate s = Some e → entry ∈ locked_of s → entry.1 < e.1.
Proof.
  intros [Hs _] He Hin. destruct s as [[|e' todo] locked|]; [done| |done]. injection He as ->. simpl in Hs, Hin.
  induction locked as [|x locked IH]; [by apply elem_of_nil in Hin|]. simpl in Hs. apply StronglySorted_inv in Hs as [Hs Hall].
  apply elem_of_cons in Hin as [->|Hin]; [|by apply IH]. rewrite Forall_forall in Hall. apply Hall.
  apply elem_of_app. right. by apply elem_of_cons; left.
Qed.

Lemma next_entry rt s e : ordered rt (entries_of s) → next_gate s = Some e → gid_of e.2 = e.1 ∧ is_Some (gates rt !! e.2).
Proof.
  intros [_ Hall] He. destruct s as [[|e' todo] locked|]; [done| |done]. injection He as ->.
  rewrite Forall_forall in Hall. apply Hall. simpl. apply elem_of_app. right. by apply elem_of_cons; left.
Qed.

Definition rank_of (s : Saver) : Z := from_option fst 0 (next_gate s).

(** Either nothing is left, or a task can take a step: the runners wait for
    savers at most, and the saver that waits for the greatest player of all
    finds its gate free. *)
Lemma task_possible now rt : dispatch_ok rt → players_ok rt → flow_ok rt → slots rt ≠ ∅ ∨ savers rt ≠ ∅ → possible now rt.
Proof using Inhabited0.
  intros Hd Hpl (Hh & Hord & Hcm) Hne.
  destruct (decide (map_Forall (λ _ slot, waits rt slot = true) (slots rt))) as [Hall|Hsome].
  2:{ apply map_not_Forall in Hsome as (sid & slot & Hs & Hw); [|tc_solve].
      apply (runner_possible now sid slot); [done..|]. by apply not_true_is_false. }
  assert (∀ id sid, gates rt !! id ≠ Some (Some (RunnerOf sid))) as Hnone.
  { intros id sid Hl. apply Hh in Hl as (slot & Hs & Ho & _). specialize (Hall sid slot Hs). simpl in Hall.
    unfold waits, owns_player in *. by destruct (phase (runner slot)). }
  assert (savers rt ≠ ∅) as Hsav.
  { destruct Hne as [Hne|Hne]; [|done]. apply map_choose in Hne as (sid & slot & Hs).
    specialize (Hall sid slot Hs). simpl in Hall. unfold waits in Hall.
    destruct (phase (runner slot)), (player (runner slot)) as [id|]; try done.
    destruct (gates rt !! id) as [[[sid'|tid]|]|] eqn:Hg; try done; [by apply Hnone in Hg|].
    apply Hh in Hg as (s & Hs' & _). intros Hempty. by rewrite Hempty, lookup_empty in Hs'. }
  destruct (map_max_exists rank_of (savers rt) Hsav) as (tid & s & Hs & Hmax).
  destruct (next_gate s) as [e|] eqn:He; [|by eapply (saver_possible now tid s); [done..|congruence]].
  destruct (next_entry rt s e (Hord tid s Hs) He) as [Hkey [g Hg]].
  destruct g as [[sid|tid']|]; [by apply Hnone in Hg| |by eapply (saver_possible now tid s); [done..|congruence]].
  apply Hh in Hg as (s' & Hs' & (e' & Heq & Hin)%list_elem_of_fmap).
  destruct (next_gate s') as [e2|] eqn:He2; [|by eapply (saver_possible now tid' s'); [done..|congruence]].
  pose proof (next_is_greater rt s' e2 e' (Hord tid' s' Hs') He2 Hin) as Hlt.
  specialize (Hmax tid' s' Hs'). unfold rank_of in Hmax. rewrite He, He2 in Hmax. simpl in Hmax.
  destruct (Hord tid' s' Hs') as [_ Hkeys]. rewrite Forall_forall in Hkeys.
  destruct (Hkeys e') as [Hkey' _]; [destruct s'; simpl in *; [apply elem_of_app; by left|done]|]. rewrite <- Heq, Hkey in Hkey'. lia.
Qed.

(** ** Shutdown ends *)

Definition task_steps (ls : list (Z * Label)) : Z := len (filter (λ x, task_step x.2 = true) ls).
Definition started (ls : list (Z * Label)) : Z := foldr (λ x sum, started_work x.2 + sum) 0 ls.

(** A state that a run of the runtime reaches. *)
Definition reached (cfg : LogicConfig.t) rt : Prop :=
  ∃ rt0 ls, new cfg = Some rt0 ∧ run_ok ls rt0 ∧ exec_all ls rt0 = Done rt.

Lemma flow_new cfg rt : new cfg = Some rt → flow_ok rt.
Proof.
  unfold new. case_match; [|done]. intros [= <-]. split_and!.
  - intros id o. unfold gates. simpl. by rewrite fmap_empty, lookup_empty.
  - intros tid s. simpl. by rewrite lookup_empty.
  - intros sid slot. simpl. by rewrite lookup_empty.
Qed.

Lemma run_inv ls rt : dispatch_ok rt → players_ok rt → flow_ok rt → run_ok ls rt →
  ∃ rt', exec_all ls rt = Done rt' ∧ dispatch_ok rt' ∧ players_ok rt' ∧ flow_ok rt'
    ∧ (rt_state rt ≠ RuntimeState.Running → work rt' + task_steps ls <= work rt + started ls).
Proof.
  revert rt. induction ls as [|[now l] ls IH]; intros rt Hd Hp Hf; simpl.
  { intros _. by exists rt. }
  intros [He Hrun]. destruct (exec now l rt) as [rt1| |] eqn:Hx; [|done..].
  destruct (exec_done now l rt rt1 Hd Hp Hx) as [Hp1 _].
  destruct (exec_flow now l rt rt1 Hd Hf He Hx) as [Hf1 Hw1].
  destruct (IH rt1) as (rt' & Hall & Hd' & Hp' & Hf' & Hw'); [by eapply exec_dispatch|done..|].
  exists rt'. split_and!; try done. intros Hst. specialize (Hw1 Hst).
  specialize (Hw' (proj2 (exec_static now l rt rt1 Hx) Hst)).
  unfold task_steps in *. rewrite filter_cons. simpl. destruct (task_step l); simpl; rewrite ?len_cons; lia.
Qed.

Lemma reached_inv cfg rt : config_ok cfg → reached cfg rt → dispatch_ok rt ∧ players_ok rt ∧ flow_ok rt.
Proof.
  intros Hc (rt0 & ls & Hn & Hrun & Hx).
  destruct (run_inv ls rt0) as (rt' & Hx' & Hd & Hp & Hf & _);
    [by eapply dispatch_new|by eapply players_new|by eapply flow_new|done|]. rewrite Hx in Hx'. by injection Hx' as <-.
Qed.

Lemma idle_drained rt : dispatch_ok rt → slots rt = ∅ →
  drained rt = true ∧ ∀ gid, calls_of gid (accepted rt) = calls_of gid (answered rt).
Proof.
  intros Hd Hempty. split.
  - unfold drained. destruct (d_adm rt Hd) as [A1 _ _ _ A5 _]. pose proof (config_limits _ (d_config rt Hd)) as (C1 & _).
    unfold Admission.inflight_calls. rewrite A1, encode_calls_count by lia. rewrite (d_active rt Hd), Hempty. done.
  - intros gid. apply (d_idle rt Hd). destruct (directory rt !! gid) as [sid|] eqn:Hg; [|done].
    apply (d_dir rt Hd) in Hg as (slot & Hs & _). by rewrite Hempty, lookup_empty in Hs.
Qed.

(** C2: a shutdown ends.  From every state of a runtime with a valid
    configuration in which the admission is closed, a
    run of the tasks, the refused callers and the cache takes a bounded number
    of task steps: at most the work that was left, and what the savers add
    that the cache still starts.  And it does not stop early: in every state
    that it reaches a task can take another step, or the runtime is drained,
    with no saver under way and every call that was ever accepted answered.
    What is assumed is stated in [run_ok]: the closures of the callers return,
    and the cache hands each player to a saver once, under its own key.
    No interleaving makes runners and savers wait for each other's gates in a
    circle. *)
Theorem shutdown_drains cfg rt ls now :
  config_ok cfg → reached cfg rt → rt_state rt ≠ RuntimeState.Running → run_ok ls rt →
  task_steps ls <= work rt + started ls
  ∧ ∃ rt', exec_all ls rt = Done rt'
    ∧ (possible now rt'
       ∨ drained rt' = true ∧ savers rt' = ∅ ∧ ∀ gid, calls_of gid (accepted rt') = calls_of gid (answered rt')).
Proof using Inhabited0.
  intros Hc Hr Hst Hrun. destruct (reached_inv cfg rt Hc Hr) as (Hd & Hp & Hf).
  destruct (run_inv ls rt Hd Hp Hf Hrun) as (rt' & Hx & Hd' & Hp' & Hf' & Hw). specialize (Hw Hst).
  pose proof (work_nonneg rt'). split; [lia|]. exists rt'. split; [done|].
  destruct (decide (slots rt' = ∅)) as [Hs|Hs]; [|left; apply task_possible; auto].
  destruct (decide (savers rt' = ∅)) as [Hv|Hv]; [|left; apply task_possible; auto].
  right. by destruct (idle_drained rt' Hd' Hs).
Qed.
End progress.

(** ** The run of [runtime_example], with a saver during the shutdown *)

Module progress_example.
Import runtime_example.
Definition gid_of (id : Z) : Z := if id =? 1 then 7 else 9.
Definition closing : list (Z * label) := start ++ [(14, LShutdownBegin)].
Definition busy_closing : runtime := state_after closing.

Definition draining : list (Z * label) :=
  [(15, LSaverStart 3 [(9, 2); (7, 1)]); (16, LTryUse 9 0 (Use (add 1)));
   (17, LPreloaded 0 (Ok 1)); (18, LPreloaded 1 (Err 3)); (19, LSaved 0 (Ok tt)); (20, LSaverAdvance 3); (21, LSaverAdvance 3);
   (22, LComplete 0); (23, LComplete 1); (24, LPermitDropped 0); (25, LPermitDropped 1);
   (26, LCacheSet 0 {[7 := 1; 9 := 2]}); (27, LSaverAdvance 3); (28, LCacheSet 1 ∅); (29, LRetire 0); (30, LRetire 1)].
End progress_example.

Lemma shutdown_drains_witness :
  task_steps progress_example.draining = 14 ∧ work progress_example.busy_closing = 12
  ∧ started progress_example.draining = 4
  ∧ task_steps progress_example.draining <= work progress_example.busy_closing + started progress_example.draining.
Proof.
  split_and!; [vm_compute; reflexivity|vm_compute; reflexivity|vm_compute; reflexivity|].
  apply (shutdown_drains progress_example.gid_of LogicConfig.HARD_LIMITS progress_example.busy_closing
           progress_example.draining 31 runtime_example.hard_limits_ok).
  - exists runtime_example.rt0, progress_example.closing. split_and!; [reflexivity| |vm_compute; reflexivity].
    vm_compute. repeat split; intros; eexists; reflexivity.
  - vm_compute. discriminate.
  - vm_compute. repeat split; try (intros; eexists; reflexivity).
    + apply (bool_decide_unpack _). vm_compute. exact I.
    + repeat constructor; eexists; reflexivity.
Defined.
