(* ===== verification/Proto.v ===== *)
(** * Protocol: wire messages, message ids, status codes and routing

    [protocol/generated/xkk.v1.rs] (the message structs, one record each with
    the fields [<Message>_<field>], and the [MsgId] enumeration),
    [protocol/src/status.rs] and [protocol/src/message.rs].  The encoders, the
    registry and [SYSTEM_MSG_ID_END] belong to [xproto], which the sources
    only call: they are parameters. *)

From S2P Require Import Prelude.

(** ** Messages *)

Record Status := mkStatus {
  Status_code : Z;
  Status_message : string
}.
#[export] Instance Status_eq_dec : EqDecision Status.
Proof. solve_decision. Defined.
Definition Status_default : Status :=
  {| Status_code := 0;
     Status_message := "" |}.

Record DeviceInfo := mkDeviceInfo {
  DeviceInfo_device_id : string;
  DeviceInfo_platform : string;
  DeviceInfo_client_version : string
}.
#[export] Instance DeviceInfo_eq_dec : EqDecision DeviceInfo.
Proof. solve_decision. Defined.
Definition DeviceInfo_default : DeviceInfo :=
  {| DeviceInfo_device_id := "";
     DeviceInfo_platform := "";
     DeviceInfo_client_version := "" |}.

Record Endpoint := mkEndpoint {
  Endpoint_transport : string;
  Endpoint_host : string;
  Endpoint_port : Z;
  Endpoint_path : string
}.
#[export] Instance Endpoint_eq_dec : EqDecision Endpoint.
Proof. solve_decision. Defined.
Definition Endpoint_default : Endpoint :=
  {| Endpoint_transport := "";
     Endpoint_host := "";
     Endpoint_port := 0;
     Endpoint_path := "" |}.

Record Role := mkRole {
  Role_gid : Z;
  Role_sid : Z;
  Role_name : string;
  Role_level : Z;
  Role_icon : Z
}.
#[export] Instance Role_eq_dec : EqDecision Role.
Proof. solve_decision. Defined.
Definition Role_default : Role :=
  {| Role_gid := 0;
     Role_sid := 0;
     Role_name := "";
     Role_level := 0;
     Role_icon := 0 |}.

Record PlayerInfo := mkPlayerInfo {
  PlayerInfo_gid : Z;
  PlayerInfo_name : string;
  PlayerInfo_level : Z;
  PlayerInfo_icon : Z;
  PlayerInfo_exp : Z
}.
#[export] Instance PlayerInfo_eq_dec : EqDecision PlayerInfo.
Proof. solve_decision. Defined.
Definition PlayerInfo_default : PlayerInfo :=
  {| PlayerInfo_gid := 0;
     PlayerInfo_name := "";
     PlayerInfo_level := 0;
     PlayerInfo_icon := 0;
     PlayerInfo_exp := 0 |}.

Record Item := mkItem {
  Item_item_id : Z;
  Item_count : Z;
  Item_change : Z
}.
#[export] Instance Item_eq_dec : EqDecision Item.
Proof. solve_decision. Defined.
Definition Item_default : Item :=
  {| Item_item_id := 0;
     Item_count := 0;
     Item_change := 0 |}.

Record Mail := mkMail {
  Mail_mail_id : Z;
  Mail_title : string;
  Mail_content : string;
  Mail_send_time : Z;
  Mail_end_time : Z;
  Mail_state : Z;
  Mail_attachments : list Item
}.
#[export] Instance Mail_eq_dec : EqDecision Mail.
Proof. solve_decision. Defined.
Definition Mail_default : Mail :=
  {| Mail_mail_id := 0;
     Mail_title := "";
     Mail_content := "";
     Mail_send_time := 0;
     Mail_end_time := 0;
     Mail_state := 0;
     Mail_attachments := [] |}.

Record AckNtf := mkAckNtf {}.
#[export] Instance AckNtf_eq_dec : EqDecision AckNtf.
Proof. solve_decision. Defined.

Record PingReq := mkPingReq {
  PingReq_client_time_ms : Z
}.
#[export] Instance PingReq_eq_dec : EqDecision PingReq.
Proof. solve_decision. Defined.
Definition PingReq_default : PingReq :=
  {| PingReq_client_time_ms := 0 |}.

Record PingRsp := mkPingRsp {
  PingRsp_status : option Status;
  PingRsp_client_time_ms : Z;
  PingRsp_server_time_ms : Z
}.
#[export] Instance PingRsp_eq_dec : EqDecision PingRsp.
Proof. solve_decision. Defined.
Definition PingRsp_default : PingRsp :=
  {| PingRsp_status := None;
     PingRsp_client_time_ms := 0;
     PingRsp_server_time_ms := 0 |}.

Record LoginReq := mkLoginReq {
  LoginReq_gid : Z;
  LoginReq_token : string;
  LoginReq_device_id : string
}.
#[export] Instance LoginReq_eq_dec : EqDecision LoginReq.
Proof. solve_decision. Defined.
Definition LoginReq_default : LoginReq :=
  {| LoginReq_gid := 0;
     LoginReq_token := "";
     LoginReq_device_id := "" |}.

Record LoginRsp := mkLoginRsp {
  LoginRsp_status : option Status;
  LoginRsp_gid : Z;
  LoginRsp_logic_id : Z;
  LoginRsp_public_id : Z;
  LoginRsp_player : option PlayerInfo;
  LoginRsp_items : list Item;
  LoginRsp_session_id : Z
}.
#[export] Instance LoginRsp_eq_dec : EqDecision LoginRsp.
Proof. solve_decision. Defined.
Definition LoginRsp_default : LoginRsp :=
  {| LoginRsp_status := None;
     LoginRsp_gid := 0;
     LoginRsp_logic_id := 0;
     LoginRsp_public_id := 0;
     LoginRsp_player := None;
     LoginRsp_items := [];
     LoginRsp_session_id := 0 |}.

Record ReconnectReq := mkReconnectReq {
  ReconnectReq_gid : Z;
  ReconnectReq_token : string;
  ReconnectReq_device_id : string;
  ReconnectReq_previous_session : Z;
  ReconnectReq_ack : Z
}.
#[export] Instance ReconnectReq_eq_dec : EqDecision ReconnectReq.
Proof. solve_decision. Defined.
Definition ReconnectReq_default : ReconnectReq :=
  {| ReconnectReq_gid := 0;
     ReconnectReq_token := "";
     ReconnectReq_device_id := "";
     ReconnectReq_previous_session := 0;
     ReconnectReq_ack := 0 |}.

Record ReconnectRsp := mkReconnectRsp {
  ReconnectRsp_status : option Status;
  ReconnectRsp_replayed : Z;
  ReconnectRsp_session_id : Z
}.
#[export] Instance ReconnectRsp_eq_dec : EqDecision ReconnectRsp.
Proof. solve_decision. Defined.
Definition ReconnectRsp_default : ReconnectRsp :=
  {| ReconnectRsp_status := None;
     ReconnectRsp_replayed := 0;
     ReconnectRsp_session_id := 0 |}.

Record LogoutReq := mkLogoutReq {}.
#[export] Instance LogoutReq_eq_dec : EqDecision LogoutReq.
Proof. solve_decision. Defined.

Record LogoutRsp := mkLogoutRsp {
  LogoutRsp_status : option Status
}.
#[export] Instance LogoutRsp_eq_dec : EqDecision LogoutRsp.
Proof. solve_decision. Defined.
Definition LogoutRsp_default : LogoutRsp :=
  {| LogoutRsp_status := None |}.

Record KickNtf := mkKickNtf {
  KickNtf_code : Z;
  KickNtf_reason : string
}.
#[export] Instance KickNtf_eq_dec : EqDecision KickNtf.
Proof. solve_decision. Defined.
Definition KickNtf_default : KickNtf :=
  {| KickNtf_code := 0;
     KickNtf_reason := "" |}.

Record PlayerInfoReq := mkPlayerInfoReq {}.
#[export] Instance PlayerInfoReq_eq_dec : EqDecision PlayerInfoReq.
Proof. solve_decision. Defined.

Record PlayerInfoRsp := mkPlayerInfoRsp {
  PlayerInfoRsp_status : option Status;
  PlayerInfoRsp_player : option PlayerInfo;
  PlayerInfoRsp_items : list Item
}.
#[export] Instance PlayerInfoRsp_eq_dec : EqDecision PlayerInfoRsp.
Proof. solve_decision. Defined.
Definition PlayerInfoRsp_default : PlayerInfoRsp :=
  {| PlayerInfoRsp_status := None;
     PlayerInfoRsp_player := None;
     PlayerInfoRsp_items := [] |}.

Record UseItemReq := mkUseItemReq {
  UseItemReq_item_id : Z;
  UseItemReq_count : Z
}.
#[export] Instance UseItemReq_eq_dec : EqDecision UseItemReq.
Proof. solve_decision. Defined.
Definition UseItemReq_default : UseItemReq :=
  {| UseItemReq_item_id := 0;
     UseItemReq_count := 0 |}.

Record UseItemRsp := mkUseItemRsp {
  UseItemRsp_status : option Status;
  UseItemRsp_item : option Item
}.
#[export] Instance UseItemRsp_eq_dec : EqDecision UseItemRsp.
Proof. solve_decision. Defined.
Definition UseItemRsp_default : UseItemRsp :=
  {| UseItemRsp_status := None;
     UseItemRsp_item := None |}.

Record MailListReq := mkMailListReq {}.
#[export] Instance MailListReq_eq_dec : EqDecision MailListReq.
Proof. solve_decision. Defined.

Record MailListRsp := mkMailListRsp {
  MailListRsp_status : option Status;
  MailListRsp_mails : list Mail
}.
#[export] Instance MailListRsp_eq_dec : EqDecision MailListRsp.
Proof. solve_decision. Defined.
Definition MailListRsp_default : MailListRsp :=
  {| MailListRsp_status := None;
     MailListRsp_mails := [] |}.

Record MailReadReq := mkMailReadReq {
  MailReadReq_mail_ids : list Z
}.
#[export] Instance MailReadReq_eq_dec : EqDecision MailReadReq.
Proof. solve_decision. Defined.
Definition MailReadReq_default : MailReadReq :=
  {| MailReadReq_mail_ids := [] |}.

Record MailReadRsp := mkMailReadRsp {
  MailReadRsp_status : option Status;
  MailReadRsp_mail_ids : list Z
}.
#[export] Instance MailReadRsp_eq_dec : EqDecision MailReadRsp.
Proof. solve_decision. Defined.
Definition MailReadRsp_default : MailReadRsp :=
  {| MailReadRsp_status := None;
     MailReadRsp_mail_ids := [] |}.

Record MailDeleteReq := mkMailDeleteReq {
  MailDeleteReq_mail_ids : list Z
}.
#[export] Instance MailDeleteReq_eq_dec : EqDecision MailDeleteReq.
Proof. solve_decision. Defined.
Definition MailDeleteReq_default : MailDeleteReq :=
  {| MailDeleteReq_mail_ids := [] |}.

Record MailDeleteRsp := mkMailDeleteRsp {
  MailDeleteRsp_status : option Status;
  MailDeleteRsp_mail_ids : list Z
}.
#[export] Instance MailDeleteRsp_eq_dec : EqDecision MailDeleteRsp.
Proof. solve_decision. Defined.
Definition MailDeleteRsp_default : MailDeleteRsp :=
  {| MailDeleteRsp_status := None;
     MailDeleteRsp_mail_ids := [] |}.

Record MailClaimReq := mkMailClaimReq {
  MailClaimReq_mail_ids : list Z
}.
#[export] Instance MailClaimReq_eq_dec : EqDecision MailClaimReq.
Proof. solve_decision. Defined.
Definition MailClaimReq_default : MailClaimReq :=
  {| MailClaimReq_mail_ids := [] |}.

Record MailClaimRsp := mkMailClaimRsp {
  MailClaimRsp_status : option Status;
  MailClaimRsp_mail_ids : list Z;
  MailClaimRsp_items : list Item
}.
#[export] Instance MailClaimRsp_eq_dec : EqDecision MailClaimRsp.
Proof. solve_decision. Defined.
Definition MailClaimRsp_default : MailClaimRsp :=
  {| MailClaimRsp_status := None;
     MailClaimRsp_mail_ids := [];
     MailClaimRsp_items := [] |}.

Record MailInfoNtf := mkMailInfoNtf {
  MailInfoNtf_mails : list Mail
}.
#[export] Instance MailInfoNtf_eq_dec : EqDecision MailInfoNtf.
Proof. solve_decision. Defined.
Definition MailInfoNtf_default : MailInfoNtf :=
  {| MailInfoNtf_mails := [] |}.

Record LogicLoginReq := mkLogicLoginReq {
  LogicLoginReq_gid : Z;
  LogicLoginReq_gate_id : Z;
  LogicLoginReq_player_session : Z;
  LogicLoginReq_device_id : string;
  LogicLoginReq_reconnect : bool
}.
#[export] Instance LogicLoginReq_eq_dec : EqDecision LogicLoginReq.
Proof. solve_decision. Defined.
Definition LogicLoginReq_default : LogicLoginReq :=
  {| LogicLoginReq_gid := 0;
     LogicLoginReq_gate_id := 0;
     LogicLoginReq_player_session := 0;
     LogicLoginReq_device_id := "";
     LogicLoginReq_reconnect := false |}.

Record LogicLoginRsp := mkLogicLoginRsp {
  LogicLoginRsp_status : option Status;
  LogicLoginRsp_logic_id : Z;
  LogicLoginRsp_old_gate_id : Z;
  LogicLoginRsp_old_player_session : Z;
  LogicLoginRsp_player : option PlayerInfo;
  LogicLoginRsp_items : list Item
}.
#[export] Instance LogicLoginRsp_eq_dec : EqDecision LogicLoginRsp.
Proof. solve_decision. Defined.
Definition LogicLoginRsp_default : LogicLoginRsp :=
  {| LogicLoginRsp_status := None;
     LogicLoginRsp_logic_id := 0;
     LogicLoginRsp_old_gate_id := 0;
     LogicLoginRsp_old_player_session := 0;
     LogicLoginRsp_player := None;
     LogicLoginRsp_items := [] |}.

Record LogicDisconnectNtf := mkLogicDisconnectNtf {
  LogicDisconnectNtf_gid : Z;
  LogicDisconnectNtf_gate_id : Z;
  LogicDisconnectNtf_player_session : Z
}.
#[export] Instance LogicDisconnectNtf_eq_dec : EqDecision LogicDisconnectNtf.
Proof. solve_decision. Defined.
Definition LogicDisconnectNtf_default : LogicDisconnectNtf :=
  {| LogicDisconnectNtf_gid := 0;
     LogicDisconnectNtf_gate_id := 0;
     LogicDisconnectNtf_player_session := 0 |}.

Record KickSessionReq := mkKickSessionReq {
  KickSessionReq_gid : Z;
  KickSessionReq_player_session : Z;
  KickSessionReq_code : Z;
  KickSessionReq_reason : string
}.
#[export] Instance KickSessionReq_eq_dec : EqDecision KickSessionReq.
Proof. solve_decision. Defined.
Definition KickSessionReq_default : KickSessionReq :=
  {| KickSessionReq_gid := 0;
     KickSessionReq_player_session := 0;
     KickSessionReq_code := 0;
     KickSessionReq_reason := "" |}.

Record KickSessionRsp := mkKickSessionRsp {
  KickSessionRsp_status : option Status;
  KickSessionRsp_kicked : bool
}.
#[export] Instance KickSessionRsp_eq_dec : EqDecision KickSessionRsp.
Proof. solve_decision. Defined.
Definition KickSessionRsp_default : KickSessionRsp :=
  {| KickSessionRsp_status := None;
     KickSessionRsp_kicked := false |}.

Record AddItemsReq := mkAddItemsReq {
  AddItemsReq_gid : Z;
  AddItemsReq_items : list Item;
  AddItemsReq_reason : string
}.
#[export] Instance AddItemsReq_eq_dec : EqDecision AddItemsReq.
Proof. solve_decision. Defined.
Definition AddItemsReq_default : AddItemsReq :=
  {| AddItemsReq_gid := 0;
     AddItemsReq_items := [];
     AddItemsReq_reason := "" |}.

Record AddItemsRsp := mkAddItemsRsp {
  AddItemsRsp_status : option Status;
  AddItemsRsp_items : list Item
}.
#[export] Instance AddItemsRsp_eq_dec : EqDecision AddItemsRsp.
Proof. solve_decision. Defined.
Definition AddItemsRsp_default : AddItemsRsp :=
  {| AddItemsRsp_status := None;
     AddItemsRsp_items := [] |}.

Record RemoveItemsReq := mkRemoveItemsReq {
  RemoveItemsReq_gid : Z;
  RemoveItemsReq_items : list Item;
  RemoveItemsReq_reason : string
}.
#[export] Instance RemoveItemsReq_eq_dec : EqDecision RemoveItemsReq.
Proof. solve_decision. Defined.
Definition RemoveItemsReq_default : RemoveItemsReq :=
  {| RemoveItemsReq_gid := 0;
     RemoveItemsReq_items := [];
     RemoveItemsReq_reason := "" |}.

Record RemoveItemsRsp := mkRemoveItemsRsp {
  RemoveItemsRsp_status : option Status;
  RemoveItemsRsp_items : list Item
}.
#[export] Instance RemoveItemsRsp_eq_dec : EqDecision RemoveItemsRsp.
Proof. solve_decision. Defined.
Definition RemoveItemsRsp_default : RemoveItemsRsp :=
  {| RemoveItemsRsp_status := None;
     RemoveItemsRsp_items := [] |}.

Record CheckItemsReq := mkCheckItemsReq {
  CheckItemsReq_gid : Z;
  CheckItemsReq_items : list Item
}.
#[export] Instance CheckItemsReq_eq_dec : EqDecision CheckItemsReq.
Proof. solve_decision. Defined.
Definition CheckItemsReq_default : CheckItemsReq :=
  {| CheckItemsReq_gid := 0;
     CheckItemsReq_items := [] |}.

Record CheckItemsRsp := mkCheckItemsRsp {
  CheckItemsRsp_status : option Status;
  CheckItemsRsp_enough : bool
}.
#[export] Instance CheckItemsRsp_eq_dec : EqDecision CheckItemsRsp.
Proof. solve_decision. Defined.
Definition CheckItemsRsp_default : CheckItemsRsp :=
  {| CheckItemsRsp_status := None;
     CheckItemsRsp_enough := false |}.

Record SendMailReq := mkSendMailReq {
  SendMailReq_gid : Z;
  SendMailReq_mail : option Mail
}.
#[export] Instance SendMailReq_eq_dec : EqDecision SendMailReq.
Proof. solve_decision. Defined.
Definition SendMailReq_default : SendMailReq :=
  {| SendMailReq_gid := 0;
     SendMailReq_mail := None |}.

Record SendMailRsp := mkSendMailRsp {
  SendMailRsp_status : option Status;
  SendMailRsp_mail_id : Z
}.
#[export] Instance SendMailRsp_eq_dec : EqDecision SendMailRsp.
Proof. solve_decision. Defined.
Definition SendMailRsp_default : SendMailRsp :=
  {| SendMailRsp_status := None;
     SendMailRsp_mail_id := 0 |}.

Record MailPushNtf := mkMailPushNtf {
  MailPushNtf_gid : Z;
  MailPushNtf_mail : option Mail
}.
#[export] Instance MailPushNtf_eq_dec : EqDecision MailPushNtf.
Proof. solve_decision. Defined.
Definition MailPushNtf_default : MailPushNtf :=
  {| MailPushNtf_gid := 0;
     MailPushNtf_mail := None |}.

Record AuthLoginReq := mkAuthLoginReq {
  AuthLoginReq_account : string;
  AuthLoginReq_credential : string;
  AuthLoginReq_device : option DeviceInfo
}.
#[export] Instance AuthLoginReq_eq_dec : EqDecision AuthLoginReq.
Proof. solve_decision. Defined.
Definition AuthLoginReq_default : AuthLoginReq :=
  {| AuthLoginReq_account := "";
     AuthLoginReq_credential := "";
     AuthLoginReq_device := None |}.

Record AuthLoginRsp := mkAuthLoginRsp {
  AuthLoginRsp_status : option Status;
  AuthLoginRsp_account : string;
  AuthLoginRsp_token : string;
  AuthLoginRsp_roles : list Role;
  AuthLoginRsp_created_at : Z
}.
#[export] Instance AuthLoginRsp_eq_dec : EqDecision AuthLoginRsp.
Proof. solve_decision. Defined.
Definition AuthLoginRsp_default : AuthLoginRsp :=
  {| AuthLoginRsp_status := None;
     AuthLoginRsp_account := "";
     AuthLoginRsp_token := "";
     AuthLoginRsp_roles := [];
     AuthLoginRsp_created_at := 0 |}.

Record LoginQueue := mkLoginQueue {
  LoginQueue_position : Z;
  LoginQueue_next_request_time : Z
}.
#[export] Instance LoginQueue_eq_dec : EqDecision LoginQueue.
Proof. solve_decision. Defined.
Definition LoginQueue_default : LoginQueue :=
  {| LoginQueue_position := 0;
     LoginQueue_next_request_time := 0 |}.

Record AuthUseRoleReq := mkAuthUseRoleReq {
  AuthUseRoleReq_gid : Z;
  AuthUseRoleReq_token : string;
  AuthUseRoleReq_device_id : string
}.
#[export] Instance AuthUseRoleReq_eq_dec : EqDecision AuthUseRoleReq.
Proof. solve_decision. Defined.
Definition AuthUseRoleReq_default : AuthUseRoleReq :=
  {| AuthUseRoleReq_gid := 0;
     AuthUseRoleReq_token := "";
     AuthUseRoleReq_device_id := "" |}.

Record AuthUseRoleRsp := mkAuthUseRoleRsp {
  AuthUseRoleRsp_status : option Status;
  AuthUseRoleRsp_gid : Z;
  AuthUseRoleRsp_endpoints : list Endpoint;
  AuthUseRoleRsp_queue : option LoginQueue
}.
#[export] Instance AuthUseRoleRsp_eq_dec : EqDecision AuthUseRoleRsp.
Proof. solve_decision. Defined.
Definition AuthUseRoleRsp_default : AuthUseRoleRsp :=
  {| AuthUseRoleRsp_status := None;
     AuthUseRoleRsp_gid := 0;
     AuthUseRoleRsp_endpoints := [];
     AuthUseRoleRsp_queue := None |}.

Record GamerInfoReq := mkGamerInfoReq {
  GamerInfoReq_gamer_ids : list Z
}.
#[export] Instance GamerInfoReq_eq_dec : EqDecision GamerInfoReq.
Proof. solve_decision. Defined.
Definition GamerInfoReq_default : GamerInfoReq :=
  {| GamerInfoReq_gamer_ids := [] |}.

Record GamerInfoRsp := mkGamerInfoRsp {
  GamerInfoRsp_status : option Status;
  GamerInfoRsp_players : list PlayerInfo
}.
#[export] Instance GamerInfoRsp_eq_dec : EqDecision GamerInfoRsp.
Proof. solve_decision. Defined.
Definition GamerInfoRsp_default : GamerInfoRsp :=
  {| GamerInfoRsp_status := None;
     GamerInfoRsp_players := [] |}.

Record AccountData := mkAccountData {
  AccountData_account : string;
  AccountData_credential_hash : string;
  AccountData_roles : list Role;
  AccountData_created_at : Z
}.
#[export] Instance AccountData_eq_dec : EqDecision AccountData.
Proof. solve_decision. Defined.
Definition AccountData_default : AccountData :=
  {| AccountData_account := "";
     AccountData_credential_hash := "";
     AccountData_roles := [];
     AccountData_created_at := 0 |}.

Record PlayerData := mkPlayerData {
  PlayerData_gid : Z;
  PlayerData_profile : option PlayerInfo;
  PlayerData_items : gmap Z Z
}.
#[export] Instance PlayerData_eq_dec : EqDecision PlayerData.
Proof. solve_decision. Defined.
Definition PlayerData_default : PlayerData :=
  {| PlayerData_gid := 0;
     PlayerData_profile := None;
     PlayerData_items := ∅ |}.

Record MailData := mkMailData {
  MailData_mails : list Mail
}.
#[export] Instance MailData_eq_dec : EqDecision MailData.
Proof. solve_decision. Defined.
Definition MailData_default : MailData :=
  {| MailData_mails := [] |}.

Record PublicPlayerData := mkPublicPlayerData {
  PublicPlayerData_gid : Z;
  PublicPlayerData_mail : option MailData
}.
#[export] Instance PublicPlayerData_eq_dec : EqDecision PublicPlayerData.
Proof. solve_decision. Defined.
Definition PublicPlayerData_default : PublicPlayerData :=
  {| PublicPlayerData_gid := 0;
     PublicPlayerData_mail := None |}.

(** ** Message ids *)

Module MsgId.

Inductive t :=
| Unspecified | PlayerInfoReq | PlayerInfoRsp | UseItemReq | UseItemRsp | MailListReq
| MailListRsp | MailReadReq | MailReadRsp | MailDeleteReq | MailDeleteRsp | MailClaimReq
| MailClaimRsp | MailInfoNtf | AddItemsReq | AddItemsRsp | RemoveItemsReq | RemoveItemsRsp
| CheckItemsReq | CheckItemsRsp | SendMailReq | SendMailRsp | MailPushNtf | AuthLoginReq
| AuthLoginRsp | AuthUseRoleReq | AuthUseRoleRsp | GamerInfoReq | GamerInfoRsp | AckNtf
| PingReq | PingRsp | LoginReq | LoginRsp | ReconnectReq | ReconnectRsp | LogoutReq
| LogoutRsp | KickNtf | LogicLoginReq | LogicLoginRsp | LogicDisconnectNtf | KickSessionReq
| KickSessionRsp.

#[global] Instance t_eq_dec : EqDecision t.
Proof. solve_decision. Defined.

(** [MsgId as u16]: the enum discriminants. *)

Definition as_u16 (m : t) : Z :=
match m with
| Unspecified => 0 | PlayerInfoReq => 100 | PlayerInfoRsp => 101 | UseItemReq => 102
| UseItemRsp => 103 | MailListReq => 110 | MailListRsp => 111 | MailReadReq => 112
| MailReadRsp => 113 | MailDeleteReq => 114 | MailDeleteRsp => 115 | MailClaimReq => 116
| MailClaimRsp => 117 | MailInfoNtf => 118 | AddItemsReq => 1000 | AddItemsRsp => 1001
| RemoveItemsReq => 1002 | RemoveItemsRsp => 1003 | CheckItemsReq => 1004
| CheckItemsRsp => 1005 | SendMailReq => 1010 | SendMailRsp => 1011 | MailPushNtf => 1012
| AuthLoginReq => 2000 | AuthLoginRsp => 2001 | AuthUseRoleReq => 2002
| AuthUseRoleRsp => 2003 | GamerInfoReq => 2100 | GamerInfoRsp => 2101 | AckNtf => 3000
| PingReq => 3001 | PingRsp => 3002 | LoginReq => 3003 | LoginRsp => 3004
| ReconnectReq => 3005 | ReconnectRsp => 3006 | LogoutReq => 3007 | LogoutRsp => 3008
| KickNtf => 3009 | LogicLoginReq => 3010 | LogicLoginRsp => 3011
| LogicDisconnectNtf => 3012 | KickSessionReq => 3013 | KickSessionRsp => 3014
end.

Definition as_str_name (m : t) : string :=
match m with
| Unspecified => "UNSPECIFIED"
| PlayerInfoReq => "PLAYER_INFO_REQ"
| PlayerInfoRsp => "PLAYER_INFO_RSP"
| UseItemReq => "USE_ITEM_REQ"
| UseItemRsp => "USE_ITEM_RSP"
| MailListReq => "MAIL_LIST_REQ"
| MailListRsp => "MAIL_LIST_RSP"
| MailReadReq => "MAIL_READ_REQ"
| MailReadRsp => "MAIL_READ_RSP"
| MailDeleteReq => "MAIL_DELETE_REQ"
| MailDeleteRsp => "MAIL_DELETE_RSP"
| MailClaimReq => "MAIL_CLAIM_REQ"
| MailClaimRsp => "MAIL_CLAIM_RSP"
| MailInfoNtf => "MAIL_INFO_NTF"
| AddItemsReq => "ADD_ITEMS_REQ"
| AddItemsRsp => "ADD_ITEMS_RSP"
| RemoveItemsReq => "REMOVE_ITEMS_REQ"
| RemoveItemsRsp => "REMOVE_ITEMS_RSP"
| CheckItemsReq => "CHECK_ITEMS_REQ"
| CheckItemsRsp => "CHECK_ITEMS_RSP"
| SendMailReq => "SEND_MAIL_REQ"
| SendMailRsp => "SEND_MAIL_RSP"
| MailPushNtf => "MAIL_PUSH_NTF"
| AuthLoginReq => "AUTH_LOGIN_REQ"
| AuthLoginRsp => "AUTH_LOGIN_RSP"
| AuthUseRoleReq => "AUTH_USE_ROLE_REQ"
| AuthUseRoleRsp => "AUTH_USE_ROLE_RSP"
| GamerInfoReq => "GAMER_INFO_REQ"
| GamerInfoRsp => "GAMER_INFO_RSP"
| AckNtf => "ACK_NTF"
| PingReq => "PING_REQ"
| PingRsp => "PING_RSP"
| LoginReq => "LOGIN_REQ"
| LoginRsp => "LOGIN_RSP"
| ReconnectReq => "RECONNECT_REQ"
| ReconnectRsp => "RECONNECT_RSP"
| LogoutReq => "LOGOUT_REQ"
| LogoutRsp => "LOGOUT_RSP"
| KickNtf => "KICK_NTF"
| LogicLoginReq => "LOGIC_LOGIN_REQ"
| LogicLoginRsp => "LOGIC_LOGIN_RSP"
| LogicDisconnectNtf => "LOGIC_DISCONNECT_NTF"
| KickSessionReq => "KICK_SESSION_REQ"
| KickSessionRsp => "KICK_SESSION_RSP"
end.

Definition from_str_name (s : string) : option t :=
if decide (s = "UNSPECIFIED") then Some Unspecified else
if decide (s = "PLAYER_INFO_REQ") then Some PlayerInfoReq else
if decide (s = "PLAYER_INFO_RSP") then Some PlayerInfoRsp else
if decide (s = "USE_ITEM_REQ") then Some UseItemReq else
if decide (s = "USE_ITEM_RSP") then Some UseItemRsp else
if decide (s = "MAIL_LIST_REQ") then Some MailListReq else
if decide (s = "MAIL_LIST_RSP") then Some MailListRsp else
if decide (s = "MAIL_READ_REQ") then Some MailReadReq else
if decide (s = "MAIL_READ_RSP") then Some MailReadRsp else
if decide (s = "MAIL_DELETE_REQ") then Some MailDeleteReq else
if decide (s = "MAIL_DELETE_RSP") then Some MailDeleteRsp else
if decide (s = "MAIL_CLAIM_REQ") then Some MailClaimReq else
if decide (s = "MAIL_CLAIM_RSP") then Some MailClaimRsp else
if decide (s = "MAIL_INFO_NTF") then Some MailInfoNtf else
if decide (s = "ADD_ITEMS_REQ") then Some AddItemsReq else
if decide (s = "ADD_ITEMS_RSP") then Some AddItemsRsp else
if decide (s = "REMOVE_ITEMS_REQ") then Some RemoveItemsReq else
if decide (s = "REMOVE_ITEMS_RSP") then Some RemoveItemsRsp else
if decide (s = "CHECK_ITEMS_REQ") then Some CheckItemsReq else
if decide (s = "CHECK_ITEMS_RSP") then Some CheckItemsRsp else
if decide (s = "SEND_MAIL_REQ") then Some SendMailReq else
if decide (s = "SEND_MAIL_RSP") then Some SendMailRsp else
if decide (s = "MAIL_PUSH_NTF") then Some MailPushNtf else
if decide (s = "AUTH_LOGIN_REQ") then Some AuthLoginReq else
if decide (s = "AUTH_LOGIN_RSP") then Some AuthLoginRsp else
if decide (s = "AUTH_USE_ROLE_REQ") then Some AuthUseRoleReq else
if decide (s = "AUTH_USE_ROLE_RSP") then Some AuthUseRoleRsp else
if decide (s = "GAMER_INFO_REQ") then Some GamerInfoReq else
if decide (s = "GAMER_INFO_RSP") then Some GamerInfoRsp else
if decide (s = "ACK_NTF") then Some AckNtf else
if decide (s = "PING_REQ") then Some PingReq else
if decide (s = "PING_RSP") then Some PingRsp else
if decide (s = "LOGIN_REQ") then Some LoginReq else
if decide (s = "LOGIN_RSP") then Some LoginRsp else
if decide (s = "RECONNECT_REQ") then Some ReconnectReq else
if decide (s = "RECONNECT_RSP") then Some ReconnectRsp else
if decide (s = "LOGOUT_REQ") then Some LogoutReq else
if decide (s = "LOGOUT_RSP") then Some LogoutRsp else
if decide (s = "KICK_NTF") then Some KickNtf else
if decide (s = "LOGIC_LOGIN_REQ") then Some LogicLoginReq else
if decide (s = "LOGIC_LOGIN_RSP") then Some LogicLoginRsp else
if decide (s = "LOGIC_DISCONNECT_NTF") then Some LogicDisconnectNtf else
if decide (s = "KICK_SESSION_REQ") then Some KickSessionReq else
if decide (s = "KICK_SESSION_RSP") then Some KickSessionRsp else
None.

Definition all : list t :=
[Unspecified; PlayerInfoReq; PlayerInfoRsp; UseItemReq; UseItemRsp; MailListReq; MailListRsp;
 MailReadReq; MailReadRsp; MailDeleteReq; MailDeleteRsp; MailClaimReq; MailClaimRsp;
 MailInfoNtf; AddItemsReq; AddItemsRsp; RemoveItemsReq; RemoveItemsRsp; CheckItemsReq;
 CheckItemsRsp; SendMailReq; SendMailRsp; MailPushNtf; AuthLoginReq; AuthLoginRsp;
 AuthUseRoleReq; AuthUseRoleRsp; GamerInfoReq; GamerInfoRsp; AckNtf; PingReq; PingRsp;
 LoginReq; LoginRsp; ReconnectReq; ReconnectRsp; LogoutReq; LogoutRsp; KickNtf;
 LogicLoginReq; LogicLoginRsp; LogicDisconnectNtf; KickSessionReq; KickSessionRsp].

(** [TryFrom<i32>] of the prost enumeration: the variant with that discriminant. *)

Definition try_from (v : Z) : option t := List.find (λ m, as_u16 m =? v) all.

End MsgId.

(** ** Status codes ([protocol/src/status.rs]) *)
Module code.
Definition OK : Z := 0.
Definition INVALID_ARGUMENT : Z := 1.
Definition UNAUTHENTICATED : Z := 2.
Definition RATE_LIMITED : Z := 3.
Definition TEMPORARILY_UNAVAILABLE : Z := 4.
Definition RESUME_EXPIRED : Z := 5.
Definition SESSION_REPLACED : Z := 6.
Definition NOT_FOUND : Z := 7.
Definition CONFLICT : Z := 8.
Definition INSUFFICIENT_ITEMS : Z := 9.
Definition INTERNAL : Z := 10.
Definition OVERLOADED : Z := 11.
End code.

Definition ok_status : Status := mkStatus code.OK "".
Definition error_status (c : Z) (message : string) : Status := mkStatus c message.

(** ** Message classification ([protocol/src/message.rs]) *)
Inductive MessageKind := Req | Rsp | Ntf.
#[export] Instance MessageKind_eq_dec : EqDecision MessageKind.
Proof. solve_decision. Defined.

Module RouteTarget.
Inductive t := Gate | Logic | Public.
#[global] Instance t_eq_dec : EqDecision t.
Proof. solve_decision. Defined.
End RouteTarget.

(** [str::ends_with]. *)
Definition ends_with (s suffix : string) : bool :=
  bool_decide (String.substring (String.length s - String.length suffix) (String.length suffix) s = suffix)
  && (String.length suffix <=? String.length s)%nat.

Definition kind (m : MsgId.t) : option MessageKind :=
  let name := MsgId.as_str_name m in
  if ends_with name "_REQ" then Some Req
  else if ends_with name "_RSP" then Some Rsp
  else if ends_with name "_NTF" then Some Ntf
  else None.

Definition from_u16 (value : Z) : option MsgId.t :=
  id ← MsgId.try_from value;
  if decide (id = MsgId.Unspecified) then None else Some id.

Definition route_target (request : MsgId.t) : option RouteTarget.t :=
  match request with
  | MsgId.PingReq | MsgId.LoginReq | MsgId.ReconnectReq | MsgId.LogoutReq => Some RouteTarget.Gate
  | MsgId.PlayerInfoReq | MsgId.UseItemReq => Some RouteTarget.Logic
  | MsgId.MailListReq | MsgId.MailReadReq | MsgId.MailDeleteReq | MsgId.MailClaimReq =>
      Some RouteTarget.Public
  | _ => None
  end.

(** [xproto::SYSTEM_MSG_ID_END]: the first id after the system range. *)
Class Xproto := { SYSTEM_MSG_ID_END : Z }.

Definition is_outbox_message `{Xproto} (msgid : Z) : bool :=
  if (1 <=? msgid) && (msgid <? wrap_u32 SYSTEM_MSG_ID_END mod 2 ^ 16) then false
  else negb match from_u16 msgid with
            | Some (MsgId.PingRsp | MsgId.LoginRsp | MsgId.ReconnectRsp | MsgId.LogoutRsp | MsgId.KickNtf) => true
            | _ => false
            end.

(** The id the response of a request has: the pairing that the registry of
    [xproto] builds from the generated descriptors ([response_for]). *)
Definition response_for (registry_response_id : Z → option Z) (request : MsgId.t) : option MsgId.t :=
  response ← registry_response_id (MsgId.as_u16 request);
  from_u16 response.

(** ** Facts *)

Lemma MsgId_all_complete (m : MsgId.t) : In m MsgId.all.
Proof. destruct m; vm_compute; tauto. Qed.

Lemma try_from_as_u16 (m : MsgId.t) : MsgId.try_from (MsgId.as_u16 m) = Some m.
Proof. destruct m; reflexivity. Qed.

Lemma try_from_Some v m : MsgId.try_from v = Some m → MsgId.as_u16 m = v.
Proof. unfold MsgId.try_from. intros [_ H]%List.find_some. lia. Qed.

#[export] Instance as_u16_inj : Inj (=) (=) MsgId.as_u16.
Proof. intros m n H. pose proof (try_from_as_u16 m). pose proof (try_from_as_u16 n). congruence. Qed.

Lemma as_u16_range m : is_u16 (MsgId.as_u16 m).
Proof. destruct m; unfold is_u16; simpl; lia. Qed.

Lemma from_u16_Some v m : from_u16 v = Some m ↔ MsgId.as_u16 m = v ∧ m ≠ MsgId.Unspecified.
Proof.
  unfold from_u16. split.
  - intros H. destruct (MsgId.try_from v) as [id|] eqn:E; simpl in H; [|done].
    apply try_from_Some in E. guards; done.
  - intros [<- Hn]. rewrite try_from_as_u16. simpl. guards; done.
Qed.
