(* ===== verification/LogicPlayer.v ===== *)
(** The players of the Logic service (src/service/logic/src/player.rs): the
    player state and its item operations, the persistence callbacks, and the
    RPC handlers, each as a program over the operations it awaits. *)

From stdpp Require Import pretty.
From S2P Require Import Prelude Effects Routing Proto LogicAdmission LogicRuntime.

Definition KIB : Z := 1024.

(** ** The player state *)

Record PlayerSession := mkPlayerSession { gate_id : Z; session_id : Z }.

#[export] Instance PlayerSession_eq_dec : EqDecision PlayerSession.
Proof. solve_decision. Defined.

Record PlayerState := mkPlayerState {
  data : PlayerData;
  session : option PlayerSession;
  dirty : bool
}.

Definition eta_PlayerState (s : PlayerState) : PlayerState := mkPlayerState (data s) (session s) (dirty s).
Definition on_data : (PlayerData → PlayerData) → PlayerState → PlayerState := ltac:(derive_update eta_PlayerState data).
Definition on_session : (option PlayerSession → option PlayerSession) → PlayerState → PlayerState :=
  ltac:(derive_update eta_PlayerState session).
Definition on_dirty : (bool → bool) → PlayerState → PlayerState := ltac:(derive_update eta_PlayerState dirty).

#[export] Instance PlayerState_logic : LogicState PlayerState := dirty.

Definition new (d : PlayerData) : PlayerState := {| data := d; session := None; dirty := false |}.

(** The count of an item, zero when the player has none. *)
Definition count_of (s : PlayerState) (item_id : Z) : Z := default 0 (PlayerData_items (data s) !! item_id).
Definition on_items (f : gmap Z Z → gmap Z Z) : PlayerState → PlayerState :=
  on_data (λ d, mkPlayerData (PlayerData_gid d) (PlayerData_profile d) (f (PlayerData_items d))).

Record LoginResult := mkLoginResult { became_online : bool; response : LogicLoginRsp }.

Section player.
Context `{!UnstableSort Item Item_item_id} `{!MapIter Z Z}.

(** [HashMap<i32, i64>] with [+=] on the entries, which wraps. *)
Definition aggregate_items (items : list Item) : gmap Z Z :=
  foldl (λ aggregate item,
    <[Item_item_id item := wrap_i64 (default 0 (aggregate !! Item_item_id item) + Item_count item)]> aggregate) ∅ items.

Definition invalid_items (items : list Item) : bool :=
  bool_decide (items = [])
  || existsb (λ item, (Item_item_id item <=? 0) || (Item_count item <=? 0)) items.

Definition items (s : PlayerState) : list Item :=
  sort_unstable_by_key Item_item_id
    ((λ '(item_id, count), mkItem item_id count 0) <$> map_iter (PlayerData_items (data s))).

Definition login (gate_id session_id : Z) (s : PlayerState) : LoginResult * PlayerState :=
  let became_online := bool_decide (session s = None) in
  let s := on_session (λ _, Some (mkPlayerSession gate_id session_id)) s in
  ({| became_online := became_online;
      response := {| LogicLoginRsp_status := Some ok_status; LogicLoginRsp_logic_id := 0;
                     LogicLoginRsp_old_gate_id := 0; LogicLoginRsp_old_player_session := 0;
                     LogicLoginRsp_player := PlayerData_profile (data s);
                     LogicLoginRsp_items := items s |} |}, s).

Definition disconnect (gate session : Z) (s : PlayerState) : bool * PlayerState :=
  let matches :=
    match LogicPlayer.session s with
    | Some current => (gate_id current =? gate) && (session_id current =? session)
    | None => false
    end in
  (matches, if matches then on_session (λ _, None) s else s).

Definition player_info (s : PlayerState) : PlayerInfoRsp :=
  {| PlayerInfoRsp_status := Some ok_status;
     PlayerInfoRsp_player := PlayerData_profile (data s);
     PlayerInfoRsp_items := items s |}.

Definition use_item (request : UseItemReq) (s : PlayerState) : UseItemRsp * PlayerState :=
  let id := UseItemReq_item_id request in
  let count := UseItemReq_count request in
  if (id <=? 0) || (count <=? 0) then
    ({| UseItemRsp_status := Some (error_status code.INVALID_ARGUMENT "invalid item request"); UseItemRsp_item := None |}, s)
  else
    let current := count_of s id in
    if current <? count then
      ({| UseItemRsp_status := Some (error_status code.INSUFFICIENT_ITEMS "insufficient items");
          UseItemRsp_item := Some (mkItem id current 0) |}, s)
    else
      let remaining := wrap_i64 (current - count) in
      let s := on_items (if remaining =? 0 then delete id else <[id := remaining]>) s in
      ({| UseItemRsp_status := Some ok_status; UseItemRsp_item := Some (mkItem id remaining (- count)) |},
       on_dirty (λ _, true) s).

(** The loop of [add_items]: [None] stops it at the item that overflows; the
    items before it stay inserted. *)
Fixpoint add_loop (changes : list (Z * Z)) (s : PlayerState) : bool * PlayerState :=
  match changes with
  | [] => (true, s)
  | (item_id, amount) :: changes =>
      match checked_add_i64 (count_of s item_id) amount with
      | None => (false, s)
      | Some next => add_loop changes (on_items <[item_id := next]> s)
      end
  end.

Definition add_items (items : list Item) (s : PlayerState) : AddItemsRsp * PlayerState :=
  if invalid_items items then
    ({| AddItemsRsp_status := Some (error_status code.INVALID_ARGUMENT "invalid add-items request"); AddItemsRsp_items := [] |}, s)
  else
    let changes := map_iter (aggregate_items items) in
    match add_loop changes s with
    | (false, s) =>
        ({| AddItemsRsp_status := Some (error_status code.CONFLICT "item count overflow"); AddItemsRsp_items := [] |}, s)
    | (true, s) =>
        let s := on_dirty (λ _, true) s in
        ({| AddItemsRsp_status := Some ok_status;
            AddItemsRsp_items := (λ '(item_id, change), mkItem item_id (count_of s item_id) change) <$> changes |}, s)
    end.

(** The loop of [remove_items]; [None] is the panic of indexing an item the
    player does not have. *)
Fixpoint remove_loop (changes : list (Z * Z)) (s : PlayerState) : option (list Item * PlayerState) :=
  match changes with
  | [] => Some ([], s)
  | (item_id, amount) :: changes =>
      current ← PlayerData_items (data s) !! item_id;
      let remaining := wrap_i64 (current - amount) in
      let s := on_items (if remaining =? 0 then delete item_id else <[item_id := remaining]>) s in
      '(result, s) ← remove_loop changes s;
      Some (mkItem item_id remaining (wrap_i64 (- amount)) :: result, s)
  end.

Definition remove_items (items : list Item) (s : PlayerState) : option (RemoveItemsRsp * PlayerState) :=
  if invalid_items items then
    Some ({| RemoveItemsRsp_status := Some (error_status code.INVALID_ARGUMENT "invalid remove-items request");
             RemoveItemsRsp_items := [] |}, s)
  else
    let changes := map_iter (aggregate_items items) in
    if existsb (λ '(item_id, amount), count_of s item_id <? amount) changes then
      Some ({| RemoveItemsRsp_status := Some (error_status code.INSUFFICIENT_ITEMS "insufficient items");
               RemoveItemsRsp_items := [] |}, s)
    else
      '(result, s) ← remove_loop changes s;
      Some ({| RemoveItemsRsp_status := Some ok_status; RemoveItemsRsp_items := result |}, on_dirty (λ _, true) s).

Definition check_items (items : list Item) (s : PlayerState) : CheckItemsRsp :=
  if invalid_items items then
    {| CheckItemsRsp_status := Some (error_status code.INVALID_ARGUMENT "invalid check-items request"); CheckItemsRsp_enough := false |}
  else
    {| CheckItemsRsp_status := Some ok_status;
       CheckItemsRsp_enough :=
         forallb (λ '(item_id, amount), amount <=? count_of s item_id) (map_iter (aggregate_items items)) |}.

(** ** New and loaded players *)

Definition default_player (gid : Z) : PlayerData :=
  {| PlayerData_gid := gid;
     PlayerData_profile := Some {| PlayerInfo_gid := gid; PlayerInfo_name := "Player" +:+ pretty gid;
                                   PlayerInfo_level := 1; PlayerInfo_icon := 0; PlayerInfo_exp := 0 |};
     PlayerData_items := ∅ |}.

Definition normalize_player (gid : Z) (d : PlayerData) : PlayerData :=
  let profile :=
    match PlayerData_profile d with
    | Some p => p
    | None => {| PlayerInfo_gid := gid; PlayerInfo_name := "Player" +:+ pretty gid;
                 PlayerInfo_level := 1; PlayerInfo_icon := 0; PlayerInfo_exp := 0 |}
    end in
  {| PlayerData_gid := gid;
     PlayerData_profile :=
       Some {| PlayerInfo_gid := gid; PlayerInfo_name := PlayerInfo_name profile;
               PlayerInfo_level := PlayerInfo_level profile; PlayerInfo_icon := PlayerInfo_icon profile;
               PlayerInfo_exp := PlayerInfo_exp profile |};
     PlayerData_items := PlayerData_items d |}.
End player.

Definition decrement_online (current : Z) : Z := Z.max (current - 1) 0.

(** ** Persistence *)

(** The operations of the player store (src/persist), awaited by the callbacks. *)
Inductive StoreEff (E : Type) : Type → Type :=
| StoreLoad (gid : Z) : StoreEff E (Result E (option PlayerData))
| StoreSave (d : PlayerData) : StoreEff E (Result E unit).
#[global] Arguments StoreLoad {E}.
#[global] Arguments StoreSave {E}.

(** The loader of [persistence]: a missing player is created and saved. *)
Definition load_player {E} (gid : Z) : prog (StoreEff E) (Result E PlayerState) :=
  loaded ← await (StoreLoad gid);
  match loaded with
  | Err error => Ret (Err error)
  | Ok (Some d) => Ret (Ok (new (normalize_player gid d)))
  | Ok None =>
      let d := default_player gid in
      created ← await (StoreSave d);
      match created with
      | Err error => Ret (Err error)
      | Ok _ => Ret (Ok (new d))
      end
  end.

(** The saver of [persistence]: the state it leaves in the player. *)
Definition save_player {E} (s : PlayerState) : prog (StoreEff E) (Result E unit * PlayerState) :=
  saved ← await (StoreSave (data s));
  Ret match saved with
      | Err error => (Err error, s)
      | Ok _ => (Ok tt, on_dirty (λ _, false) s)
      end.

#[export] Instance PlayerState_saved : SaveEffect PlayerState :=
  λ ok s, if ok then on_dirty (λ _, false) s else s.
