(* ===== verification/LogicPlayerSpec.v ===== *)
(** What the item operations of a player do, against the inventory they
    stand for: a count per item.  [total] is what a request asks for; the
    theorems hold for every iteration order of the hash maps. *)

From S2P Require Import Prelude Effects Routing Proto LogicAdmission LogicRuntime LogicPlayer.

(** ** Requests and inventories *)

(** The amount of an item in a list of changes, and in a request. *)
Definition amount_in (changes : list (Z * Z)) (id : Z) : Z :=
  default 0 ((list_to_map changes : gmap Z Z) !! id).

Definition total (id : Z) (items : list Item) : Z :=
  foldr (λ item acc, (if Item_item_id item =? id then Item_count item else 0) + acc) 0 items.

(** No aggregated amount leaves the range of [i64]. *)
Definition fits (items : list Item) : Prop := ∀ id, total id items < 2 ^ 63.

(** What the operations keep: every stored count is a positive [i64]. *)
Definition inventory_ok (s : PlayerState) : Prop :=
  map_Forall (λ _ n, 0 < n < 2 ^ 63) (PlayerData_items (data s)).

(** Everything but the items. *)
Definition same_player (s s' : PlayerState) : Prop :=
  PlayerData_gid (data s') = PlayerData_gid (data s)
  ∧ PlayerData_profile (data s') = PlayerData_profile (data s) ∧ session s' = session s.

Lemma same_player_trans s1 s2 s3 : same_player s1 s2 → same_player s2 s3 → same_player s1 s3.
Proof. unfold same_player. intros (? & ? & ?) (? & ? & ?). split_and!; congruence. Qed.

Lemma count_of_nonneg s id : inventory_ok s → 0 <= count_of s id < 2 ^ 63.
Proof.
  intros Hs. unfold count_of. destruct (PlayerData_items (data s) !! id) as [n|] eqn:Hn; simpl; [|lia].
  apply Hs in Hn. lia.
Qed.

Lemma count_of_insert s id n id' :
  count_of (on_items <[id := n]> s) id' = if decide (id' = id) then n else count_of s id'.
Proof.
  unfold count_of, on_items. simpl. case_decide as Hd; [subst; by rewrite lookup_insert_eq|].
  by rewrite lookup_insert_ne.
Qed.

Lemma count_of_delete s id id' :
  count_of (on_items (delete id) s) id' = if decide (id' = id) then 0 else count_of s id'.
Proof.
  unfold count_of, on_items. simpl. case_decide as Hd; [subst; by rewrite lookup_delete_eq|].
  by rewrite lookup_delete_ne.
Qed.

Lemma inventory_insert s id n : inventory_ok s → 0 < n < 2 ^ 63 → inventory_ok (on_items <[id := n]> s).
Proof. intros Hs Hn. unfold inventory_ok, on_items. simpl. by apply map_Forall_insert_2. Qed.

Lemma inventory_delete s id : inventory_ok s → inventory_ok (on_items (delete id) s).
Proof. intros Hs. unfold inventory_ok, on_items. simpl. by apply map_Forall_delete. Qed.

Lemma total_nonneg id items : Forall (λ i, 0 < Item_count i) items → 0 <= total id items.
Proof. induction 1 as [|i l Hi _ IH]; simpl; [done|]. case_if; lia. Qed.

Lemma total_pos id items : Forall (λ i, 0 < Item_count i) items →
  0 < total id items ↔ ∃ i, i ∈ items ∧ Item_item_id i = id.
Proof.
  induction 1 as [|i l Hi Hl IH]; simpl.
  { split; [lia|]. intros (i & Hi & _). by apply not_elem_of_nil in Hi. }
  pose proof (total_nonneg id l Hl). destruct (Z.eqb_spec (Item_item_id i) id) as [He|Hne].
  - split; [|lia]. intros _. exists i. split; [apply list_elem_of_here|done].
  - rewrite Z.add_0_l, IH. split.
    + intros (j & Hj & Hid). exists j. split; [by apply list_elem_of_further|done].
    + intros (j & [->|Hj]%elem_of_cons & Hid); [done|]. by exists j.
Qed.

Section spec.
Context `{!UnstableSort Item Item_item_id} `{!MapIter Z Z}.

Lemma invalid_items_false items : invalid_items items = false ↔
  items ≠ [] ∧ Forall (λ i, 0 < Item_item_id i ∧ 0 < Item_count i) items.
Proof.
  unfold invalid_items. rewrite orb_false_iff, bool_decide_eq_false.
  rewrite <- not_true_iff_false, existsb_exists, Forall_forall. split; intros [H1 H2]; (split; [done|]).
  - intros i Hi. destruct (decide (0 < Item_item_id i ∧ 0 < Item_count i)); [done|].
    destruct H2. exists i. split; [by apply list_elem_of_In|]. lia.
  - intros (i & Hi%list_elem_of_In & Hb). specialize (H2 i Hi). lia.
Qed.

(** [aggregate_items] adds up the counts of each item, when they fit. *)
Lemma aggregate_spec items : Forall (λ i, 0 < Item_count i) items → fits items →
  ∀ id, aggregate_items items !! id = if decide (0 < total id items) then Some (total id items) else None.
Proof.
  intros Hpos Hfit.
  assert (∀ agg k, (∀ id, agg !! id = if decide (0 < total id k) then Some (total id k) else None) →
    Forall (λ i, 0 < Item_count i) k → (∀ id, total id k + total id items < 2 ^ 63) →
    ∀ id, foldl (λ (agg : gmap Z Z) i, <[Item_item_id i := wrap_i64 (default 0 (agg !! Item_item_id i) + Item_count i)]> agg) agg items !! id
      = if decide (0 < total id k + total id items) then Some (total id k + total id items) else None) as Hgen.
  { clear Hfit. induction Hpos as [|i l Hi Hl IH]; intros agg k Hagg Hk Hfit id; simpl.
    - rewrite Z.add_0_r. apply Hagg.
    - assert (∀ id, total id (i :: k) = (if Item_item_id i =? id then Item_count i else 0) + total id k) as Hcons by done.
      rewrite (IH _ (i :: k)).
      + rewrite Hcons. replace ((if Item_item_id i =? id then Item_count i else 0) + total id k + total id l)
          with (total id k + ((if Item_item_id i =? id then Item_count i else 0) + total id l)) by lia. done.
      + intros id'. rewrite Hcons. pose proof (total_nonneg id' k Hk). pose proof (total_nonneg id' l Hl).
        specialize (Hfit id'). simpl in Hfit. specialize (Hagg id').
        destruct (Z.eqb_spec (Item_item_id i) id') as [<-|Hne].
        * rewrite lookup_insert_eq, Hagg.
          destruct (decide (0 < total (Item_item_id i) k)); simpl default;
            (rewrite wrap_i64_id by (unfold is_i64; lia)); rewrite decide_True by lia; f_equal; lia.
        * rewrite lookup_insert_ne by done. rewrite Hagg, Z.add_0_l. done.
      + by constructor.
      + intros id'. rewrite Hcons. specialize (Hfit id'). simpl in Hfit. lia. }
  intros id. unfold aggregate_items. rewrite (Hgen ∅ []); [by rewrite Z.add_0_l|done|done|].
  intros id'. simpl. rewrite Z.add_0_l. apply Hfit.
Qed.

(** The changes of a request, in any order. *)
Lemma changes_spec items : Forall (λ i, 0 < Item_count i) items → fits items →
  NoDup (map_iter (aggregate_items items)).*1
  ∧ (∀ id a, (id, a) ∈ map_iter (aggregate_items items) ↔ a = total id items ∧ 0 < a)
  ∧ (∀ id, amount_in (map_iter (aggregate_items items)) id = total id items).
Proof.
  intros Hpos Hfit. pose proof (map_iter_perm (aggregate_items items)) as Hp.
  assert (NoDup (map_iter (aggregate_items items)).*1) as Hnd by (rewrite Hp; apply NoDup_fst_map_to_list).
  assert (∀ id a, (id, a) ∈ map_iter (aggregate_items items) ↔ a = total id items ∧ 0 < a) as Hin.
  { intros id a. rewrite Hp, elem_of_map_to_list, aggregate_spec by done.
    case_decide; split; [intros [= <-]|intros [-> _]| |]; try done. intros [-> ?]. lia. }
  split_and!; [done|done|]. intros id. unfold amount_in.
  pose proof (total_nonneg id items Hpos).
  destruct (decide (0 < total id items)) as [Hlt|].
  - rewrite (elem_of_list_to_map_1 _ id (total id items)); [done|done|]. by apply Hin.
  - rewrite not_elem_of_list_to_map_1; [simpl; lia|].
    intros ([id' a] & -> & [-> Ha]%Hin)%list_elem_of_fmap. simpl in *. lia.
Qed.

Lemma amount_in_cons id a changes id' : id ∉ changes.*1 →
  amount_in ((id, a) :: changes) id' = if decide (id' = id) then a else amount_in changes id'.
Proof.
  intros _. unfold amount_in. simpl. case_decide as Hd; [subst; by rewrite lookup_insert_eq|].
  by rewrite lookup_insert_ne.
Qed.

Lemma amount_in_absent changes id : id ∉ changes.*1 → amount_in changes id = 0.
Proof. intros Hn. unfold amount_in. by rewrite not_elem_of_list_to_map_1. Qed.

(** ** The loops *)

Lemma remove_loop_spec changes s : inventory_ok s → NoDup changes.*1 →
  Forall (λ '(id, a), 0 < a <= count_of s id) changes →
  ∃ result s', remove_loop changes s = Some (result, s')
    ∧ inventory_ok s' ∧ same_player s s' ∧ dirty s' = dirty s
    ∧ (∀ id, count_of s' id = count_of s id - amount_in changes id)
    ∧ Forall2 (λ '(id, a) item, item = mkItem id (count_of s' id) (- a)) changes result.
Proof.
  revert s. induction changes as [|[id a] changes IH]; intros s Hs Hnd Hc.
  { exists [], s. simpl. split_and!; try done. intros id. change (amount_in [] id) with 0. lia. }
  apply NoDup_cons in Hnd as [Hid Hnd]. apply Forall_cons in Hc as [Ha Hc].
  pose proof (count_of_nonneg s id Hs) as Hb. simpl.
  assert (PlayerData_items (data s) !! id = Some (count_of s id)) as ->.
  { unfold count_of in *. destruct (PlayerData_items (data s) !! id); simpl in *; [done|lia]. }
  simpl. rewrite (wrap_i64_id (count_of s id - a)), (wrap_i64_id (- a)) by (unfold is_i64; lia).
  set (s1 := on_items (if count_of s id - a =? 0 then delete id else <[id := count_of s id - a]>) s).
  assert (∀ id', count_of s1 id' = if decide (id' = id) then count_of s id - a else count_of s id') as Hc1.
  { intros id'. subst s1. destruct (Z.eqb_spec (count_of s id - a) 0) as [E0|E0];
      [rewrite count_of_delete, E0|rewrite count_of_insert]; done. }
  assert (inventory_ok s1) as Hs1.
  { subst s1. destruct (Z.eqb_spec (count_of s id - a) 0); [by apply inventory_delete|apply inventory_insert; [done|lia]]. }
  destruct (IH s1 Hs1 Hnd) as (result & s' & -> & H1 & H2 & H3 & H4 & H5).
  { rewrite Forall_forall in Hc |- *. intros [id' a'] Hin. specialize (Hc _ Hin). simpl in Hc.
    rewrite Hc1. case_decide as Hd; [|done]. subst. exfalso. apply Hid. by apply (list_elem_of_fmap_2 fst) in Hin. }
  simpl. eexists _, s'. split; [done|]. split_and!; [done| |done| |].
  - eapply same_player_trans; [|exact H2]. by subst s1.
  - intros id'. rewrite H4, Hc1, amount_in_cons by done. case_decide as Hd; [|done].
    subst. rewrite amount_in_absent by done. lia.
  - constructor; [|done]. f_equal. rewrite H4, Hc1, decide_True by done. rewrite amount_in_absent by done. lia.
Qed.

Lemma add_loop_spec changes s : inventory_ok s → NoDup changes.*1 →
  Forall (λ '(id, a), 0 < a < 2 ^ 63) changes →
  ∃ ok s', add_loop changes s = (ok, s') ∧ inventory_ok s' ∧ same_player s s' ∧ dirty s' = dirty s
    ∧ (ok = true ↔ Forall (λ '(id, a), count_of s id + a < 2 ^ 63) changes)
    ∧ (ok = true → ∀ id, count_of s' id = count_of s id + amount_in changes id).
Proof.
  revert s. induction changes as [|[id a] changes IH]; intros s Hs Hnd Hc.
  { exists true, s. simpl. split_and!; try done. intros _ id. change (amount_in [] id) with 0. lia. }
  apply NoDup_cons in Hnd as [Hid Hnd]. apply Forall_cons in Hc as [Ha Hc].
  pose proof (count_of_nonneg s id Hs) as Hb. simpl.
  destruct (checked_add_i64 (count_of s id) a) as [next|] eqn:Hadd.
  - apply checked_add_i64_Some in Hadd as [-> Hr]. unfold is_i64 in Hr.
    set (s1 := on_items <[id := count_of s id + a]> s).
    assert (∀ id', count_of s1 id' = if decide (id' = id) then count_of s id + a else count_of s id') as Hc1
      by (intros id'; apply count_of_insert).
    destruct (IH s1) as (ok & s' & -> & H1 & H2 & H3 & H4 & H5); [apply inventory_insert; [done|lia]|done|done|].
    exists ok, s'. split; [done|]. split_and!; [done|by eapply same_player_trans; [|exact H2]|done| |].
    + rewrite H4, Forall_cons.
      assert (Forall (λ '(id, a), count_of s1 id + a < 2 ^ 63) changes
              ↔ Forall (λ '(id, a), count_of s id + a < 2 ^ 63) changes) as ->; [|split; [|tauto]; intros; split; [lia|done]].
      rewrite !Forall_forall. split; intros H [id' a'] Hin; specialize (H _ Hin); simpl in *; rewrite Hc1 in *;
        (case_decide as Hd; [subst; exfalso; apply Hid; by apply (list_elem_of_fmap_2 fst) in Hin|done]).
    + intros Hok id'. rewrite H5, Hc1, amount_in_cons by done. case_decide as Hd; [|done].
      subst. rewrite amount_in_absent by done. lia.
  - apply checked_add_i64_None in Hadd. unfold is_i64 in Hadd. exists false, s. split_and!; try done.
    split; [done|]. intros [Hc' _]%Forall_cons. lia.
Qed.
(** ** The operations *)

(** A well-formed request: some items, positive ids and counts, and sums that
    stay in range. *)
Definition request_ok (items : list Item) : Prop :=
  items ≠ [] ∧ Forall (λ i, 0 < Item_item_id i ∧ 0 < Item_count i) items ∧ fits items.

Lemma request_changes items : request_ok items →
  invalid_items items = false
  ∧ NoDup (map_iter (aggregate_items items)).*1
  ∧ (∀ id a, (id, a) ∈ map_iter (aggregate_items items) ↔ a = total id items ∧ 0 < a)
  ∧ (∀ id, amount_in (map_iter (aggregate_items items)) id = total id items)
  ∧ (∀ id, 0 <= total id items).
Proof.
  intros (H1 & H2 & H3).
  assert (Forall (λ i, 0 < Item_count i) items) as H4 by (eapply Forall_impl; [exact H2|]; simpl; tauto).
  split; [by apply invalid_items_false|]. destruct (changes_spec items H4 H3) as (? & ? & ?).
  split_and!; [done..|]. intros id. by apply total_nonneg.
Qed.

(** The player has all that a request asks for. *)
Definition has_items (items : list Item) (s : PlayerState) : Prop := ∀ id, total id items <= count_of s id.

Lemma enough_spec items s : request_ok items → inventory_ok s →
  (existsb (λ '(id, a), count_of s id <? a) (map_iter (aggregate_items items)) = false ↔ has_items items s)
  ∧ (forallb (λ '(id, a), a <=? count_of s id) (map_iter (aggregate_items items)) = true ↔ has_items items s).
Proof.
  intros Hr Hs. destruct (request_changes items Hr) as (_ & _ & Hin & _ & Hnn).
  assert (has_items items s ↔ ∀ id a, (id, a) ∈ map_iter (aggregate_items items) → a <= count_of s id) as Hhas.
  { split.
    - intros H id a [-> _]%Hin. apply H.
    - intros H id. pose proof (count_of_nonneg s id Hs). pose proof (Hnn id).
      destruct (decide (total id items = 0)); [lia|]. apply H, Hin. lia. }
  rewrite Hhas. split.
  - rewrite <- not_true_iff_false, existsb_exists. split.
    + intros Hne id a Hi. destruct (decide (a <= count_of s id)); [done|].
      destruct Hne. exists (id, a). split; [by apply list_elem_of_In|lia].
    + intros H ([id a] & Hi%list_elem_of_In & Hlt). specialize (H id a Hi). lia.
  - rewrite forallb_forall. split.
    + intros H id a Hi%list_elem_of_In. specialize (H _ Hi). simpl in H. lia.
    + intros H [id a] Hi%list_elem_of_In. specialize (H _ _ Hi). lia.
Qed.

(** The branch of [remove_items] that removes. *)
Lemma remove_items_enough items s : request_ok items → inventory_ok s → has_items items s →
  ∃ result s', remove_items items s = Some (mkRemoveItemsRsp (Some ok_status) result, s')
    ∧ dirty s' = true ∧ inventory_ok s' ∧ same_player s s'
    ∧ (∀ id, count_of s' id = count_of s id - total id items)
    ∧ (∀ i, i ∈ result ↔ ∃ id, 0 < total id items ∧ i = mkItem id (count_of s' id) (- total id items)).
Proof.
  intros Hr Hs Hhas. destruct (request_changes items Hr) as (Hinv & Hnd & Hin & Ham & Hnn).
  destruct (enough_spec items s Hr Hs) as [He _]. unfold remove_items. rewrite Hinv, (proj2 He Hhas).
  set (changes := map_iter (aggregate_items items)) in *.
  destruct (remove_loop_spec changes s Hs Hnd) as (result & s1 & -> & H1 & H2 & H3 & H4 & H5).
  { apply Forall_forall. intros [id a] [-> Ha]%Hin. split; [done|apply Hhas]. }
  simpl. eexists _, _. split; [done|]. split_and!; try done.
  - intros id. change (count_of (on_dirty _ s1) id) with (count_of s1 id). by rewrite H4, Ham.
  - intros i. simpl. change (count_of (on_dirty _ s1)) with (count_of s1). split.
    + intros (k & Hk)%list_elem_of_lookup. destruct (Forall2_lookup_r _ _ _ _ _ H5 Hk) as ([id a] & Hc & ->).
      apply list_elem_of_lookup_2, Hin in Hc as [-> Ha]. by exists id.
    + intros (id & Ht & ->). assert ((id, total id items) ∈ changes) as (k & Hk)%list_elem_of_lookup by (by apply Hin).
      destruct (Forall2_lookup_l _ _ _ _ _ H5 Hk) as (i & Hi & ->). by eapply list_elem_of_lookup_2.
Qed.

(** The branch that removes is taken when everything is there, and only
    then. *)
Lemma remove_items_cases items s : request_ok items → inventory_ok s →
  has_items items s
  ∨ ¬ has_items items s
    ∧ remove_items items s =
        Some (mkRemoveItemsRsp (Some (error_status code.INSUFFICIENT_ITEMS "insufficient items")) [], s).
Proof.
  intros Hr Hs. destruct (request_changes items Hr) as (Hinv & _). destruct (enough_spec items s Hr Hs) as [He _].
  unfold remove_items. rewrite Hinv. destruct (existsb _ _) eqn:Hex; [right|left; by apply He].
  split; [|done]. intros Hh. by apply He in Hh.
Qed.

(** C12: [remove_items] is all or nothing.  For every well-formed request (some
    items, positive ids and counts, sums in range) on a positive inventory it
    does not panic; when the player has every requested item it answers [OK],
    subtracts exactly the requested total from each item, reports the new
    counts, marks the player dirty and keeps the inventory positive; when
    anything is missing it answers [INSUFFICIENT_ITEMS] and changes nothing. *)
Theorem remove_items_all_or_nothing items s : request_ok items → inventory_ok s →
  ∃ rsp s', remove_items items s = Some (rsp, s')
    ∧ (has_items items s →
        RemoveItemsRsp_status rsp = Some ok_status ∧ dirty s' = true ∧ inventory_ok s' ∧ same_player s s'
        ∧ (∀ id, count_of s' id = count_of s id - total id items)
        ∧ (∀ i, i ∈ RemoveItemsRsp_items rsp ↔
             ∃ id, 0 < total id items ∧ i = mkItem id (count_of s' id) (- total id items)))
    ∧ (¬ has_items items s →
        s' = s ∧ rsp = mkRemoveItemsRsp (Some (error_status code.INSUFFICIENT_ITEMS "insufficient items")) []).
Proof.
  intros Hr Hs. destruct (remove_items_cases items s Hr Hs) as [Hh|[Hh ->]].
  - destruct (remove_items_enough items s Hr Hs Hh) as (result & s' & -> & Hs').
    eexists _, s'. split; [done|]. split; [intros _; by split|done].
  - eexists _, s. split; [done|]. split; [done|]. done.
Qed.

(** C13: [check_items] predicts [remove_items]: on a well-formed request it
    answers [enough] exactly when [remove_items] would answer [OK]. *)
Theorem check_items_predicts_remove items s : request_ok items → inventory_ok s →
  CheckItemsRsp_status (check_items items s) = Some ok_status
  ∧ (CheckItemsRsp_enough (check_items items s) = true ↔
     ∃ rsp s', remove_items items s = Some (rsp, s') ∧ RemoveItemsRsp_status rsp = Some ok_status).
Proof.
  intros Hr Hs. destruct (request_changes items Hr) as (Hinv & _).
  destruct (enough_spec items s Hr Hs) as [_ He]. unfold check_items. rewrite Hinv.
  split; [done|]. simpl. rewrite He. split.
  - intros Hh. destruct (remove_items_enough items s Hr Hs Hh) as (result & s' & -> & _). by eexists _, _.
  - intros (rsp & s' & Hrem & Hok). destruct (remove_items_cases items s Hr Hs) as [?|[_ Hno]]; [done|].
    rewrite Hno in Hrem. by simplify_eq.
Qed.

(** Both branches of [add_items] on a well-formed request. *)
Lemma add_items_cases items s : request_ok items → inventory_ok s →
  let fits := ∀ id, count_of s id + total id items < 2 ^ 63 in
  ∃ s1, inventory_ok s1 ∧ same_player s s1 ∧
    ((fits ∧ ∃ result, add_items items s = (mkAddItemsRsp (Some ok_status) result, on_dirty (λ _, true) s1)
       ∧ (∀ id, count_of s1 id = count_of s id + total id items)
       ∧ (∀ i, i ∈ result ↔ ∃ id, 0 < total id items ∧ i = mkItem id (count_of s1 id) (total id items)))
     ∨ (¬ fits ∧ dirty s1 = dirty s
        ∧ add_items items s = (mkAddItemsRsp (Some (error_status code.CONFLICT "item count overflow")) [], s1))).
Proof.
  intros Hr Hs fits. destruct (request_changes items Hr) as (Hinv & Hnd & Hin & Ham & Hnn).
  unfold add_items. rewrite Hinv. set (changes := map_iter (aggregate_items items)) in *.
  destruct (add_loop_spec changes s Hs Hnd) as (ok & s1 & -> & H1 & H2 & H3 & H4 & H5).
  { apply Forall_forall. intros [id a] [-> Ha]%Hin. split; [done|]. apply Hr. }
  assert (ok = true ↔ fits) as Hok.
  { rewrite H4, Forall_forall. split.
    - intros H id. pose proof (count_of_nonneg s id Hs). pose proof (Hnn id).
      destruct (decide (total id items = 0)); [lia|]. apply (H (id, total id items)), Hin. lia.
    - intros H [id a] [-> _]%Hin. apply H. }
  exists s1. split_and!; [done..|]. destruct ok; [left|right].
  - split; [by apply Hok|]. eexists. split_and!; [done| |].
    + intros id. by rewrite H5, Ham.
    + intros i. rewrite list_elem_of_fmap. split.
      * intros ([id a] & -> & [-> Ha]%Hin). by exists id.
      * intros (id & Ht & ->). exists (id, total id items). split; [done|]. by apply Hin.
  - split_and!; [|done|done]. intros Hall. by apply Hok in Hall.
Qed.

(** What [add_items] does on a well-formed request: it answers [OK] exactly
    when every new count fits in [i64], and then adds exactly the requested
    total to each item; otherwise it answers [CONFLICT] without marking the
    player dirty.  Either way the inventory stays positive. *)
Theorem add_items_spec items s : request_ok items → inventory_ok s →
  let '(rsp, s') := add_items items s in
  inventory_ok s' ∧ same_player s s'
  ∧ ((∀ id, count_of s id + total id items < 2 ^ 63) →
       AddItemsRsp_status rsp = Some ok_status ∧ dirty s' = true
       ∧ (∀ id, count_of s' id = count_of s id + total id items)
       ∧ (∀ i, i ∈ AddItemsRsp_items rsp ↔
            ∃ id, 0 < total id items ∧ i = mkItem id (count_of s' id) (total id items)))
  ∧ ((∃ id, 2 ^ 63 <= count_of s id + total id items) →
       rsp = mkAddItemsRsp (Some (error_status code.CONFLICT "item count overflow")) [] ∧ dirty s' = dirty s).
Proof.
  intros Hr Hs. destruct (add_items_cases items s Hr Hs) as (s1 & H1 & H2 & [(Hf & r & -> & H3 & H4)|(Hf & Hd & ->)]).
  - split_and!; [done..|]. intros [id Hid]. specialize (Hf id). lia.
  - split_and!; [done|done|done|]. done.
Qed.

(** Adding then removing the same items is the identity on the inventory,
    whenever the addition was accepted. *)
Theorem add_then_remove items s rsp s1 : request_ok items → inventory_ok s →
  add_items items s = (rsp, s1) → AddItemsRsp_status rsp = Some ok_status →
  ∃ rsp' s2, remove_items items s1 = Some (rsp', s2)
    ∧ RemoveItemsRsp_status rsp' = Some ok_status ∧ ∀ id, count_of s2 id = count_of s id.
Proof.
  intros Hr Hs Hadd Hok.
  destruct (add_items_cases items s Hr Hs) as (s1' & Hinv & _ & [(_ & r & Hrun & Hcount & _)|(_ & _ & Hrun)]);
    rewrite Hrun in Hadd; injection Hadd as <- <-; [|discriminate Hok].
  assert (has_items items (on_dirty (λ _, true) s1')) as Hhas.
  { intros id. change (count_of (on_dirty _ s1') id) with (count_of s1' id). rewrite Hcount.
    pose proof (count_of_nonneg s id Hs). lia. }
  destruct (remove_items_enough items (on_dirty (λ _, true) s1') Hr Hinv Hhas) as (r' & s2 & Hrem & _ & _ & _ & H2 & _).
  exists (mkRemoveItemsRsp (Some ok_status) r'), s2. split; [exact Hrem|]. split; [done|]. intros id. rewrite H2.
  change (count_of (on_dirty _ s1') id) with (count_of s1' id). rewrite Hcount. lia.
Qed.

(** [use_item] on every branch: a non-positive id or count is refused, too
    few items are refused with the current count, and otherwise exactly the
    requested count is taken; a refusal changes nothing. *)
Theorem use_item_spec request s : inventory_ok s →
  let id := UseItemReq_item_id request in
  let n := UseItemReq_count request in
  let '(rsp, s') := use_item request s in
  (id <= 0 ∨ n <= 0 →
     s' = s ∧ rsp = mkUseItemRsp (Some (error_status code.INVALID_ARGUMENT "invalid item request")) None)
  ∧ (0 < id → 0 < n → count_of s id < n →
     s' = s ∧ rsp = mkUseItemRsp (Some (error_status code.INSUFFICIENT_ITEMS "insufficient items"))
                      (Some (mkItem id (count_of s id) 0)))
  ∧ (0 < id → 0 < n <= count_of s id →
     rsp = mkUseItemRsp (Some ok_status) (Some (mkItem id (count_of s id - n) (- n)))
     ∧ dirty s' = true ∧ inventory_ok s' ∧ same_player s s'
     ∧ ∀ id', count_of s' id' = count_of s id' - (if decide (id' = id) then n else 0)).
Proof.
  intros Hs id n. unfold use_item. fold id n. pose proof (count_of_nonneg s id Hs) as Hb.
  case_if; [split_and!; [done|lia..]|]. case_if; [split_and!; [lia|done|lia]|]. split_and!; [lia|lia|].
  intros _ Hn. rewrite wrap_i64_id by (unfold is_i64; lia). split_and!; [done|done| |done|].
  - unfold inventory_ok. simpl. destruct (Z.eqb_spec (count_of s id - n) 0);
      [by apply inventory_delete|apply (inventory_insert s id); [done|lia]].
  - intros id'. change (count_of (on_dirty _ ?x) id') with (count_of x id').
    destruct (Z.eqb_spec (count_of s id - n) 0); [rewrite count_of_delete|rewrite count_of_insert];
      case_decide; subst; lia.
Qed.
End spec.

(** ** Runs *)
Module player_example.
#[global] Instance item_sort : UnstableSort Item Item_item_id := merge_sort_instance Item_item_id.

Definition with_items (m : gmap Z Z) : PlayerState :=
  new {| PlayerData_gid := 7; PlayerData_profile := None; PlayerData_items := m |}.

Definition rich : PlayerState := with_items {[ 1 := 5; 2 := 9 ]}.
Definition wanted : list Item := [mkItem 1 2 0; mkItem 2 1 0; mkItem 1 3 0].

Lemma rich_ok : inventory_ok rich.
Proof. unfold inventory_ok, rich. simpl. repeat apply map_Forall_insert_2; try lia. apply map_Forall_empty. Qed.

Lemma wanted_ok : request_ok wanted.
Proof.
  split_and!; [done|repeat constructor|]. intros id.
  cbn -[Z.eqb Z.pow Z.add]. destruct (1 =? id), (2 =? id); lia.
Qed.
End player_example.

Lemma remove_items_all_or_nothing_witness :
  ∃ rsp s', remove_items player_example.wanted player_example.rich = Some (rsp, s')
    ∧ RemoveItemsRsp_status rsp = Some ok_status ∧ count_of s' 1 = 0 ∧ count_of s' 2 = 8.
Proof.
  destruct (remove_items_all_or_nothing player_example.wanted player_example.rich
              player_example.wanted_ok player_example.rich_ok) as (rsp & s' & Hrem & Hyes & _).
  destruct Hyes as (H1 & _ & _ & _ & H2 & _).
  { intros id. unfold count_of, player_example.rich. cbn -[Z.eqb Z.pow Z.add lookup insert].
    destruct (Z.eqb_spec 1 id) as [<-|]; [by vm_compute|]. destruct (Z.eqb_spec 2 id) as [<-|]; [by vm_compute|].
    rewrite lookup_insert_ne, lookup_singleton_ne by done. simpl. lia. }
  exists rsp, s'. split_and!; [exact Hrem|exact H1|exact (H2 1)|exact (H2 2)].
Defined.

Lemma check_items_predicts_remove_witness :
  CheckItemsRsp_status (check_items player_example.wanted player_example.rich) = Some ok_status.
Proof. apply (check_items_predicts_remove _ _ player_example.wanted_ok player_example.rich_ok). Defined.

Lemma add_items_spec_witness :
  inventory_ok (add_items player_example.wanted player_example.rich).2.
Proof.
  pose proof (add_items_spec _ _ player_example.wanted_ok player_example.rich_ok) as H.
  destruct (add_items player_example.wanted player_example.rich) as [rsp s']. exact (proj1 H).
Defined.

Lemma add_then_remove_witness :
  ∃ rsp' s2, remove_items player_example.wanted (add_items player_example.wanted player_example.rich).2 = Some (rsp', s2)
    ∧ RemoveItemsRsp_status rsp' = Some ok_status ∧ ∀ id, count_of s2 id = count_of player_example.rich id.
Proof.
  apply (add_then_remove player_example.wanted player_example.rich
           (add_items player_example.wanted player_example.rich).1);
    [apply player_example.wanted_ok|apply player_example.rich_ok|by vm_compute|by vm_compute].
Defined.

Lemma use_item_spec_witness :
  (use_item (mkUseItemReq 2 4) player_example.rich).1 = mkUseItemRsp (Some ok_status) (Some (mkItem 2 5 (-4))).
Proof.
  pose proof (use_item_spec (mkUseItemReq 2 4) player_example.rich player_example.rich_ok) as H.
  destruct (use_item (mkUseItemReq 2 4) player_example.rich) as [rsp s'].
  destruct H as (_ & _ & H). apply H; [reflexivity|split; [reflexivity|by vm_compute]].
Defined.

(** ** What the code does outside those hypotheses *)

(** A conflicting request is not undone: here item 2 keeps its increment
    although the answer is [CONFLICT], and the player is not marked dirty, so
    the increment is neither reported nor saved. *)
Lemma add_items_conflict_is_partial :
  let s := player_example.with_items {[ 1 := 2 ^ 63 - 1; 2 := 5 ]} in
  let '(rsp, s') := add_items [mkItem 1 1 0; mkItem 2 1 0] s in
  Status_code <$> AddItemsRsp_status rsp = Some code.CONFLICT
  ∧ count_of s 2 = 5 ∧ count_of s' 2 = 6 ∧ dirty s' = false.
Proof. by vm_compute. Qed.

(** The sum of a request wraps: adding twice [i64::MAX] of an item answers
    [OK] and takes two away. *)
Lemma add_items_wraps :
  let '(rsp, s') := add_items [mkItem 1 (2 ^ 63 - 1) 0; mkItem 1 (2 ^ 63 - 1) 0] player_example.rich in
  AddItemsRsp_status rsp = Some ok_status ∧ count_of player_example.rich 1 = 5 ∧ count_of s' 1 = 3.
Proof. by vm_compute. Qed.

(** With such a sum [remove_items] passes its check and then indexes an item
    the player does not have: the handler panics. *)
Lemma remove_items_panics :
  remove_items [mkItem 3 (2 ^ 63 - 1) 0; mkItem 3 (2 ^ 63 - 1) 0] player_example.rich = None.
Proof. by vm_compute. Qed.
