(* ===== verification/LogicCalls.v ===== *)
(** What the users of the Logic runtime hold: the callbacks that load and save
    a player (src/service/logic/src/persistence.rs), with those of the Logic
    service (src/service/logic/src/player.rs, [persistence]), the future of an
    accepted call and the error of a shutdown (src/service/logic/src/runtime.rs). *)

From stdpp Require Import pretty.
From S2P Require Import Prelude Effects Proto LogicAdmission LogicRuntime LogicPlayer.

(** ** Persistence *)

(** A player handed to a saver: the state behind the mutex the runtime shares
    with it, so the saver answers with the state it leaves there. *)
Record SavePlayer (P : Type) := mkSavePlayer { save_gid : Z; save_state : P }.
#[global] Arguments mkSavePlayer {P}.
#[global] Arguments save_gid {P}.
#[global] Arguments save_state {P}.

Definition with_ {P R} (f : P → R) (player : SavePlayer P) : R := f (save_state player).
Definition with_mut {P R} (f : P → R * P) (player : SavePlayer P) : R * SavePlayer P :=
  let '(r, p) := f (save_state player) in (r, mkSavePlayer (save_gid player) p).

Record Persistence (F : Type → Type) (P E : Type) := mkPersistence {
  loader : Z → prog F (Result E P);
  saver : SavePlayer P → prog F (Result E unit * SavePlayer P);
  batch_saver : option (list (SavePlayer P) → prog F (Result E unit * list (SavePlayer P)))
}.
#[global] Arguments mkPersistence {F P E}.
#[global] Arguments loader {F P E}.
#[global] Arguments saver {F P E}.
#[global] Arguments batch_saver {F P E}.

Definition persistence_new {F : Type → Type} {P E} (loader : Z → prog F (Result E P))
    (saver : SavePlayer P → prog F (Result E unit * SavePlayer P)) : Persistence F P E :=
  mkPersistence loader saver None.

Definition with_batch_saver {F : Type → Type} {P E}
    (batch : list (SavePlayer P) → prog F (Result E unit * list (SavePlayer P))) (self : Persistence F P E) : Persistence F P E :=
  mkPersistence (loader self) (saver self) (Some batch).

(** The callbacks of the Logic service; there is no batch saver. *)
Definition persistence {E} : Persistence (StoreEff E) PlayerState E :=
  persistence_new load_player
    (λ player,
       '(saved, state) ← save_player (save_state player);
       Ret (saved, mkSavePlayer (save_gid player) state)).

(** What the runtime assumes of a saver ([SaveEffect]) is what this one does,
    whatever the store answers. *)
Lemma persistence_save_effect {E} (player : SavePlayer PlayerState) :
  returns (λ r, r.2 = mkSavePlayer (save_gid player) (save_effect (is_ok r.1) (save_state player))) (saver (persistence (E := E)) player).
Proof. simpl. intros [u|e]; done. Qed.

(** The loader hands over clean players only, as the runtime asserts. *)
Lemma persistence_loads_clean {E} gid :
  returns (λ r, match r with Ok p => is_dirty p = false | Err _ => True end) (loader (persistence (E := E)) gid).
Proof. simpl. intros [[d|]|e]; simpl; [done| |done]. by intros [u|e]. Qed.

(** ** The future of a call *)

(** The channel of a call: a value, or the other half dropped. *)
Inductive Channel (A : Type) := Waiting | Sent (a : A) | SenderDropped.
#[global] Arguments Waiting {A}.
#[global] Arguments Sent {A}.
#[global] Arguments SenderDropped {A}.

(** [LogicCall::poll]; [None] is [Poll::Pending]. *)
Definition poll {R E} (receiver : Channel (Result (LogicCallError.t E) (Completed R E)))
    : option (Result (LogicCallError.t E) (Completed R E)) :=
  match receiver with
  | Sent result => Some result
  | SenderDropped => Some (Err LogicCallError.RuntimeStopped)
  | Waiting => None
  end.

(** [Display] of the error of a shutdown. *)
Definition shutdown_error_to_string {E} (show : E → string) (e : ShutdownError.t E) : string :=
  match e with
  | ShutdownError.Persistence error => "logic runtime flush failed: " +:+ show error
  | ShutdownError.DirtyPlayers count => "logic runtime flush left " +:+ pretty count +:+ " dirty players"
  end.

(** The state as the atomic byte holds it; [None] is the [unreachable!]. *)
Definition state_byte (s : RuntimeState.t) : Z :=
  match s with RuntimeState.Running => 0 | RuntimeState.Draining => 1 | RuntimeState.Stopped => 2 end.
Definition state_of_byte (b : Z) : option RuntimeState.t :=
  if b =? 0 then Some RuntimeState.Running
  else if b =? 1 then Some RuntimeState.Draining
  else if b =? 2 then Some RuntimeState.Stopped
  else None.

Lemma state_byte_round_trip s : state_of_byte (state_byte s) = Some s.
Proof. by destruct s. Qed.
