(* ===== verification/LogicHandlers.v ===== *)
(** The RPC handlers of the Logic service (src/service/logic/src/player.rs),
    as programs over the operations they await: a call of the player runtime,
    the kick of the old Gate, the owner record in Redis and the online
    counter.  [World] is the part of the service these operations act on; the
    theorems run the handlers alone and interleaved. *)

From S2P Require Import Prelude Effects Routing Proto LogicAdmission LogicRuntime LogicPlayer.

(** ** Operations *)

(** [RpcContext::head]. *)
Record RpcHead := mkRpcHead { head_gid : Z; head_player_session : Z }.

(** The call a login preload makes. *)
Inductive KickEff : Type → Type :=
| CallGate (old_gate : Z) (route : RouteIdentity) (kick : KickSessionReq) : KickEff (Result string KickSessionRsp).

(** What a runtime call answers, after its [.await]. *)
Definition CallResult (R : Type) : Type := Result (LogicCallError.t string) (Completed R string).

(** The preload and the logic return [None] when they panic. *)
Inductive LogicEff : Type → Type :=
| TryUse {R : Type} (gid kib : Z) (logic : PlayerState → option (R * PlayerState)) :
    LogicEff (Result RejectReason.t (CallResult R))
| TryUsePreloaded {A R : Type} (gid kib : Z) (preload : PlayerState → prog KickEff (option (Result string A)))
    (logic : A → PlayerState → option (R * PlayerState)) :
    LogicEff (Result RejectReason.t (CallResult R))
| Online (f : Z → Z) : LogicEff unit
| SetLogicOwner (gid logic_id : Z) : LogicEff (Result string unit).

(** [prost::Message::encoded_len]. *)
Class EncodedLen (M : Type) := encoded_len : M → Z.

Definition retained_kib `{!EncodedLen M} (message : M) : Z := Z.max ((encoded_len message + KIB - 1) / KIB) 1.

Definition reject_status (reason : RejectReason.t) : Status :=
  error_status code.OVERLOADED
    match reason with
    | RejectReason.Calls => "Logic call capacity exhausted"
    | RejectReason.KiB => "Logic retained bytes exhausted"
    | RejectReason.Gid => "Logic player mailbox exhausted"
    | RejectReason.Draining => "Logic is draining"
    end.

Definition call_status (error : LogicCallError.t string) : Status :=
  match error with
  | LogicCallError.DirtyCapacity => error_status code.OVERLOADED "Logic dirty-player capacity exhausted"
  | LogicCallError.RuntimeStopped => error_status code.TEMPORARILY_UNAVAILABLE "Logic stopped"
  | other => error_status code.INTERNAL (LogicCallError.to_string id other)
  end.

(** [await_logic]: the outcome of a call as a value or a status. *)
Definition await_logic {R} (call : Result RejectReason.t (CallResult R)) : Result Status R :=
  match call with
  | Err reason => Err (reject_status reason)
  | Ok (Err error) => Err (call_status error)
  | Ok (Ok completed) =>
      match persistence completed with
      | Err error => Err (error_status code.INTERNAL error)
      | Ok _ => Ok (value completed)
      end
  end.

Definition valid_context_gid (head : RpcHead) : option Z :=
  if (head_gid head <? 2 ^ 63) && ((0 <? head_gid head) && (0 <? head_player_session head))
  then Some (head_gid head) else None.

(** A total operation of the player as logic of a call. *)
Definition logic {R} (f : PlayerState → R * PlayerState) : PlayerState → option (R * PlayerState) := λ s, Some (f s).
Definition query {R} (f : PlayerState → R) : PlayerState → option (R * PlayerState) := λ s, Some (f s, s).

Section handlers.
Context `{!UnstableSort Item Item_item_id} `{!MapIter Z Z}.
Context `{!EncodedLen LogicLoginReq, !EncodedLen UseItemReq, !EncodedLen AddItemsReq, !EncodedLen RemoveItemsReq, !EncodedLen CheckItemsReq}.

(** ** Login and disconnect *)

(** The preload of a login: the Gate that holds another session of the player
    is asked to drop it; its failure is only logged. *)
Definition login_preload (gid new_gate new_session : Z) (reconnect : bool) (player : PlayerState)
  : prog KickEff (option (Result string (option PlayerSession))) :=
  let old := session player in
  match old with
  | Some o =>
      if negb reconnect && (negb (gate_id o =? new_gate) || negb (session_id o =? new_session)) then
        match from_signed gid (session_id o) with
        | None => Ret None
        | Some route =>
            _ ← await (CallGate (gate_id o) route
                  {| KickSessionReq_gid := gid; KickSessionReq_player_session := session_id o;
                     KickSessionReq_code := code.SESSION_REPLACED; KickSessionReq_reason := "session replaced" |});
            Ret (Some (Ok old))
        end
      else Ret (Some (Ok old))
  | None => Ret (Some (Ok old))
  end.

Definition login_logic (logic_id new_gate new_session : Z) (old : option PlayerSession) (player : PlayerState)
  : option (LoginResult * PlayerState) :=
  let '(result, player) := login new_gate new_session player in
  let r := response result in
  Some ({| became_online := became_online result;
           response := {| LogicLoginRsp_status := LogicLoginRsp_status r;
                          LogicLoginRsp_logic_id := logic_id;
                          LogicLoginRsp_old_gate_id :=
                            match old with Some o => gate_id o | None => LogicLoginRsp_old_gate_id r end;
                          LogicLoginRsp_old_player_session :=
                            match old with Some o => session_id o | None => LogicLoginRsp_old_player_session r end;
                          LogicLoginRsp_player := LogicLoginRsp_player r;
                          LogicLoginRsp_items := LogicLoginRsp_items r |} |}, player).

Definition login_failed (status : Status) : LogicLoginRsp :=
  {| LogicLoginRsp_status := Some status; LogicLoginRsp_logic_id := 0; LogicLoginRsp_old_gate_id := 0;
     LogicLoginRsp_old_player_session := 0; LogicLoginRsp_player := None; LogicLoginRsp_items := [] |}.

Definition handle_login (logic_id : Z) (head : RpcHead) (request : LogicLoginReq) : prog LogicEff LogicLoginRsp :=
  let gid := LogicLoginReq_gid request in
  let new_gate := LogicLoginReq_gate_id request in
  let new_session := LogicLoginReq_player_session request in
  if (gid <=? 0) || (new_gate <=? 0) || (new_session <=? 0)
     || negb (head_gid head =? wrap_u64 gid) || negb (head_player_session head =? wrap_u64 new_session)
  then Ret (login_failed (error_status code.INVALID_ARGUMENT "invalid Logic login"))
  else
    call ← await (TryUsePreloaded gid (retained_kib request)
             (login_preload gid new_gate new_session (LogicLoginReq_reconnect request))
             (login_logic logic_id new_gate new_session));
    match await_logic call with
    | Err status => Ret (login_failed status)
    | Ok result =>
        _ ← (if became_online result then await (Online (λ c, wrap_i32 (c + 1))) else Ret tt);
        owner_result ← await (SetLogicOwner gid logic_id);
        match owner_result with
        | Ok _ => Ret (response result)
        | Err _ =>
            undo ← await (TryUse gid 1 (logic (disconnect new_gate new_session)));
            _ ← (match undo with
                 | Ok _ =>
                     match await_logic undo with
                     | Ok true => await (Online decrement_online)
                     | _ => Ret tt
                     end
                 | Err _ => Ret tt
                 end);
            Ret (login_failed (error_status code.INTERNAL "Logic owner save failed"))
        end
    end.

Definition handle_disconnect (request : LogicDisconnectNtf) : prog LogicEff unit :=
  if (LogicDisconnectNtf_gid request <=? 0) || (LogicDisconnectNtf_gate_id request <=? 0)
     || (LogicDisconnectNtf_player_session request <=? 0)
  then Ret tt
  else
    call ← await (TryUse (LogicDisconnectNtf_gid request) 1
             (logic (disconnect (LogicDisconnectNtf_gate_id request) (LogicDisconnectNtf_player_session request))));
    match call with
    | Ok _ =>
        match await_logic call with
        | Ok true => await (Online decrement_online)
        | _ => Ret tt
        end
    | Err _ => Ret tt
    end.

(** ** Player requests *)

Definition handle_player_info (head : RpcHead) : prog LogicEff PlayerInfoRsp :=
  match valid_context_gid head with
  | None => Ret (mkPlayerInfoRsp (Some (error_status code.INVALID_ARGUMENT "missing player route")) None [])
  | Some gid =>
      call ← await (TryUse gid 1 (query player_info));
      Ret match await_logic call with
          | Ok response => response
          | Err status => mkPlayerInfoRsp (Some status) None []
          end
  end.

Definition handle_use_item (head : RpcHead) (request : UseItemReq) : prog LogicEff UseItemRsp :=
  match valid_context_gid head with
  | None => Ret (mkUseItemRsp (Some (error_status code.INVALID_ARGUMENT "missing player route")) None)
  | Some gid =>
      call ← await (TryUse gid (retained_kib request) (logic (use_item request)));
      Ret match await_logic call with
          | Ok response => response
          | Err status => mkUseItemRsp (Some status) None
          end
  end.

(** The route check of the item requests between services. *)
Definition invalid_route (head : RpcHead) (gid : Z) : bool :=
  (gid <=? 0) || (negb (head_gid head =? 0) && negb (head_gid head =? wrap_u64 gid)).

Definition handle_add_items (head : RpcHead) (request : AddItemsReq) : prog LogicEff AddItemsRsp :=
  let gid := AddItemsReq_gid request in
  if invalid_route head gid then
    Ret (mkAddItemsRsp (Some (error_status code.INVALID_ARGUMENT "invalid add-items route")) [])
  else
    call ← await (TryUse gid (retained_kib request) (logic (add_items (AddItemsReq_items request))));
    Ret match await_logic call with
        | Ok response => response
        | Err status => mkAddItemsRsp (Some status) []
        end.

Definition handle_remove_items (head : RpcHead) (request : RemoveItemsReq) : prog LogicEff RemoveItemsRsp :=
  let gid := RemoveItemsReq_gid request in
  if invalid_route head gid then
    Ret (mkRemoveItemsRsp (Some (error_status code.INVALID_ARGUMENT "invalid remove-items route")) [])
  else
    call ← await (TryUse gid (retained_kib request) (remove_items (RemoveItemsReq_items request)));
    Ret match await_logic call with
        | Ok response => response
        | Err status => mkRemoveItemsRsp (Some status) []
        end.

Definition handle_check_items (head : RpcHead) (request : CheckItemsReq) : prog LogicEff CheckItemsRsp :=
  let gid := CheckItemsReq_gid request in
  if invalid_route head gid then
    Ret (mkCheckItemsRsp (Some (error_status code.INVALID_ARGUMENT "invalid check-items route")) false)
  else
    call ← await (TryUse gid (retained_kib request) (query (check_items (CheckItemsReq_items request))));
    Ret match await_logic call with
        | Ok response => response
        | Err status => mkCheckItemsRsp (Some status) false
        end.
End handlers.

(** ** A world to run them in

    Players in memory, the online counter and the owner records.  The
    environment decides, per player, whether a call is refused or its saver
    fails, and whether Redis answers. *)
Record World := mkWorld {
  players : gmap Z PlayerState;
  online_count : Z;
  owners : gmap Z Z;
  kicks : list (Z * KickSessionReq);
  refuses : Z → option RejectReason.t;
  saver_fails : Z → option string;
  redis_down : Z → bool
}.

Definition eta_World (s : World) : World :=
  mkWorld (players s) (online_count s) (owners s) (kicks s) (refuses s) (saver_fails s) (redis_down s).
Definition on_players : (gmap Z PlayerState → gmap Z PlayerState) → World → World := ltac:(derive_update eta_World players).
Definition on_online_count : (Z → Z) → World → World := ltac:(derive_update eta_World online_count).
Definition on_owners : (gmap Z Z → gmap Z Z) → World → World := ltac:(derive_update eta_World owners).
Definition on_kicks : (list (Z * KickSessionReq) → list (Z * KickSessionReq)) → World → World := ltac:(derive_update eta_World kicks).

Definition handle_kick (X : Type) (e : KickEff X) (w : World) : X * World :=
  match e with
  | CallGate old_gate _ kick =>
      (Ok (mkKickSessionRsp (Some ok_status) true), on_kicks (λ l, l ++ [(old_gate, kick)]) w)
  end.

Definition player_of (w : World) (gid : Z) : PlayerState := default (new (default_player gid)) (players w !! gid).

(** A player that its logic left dirty is saved, or the saver fails. *)
Definition settle {R} (w : World) (gid : Z) (v : R) (p : PlayerState) : Result RejectReason.t (CallResult R) * World :=
  if dirty p then
    match saver_fails w gid with
    | Some error => (Ok (Ok (mkCompleted v (Err error))), on_players <[gid := p]> w)
    | None => (Ok (Ok (mkCompleted v (Ok tt))), on_players <[gid := on_dirty (λ _, false) p]> w)
    end
  else (Ok (Ok (mkCompleted v (Ok tt))), on_players <[gid := p]> w).

Definition handle_logic (X : Type) (e : LogicEff X) : World → X * World :=
  match e in LogicEff X return World → X * World with
  | TryUse gid kib logic => λ w,
      match refuses w gid with
      | Some reason => (Err reason, w)
      | None =>
          match logic (player_of w gid) with
          | None => (Ok (Err LogicCallError.RuntimeStopped), w)
          | Some (v, p) => settle w gid v p
          end
      end
  | TryUsePreloaded gid kib preload logic => λ w,
      match refuses w gid with
      | Some reason => (Err reason, w)
      | None =>
          match run handle_kick (preload (player_of w gid)) w with
          | (None, w) => (Ok (Err LogicCallError.RuntimeStopped), w)
          | (Some (Err error), w) => (Ok (Err (LogicCallError.Preload error)), w)
          | (Some (Ok a), w) =>
              match logic a (player_of w gid) with
              | None => (Ok (Err LogicCallError.RuntimeStopped), w)
              | Some (v, p) => settle w gid v p
              end
          end
      end
  | Online f => λ w, (tt, on_online_count f w)
  | SetLogicOwner gid logic_id => λ w,
      if redis_down w gid then (Err "redis", w) else (Ok tt, on_owners <[gid := logic_id]> w)
  end.
