(* ===== verification/LogicOnline.v ===== *)
(** Sessions of the Logic service: what a login does to the player, the old
    Gate, the owner record and the online counter, alone and interleaved. *)

From S2P Require Import Prelude Effects Routing Proto LogicAdmission LogicRuntime LogicPlayer LogicHandlers.

#[local] Arguments disconnect : simpl never.

(** The players with a session. *)
Definition is_online (p : PlayerState) : Z := match session p with Some _ => 1 | None => 0 end.
Definition sessions (w : World) : Z := map_sum is_online (players w).

(** The counter is exact, and far from the end of its [i32]. *)
Definition counted (w : World) : Prop := online_count w = sessions w.
Definition count_exact (w : World) : Prop := counted w ∧ sessions w + 1 < 2 ^ 31.

Lemma is_online_bounds p : 0 <= is_online p <= 1.
Proof. unfold is_online. destruct (session p); lia. Qed.

Lemma sessions_insert w gid p : sessions (on_players <[gid := p]> w) = sessions w - is_online (player_of w gid) + is_online p.
Proof.
  unfold sessions, player_of. simpl. destruct (players w !! gid) as [q|] eqn:Hq; simpl.
  - by rewrite (map_sum_update _ _ _ _ _ Hq).
  - rewrite map_sum_insert by done. change (is_online (new _)) with 0. lia.
Qed.

Lemma sessions_nonneg w : 0 <= sessions w.
Proof. apply map_sum_nonneg. intros gid p _. apply is_online_bounds. Qed.

Lemma sessions_online w gid : is_online (player_of w gid) <= sessions w.
Proof.
  unfold player_of. destruct (players w !! gid) as [p|] eqn:Hp; simpl; [|apply sessions_nonneg].
  apply (map_sum_ge is_online _ gid); [|done]. intros g q _. apply is_online_bounds.
Qed.

(** With a working saver a call leaves the player as its logic did, clean. *)
Lemma settle_ok {R} w gid (v : R) p : saver_fails w gid = None →
  ∃ p', settle w gid v p = (Ok (Ok (mkCompleted v (Ok tt))), on_players <[gid := p']> w)
    ∧ session p' = session p ∧ data p' = data p.
Proof.
  intros Hs. unfold settle. rewrite Hs. destruct (dirty p); eexists; by split_and!.
Qed.

Lemma run_preload_kicks gid gate sid reconnect p w :
  ∃ ks, (run handle_kick (login_preload gid gate sid reconnect p) w).2 = on_kicks (λ l, l ++ ks) w.
Proof.
  assert (w = on_kicks (λ l, l ++ []) w) as Hnil by (destruct w; unfold on_kicks; simpl; by rewrite app_nil_r).
  unfold login_preload. destruct (session p) as [o|]; [|by exists []].
  case_if; [|by exists []]. destruct (from_signed _ _); [|by exists []]. simpl. by eexists.
Qed.

Section online.
Context `{!UnstableSort Item Item_item_id} `{!MapIter Z Z} `{!EncodedLen LogicLoginReq}.

Lemma disconnect_session gate sid p :
  let '(matches, p') := disconnect gate sid p in
  matches = bool_decide (session p = Some (mkPlayerSession gate sid))
  ∧ session p' = (if matches then None else session p) ∧ data p' = data p.
Proof.
  unfold disconnect. destruct (session p) as [[g s]|] eqn:Hs; simpl; [|by rewrite Hs].
  destruct (Z.eqb_spec g gate), (Z.eqb_spec s sid); simpl; rewrite ?Hs; subst; split_and!; try done;
    symmetry; (rewrite bool_decide_eq_true + rewrite bool_decide_eq_false); congruence.
Qed.

(** A disconnect alone: the counter follows the sessions. *)
Lemma run_disconnect_call w gid gate sid : saver_fails w gid = None →
  let '(r, w') := handle_logic _ (TryUse gid 1 (logic (disconnect gate sid))) w in
  let matched := bool_decide (session (player_of w gid) = Some (mkPlayerSession gate sid)) in
  match refuses w gid with
  | Some reason => r = Err reason ∧ w' = w
  | None =>
      r = Ok (Ok (mkCompleted matched (Ok tt)))
      ∧ ∃ p', w' = on_players <[gid := p']> w
          ∧ session p' = (if matched then None else session (player_of w gid))
  end.
Proof.
  intros Hs. cbn [handle_logic]. destruct (refuses w gid); [done|]. unfold logic.
  pose proof (disconnect_session gate sid (player_of w gid)) as Hd.
  destruct (disconnect gate sid (player_of w gid)) as [m p]. destruct Hd as (Hm & Hp & _). cbv beta iota.
  destruct (settle_ok w gid m p Hs) as (p' & -> & Hp' & _). rewrite <- Hm.
  split; [done|]. exists p'. split; [done|]. by rewrite Hp', Hp.
Qed.

(** The disconnect of a session that the player has, and the decrement after
    it. *)
Lemma count_after_disconnect w gid gate sid p' :
  online_count w = sessions w →
  session (player_of w gid) = Some (mkPlayerSession gate sid) → session p' = None →
  decrement_online (online_count w) = sessions (on_players <[gid := p']> w).
Proof.
  intros Hc Hs Hp. rewrite sessions_insert, Hc. unfold is_online at 1 2. rewrite Hs, Hp.
  pose proof (sessions_online w gid) as H1. unfold is_online in H1. rewrite Hs in H1. unfold decrement_online. lia.
Qed.

Lemma disconnect_keeps_count w request : (∀ gid, saver_fails w gid = None) → counted w →
  counted (run handle_logic (handle_disconnect request) w).2.
Proof.
  intros Hs Hc. unfold handle_disconnect. case_if; [done|].
  set (gid := LogicDisconnectNtf_gid request). set (gate := LogicDisconnectNtf_gate_id request).
  set (sid := LogicDisconnectNtf_player_session request). rewrite run_bind, run_await.
  pose proof (run_disconnect_call w gid gate sid (Hs gid)) as Hd.
  destruct (handle_logic _ _ w) as [r w1]. destruct (refuses w gid) as [reason|].
  { destruct Hd as [-> ->]. done. }
  destruct Hd as (-> & p' & -> & Hp'). unfold await_logic. simpl persistence. cbv iota. simpl value.
  destruct (bool_decide _) eqn:Hm; [apply bool_decide_eq_true in Hm|apply bool_decide_eq_false in Hm].
  - rewrite run_await. simpl handle_logic. simpl snd.
    change (decrement_online (online_count w) = sessions (on_players <[gid := p']> w)).
    by eapply count_after_disconnect.
  - simpl run. simpl snd. change (online_count w = sessions (on_players <[gid := p']> w)).
    rewrite sessions_insert. assert (is_online p' = is_online (player_of w gid)) as -> by (unfold is_online; by rewrite Hp').
    unfold counted in Hc. lia.
Qed.
(** ** Login *)

(** The kick a login causes. *)
Definition expected_kicks (gid gate sid : Z) (reconnect : bool) (old : option PlayerSession) : list (Z * KickSessionReq) :=
  match old with
  | Some o =>
      if negb reconnect && bool_decide (o ≠ mkPlayerSession gate sid) then
        [(gate_id o, {| KickSessionReq_gid := gid; KickSessionReq_player_session := session_id o;
                        KickSessionReq_code := code.SESSION_REPLACED; KickSessionReq_reason := "session replaced" |})]
      else []
  | None => []
  end.

(** A stored session is the identity of an RPC route. *)
Definition session_ok (p : PlayerState) : Prop := ∀ o, session p = Some o → 0 < session_id o.

Lemma run_preload gid gate sid reconnect p w : 0 < gid → session_ok p →
  run handle_kick (login_preload gid gate sid reconnect p) w
  = (Some (Ok (session p)), on_kicks (λ l, l ++ expected_kicks gid gate sid reconnect (session p)) w).
Proof.
  intros Hgid Hok.
  assert (w = on_kicks (λ l, l ++ []) w) as Hnil by (destruct w; unfold on_kicks; simpl; by rewrite app_nil_r).
  unfold login_preload, expected_kicks. destruct (session p) as [[g s]|] eqn:Hs; [|simpl; congruence].
  cbn [gate_id session_id]. assert (negb (g =? gate) || negb (s =? sid) = bool_decide (mkPlayerSession g s ≠ mkPlayerSession gate sid)) as ->.
  { symmetry. destruct (Z.eqb_spec g gate), (Z.eqb_spec s sid); simpl;
      (rewrite bool_decide_eq_true + rewrite bool_decide_eq_false); try congruence. }
  case_if; [|simpl; congruence].
  destruct (from_signed gid s) as [r|] eqn:Hr; [done|].
  assert (from_signed gid s = Some (mkRouteIdentity gid s)) as Hr'; [|congruence].
  apply from_signed_Some. specialize (Hok _ Hs). simpl in Hok. done.
Qed.

Lemma run_login_call w gid gate sid reconnect logic_id kib :
  saver_fails w gid = None → refuses w gid = None → 0 < gid → session_ok (player_of w gid) →
  let old := session (player_of w gid) in
  ∃ result p',
    handle_logic _ (TryUsePreloaded gid kib (login_preload gid gate sid reconnect) (login_logic logic_id gate sid)) w
    = (Ok (Ok (mkCompleted result (Ok tt))),
       on_players <[gid := p']> (on_kicks (λ l, l ++ expected_kicks gid gate sid reconnect old) w))
    ∧ session p' = Some (mkPlayerSession gate sid)
    ∧ became_online result = bool_decide (old = None)
    ∧ LogicLoginRsp_status (response result) = Some ok_status
    ∧ LogicLoginRsp_logic_id (response result) = logic_id
    ∧ LogicLoginRsp_old_gate_id (response result) = (if old is Some o then gate_id o else 0)
    ∧ LogicLoginRsp_old_player_session (response result) = (if old is Some o then session_id o else 0).
Proof.
  intros Hs Hr Hgid Hok old. cbn [handle_logic]. rewrite Hr, run_preload by done. fold old.
  set (w1 := on_kicks _ w). change (player_of w1 gid) with (player_of w gid).
  unfold login_logic. destruct (login gate sid (player_of w gid)) as [r p] eqn:Hl.
  unfold login in Hl. injection Hl as <- <-. simpl session in *. cbv beta iota.
  match goal with |- context [settle w1 gid ?v ?q] => destruct (settle_ok w1 gid v q Hs) as (p' & -> & Hp' & _) end.
  eexists _, p'. split; [done|]. split_and!; [exact Hp'|done..|by destruct old|by destruct old].
Qed.

Lemma login_keeps_count logic_id head w request :
  (∀ gid, saver_fails w gid = None) → (∀ gid, session_ok (player_of w gid)) →
  counted w → sessions w + 1 < 2 ^ 31 →
  counted (run handle_logic (handle_login logic_id head request) w).2.
Proof.
  intros Hs Hok Hc Hb. unfold handle_login. case_if; [done|]. rename E into Hreq.
  set (gid := LogicLoginReq_gid request) in *. set (gate := LogicLoginReq_gate_id request) in *.
  set (sid := LogicLoginReq_player_session request) in *.
  assert (0 < gid) as Hgid by lia. pose proof (sessions_nonneg w) as Hnn. rewrite run_bind, run_await.
  destruct (refuses w gid) as [reason|] eqn:Hr; [cbn [handle_logic]; by rewrite Hr|].
  destruct (run_login_call w gid gate sid (LogicLoginReq_reconnect request) logic_id (retained_kib request)
              (Hs gid) Hr Hgid (Hok gid)) as (result & p' & -> & Hp' & Hbec & _).
  set (w1 := on_players _ _). unfold await_logic at 1. simpl persistence. cbv iota. simpl value.
  assert (sessions w1 = sessions w + (if became_online result then 1 else 0)) as Hsess.
  { subst w1. rewrite sessions_insert. change (player_of (on_kicks _ w) gid) with (player_of w gid).
    change (sessions (on_kicks _ w)) with (sessions w). unfold is_online. rewrite Hp', Hbec.
    destruct (session (player_of w gid)); simpl; lia. }
  set (w2 := if became_online result then on_online_count (λ c, wrap_i32 (c + 1)) w1 else w1).
  assert (∀ B (k : unit → prog LogicEff B), run handle_logic
      ((if became_online result then await (Online (λ c, wrap_i32 (c + 1))) else Ret tt) ≫= k) w1
      = run handle_logic (k tt) w2) as Hrun by (intros B k; subst w2; by destruct (became_online result)).
  rewrite Hrun, run_bind, run_await. clear Hrun.
  assert (online_count w2 = sessions w2 ∧ players w2 = players w1 ∧ refuses w2 = refuses w ∧ saver_fails w2 = saver_fails w)
    as (Hc2 & Hp2 & Hr2 & Hs2).
  { subst w2. destruct (became_online result); [|split_and!; try done; rewrite Hsess, Z.add_0_r; exact Hc].
    split_and!; try done. change (sessions (on_online_count _ w1)) with (sessions w1). rewrite Hsess. simpl.
    unfold counted in Hc. rewrite Hc, wrap_i32_id; unfold is_i32; lia. }
  cbn [handle_logic]. destruct (redis_down w2 gid); [|exact Hc2]. rewrite run_bind, run_await.
  pose proof (run_disconnect_call w2 gid gate sid) as Hd. rewrite Hs2, Hr2, Hr in Hd. specialize (Hd (Hs gid)).
  assert (session (player_of w2 gid) = Some (mkPlayerSession gate sid)) as Hsid.
  { unfold player_of. rewrite Hp2. subst w1. simpl. by rewrite lookup_insert_eq. }
  destruct (handle_logic _ _ w2) as [r w3]. rewrite (bool_decide_eq_true_2 _ Hsid) in Hd. simpl in Hd.
  destruct Hd as (-> & q & -> & Hq). unfold await_logic. simpl persistence. cbv iota. simpl value. cbv iota.
  rewrite run_bind, run_await. cbn [handle_logic run snd].
  change (decrement_online (online_count w2) = sessions (on_players <[gid := q]> w2)).
  by eapply count_after_disconnect.
Qed.


(** A login takes the player over.  When nothing fails, the player ends
    with the new session, the owner record names this Logic, the answer is
    [OK] and reports the session that was replaced, and the Gate of a
    different old session was asked to drop it, unless the login is a
    reconnect. *)
Theorem login_takes_over logic_id head request w :
  let gid := LogicLoginReq_gid request in
  let gate := LogicLoginReq_gate_id request in
  let sid := LogicLoginReq_player_session request in
  0 < gid → 0 < gate → 0 < sid → head = mkRpcHead gid sid → is_i64 gid → is_i64 sid →
  saver_fails w gid = None → refuses w gid = None → redis_down w gid = false → session_ok (player_of w gid) →
  let old := session (player_of w gid) in
  let '(rsp, w') := run handle_logic (handle_login logic_id head request) w in
  LogicLoginRsp_status rsp = Some ok_status ∧ LogicLoginRsp_logic_id rsp = logic_id
  ∧ LogicLoginRsp_old_gate_id rsp = (if old is Some o then gate_id o else 0)
  ∧ LogicLoginRsp_old_player_session rsp = (if old is Some o then session_id o else 0)
  ∧ session (player_of w' gid) = Some (mkPlayerSession gate sid)
  ∧ owners w' !! gid = Some logic_id
  ∧ kicks w' = kicks w ++ expected_kicks gid gate sid (LogicLoginReq_reconnect request) old.
Proof.
  intros gid gate sid Hgid Hgate Hsid -> Hi1 Hi2 Hs Hr Hredis Hok old. unfold is_i64 in *.
  unfold handle_login. fold gid gate sid. cbn [head_gid head_player_session].
  rewrite !wrap_u64_id by (unfold is_u64; lia).
  destruct ((gid <=? 0) || (gate <=? 0) || (sid <=? 0) || negb (gid =? gid) || negb (sid =? sid)) eqn:Hb.
  { rewrite !Z.eqb_refl in Hb. simpl in Hb. lia. }
  rewrite run_bind, run_await.
  destruct (run_login_call w gid gate sid (LogicLoginReq_reconnect request) logic_id (retained_kib request) Hs Hr Hgid Hok)
    as (result & p' & -> & Hp' & Hbec & H1 & H2 & H3 & H4). fold old in H3, H4 |- *.
  set (w1 := on_players _ _). unfold await_logic at 1. simpl persistence. cbv iota. simpl value.
  set (w2 := if became_online result then on_online_count (λ c, wrap_i32 (c + 1)) w1 else w1).
  assert (∀ B (k : unit → prog LogicEff B), run handle_logic
      ((if became_online result then await (Online (λ c, wrap_i32 (c + 1))) else Ret tt) ≫= k) w1
      = run handle_logic (k tt) w2) as -> by (intros B k; subst w2; by destruct (became_online result)).
  rewrite run_bind, run_await. cbn [handle_logic].
  assert (redis_down w2 gid = false) as -> by (subst w2; by destruct (became_online result)).
  cbn [run]. split_and!; [done..| |simpl; apply lookup_insert_eq|].
  - assert (players (on_owners <[gid:=logic_id]> w2) = players w1) as Hpl by (subst w2; by destruct (became_online result)).
    unfold player_of. rewrite Hpl. subst w1. simpl. by rewrite lookup_insert_eq.
  - subst w2. by destruct (became_online result).
Qed.
End online.

(** ** Runs *)
Module online_example.
#[global] Instance item_sort : UnstableSort Item Item_item_id := merge_sort_instance Item_item_id.
#[global] Instance login_len : EncodedLen LogicLoginReq := λ _, 40.

Definition player (old : option PlayerSession) (unsaved : bool) : PlayerState :=
  mkPlayerState (default_player 7) old unsaved.

Definition world (p : PlayerState) (online : Z) (failing : option string) : World :=
  {| players := {[ 7 := p ]}; online_count := online; owners := ∅; kicks := [];
     refuses := λ _, None; saver_fails := λ _, failing; redis_down := λ _, false |}.

Definition login_request (gate sid : Z) : LogicLoginReq := mkLogicLoginReq 7 gate sid "dev" false.
Definition disconnect_request (gate sid : Z) : LogicDisconnectNtf := mkLogicDisconnectNtf 7 gate sid.
Definition head (sid : Z) : RpcHead := mkRpcHead 7 sid.

Definition busy : World := world (player (Some (mkPlayerSession 3 50)) false) 1 None.

Lemma busy_sessions gid : session_ok (player_of busy gid).
Proof.
  intros o. unfold player_of, busy, world. simpl. destruct (decide (gid = 7)) as [->|Hne].
  - rewrite lookup_singleton_eq. simpl. by intros [= <-].
  - rewrite lookup_singleton_ne by done. done.
Qed.
End online_example.


Lemma login_takes_over_witness :
  owners (run handle_logic (handle_login 1 (online_example.head 60) (online_example.login_request 4 60)) online_example.busy).2 !! 7
  = Some 1.
Proof.
  pose proof (login_takes_over 1 (online_example.head 60) (online_example.login_request 4 60) online_example.busy) as H.
  assert (is_i64 7) as H7 by by vm_compute. assert (is_i64 60) as H60 by by vm_compute.
  specialize (H eq_refl eq_refl eq_refl eq_refl H7 H60 eq_refl eq_refl eq_refl (online_example.busy_sessions 7)).
  destruct (run handle_logic _ online_example.busy) as [rsp w']. apply H.
Defined.

(** ** Where the counter drifts *)

(** The counter changes in a later step than the player.  A disconnect that
    runs between the login's call and its increment decrements a zero counter,
    which stays zero; the increment then counts a player that is gone. *)
Lemma online_count_race :
  let w := online_example.world (online_example.player None false) 0 None in
  let login : prog LogicEff unit := _ ← handle_login 1 (online_example.head 60) (online_example.login_request 4 60); Ret tt in
  let gone : prog LogicEff unit := handle_disconnect (online_example.disconnect_request 4 60) in
  let '(pool, w') := interleave handle_logic [0; 1; 1; 0; 0]%nat ([login; gone], w) in
  counted w ∧ map (λ p, match p with Ret _ => true | Act _ _ => false end) pool = [true; true]
  ∧ sessions w' = 0 ∧ online_count w' = 1.
Proof. by vm_compute. Qed.

(** When the saver of a player with unsaved changes fails, the call answers an
    error although its logic ran: a login stores the session without counting
    it, and a disconnect removes the session without uncounting it. *)
Lemma online_count_drifts_when_saving_fails :
  let offline := online_example.world (online_example.player None true) 0 (Some "mongo") in
  let online := online_example.world (online_example.player (Some (mkPlayerSession 4 60)) true) 1 (Some "mongo") in
  let after_login := (run handle_logic (handle_login 1 (online_example.head 60) (online_example.login_request 4 60)) offline).2 in
  let after_disconnect := (run handle_logic (handle_disconnect (online_example.disconnect_request 4 60)) online).2 in
  counted offline ∧ counted online
  ∧ sessions after_login = 1 ∧ online_count after_login = 0
  ∧ sessions after_disconnect = 0 ∧ online_count after_disconnect = 1.
Proof. by vm_compute. Qed.
