(* ===== verification/GateSession.v ===== *)
(** * Gate client session ([service/gate/src/session.rs], [ClientSession])

    The retained stream of one logged-in player: sequence numbers, the bounded
    outbox that is replayed after a reconnect, and the request and reconnect
    limiters.  [Connection] and the packet encoder belong to [xnet] and
    [xproto] and are parameters.  An [Instant] is a [Z] (nanoseconds). *)

From S2P Require Import Prelude Proto.

(** The fields of [xproto::cs::CsHead] that the sources set or read. *)
Record CsHead := mkCsHead {
  head_msgid : Z;
  head_seq : Z;
  head_ack : Z
}.

(** [xnet::Connection] and [CsPacket::encode_message]. *)
Class Xnet (Conn : Type) := { conn_session_id : Conn → Z }.
Class CsCodec (Msg Payload : Type) := { encode_message : CsHead → Msg → option Payload }.

Record SessionConfig := mkSessionConfig {
  outbox_messages : Z;
  resume_ttl : Z;
  reconnect_total : Z;
  reconnect_window : Z;
  reconnect_window_count : Z;
  request_window : Z;
  request_window_count : Z;
  burst_window : Z;
  burst_count_limit : Z
}.

Definition HARD_LIMITS : SessionConfig := {|
  outbox_messages := 256;
  resume_ttl := secs 60;
  reconnect_total := 10;
  reconnect_window := secs 60;
  reconnect_window_count := 5;
  request_window := secs 5;
  request_window_count := 15;
  burst_window := secs 1;
  burst_count_limit := 8
|}.

(** [SessionConfig::validate]: [false] is the panic of a failed [assert!]. *)
Definition validate (c : SessionConfig) : bool :=
  (0 <? outbox_messages c) && negb (resume_ttl c =? 0) && (0 <? reconnect_total c)
  && (0 <? reconnect_window_count c) && (reconnect_window_count c <=? reconnect_total c)
  && negb (reconnect_window c =? 0)
  && ((0 <? request_window_count c) && (0 <? burst_count_limit c))
  && (burst_count_limit c <=? request_window_count c)
  && (negb (request_window c =? 0) && negb (burst_window c =? 0)).

Record Routes := mkRoutes { logic_id : Z; public_id : Z }.
#[export] Instance Routes_eq_dec : EqDecision Routes.
Proof. solve_decision. Defined.

Module RequestError.
Inductive t := SessionMismatch | InvalidSequence | RateLimited.
#[global] Instance t_eq_dec : EqDecision t.
Proof. solve_decision. Defined.
End RequestError.

Module ResumeError.
Inductive t := Missing | Expired | SessionMismatch | OutboxGap | RateLimited.
#[global] Instance t_eq_dec : EqDecision t.
Proof. solve_decision. Defined.
End ResumeError.

(** ** Serial-number comparison *)

Definition seq_after (value previous : Z) : bool :=
  let distance := wrap_u32 (value - previous) in
  negb (distance =? 0) && (distance <? Z.shiftl 1 31).

Definition seq_at_or_after (value previous : Z) : bool :=
  (value =? previous) || seq_after value previous.

Section ClientSession.
Context {Conn Msg Payload : Type}.
Context `{!Xnet Conn} `{!CsCodec Msg Payload} `{!Xproto}.

Record OutboxMessage := mkOutboxMessage {
  seq : Z;
  sent_at : Z;
  payload : Payload
}.

Record ReconnectResult := mkReconnectResult {
  replay : list Payload;
  became_active : bool
}.

Record ClientSession := mkClientSession {
  session_id : Z;
  conn : option Conn;
  routes : Routes;
  server_seq : Z;
  client_seq : Z;
  outbox : list OutboxMessage;
  dropped_through : option Z;
  disconnected_at : option Z;
  reconnect_count : Z;
  reconnect_times : list Z;
  request_times : list Z
}.

(** Assignments to the fields that the operations change. *)
Definition with_server_seq (v : Z) (s : ClientSession) : ClientSession :=
  mkClientSession (session_id s) (conn s) (routes s) v (client_seq s) (outbox s)
    (dropped_through s) (disconnected_at s) (reconnect_count s) (reconnect_times s) (request_times s).
Definition with_client_seq (v : Z) (s : ClientSession) : ClientSession :=
  mkClientSession (session_id s) (conn s) (routes s) (server_seq s) v (outbox s)
    (dropped_through s) (disconnected_at s) (reconnect_count s) (reconnect_times s) (request_times s).
Definition with_outbox (o : list OutboxMessage) (d : option Z) (s : ClientSession) : ClientSession :=
  mkClientSession (session_id s) (conn s) (routes s) (server_seq s) (client_seq s) o
    d (disconnected_at s) (reconnect_count s) (reconnect_times s) (request_times s).
Definition with_conn (c : option Conn) (s : ClientSession) : ClientSession :=
  mkClientSession (session_id s) c (routes s) (server_seq s) (client_seq s) (outbox s)
    (dropped_through s) (disconnected_at s) (reconnect_count s) (reconnect_times s) (request_times s).
Definition with_disconnected_at (d : option Z) (s : ClientSession) : ClientSession :=
  mkClientSession (session_id s) (conn s) (routes s) (server_seq s) (client_seq s) (outbox s)
    (dropped_through s) d (reconnect_count s) (reconnect_times s) (request_times s).
Definition with_session_id (v : Z) (s : ClientSession) : ClientSession :=
  mkClientSession v (conn s) (routes s) (server_seq s) (client_seq s) (outbox s)
    (dropped_through s) (disconnected_at s) (reconnect_count s) (reconnect_times s) (request_times s).
Definition with_reconnects (n : Z) (ts : list Z) (s : ClientSession) : ClientSession :=
  mkClientSession (session_id s) (conn s) (routes s) (server_seq s) (client_seq s) (outbox s)
    (dropped_through s) (disconnected_at s) n ts (request_times s).
Definition with_request_times (ts : list Z) (s : ClientSession) : ClientSession :=
  mkClientSession (session_id s) (conn s) (routes s) (server_seq s) (client_seq s) (outbox s)
    (dropped_through s) (disconnected_at s) (reconnect_count s) (reconnect_times s) ts.

Definition new (c : Conn) (r : Routes) (client_seq : Z) : ClientSession := {|
  session_id := conn_session_id c;
  conn := Some c;
  routes := r;
  server_seq := 0;
  client_seq := client_seq;
  outbox := [];
  dropped_through := None;
  disconnected_at := None;
  reconnect_count := 0;
  reconnect_times := [];
  request_times := []
|}.

Definition active (s : ClientSession) : bool := bool_decide (is_Some (conn s)).

(** [prune_outbox]: the loop, then the assignment of its result. *)
Fixpoint prune_loop (now ttl : Z) (o : list OutboxMessage) (dropped : option Z)
    : list OutboxMessage * option Z :=
  match o with
  | m :: rest =>
      if ttl <? duration_since now (sent_at m) then prune_loop now ttl rest (Some (seq m))
      else (o, dropped)
  | [] => ([], dropped)
  end.

Definition prune_outbox (now ttl : Z) (s : ClientSession) : ClientSession :=
  let '(o, d) := prune_loop now ttl (outbox s) (dropped_through s) in with_outbox o d s.

Definition acknowledge_outbox (ack : Z) (s : ClientSession) : ClientSession :=
  with_outbox (drop_while (λ m, negb (seq_after (seq m) ack)) (outbox s)) (dropped_through s) s.

(** [encode]: the payload, or the encoder's error ([None]).  The [expect] on
    the popped front cannot fail: [validate] requires a positive capacity. *)
Definition encode (msgid : MsgId.t) (message : Msg) (now : Z) (config : SessionConfig)
    (s : ClientSession) : ClientSession * option Payload :=
  let s := with_server_seq (wrap_u32 (server_seq s + 1)) s in
  match encode_message (mkCsHead (MsgId.as_u16 msgid) (server_seq s) (client_seq s)) message with
  | None => (s, None)
  | Some p =>
      if is_outbox_message (MsgId.as_u16 msgid) then
        let s := prune_outbox now (resume_ttl config) s in
        let s :=
          if len (outbox s) =? outbox_messages config then
            match outbox s with
            | dropped :: rest => with_outbox rest (Some (seq dropped)) s
            | [] => s
            end
          else s in
        (with_outbox (outbox s ++ [mkOutboxMessage (server_seq s) now p]) (dropped_through s) s, Some p)
      else (s, Some p)
  end.

Definition accept_sequence (sid sq ack now ttl : Z) (s : ClientSession)
    : ClientSession * Result RequestError.t unit :=
  if negb (session_id s =? sid) || negb (active s) then (s, Err RequestError.SessionMismatch)
  else if negb (seq_after sq (client_seq s)) then (s, Err RequestError.InvalidSequence)
  else
    let s := with_client_seq sq s in
    let s := prune_outbox now ttl s in
    let s := acknowledge_outbox ack s in
    (s, Ok ()).

Definition accept_rate (now : Z) (config : SessionConfig) (s : ClientSession) : ClientSession * bool :=
  let times := drop_while (λ at_, request_window config <=? duration_since now at_) (request_times s) in
  let s := with_request_times times s in
  if request_window_count config <=? len times then (s, false)
  else
    let burst := len (take_while (λ at_, duration_since now at_ <? burst_window config) (rev times)) in
    if burst_count_limit config <=? burst then (s, false)
    else (with_request_times (times ++ [now]) s, true).

Definition accept_request (sid sq ack now : Z) (config : SessionConfig) (s : ClientSession)
    : ClientSession * Result RequestError.t Routes :=
  match accept_sequence sid sq ack now (resume_ttl config) s with
  | (s, Err e) => (s, Err e)
  | (s, Ok _) =>
      match accept_rate now config s with
      | (s, false) => (s, Err RequestError.RateLimited)
      | (s, true) => (s, Ok (routes s))
      end
  end.

Definition authorize_reconnect (previous sq ack now : Z) (config : SessionConfig) (s : ClientSession)
    : ClientSession * Result ResumeError.t Routes :=
  if negb (session_id s =? previous) then (s, Err ResumeError.SessionMismatch)
  else if negb (seq_after sq (client_seq s)) then (s, Err ResumeError.SessionMismatch)
  else if (match disconnected_at s with
           | Some at_ => resume_ttl config <? duration_since now at_
           | None => false
           end) then (s, Err ResumeError.Expired)
  else
    let s := prune_outbox now (resume_ttl config) s in
    if (match dropped_through s with
        | Some dropped => negb (seq_at_or_after ack dropped)
        | None => false
        end) then (s, Err ResumeError.OutboxGap)
    else if reconnect_total config <=? reconnect_count s then (s, Err ResumeError.RateLimited)
    else
      let times := drop_while (λ at_, reconnect_window config <=? duration_since now at_) (reconnect_times s) in
      let s := with_reconnects (reconnect_count s) times s in
      if reconnect_window_count config <=? len times then (s, Err ResumeError.RateLimited)
      else (with_reconnects (reconnect_count s + 1) (times ++ [now]) s, Ok (routes s)).

Definition complete_reconnect (previous : Z) (c : Conn) (sq ack now : Z) (config : SessionConfig)
    (s : ClientSession) : ClientSession * Result ResumeError.t ReconnectResult :=
  if negb (session_id s =? previous) then (s, Err ResumeError.SessionMismatch)
  else if negb (seq_after sq (client_seq s)) then (s, Err ResumeError.SessionMismatch)
  else
    let s := prune_outbox now (resume_ttl config) s in
    if (match dropped_through s with
        | Some dropped => negb (seq_at_or_after ack dropped)
        | None => false
        end) then (s, Err ResumeError.OutboxGap)
    else
      let s := acknowledge_outbox ack s in
      let became := negb (active s) in
      let s := with_session_id (conn_session_id c) s in
      let s := with_conn (Some c) s in
      let s := with_client_seq sq s in
      let s := with_disconnected_at None s in
      let rep := payload <$> filter (λ m, seq_after (seq m) ack = true) (outbox s) in
      (s, Ok (mkReconnectResult rep became)).
End ClientSession.

Arguments OutboxMessage Payload : clear implicits.
Arguments ReconnectResult Payload : clear implicits.
Arguments ClientSession Conn Payload : clear implicits.

(** ** Facts about serial numbers *)

Lemma seq_after_spec v p :
  seq_after v p = true ↔ 1 <= (v - p) mod 2 ^ 32 < 2 ^ 31.
Proof.
  unfold seq_after, wrap_u32. change (Z.shiftl 1 31) with (2 ^ 31).
  pose proof (Z.mod_pos_bound (v - p) (2 ^ 32)). lia.
Qed.

Lemma seq_after_irrefl v : seq_after v v = false.
Proof. unfold seq_after, wrap_u32. by rewrite Z.sub_diag. Qed.

(** Comparing the 32-bit images of unbounded counters: right as long as the
    counters are less than half the range apart. *)
Lemma seq_after_wrap (x y : Z) : Z.abs (x - y) < 2 ^ 31 →
  seq_after (wrap_u32 x) (wrap_u32 y) = bool_decide (y < x).
Proof.
  intros Hd. apply Bool.eq_true_iff_eq. rewrite bool_decide_eq_true, seq_after_spec.
  unfold wrap_u32. rewrite <- Zminus_mod.
  destruct (decide (y <= x)) as [Hxy|Hxy].
  - rewrite Z.mod_small by lia. lia.
  - replace (x - y) with (- (y - x)) by lia. rewrite Z.mod_opp_l_nz; [|lia|];
      rewrite Z.mod_small by lia; lia.
Qed.

(** A counter that is behind by half the range or more may look newer, never
    the other way round. *)
Lemma seq_after_wrap_false (x y : Z) : x - y < 2 ^ 31 →
  seq_after (wrap_u32 x) (wrap_u32 y) = false → x <= y.
Proof.
  intros Hd Hf. destruct (decide (x <= y)); [done|].
  rewrite seq_after_wrap in Hf by lia. rewrite bool_decide_eq_false in Hf. lia.
Qed.

Lemma seq_at_or_after_wrap (x y : Z) : y - x < 2 ^ 31 →
  seq_at_or_after (wrap_u32 x) (wrap_u32 y) = true → y <= x.
Proof.
  intros Hd. destruct (decide (y <= x)); [done|]. unfold seq_at_or_after.
  rewrite seq_after_wrap by lia. intros [Heq|Ha]%orb_prop.
  - unfold wrap_u32 in Heq. apply Z.eqb_eq in Heq.
    assert ((y - x) mod 2 ^ 32 = 0) as H0 by (rewrite Zminus_mod, Heq, Z.sub_diag; done).
    rewrite Z.mod_small in H0; lia.
  - rewrite bool_decide_eq_true in Ha. lia.
Qed.

(** ** Facts about the session *)

Section facts.
Context {Conn Msg Payload : Type}.
Context `{!Xnet Conn} `{!CsCodec Msg Payload} `{!Xproto}.
Implicit Types (s : ClientSession Conn Payload) (o : list (OutboxMessage Payload)).

Lemma active_Some s c : conn s = Some c → active s = true.
Proof. intros Hc. apply bool_decide_eq_true. eauto. Qed.

(** The prune loop removes a prefix of expired messages and remembers the
    sequence of the last one. *)
Lemma prune_loop_spec now ttl o d : ∃ k,
  o = k ++ (prune_loop now ttl o d).1 ∧
  Forall (λ m, ttl < duration_since now (sent_at m)) k ∧
  (prune_loop now ttl o d).2 = match last k with Some m => Some (seq m) | None => d end.
Proof.
  revert d. induction o as [|m o IH]; intros d; simpl; [by exists []|].
  destruct (ttl <? duration_since now (sent_at m)) eqn:E; [|by exists []].
  destruct (IH (Some (seq m))) as (k & Hk & Hall & Hd).
  exists (m :: k). split; [|split].
  - simpl. by rewrite <- Hk.
  - constructor; [lia|done].
  - rewrite Hd, last_cons. by destruct (last k).
Qed.

Lemma prune_outbox_unfold now ttl s :
  prune_outbox now ttl s =
  with_outbox (prune_loop now ttl (outbox s) (dropped_through s)).1
    (prune_loop now ttl (outbox s) (dropped_through s)).2 s.
Proof. unfold prune_outbox. by destruct (prune_loop _ _ _ _). Qed.

Lemma prune_outbox_len now ttl s : len (outbox (prune_outbox now ttl s)) <= len (outbox s).
Proof.
  rewrite prune_outbox_unfold. simpl.
  destruct (prune_loop_spec now ttl (outbox s) (dropped_through s)) as (k & Hk & _).
  rewrite Hk at 2. rewrite len_app. pose proof (len_nonneg k). lia.
Qed.
End facts.

(** ** Concrete parameters, to run the model: a connection is its session id,
    a message is a number, a packet is the head with the message. *)
Definition run_xnet : Xnet Z := {| conn_session_id := λ c, c |}.
Definition run_codec : CsCodec Z (CsHead * Z) := {| encode_message := λ h m, Some (h, m) |}.
Definition run_xproto : Xproto := {| SYSTEM_MSG_ID_END := 100 |}.

Section at_most_once.
Context {Conn Msg Payload : Type}.
Context `{!Xnet Conn} `{!CsCodec Msg Payload} `{!Xproto}.
Implicit Types (s : ClientSession Conn Payload).

Lemma accept_sequence_Ok sid sq ack now ttl s s' :
  accept_sequence sid sq ack now ttl s = (s', Ok ()) →
  session_id s = sid ∧ active s = true ∧ seq_after sq (client_seq s) = true ∧ client_seq s' = sq
  ∧ routes s' = routes s.
Proof.
  unfold accept_sequence. rewrite prune_outbox_unfold.
  destruct (session_id s =? sid) eqn:?; simpl; [|done]. destruct (active s); simpl; [|done].
  destruct (seq_after sq (client_seq s)); simpl; [|done]. intros; simplify_eq/=. split_and!; [lia|done..].
Qed.

Lemma accept_sequence_Err sid sq ack now ttl s s' e :
  accept_sequence sid sq ack now ttl s = (s', Err e) →
  s' = s ∧ e ≠ RequestError.RateLimited.
Proof. unfold accept_sequence. do 2 (case_if; [by intros; simplify_eq|]). done. Qed.

Lemma accept_rate_client_seq now cfg s : client_seq (accept_rate now cfg s).1 = client_seq s.
Proof. unfold accept_rate. repeat case_match; done. Qed.

(** A request number is used at most once.  A request that was forwarded
    or answered with the rate error consumed its number: every number that is
    not newer is then rejected without changing the session; a request
    rejected for any other reason left the session as it was. *)
Theorem accept_request_at_most_once sid sq ack now cfg s s' r :
  accept_request sid sq ack now cfg s = (s', r) →
  match r with
  | Ok _ | Err RequestError.RateLimited =>
      client_seq s' = sq ∧
      ∀ sid2 sq2 ack2 now2, seq_after sq2 sq = false →
        ∃ e, accept_request sid2 sq2 ack2 now2 cfg s' = (s', Err e) ∧ e ≠ RequestError.RateLimited
  | Err _ => s' = s
  end.
Proof.
  intros He.
  assert (∀ s1, client_seq s1 = sq → ∀ sid2 sq2 ack2 now2, seq_after sq2 sq = false →
    ∃ e, accept_request sid2 sq2 ack2 now2 cfg s1 = (s1, Err e) ∧ e ≠ RequestError.RateLimited) as Hrej.
  { intros s1 <- sid2 sq2 ack2 now2 Hq. unfold accept_request, accept_sequence. rewrite Hq.
    simpl. case_if; by eexists. }
  unfold accept_request in He.
  destruct (accept_sequence sid sq ack now (resume_ttl cfg) s) as [s1 [[]|e]] eqn:Es.
  - apply accept_sequence_Ok in Es as (_ & _ & _ & Hcs & _).
    pose proof (accept_rate_client_seq now cfg s1) as Hc.
    destruct (accept_rate now cfg s1) as [s2 []]; simplify_eq/=; split; eauto; congruence.
  - apply accept_sequence_Err in Es as [-> Hne]. by destruct e; simplify_eq.
Qed.

(** When a reconnect is authorized.  Exactly when the client names the
    current session, uses a newer number, is within the resume period, has
    acknowledged everything the outbox had to drop, and neither the total nor
    the window limit is reached; the answer is then the session's routes. *)
Theorem authorize_reconnect_iff previous sq ack now cfg s rts :
  (authorize_reconnect previous sq ack now cfg s).2 = Ok rts ↔
  session_id s = previous ∧ seq_after sq (client_seq s) = true
  ∧ (∀ at_, disconnected_at s = Some at_ → duration_since now at_ <= resume_ttl cfg)
  ∧ (∀ d, dropped_through (prune_outbox now (resume_ttl cfg) s) = Some d → seq_at_or_after ack d = true)
  ∧ reconnect_count s < reconnect_total cfg
  ∧ len (drop_while (λ at_, reconnect_window cfg <=? duration_since now at_) (reconnect_times s))
      < reconnect_window_count cfg
  ∧ rts = routes s.
Proof.
  unfold authorize_reconnect. set (s1 := prune_outbox _ _ _).
  assert (reconnect_count s1 = reconnect_count s ∧ reconnect_times s1 = reconnect_times s
    ∧ routes s1 = routes s) as (Hcount & Htimes & Hroutes)
    by (unfold s1; by rewrite prune_outbox_unfold).
  rewrite Hcount, Htimes. clearbody s1. simpl. split.
  - do 5 (case_if; [done|]). case_if; [done|]. simpl. intros ?; simplify_eq.
    split_and!; try done; try lia.
    + by apply negb_false_iff.
    + intros at_ Hat. rewrite Hat in E1. lia.
    + intros d Hd. rewrite Hd in E2. by apply negb_false_iff.
  - intros (Hsid & Hseq & Hexp & Hgap & Htot & Hwin & ->). rewrite Hseq.
    case_if; [lia|]. simpl.
    case_if; [destruct (disconnected_at s) as [at_|]; [specialize (Hexp at_ eq_refl); lia|done]|].
    case_if; [destruct (dropped_through s1) as [d|]; [by rewrite (Hgap d eq_refl) in E1|done]|].
    case_if; [lia|]. case_if; [lia|]. simpl. by rewrite Hroutes.
Qed.
End at_most_once.

Definition accept_request_demo : ClientSession Z (CsHead * Z) :=
  @new Z (CsHead * Z) run_xnet 7 (mkRoutes 1 2) 4.

Lemma accept_request_at_most_once_witness :
  client_seq (accept_request 7 5 0 0 HARD_LIMITS accept_request_demo).1 = 5 ∧
  ∀ sid2 sq2 ack2 now2, seq_after sq2 5 = false →
    ∃ e, accept_request sid2 sq2 ack2 now2 HARD_LIMITS
           (accept_request 7 5 0 0 HARD_LIMITS accept_request_demo).1
         = ((accept_request 7 5 0 0 HARD_LIMITS accept_request_demo).1, Err e)
         ∧ e ≠ RequestError.RateLimited.
Proof.
  exact (accept_request_at_most_once 7 5 0 0 HARD_LIMITS accept_request_demo
    (accept_request 7 5 0 0 HARD_LIMITS accept_request_demo).1 (Ok (mkRoutes 1 2)) eq_refl).
Defined.
