(* ===== verification/GateStream.v ===== *)
(** * The client stream: what a reconnect replays

    Runs of one [ClientSession] as a step relation.  A ghost [Stream] records
    what the 32-bit counters and the bounded outbox forget: every reliable
    message with its unbounded number, the highest acknowledgement the client
    gave, the clock, and the times at which requests and reconnects were
    admitted.  The theorems relate the session to that history. *)

From S2P Require Import Prelude Proto GateSession.

Section stream.
Context {Conn Msg Payload : Type}.
Context `{!Xnet Conn} `{!CsCodec Msg Payload} `{!Xproto}.

Record Stream := mkStream {
  total : Z;
  sent : list (Z * OutboxMessage Payload);
  acked : Z;
  clock : Z;
  admitted : list Z;
  resumed : list Z
}.

Definition empty_stream (now : Z) : Stream := mkStream 0 [] 0 now [] [].

Definition record_send (eligible : bool) (now : Z) (r : option Payload) (g : Stream) : Stream :=
  let n := total g + 1 in
  mkStream n
    (match r with
     | Some p => if eligible then sent g ++ [(n, mkOutboxMessage (wrap_u32 n) now p)] else sent g
     | None => sent g
     end)
    (acked g) now (admitted g) (resumed g).
Definition record_ack (a now : Z) (g : Stream) : Stream :=
  mkStream (total g) (sent g) a now (admitted g) (resumed g).
Definition record_admitted (now : Z) (g : Stream) : Stream :=
  mkStream (total g) (sent g) (acked g) now (admitted g ++ [now]) (resumed g).
Definition record_resumed (now : Z) (g : Stream) : Stream :=
  mkStream (total g) (sent g) (acked g) now (admitted g) (resumed g ++ [now]).
Definition tick (now : Z) (g : Stream) : Stream := record_ack (acked g) now g.

(** The client acknowledges [a] (numbered without wrap-around): it never
    takes an acknowledgement back, acknowledges only what was sent, and is
    less than half the sequence range behind. *)
Definition honest_ack (g : Stream) (a : Z) : Prop :=
  acked g <= a <= total g ∧ total g - a < 2 ^ 31.

(** Whatever the client acknowledges. *)
Definition any_ack (g : Stream) (a : Z) : Prop := True.

(** One operation of the session; [client] says which acknowledgements the
    client sends ([session.rs] accepts any). *)
Inductive stream_step (client : Stream → Z → Prop) (cfg : SessionConfig) :
    ClientSession Conn Payload * Stream → ClientSession Conn Payload * Stream → Prop :=
| step_encode s g msgid (message : Msg) now s' r :
    clock g <= now →
    encode msgid message now cfg s = (s', r) →
    stream_step client cfg (s, g) (s', record_send (is_outbox_message (MsgId.as_u16 msgid)) now r g)
| step_acknowledge s g sid sq a now s' r :
    clock g <= now → client g a →
    accept_sequence sid sq (wrap_u32 a) now (resume_ttl cfg) s = (s', r) →
    stream_step client cfg (s, g) (s', match r with Ok _ => record_ack a now g | Err _ => tick now g end)
| step_request s g sid sq a now s' r :
    clock g <= now → client g a →
    accept_request sid sq (wrap_u32 a) now cfg s = (s', r) →
    stream_step client cfg (s, g)
      (s', match r with
           | Ok _ => record_admitted now (record_ack a now g)
           | Err RequestError.RateLimited => record_ack a now g
           | Err _ => tick now g
           end)
| step_authorize s g previous sq ack now s' r :
    clock g <= now →
    authorize_reconnect previous sq ack now cfg s = (s', r) →
    stream_step client cfg (s, g) (s', match r with Ok _ => record_resumed now g | Err _ => tick now g end)
| step_complete s g previous c sq a now s' r :
    clock g <= now → client g a →
    complete_reconnect previous c sq (wrap_u32 a) now cfg s = (s', r) →
    stream_step client cfg (s, g) (s', match r with Ok _ => record_ack a now g | Err _ => tick now g end)
| step_disconnect s g now :
    clock g <= now →
    stream_step client cfg (s, g) (with_disconnected_at (Some now) (with_conn None s), tick now g).

Inductive reachable (client : Stream → Z → Prop) (cfg : SessionConfig) : ClientSession Conn Payload * Stream → Prop :=
| reach_new c r sq now : reachable client cfg (new c r sq, empty_stream now)
| reach_step x y : reachable client cfg x → stream_step client cfg x y → reachable client cfg y.

Lemma reachable_mono (client client' : Stream → Z → Prop) cfg x :
  (∀ g a, client g a → client' g a) → reachable client cfg x → reachable client' cfg x.
Proof.
  intros Hc. induction 1 as [|x y _ IH Hstep]; [constructor|]. eapply reach_step; [exact IH|].
  destruct Hstep; econstructor; eauto.
Qed.

Implicit Types (s : ClientSession Conn Payload) (g : Stream).

(** ** The outbox carries the unacknowledged suffix of the stream *)

Definition stream_ok (g : Stream) : Prop :=
  0 <= acked g <= total g
  ∧ StronglySorted (λ p q, p.1 < q.1) (sent g)
  ∧ Forall (λ p, 1 <= p.1 <= total g ∧ seq p.2 = wrap_u32 p.1) (sent g).

(** [o] is what is left of the stream when everything removed from it was
    acknowledged ([upto]) or lies at or before the drop mark [d]. *)
Definition covers (g : Stream) (upto : Z) (o : list (OutboxMessage Payload)) (d : option Z) : Prop :=
  ∃ lost kept D,
    sent g = lost ++ kept ∧ o = snd <$> kept
    ∧ match d with Some x => x = wrap_u32 D | None => D = 0 end
    ∧ 0 <= D <= total g
    ∧ Forall (λ p, p.1 <= Z.max D upto) lost
    ∧ Forall (λ p, D < p.1) kept.

Definition stream_inv (x : ClientSession Conn Payload * Stream) : Prop :=
  let '(s, g) := x in
  stream_ok g ∧ server_seq s = wrap_u32 (total g)
  ∧ covers g (acked g) (outbox s) (dropped_through s).

Lemma covers_drop g upto k o d : stream_ok g →
  covers g upto (k ++ o) d →
  covers g upto o (match last k with Some m => Some (seq m) | None => d end).
Proof.
  intros (_ & Hs & Hall) (lost & kept & D & Hsent & Ho & Hd & HD & Hl & Hk).
  symmetry in Ho. apply fmap_app_inv in Ho as (k1 & k2 & -> & -> & ->).
  rewrite Hsent in Hs, Hall. rewrite Forall_app in Hall. destruct Hall as [_ Hall].
  apply Forall_app in Hall as [Hall1 Hall2]. apply Forall_app in Hk as [Hk1 Hk2].
  rewrite fmap_last. destruct (last k1) as [p|] eqn:Elast; simpl.
  - apply last_Some in Elast as [k1' ->].
    apply Forall_app in Hall1 as [_ Hp]. apply Forall_singleton in Hp as [Hp Hseq].
    apply Forall_app in Hk1 as [_ HDp]. apply Forall_singleton in HDp.
    assert (sent g = (lost ++ k1') ++ p :: k2) as Hsplit
      by by rewrite Hsent, <- !app_assoc.
    rewrite <- Hsent, Hsplit in Hs.
    assert (∀ q, q ∈ lost ++ k1' → q.1 < p.1) as Hbefore.
    { intros q Hq. apply (StronglySorted_app_1_elem_of _ _ _ q p Hs Hq), list_elem_of_here. }
    apply StronglySorted_app_1_r, StronglySorted_inv in Hs as [_ Hafter].
    exists ((lost ++ k1') ++ [p]), k2, p.1. rewrite <- app_assoc.
    split_and!; [done..|lia|lia| |done].
    rewrite Forall_app, Forall_singleton. split; [|lia].
    apply Forall_forall. intros q Hq%Hbefore. lia.
  - apply last_None in Elast as ->. exists lost, k2, D. by rewrite Hsent.
Qed.

Lemma covers_prune g upto now ttl o d : stream_ok g → covers g upto o d →
  covers g upto (prune_loop now ttl o d).1 (prune_loop now ttl o d).2.
Proof.
  intros Hok Hc. destruct (prune_loop_spec now ttl o d) as (k & Hk & _ & Hd).
  rewrite Hd. apply covers_drop; [done|]. by rewrite <- Hk.
Qed.

Lemma covers_acknowledge g a o d : stream_ok g → honest_ack g a →
  covers g (acked g) o d →
  covers g a (drop_while (λ m, negb (seq_after (seq m) (wrap_u32 a))) o) d.
Proof.
  intros (_ & _ & Hall) [Ha Hwin] (lost & kept & D & Hsent & Ho & Hd & HD & Hl & Hk).
  destruct (drop_while_suffix (λ m, negb (seq_after (seq m) (wrap_u32 a))) o) as (k & Hko & Hack).
  set (o' := drop_while _ _) in *. clearbody o'.
  rewrite Hko in Ho. symmetry in Ho. apply fmap_app_inv in Ho as (k1 & k2 & -> & -> & ->).
  rewrite Hsent in Hall. apply Forall_app in Hall as [_ [Hall1 _]%Forall_app].
  apply Forall_app in Hk as [_ Hk2].
  exists (lost ++ k1), k2, D. rewrite Hsent, <- app_assoc. split_and!; try done; try lia.
  apply Forall_app. split.
  - eapply Forall_impl; [exact Hl|]. simpl. lia.
  - rewrite Forall_fmap in Hack. rewrite Forall_forall in Hack, Hall1 |- *. intros p Hp.
    specialize (Hack p Hp) as Hafter%negb_true_iff. simpl in Hafter.
    destruct (Hall1 p Hp) as [Hn Hseq]. rewrite Hseq in Hafter.
    apply seq_after_wrap_false in Hafter; lia.
Qed.

(** Sending: the number advances, the reliable message joins both ends. *)
Lemma covers_send g upto o d now p : stream_ok g → covers g upto o d →
  covers (record_send true now (Some p) g) upto
    (o ++ [mkOutboxMessage (wrap_u32 (total g + 1)) now p]) d.
Proof.
  intros Hok (lost & kept & D & Hsent & Ho & Hd & HD & Hl & Hk).
  exists lost, (kept ++ [(total g + 1, mkOutboxMessage (wrap_u32 (total g + 1)) now p)]), D.
  simpl. rewrite Hsent, fmap_app, Ho, app_assoc. split_and!; try done; try lia.
  apply Forall_app. split; [done|]. apply Forall_singleton. simpl. lia.
Qed.

Lemma covers_skip g upto o d b now r :
  (b = false ∨ r = None) → covers g upto o d → covers (record_send b now r g) upto o d.
Proof.
  intros Hbr (lost & kept & D & Hsent & Ho & Hd & HD & Hl & Hk).
  exists lost, kept, D. split_and!; try done; simpl; [|lia..].
  destruct Hbr as [-> | ->]; [by destruct r|done].
Qed.

Lemma stream_ok_send b now r g : stream_ok g → stream_ok (record_send b now r g).
Proof.
  intros (Hack & Hs & Hall). unfold stream_ok, record_send; simpl.
  assert (Forall (λ p : Z * OutboxMessage Payload,
    1 <= p.1 <= total g + 1 ∧ seq p.2 = wrap_u32 p.1) (sent g)) as Hall'.
  { eapply Forall_impl; [exact Hall|]. intros p [? ?]. split; [lia|done]. }
  split; [lia|]. destruct r as [p|]; [|done]. destruct b; [|done]. split.
  - apply StronglySorted_app. split_and!; [|done|by repeat constructor].
    intros q q' Hq ->%list_elem_of_singleton. rewrite Forall_forall in Hall. apply Hall in Hq.
    simpl. lia.
  - apply Forall_app. split; [done|]. apply Forall_singleton. simpl. lia.
Qed.

(** ** Every operation keeps the invariant *)

Lemma covers_tick g upto o d now : covers g upto o d → covers (tick now g) upto o d.
Proof. done. Qed.

Lemma encode_inv msgid (message : Msg) now cfg s g s' r :
  stream_inv (s, g) → encode msgid message now cfg s = (s', r) →
  stream_inv (s', record_send (is_outbox_message (MsgId.as_u16 msgid)) now r g).
Proof.
  intros (Hok & Hseq & Hc) He.
  assert (wrap_u32 (server_seq s + 1) = wrap_u32 (total g + 1)) as Hseq'.
  { rewrite Hseq. unfold wrap_u32. apply Zplus_mod_idemp_l. }
  split; [by apply stream_ok_send|]. unfold encode in He. rewrite Hseq' in He.
  case_match; [|simplify_eq/=; split; [done|]; apply covers_skip; [by right|done]].
  case_match; [|simplify_eq/=; split; [done|]; apply covers_skip; [by left|done]].
  rewrite prune_outbox_unfold in He. simpl in He.
  pose proof (covers_prune g (acked g) now (resume_ttl cfg) _ _ Hok Hc) as Hp.
  destruct (prune_loop now (resume_ttl cfg) (outbox s) (dropped_through s)) as [o d]; simpl in *.
  case_match; [destruct o as [|m o]|]; simplify_eq/=; (split; [done|]).
  - by apply (covers_send g (acked g) [] d).
  - apply covers_send; [done|]. by apply (covers_drop g (acked g) [m] o d).
  - by apply covers_send.
Qed.

Lemma accept_sequence_inv sid sq a now ttl s g s' r :
  stream_inv (s, g) → honest_ack g a →
  accept_sequence sid sq (wrap_u32 a) now ttl s = (s', r) →
  stream_inv (s', match r with Ok _ => record_ack a now g | Err _ => tick now g end).
Proof.
  intros (Hok & Hseq & Hc) Ha He. unfold accept_sequence in He.
  case_match; [simplify_eq/=; by split_and!|].
  case_match; simplify_eq/=; [by split_and!|].
  rewrite !prune_outbox_unfold. simpl. destruct Hok as (Hack & Hok). destruct Ha as [Ha Hwin].
  split; [by split; [simpl; lia|]|]. split; [done|].
  apply (covers_acknowledge g); [done..|]. apply covers_prune; done.
Qed.

Lemma accept_rate_frame now cfg (s : ClientSession Conn Payload) :
  let s' := (accept_rate now cfg s).1 in
  server_seq s' = server_seq s ∧ outbox s' = outbox s ∧ dropped_through s' = dropped_through s
  ∧ routes s' = routes s ∧ client_seq s' = client_seq s ∧ session_id s' = session_id s
  ∧ reconnect_times s' = reconnect_times s ∧ reconnect_count s' = reconnect_count s
  ∧ conn s' = conn s ∧ disconnected_at s' = disconnected_at s.
Proof. unfold accept_rate. repeat case_match; done. Qed.

Lemma accept_request_inv sid sq a now cfg s g s' r :
  stream_inv (s, g) → honest_ack g a →
  accept_request sid sq (wrap_u32 a) now cfg s = (s', r) →
  stream_inv (s', match r with
                  | Ok _ => record_admitted now (record_ack a now g)
                  | Err RequestError.RateLimited => record_ack a now g
                  | Err _ => tick now g
                  end).
Proof.
  intros Hinv Ha He. unfold accept_request in He.
  destruct (accept_sequence sid sq (wrap_u32 a) now (resume_ttl cfg) s) as [s1 r1] eqn:Es.
  pose proof (accept_sequence_inv _ _ _ _ _ _ _ _ _ Hinv Ha Es) as (Hok & Hseq & Hc).
  destruct r1 as [u|e].
  - pose proof (accept_rate_frame now cfg s1) as (F1 & F2 & F3 & _).
    destruct (accept_rate now cfg s1) as [s2 b]. simpl in F1, F2, F3.
    destruct b; simplify_eq; unfold stream_inv; rewrite F1, F2, F3; done.
  - unfold accept_sequence in Es. repeat case_match; simplify_eq; by split_and!.
Qed.

Lemma authorize_reconnect_inv previous sq ack now cfg s g s' r :
  stream_inv (s, g) → authorize_reconnect previous sq ack now cfg s = (s', r) →
  stream_inv (s', match r with Ok _ => record_resumed now g | Err _ => tick now g end).
Proof.
  intros (Hok & Hseq & Hc) He.
  pose proof (covers_prune g (acked g) now (resume_ttl cfg) _ _ Hok Hc) as Hp.
  unfold authorize_reconnect in He. rewrite !prune_outbox_unfold in He.
  repeat case_match; simplify_eq/=; by split_and!.
Qed.

(** A successful [complete_reconnect], taken apart: the drop mark is covered
    by the acknowledgement, and the outbox is the pruned and acknowledged one. *)
Lemma complete_reconnect_Ok previous c sq ack now cfg s s' r :
  complete_reconnect previous c sq ack now cfg s = (s', Ok r) →
  let pr := prune_loop now (resume_ttl cfg) (outbox s) (dropped_through s) in
  let o := drop_while (λ m, negb (seq_after (seq m) ack)) pr.1 in
  session_id s = previous ∧ seq_after sq (client_seq s) = true
  ∧ match pr.2 with Some d => seq_at_or_after ack d = true | None => True end
  ∧ s' = with_disconnected_at None (with_client_seq sq (with_conn (Some c)
           (with_session_id (conn_session_id c) (with_outbox o pr.2 s))))
  ∧ r = mkReconnectResult (payload <$> filter (λ m, seq_after (seq m) ack = true) o) (negb (active s)).
Proof.
  unfold complete_reconnect. rewrite prune_outbox_unfold. simpl.
  destruct (session_id s =? previous) eqn:?; simpl; [|done].
  destruct (seq_after sq (client_seq s)) eqn:?; simpl; [|done].
  destruct (prune_loop _ _ _ _).2 as [d|]; simpl.
  - destruct (seq_at_or_after ack d) eqn:Ed; simpl; [|done].
    intros ?; simplify_eq/=. split_and!; [lia|done..].
  - intros ?; simplify_eq/=. split_and!; [lia|done..].
Qed.

Lemma complete_reconnect_inv previous c sq a now cfg s g s' r :
  stream_inv (s, g) → honest_ack g a →
  complete_reconnect previous c sq (wrap_u32 a) now cfg s = (s', r) →
  stream_inv (s', match r with Ok _ => record_ack a now g | Err _ => tick now g end).
Proof.
  intros (Hok & Hseq & Hc) Ha He. destruct r as [r|e].
  - apply complete_reconnect_Ok in He as (_ & _ & _ & -> & _).
    destruct Ha as [Ha Hwin]. split; [by destruct Hok; split; [simpl; lia|]|]. split; [done|].
    apply (covers_acknowledge g); [done..|]. by apply covers_prune.
  - pose proof (covers_prune g (acked g) now (resume_ttl cfg) _ _ Hok Hc).
    unfold complete_reconnect in He. rewrite !prune_outbox_unfold in He.
    repeat case_match; simplify_eq/=; by split_and!.
Qed.

Lemma stream_step_inv cfg x y : stream_inv x → stream_step honest_ack cfg x y → stream_inv y.
Proof.
  intros Hinv Hstep. destruct Hstep.
  - by eapply encode_inv.
  - by eapply accept_sequence_inv.
  - by eapply accept_request_inv.
  - by eapply authorize_reconnect_inv.
  - by eapply complete_reconnect_inv.
  - destruct Hinv as (? & ? & ?). by split_and!.
Qed.

Lemma reachable_inv cfg x : reachable honest_ack cfg x → stream_inv x.
Proof.
  induction 1 as [c r sq now|x y _ IH Hstep]; [|by eapply stream_step_inv].
  split_and!; [split_and!; simpl; [lia..| |]; constructor|done|].
  exists [], [], 0. split_and!; done.
Qed.

Lemma replay_kept (g : Stream) (a : Z) (kept : list (Z * OutboxMessage Payload)) :
  Forall (λ p, seq p.2 = wrap_u32 p.1 ∧ Z.abs (p.1 - a) < 2 ^ 31) kept →
  filter (λ m, seq_after (seq m) (wrap_u32 a) = true) (snd <$> kept)
  = snd <$> filter (λ p, a < p.1) kept.
Proof.
  induction 1 as [|[n m] kept [Hseq Hwin] _ IH]; [done|]. cbn [fst snd] in Hseq, Hwin.
  rewrite fmap_cons, !filter_cons. cbn [fst snd].
  rewrite Hseq, seq_after_wrap by done. destruct (decide (a < n)).
  - rewrite bool_decide_true by done. cbn [decide]. rewrite fmap_cons. by f_equal.
  - by rewrite bool_decide_false by done.
Qed.

(** The part of the stream an acknowledgement does not cover is all in the
    outbox, once the drop mark is checked. *)
Lemma covers_missed g a o d : stream_ok g → honest_ack g a → covers g a o d →
  match d with Some x => seq_at_or_after (wrap_u32 a) x = true | None => True end →
  (∀ n m, (n, m) ∈ sent g → m ∈ o → total g - n < 2 ^ 31) →
  filter (λ m, seq_after (seq m) (wrap_u32 a) = true) o = snd <$> filter (λ p, a < p.1) (sent g).
Proof.
  intros (Hack & _ & Hall) [Ha Hwin] (lost & kept & D & Hsent & -> & Hd & HD & Hl & Hk) Hmark Hw.
  assert (D <= a) as HDa.
  { destruct d as [x|]; [|lia]. subst x. apply seq_at_or_after_wrap in Hmark; lia. }
  rewrite Hsent in Hall, Hw |- *. apply Forall_app in Hall as [_ Hall].
  rewrite filter_app, (filter_none _ lost), app_nil_l.
  - apply (replay_kept g). rewrite Forall_forall in Hall |- *. intros [n m] Hp.
    destruct (Hall _ Hp) as [Hn Hseq]. simpl in *. split; [done|].
    assert (total g - n < 2 ^ 31); [|lia].
    apply (Hw n m); [rewrite elem_of_app; by right|].
    by apply (list_elem_of_fmap_2 snd kept (n, m)).
  - eapply Forall_impl; [exact Hl|]. simpl. lia.
Qed.

Lemma prune_loop_subset now ttl (o : list (OutboxMessage Payload)) d m :
  m ∈ (prune_loop now ttl o d).1 → m ∈ o.
Proof. destruct (prune_loop_spec now ttl o d) as (k & Hk & _). rewrite Hk at 2. set_solver. Qed.

(** The replay of a successful reconnect is the missed part of the stream. *)
Lemma complete_reconnect_replay cfg s g previous c sq a now s' r :
  stream_inv (s, g) → honest_ack g a →
  (∀ n m, (n, m) ∈ sent g → m ∈ outbox s → total g - n < 2 ^ 31) →
  complete_reconnect previous c sq (wrap_u32 a) now cfg s = (s', Ok r) →
  replay r = (λ p, payload p.2) <$> filter (λ p, a < p.1) (sent g).
Proof.
  intros (Hok & _ & Hc) Ha Hw (_ & _ & Hmark & _ & ->)%complete_reconnect_Ok. simpl.
  pose proof (covers_prune g (acked g) now (resume_ttl cfg) _ _ Hok Hc) as Hp.
  rewrite (covers_missed g a _ _ Hok Ha (covers_acknowledge g a _ _ Hok Ha Hp) Hmark);
    [by rewrite <- list_fmap_compose|].
  intros n m Hn Hm. apply (Hw n m Hn), (prune_loop_subset now (resume_ttl cfg) _ (dropped_through s)).
  pose proof (take_drop_while (λ m, negb (seq_after (seq m) (wrap_u32 a)))
    (prune_loop now (resume_ttl cfg) (outbox s) (dropped_through s)).1) as <-. set_solver.
Qed.

(** ** The outbox is bounded *)

Definition outbox_bounded (cfg : SessionConfig) s : Prop := len (outbox s) <= outbox_messages cfg.

Lemma encode_bounded msgid (message : Msg) now cfg s :
  0 < outbox_messages cfg → outbox_bounded cfg s →
  outbox_bounded cfg (encode msgid message now cfg s).1.
Proof.
  unfold outbox_bounded, encode. intros Hcap Hb.
  case_match; [|done]. case_match; [|done].
  set (s1 := prune_outbox _ _ _).
  assert (len (outbox s1) <= outbox_messages cfg) as Hs1 by (etrans; [apply prune_outbox_len|done]).
  clearbody s1. simpl. rewrite len_app, len_cons, len_nil.
  destruct (len (outbox s1) =? outbox_messages cfg) eqn:Efull; [|lia].
  destruct (outbox s1) as [|m o] eqn:Eo; simpl; [rewrite Eo, len_nil; lia|].
  rewrite len_cons in Hs1. lia.
Qed.

Lemma accept_sequence_len sid sq ack now ttl s :
  len (outbox (accept_sequence sid sq ack now ttl s).1) <= len (outbox s).
Proof.
  unfold accept_sequence. repeat case_match; simpl; try lia.
  etrans; [apply drop_while_len|]. apply (prune_outbox_len now ttl (with_client_seq sq s)).
Qed.

Lemma accept_request_len sid sq ack now cfg s :
  len (outbox (accept_request sid sq ack now cfg s).1) <= len (outbox s).
Proof.
  unfold accept_request. pose proof (accept_sequence_len sid sq ack now (resume_ttl cfg) s) as Hs.
  destruct (accept_sequence _ _ _ _ _ _) as [s1 [u|e]]; [|done].
  destruct (accept_rate_frame now cfg s1) as (_ & F & _).
  destruct (accept_rate now cfg s1) as [s2 []]; simpl in *; by rewrite F.
Qed.

Lemma authorize_reconnect_len previous sq ack now cfg s :
  len (outbox (authorize_reconnect previous sq ack now cfg s).1) <= len (outbox s).
Proof.
  unfold authorize_reconnect. pose proof (prune_outbox_len now (resume_ttl cfg) s).
  repeat case_match; simpl; lia.
Qed.

Lemma complete_reconnect_len previous c sq ack now cfg s :
  len (outbox (complete_reconnect previous c sq ack now cfg s).1) <= len (outbox s).
Proof.
  unfold complete_reconnect. pose proof (prune_outbox_len now (resume_ttl cfg) s) as Hp.
  pose proof (drop_while_len (λ m, negb (seq_after (seq m) ack))
    (outbox (prune_outbox now (resume_ttl cfg) s))).
  repeat case_match; simpl; lia.
Qed.

Lemma stream_step_bounded client cfg x y : 0 < outbox_messages cfg →
  outbox_bounded cfg x.1 → stream_step client cfg x y → outbox_bounded cfg y.1.
Proof.
  unfold outbox_bounded. intros Hcap Hb Hstep. destruct Hstep; simpl in *.
  - pose proof (encode_bounded msgid message now cfg s Hcap Hb) as Hl. by rewrite H1 in Hl.
  - pose proof (accept_sequence_len sid sq (wrap_u32 a) now (resume_ttl cfg) s) as Hl.
    rewrite H2 in Hl. simpl in Hl. lia.
  - pose proof (accept_request_len sid sq (wrap_u32 a) now cfg s) as Hl.
    rewrite H2 in Hl. simpl in Hl. lia.
  - pose proof (authorize_reconnect_len previous sq ack now cfg s) as Hl.
    rewrite H1 in Hl. simpl in Hl. lia.
  - pose proof (complete_reconnect_len previous c sq (wrap_u32 a) now cfg s) as Hl.
    rewrite H2 in Hl. simpl in Hl. lia.
  - done.
Qed.

Lemma reachable_bounded client cfg x : 0 < outbox_messages cfg → reachable client cfg x → outbox_bounded cfg x.1.
Proof.
  intros Hcap. induction 1 as [|x y _ IH Hstep]; [unfold outbox_bounded; simpl; rewrite len_nil; lia|].
  by eapply stream_step_bounded.
Qed.
End stream.

Section stream_theorems.
Context {Conn Msg Payload : Type}.
Context `{!Xnet Conn} `{!CsCodec Msg Payload} `{!Xproto}.
Implicit Types (s : ClientSession Conn Payload) (g : @Stream Payload).

(** C7: a reconnect loses nothing and repeats nothing.  In every run of a
    session whose client acknowledges honestly, a reconnect that succeeds with an honest acknowledgement [a]
    replays exactly the payloads of the reliable messages numbered after
    [a], in sending order: no message is missing because of TTL pruning,
    capacity eviction or an earlier acknowledgement, whatever wrap-around
    the 32-bit sequence went through, as long as the retained window is
    smaller than half the sequence range. *)
Theorem resume_replays_missed_stream cfg s g previous c sq a now s' r :
  reachable (Msg := Msg) honest_ack cfg (s, g) →
  honest_ack g a →
  (∀ n m, (n, m) ∈ sent g → m ∈ outbox s → total g - n < 2 ^ 31) →
  complete_reconnect previous c sq (wrap_u32 a) now cfg s = (s', Ok r) →
  replay r = (λ p, payload p.2) <$> filter (λ p, a < p.1) (sent g).
Proof. intros Hr. apply (complete_reconnect_replay cfg), (reachable_inv cfg), Hr. Qed.

(** The outbox never holds more than [outbox_messages] messages, in any
    run of a session, whatever the client acknowledges and under any order of
    sends, acknowledgements and reconnects. *)
Theorem outbox_stays_bounded cfg s g :
  0 < outbox_messages cfg → reachable (Msg := Msg) any_ack cfg (s, g) →
  len (outbox s) <= outbox_messages cfg.
Proof. intros Hcap Hr. exact (reachable_bounded any_ack cfg (s, g) Hcap Hr). Qed.
End stream_theorems.

(** A run: two reliable responses are sent, a request is admitted, the
    connection drops, and a reconnect is authorized. *)
Module run.
#[local] Existing Instances run_xnet run_codec run_xproto.
Definition s0 : ClientSession Z (CsHead * Z) := new 11 (mkRoutes 1 2) 0.
Definition g0 : @Stream (CsHead * Z) := empty_stream 0.
Definition s1 := (encode MsgId.PlayerInfoRsp 70 5 HARD_LIMITS s0).1.
Definition g1 := record_send (is_outbox_message (MsgId.as_u16 MsgId.PlayerInfoRsp)) 5
                   (encode MsgId.PlayerInfoRsp 70 5 HARD_LIMITS s0).2 g0.
Definition s2 := (encode MsgId.UseItemRsp 71 6 HARD_LIMITS s1).1.
Definition g2 := record_send (is_outbox_message (MsgId.as_u16 MsgId.UseItemRsp)) 6
                   (encode MsgId.UseItemRsp 71 6 HARD_LIMITS s1).2 g1.
Definition s3 := (accept_request 11 1 (wrap_u32 0) 7 HARD_LIMITS s2).1.
Definition g3 := record_admitted 7 (record_ack 0 7 g2).
Definition s4 := with_disconnected_at (Some 8) (with_conn None s3).
Definition g4 := tick 8 g3.
Definition s5 := (authorize_reconnect 11 2 1 9 HARD_LIMITS s4).1.
Definition g5 := record_resumed 9 g4.

Lemma reach2 : reachable (Msg := Z) honest_ack HARD_LIMITS (s2, g2).
Proof.
  apply (reach_step _ _ (s1, g1)).
  - apply (reach_step _ _ (s0, g0)); [constructor|].
    apply (step_encode honest_ack HARD_LIMITS s0 g0 MsgId.PlayerInfoRsp 70 5 s1 (encode MsgId.PlayerInfoRsp 70 5 HARD_LIMITS s0).2);
      vm_compute; done.
  - apply (step_encode honest_ack HARD_LIMITS s1 g1 MsgId.UseItemRsp 71 6 s2 (encode MsgId.UseItemRsp 71 6 HARD_LIMITS s1).2);
      vm_compute; done.
Defined.

Lemma reach5 : reachable (Msg := Z) honest_ack HARD_LIMITS (s5, g5).
Proof.
  apply (reach_step _ _ (s4, g4)).
  - apply (reach_step _ _ (s3, g3)); [|constructor; vm_compute; done].
    apply (reach_step _ _ (s2, g2) _ reach2).
    apply (step_request honest_ack HARD_LIMITS s2 g2 11 1 0 7 s3 (Ok (mkRoutes 1 2)));
      [vm_compute; done| |vm_compute; done].
    vm_compute. split; [split|]; congruence.
  - apply (step_authorize honest_ack HARD_LIMITS s4 g4 11 2 1 9 s5 (Ok (mkRoutes 1 2))); vm_compute; done.
Defined.

(** The same run, as one of any client. *)
Lemma reach5_any : reachable (Msg := Z) any_ack HARD_LIMITS (s5, g5).
Proof. by apply (reachable_mono honest_ack), reach5. Defined.
End run.

Lemma resume_replays_missed_stream_witness :
  replay (mkReconnectResult [(mkCsHead 103 2 0, 71)] true) = [(mkCsHead 103 2 0, 71)].
Proof.
  refine (resume_replays_missed_stream (Msg := Z) (H := run_xproto) (Xnet0 := run_xnet) (CsCodec0 := run_codec)
    HARD_LIMITS run.s5 run.g5 11 12 2 1 10
    (@complete_reconnect Z (CsHead * Z) run_xnet 11 12 2 (wrap_u32 1) 10 HARD_LIMITS run.s5).1 _ run.reach5 _ _ _).
  - vm_compute. split; [split|]; congruence.
  - intros n m Hn _. apply list_elem_of_In in Hn. vm_compute in Hn.
    destruct Hn as [Hn|[Hn|[]]]; injection Hn as <- _; vm_compute; done.
  - vm_compute. reflexivity.
Defined.

Lemma outbox_stays_bounded_witness : len (outbox run.s5) <= 256.
Proof.
  apply (outbox_stays_bounded (Xnet0 := run_xnet) (CsCodec0 := run_codec) (H := run_xproto)
    HARD_LIMITS run.s5 run.g5); [done|apply run.reach5_any].
Defined.
