(* ===== verification/GateRates.v ===== *)
(** * The sliding-window limiters of a client session

    Requests: at most [request_window_count] admitted in any
    [request_window], at most [burst_count_limit] in any [burst_window].
    Reconnects: at most [reconnect_window_count] in any [reconnect_window] and
    [reconnect_total] in all.  The session keeps only the recent times; the
    ghost log of [GateStream] keeps them all. *)

From S2P Require Import Prelude Proto GateSession GateStream.

(** The logged times in the window of length [w] that ends at [t]. *)
Definition within (t w : Z) (log : list Z) : list Z := filter (λ at_, t - w < at_ ∧ at_ <= t) log.

(** [times] is the part of the sorted [log] that may still matter at [clock]. *)
Definition recent (w clock : Z) (log times : list Z) : Prop :=
  StronglySorted Z.le log ∧ Forall (λ at_, at_ <= clock) log
  ∧ ∃ old, log = old ++ times ∧ Forall (λ at_, w <= clock - at_) old.

Definition window_ok (w limit : Z) (log : list Z) : Prop := ∀ t, len (within t w log) <= limit.

Lemma within_app t w l k : within t w (l ++ k) = within t w l ++ within t w k.
Proof. apply filter_app. Qed.

Lemma within_none t w l : Forall (λ at_, at_ <= t - w ∨ t < at_) l → within t w l = [].
Proof. intros Hl. apply filter_none. eapply Forall_impl; [exact Hl|]. simpl. lia. Qed.

Lemma recent_later w clock now log times :
  clock <= now → recent w clock log times → recent w now log times.
Proof.
  intros Hle (Hs & Hc & old & -> & Ho). split; [done|]. split.
  - eapply Forall_impl; [exact Hc|]. simpl. lia.
  - exists old. split; [done|]. eapply Forall_impl; [exact Ho|]. simpl. lia.
Qed.

Lemma recent_prune w now log times :
  recent w now log times →
  recent w now log (drop_while (λ at_, w <=? duration_since now at_) times).
Proof.
  intros (Hs & Hc & old & -> & Ho). split; [done|]. split; [done|].
  destruct (drop_while_suffix (λ at_, w <=? duration_since now at_) times) as (k & Hk & Hold).
  exists (old ++ k). split; [by rewrite <- app_assoc, <- Hk|].
  apply Forall_app. split; [done|]. rewrite Hk in Hc.
  rewrite !Forall_app in Hc. destruct Hc as (_ & Hc & _).
  rewrite Forall_forall in Hold, Hc |- *. intros x Hx. specialize (Hold x Hx). specialize (Hc x Hx).
  simpl in *. rewrite duration_since_le in Hold; lia.
Qed.

Lemma recent_admit w now log times : recent w now log times → recent w now (log ++ [now]) (times ++ [now]).
Proof.
  intros (Hs & Hc & old & -> & Ho). split_and!.
  - apply StronglySorted_app. split_and!; [|done|by repeat constructor].
    intros x y Hx ->%list_elem_of_singleton. rewrite Forall_forall in Hc. by apply Hc.
  - apply Forall_app. split; [done|]. by apply Forall_singleton.
  - exists old. by rewrite <- app_assoc.
Qed.

(** Admitting one more keeps a window limit, provided the entries that share a
    window with [now] are fewer than the limit. *)
Lemma window_admit v limit now log :
  Forall (λ at_, at_ <= now) log →
  len (filter (λ at_, now - at_ < v) log) < limit →
  window_ok v limit log → window_ok v limit (log ++ [now]).
Proof.
  intros Hc Hlt Hok t. rewrite within_app, len_app. destruct (decide (t < now)).
  - rewrite (within_none t v [now]) by (apply Forall_singleton; lia). rewrite len_nil.
    specialize (Hok t). lia.
  - assert (len (within t v log) <= len (filter (λ at_, now - at_ < v) log)) as Hle.
    { apply len_filter_impl. lia. }
    pose proof (len_filter (λ at_, t - v < at_ ∧ at_ <= t) [now]) as H1.
    change (len [now]) with 1 in H1. fold (within t v [now]) in H1. lia.
Qed.

(** Walking back from the newest entry finds all recent ones. *)
Lemma take_while_recent v now times :
  StronglySorted Z.le times →
  len (filter (λ at_, now - at_ < v) times)
  <= len (take_while (λ at_, now - at_ <? v) (rev times)).
Proof.
  induction times as [|x l IH] using rev_ind; intros Hs; [done|].
  rewrite rev_app_distr. simpl. rewrite filter_app, len_app.
  apply StronglySorted_app in Hs as (Hlast & Hs & _). specialize (IH Hs).
  destruct (now - x <? v) eqn:E.
  - rewrite filter_cons_True by lia. rewrite filter_nil, !len_cons, len_nil. lia.
  - rewrite (filter_none _ l), filter_cons_False by
      (try lia; apply Forall_forall; intros y Hy; specialize (Hlast y x Hy); set_solver by lia).
    done.
Qed.

Lemma take_while_ext {A} (p q : A → bool) (l : list A) :
  Forall (λ x, p x = q x) l → take_while p l = take_while q l.
Proof. induction 1 as [|x l Hx _ IH]; simpl; [done|]. by rewrite Hx, IH. Qed.

Section rates.
Context {Conn Msg Payload : Type}.
Context `{!Xnet Conn} `{!CsCodec Msg Payload} `{!Xproto}.
Implicit Types (s : ClientSession Conn Payload) (g : @Stream Payload).

(** What the two limiters keep, with the parts they share with the other
    operations only through the clock. *)
Definition request_inv (cfg : SessionConfig) s g : Prop :=
  recent (request_window cfg) (clock g) (admitted g) (request_times s)
  ∧ window_ok (request_window cfg) (request_window_count cfg) (admitted g)
  ∧ window_ok (burst_window cfg) (burst_count_limit cfg) (admitted g).

Definition reconnect_inv (cfg : SessionConfig) s g : Prop :=
  recent (reconnect_window cfg) (clock g) (resumed g) (reconnect_times s)
  ∧ window_ok (reconnect_window cfg) (reconnect_window_count cfg) (resumed g)
  ∧ reconnect_count s = len (resumed g) ∧ len (resumed g) <= reconnect_total cfg.

Lemma request_inv_frame cfg s g s' g' : clock g <= clock g' →
  admitted g' = admitted g → request_times s' = request_times s →
  request_inv cfg s g → request_inv cfg s' g'.
Proof. intros Hc Ha Ht (Hr & Hw). unfold request_inv. rewrite Ha, Ht. split; [by eapply recent_later|done]. Qed.

Lemma reconnect_inv_frame cfg s g s' g' : clock g <= clock g' →
  resumed g' = resumed g → reconnect_times s' = reconnect_times s →
  reconnect_count s' = reconnect_count s →
  reconnect_inv cfg s g → reconnect_inv cfg s' g'.
Proof.
  intros Hc Ha Ht Hn (Hr & Hw). unfold reconnect_inv. rewrite Ha, Ht, Hn.
  split; [by eapply recent_later|done].
Qed.

(** The limiter times of the operations that do not own them. *)
Definition same_times s s' : Prop :=
  request_times s' = request_times s ∧ reconnect_times s' = reconnect_times s
  ∧ reconnect_count s' = reconnect_count s.

Lemma prune_same_times now ttl s : same_times s (prune_outbox now ttl s).
Proof. by rewrite prune_outbox_unfold. Qed.

Lemma encode_same_times msgid (message : Msg) now cfg s :
  same_times s (encode msgid message now cfg s).1.
Proof. unfold encode. rewrite prune_outbox_unfold. repeat case_match; done. Qed.

Lemma accept_sequence_same_times sid sq ack now ttl s :
  same_times s (accept_sequence sid sq ack now ttl s).1.
Proof. unfold accept_sequence. rewrite prune_outbox_unfold. repeat case_match; done. Qed.

Lemma complete_same_times previous c sq ack now cfg s :
  same_times s (complete_reconnect previous c sq ack now cfg s).1.
Proof. unfold complete_reconnect. rewrite prune_outbox_unfold. repeat case_match; done. Qed.

Lemma accept_rate_inv now cfg s g :
  burst_window cfg <= request_window cfg → clock g <= now →
  request_inv cfg s g →
  let '(s', b) := accept_rate now cfg s in
  request_inv cfg s' (if b then record_admitted now g else tick now g).
Proof.
  intros Hbw Hc (Hr & Hw & Hb). apply (recent_later _ _ now), recent_prune in Hr; [|done].
  unfold accept_rate. set (times := drop_while _ _) in *. clearbody times.
  assert (∀ v, v <= request_window cfg →
    len (filter (λ at_, now - at_ < v) (admitted g)) = len (filter (λ at_, now - at_ < v) times)) as Hlog.
  { intros v Hv. destruct Hr as (_ & _ & old & -> & Ho). rewrite filter_app, len_app, filter_none; [done|].
    eapply Forall_impl; [exact Ho|]. simpl. lia. }
  destruct (request_window_count cfg <=? len times) eqn:E1; [by split_and!|].
  destruct (burst_count_limit cfg <=? _) eqn:E2; [by split_and!|].
  destruct Hr as (Hs & Hall & Hold). split; [|split].
  - by apply recent_admit.
  - apply window_admit; [done| |done]. rewrite Hlog by lia.
    pose proof (len_filter (λ at_, now - at_ < request_window cfg) times). lia.
  - apply window_admit; [done| |done]. rewrite Hlog by done.
    destruct Hold as (old & Hadm & _). rewrite Hadm in Hs, Hall.
    apply StronglySorted_app_1_r in Hs. apply Forall_app in Hall as [_ Hall].
    pose proof (take_while_recent (burst_window cfg) now times Hs) as Hburst.
    rewrite (take_while_ext _ (λ at_, duration_since now at_ <? burst_window cfg)) in Hburst; [lia|].
    apply Forall_rev. eapply Forall_impl; [exact Hall|]. simpl. intros x Hx.
    by rewrite duration_since_le.
Qed.

Lemma authorize_reconnect_rates previous sq ack now cfg s g :
  clock g <= now → reconnect_inv cfg s g →
  let '(s', r) := authorize_reconnect previous sq ack now cfg s in
  request_times s' = request_times s ∧
  reconnect_inv cfg s' (match r with Ok _ => record_resumed now g | Err _ => tick now g end).
Proof.
  intros Hc Hinv.
  assert (∀ s', same_times s s' → request_times s' = request_times s ∧ reconnect_inv cfg s' (tick now g)) as Htick.
  { intros s' (-> & Ht & Hn). split; [done|]. by apply (reconnect_inv_frame cfg s g). }
  unfold authorize_reconnect. rewrite prune_outbox_unfold.
  do 4 (case_if; [by apply Htick|]). simpl.
  destruct (reconnect_total cfg <=? reconnect_count s) eqn:Etot; [by apply Htick|].
  destruct Hinv as (Hr & Hw & Hn & Htot).
  apply (recent_later _ _ now), recent_prune in Hr; [|done].
  set (times := drop_while _ _) in *. clearbody times.
  destruct (reconnect_window_count cfg <=? len times) eqn:Ewin; simpl; (split; [done|]).
  - by split_and!.
  - split; [by apply recent_admit|]. split.
    + destruct Hr as (_ & Hall & old & Hres & Hold). apply window_admit; [done| |done].
      rewrite Hres, filter_app, len_app, filter_none, len_nil.
      * pose proof (len_filter (λ at_, now - at_ < reconnect_window cfg) times). lia.
      * eapply Forall_impl; [exact Hold|]. simpl. lia.
    + simpl. rewrite len_app, len_cons, len_nil. lia.
Qed.

Definition rates_inv (cfg : SessionConfig) (x : ClientSession Conn Payload * Stream) : Prop :=
  (burst_window cfg <= request_window cfg → request_inv cfg x.1 x.2) ∧ reconnect_inv cfg x.1 x.2.

Lemma rates_inv_frame cfg s g s' g' : clock g <= clock g' →
  admitted g' = admitted g → resumed g' = resumed g → same_times s s' →
  rates_inv cfg (s, g) → rates_inv cfg (s', g').
Proof.
  intros Hc Ha Hr (H1 & H2 & H3) [Hq Hrc].
  split; [intros Hbw; eapply request_inv_frame; [done..|by apply Hq]|by eapply reconnect_inv_frame].
Qed.

Lemma accept_request_rates sid sq a now cfg s g s' r :
  clock g <= now →
  rates_inv cfg (s, g) → accept_request sid sq (wrap_u32 a) now cfg s = (s', r) →
  rates_inv cfg (s', match r with
                     | Ok _ => record_admitted now (record_ack a now g)
                     | Err RequestError.RateLimited => record_ack a now g
                     | Err _ => tick now g
                     end).
Proof.
  intros Hc Hinv He. unfold accept_request in He.
  pose proof (accept_sequence_same_times sid sq (wrap_u32 a) now (resume_ttl cfg) s) as Hs1.
  destruct (accept_sequence _ _ _ _ _ _) as [s1 [u|e]]; simpl in Hs1.
  - assert (rates_inv cfg (s1, record_ack a now g)) as [Hq Hrc] by by eapply rates_inv_frame.
    pose proof (λ Hbw, accept_rate_inv now cfg s1 (record_ack a now g) Hbw (Z.le_refl now) (Hq Hbw)) as Hrate.
    pose proof (accept_rate_frame now cfg s1) as F. destruct_and! F.
    destruct (accept_rate now cfg s1) as [s2 b]; simpl in *.
    destruct b; simplify_eq; (split; [exact Hrate|]);
      eapply (reconnect_inv_frame _ s1 (record_ack a now g)); done.
  - assert (rates_inv cfg (s1, tick now g)) as Hi by by eapply rates_inv_frame.
    simplify_eq. by destruct e.
Qed.

Lemma stream_step_rates client cfg x y :
  rates_inv cfg x → stream_step client cfg x y → rates_inv cfg y.
Proof.
  intros Hinv Hstep. destruct Hstep.
  - eapply rates_inv_frame, Hinv; [done..|].
    pose proof (encode_same_times msgid message now cfg s) as F. by rewrite H1 in F.
  - pose proof (accept_sequence_same_times sid sq (wrap_u32 a) now (resume_ttl cfg) s) as F.
    rewrite H2 in F. eapply rates_inv_frame, Hinv; by destruct r.
  - by eapply accept_request_rates.
  - destruct Hinv as [Hq Hrc].
    pose proof (authorize_reconnect_rates previous sq ack now cfg s g H0 Hrc) as F.
    rewrite H1 in F. destruct F as [F Hrc']. split; [|done].
    intros Hbw. eapply request_inv_frame, Hq, Hbw; by destruct r.
  - pose proof (complete_same_times previous c sq (wrap_u32 a) now cfg s) as F.
    rewrite H2 in F. eapply rates_inv_frame, Hinv; by destruct r.
  - by eapply rates_inv_frame, Hinv.
Qed.

Lemma reachable_rates client cfg x : validate cfg = true →
  reachable client cfg x → rates_inv cfg x.
Proof.
  intros Hv. induction 1 as [c r sq now|x y _ IH Hstep]; [|by eapply stream_step_rates].
  unfold validate in Hv.
  assert (∀ w, recent w now [] []) as Hr by (intros w; split_and!; [constructor..|by exists []]).
  assert (∀ w l, 0 <= l → window_ok w l []) as Hw by (intros w l Hl t; done).
  split; [intros _|]; (split; [apply Hr|]).
  - split; apply Hw; lia.
  - split; [apply Hw; lia|]. split; [done|]. simpl. rewrite len_nil. lia.
Qed.
End rates.

Section rate_theorems.
Context {Conn Msg Payload : Type}.
Context `{!Xnet Conn} `{!CsCodec Msg Payload} `{!Xproto}.
Implicit Types (s : ClientSession Conn Payload) (g : @Stream Payload).

(** C8: the request limiter.  In every run of a session with a valid
    configuration, whatever its client
    sends and acknowledges, any window of
    length [request_window] (5 s) contains at most [request_window_count]
    (15) admitted requests and any window of length [burst_window] (1 s) at
    most [burst_count_limit] (8), wherever the window lies, although the
    session forgets every time older than the long window.  The burst window
    must not be the longer one, as with the limits the program ships. *)
Theorem request_limits_hold cfg s g :
  validate cfg = true → burst_window cfg <= request_window cfg →
  reachable (Msg := Msg) any_ack cfg (s, g) →
  ∀ t, len (within t (request_window cfg) (admitted g)) <= request_window_count cfg
     ∧ len (within t (burst_window cfg) (admitted g)) <= burst_count_limit cfg.
Proof.
  intros Hv Hbw Hr t. destruct (reachable_rates any_ack cfg (s, g) Hv Hr) as [Hq _].
  destruct (Hq Hbw) as (_ & H1 & H2). auto.
Qed.

(** C9: the reconnect limiter.  In every run of a session with a valid
    configuration, whatever its client
    sends and acknowledges, at most
    [reconnect_total] (10) reconnects are authorized, and at most
    [reconnect_window_count] (5) in any window of length [reconnect_window]
    (60 s). *)
Theorem reconnect_limits_hold cfg s g :
  validate cfg = true → reachable (Msg := Msg) any_ack cfg (s, g) →
  len (resumed g) <= reconnect_total cfg
  ∧ ∀ t, len (within t (reconnect_window cfg) (resumed g)) <= reconnect_window_count cfg.
Proof. intros Hv Hr. destruct (reachable_rates any_ack cfg (s, g) Hv Hr) as [_ (_ & H1 & _ & H2)]. auto. Qed.
End rate_theorems.

Lemma request_limits_hold_witness :
  len (within 0 (secs 5) (admitted run.g5)) <= 15 ∧ len (within 0 (secs 1) (admitted run.g5)) <= 8.
Proof.
  apply (request_limits_hold (Xnet0 := run_xnet) (CsCodec0 := run_codec) (H := run_xproto) HARD_LIMITS run.s5 run.g5 eq_refl);
    [vm_compute; congruence|apply run.reach5_any].
Defined.

Lemma reconnect_limits_hold_witness :
  len (resumed run.g5) <= 10 ∧ ∀ t, len (within t (secs 60) (resumed run.g5)) <= 5.
Proof.
  apply (reconnect_limits_hold (Xnet0 := run_xnet) (CsCodec0 := run_codec) (H := run_xproto) HARD_LIMITS run.s5 run.g5 eq_refl).
  apply run.reach5_any.
Defined.
