(* ===== verification/Decimal.v ===== *)
(** Decimal integers: Rust's [to_string] is stdpp's [pretty], and [from_str]
    of a signed integer is [parse_int] with the bounds of its type.  The round
    trip is what the Redis records rely on. *)

From stdpp Require Import pretty.
From S2P Require Import Prelude.

Definition digit_of (a : Ascii.ascii) : option Z :=
  let n := Z.of_nat (Ascii.nat_of_ascii a) in
  if (48 <=? n) && (n <=? 57) then Some (n - 48) else None.

Fixpoint parse_digits (acc : Z) (s : string) : option Z :=
  match s with
  | EmptyString => Some acc
  | String a s => d ← digit_of a; parse_digits (10 * acc + d) s
  end.

Definition minus : Ascii.ascii := Ascii.ascii_of_nat 45.
Definition plus : Ascii.ascii := Ascii.ascii_of_nat 43.

(** Sign and digits; an empty string or a sign alone is an error. *)
Definition parse_Z (s : string) : option Z :=
  match s with
  | EmptyString => None
  | String a s' =>
      if decide (a = minus) then match s' with EmptyString => None | _ => Z.opp <$> parse_digits 0 s' end
      else if decide (a = plus) then match s' with EmptyString => None | _ => parse_digits 0 s' end
      else parse_digits 0 s
  end.

Definition parse_int (lo hi : Z) (s : string) : option Z :=
  z ← parse_Z s; if (lo <=? z) && (z <? hi) then Some z else None.

Definition i64_from_str : string → option Z := parse_int (- 2 ^ 63) (2 ^ 63).
Definition i32_from_str : string → option Z := parse_int (- 2 ^ 31) (2 ^ 31).

(** ** Round trip *)

Lemma digit_of_pretty (d : N) : (d < 10)%N → digit_of (pretty_N_char d) = Some (Z.of_N d).
Proof.
  intros Hd. assert (In d [0; 1; 2; 3; 4; 5; 6; 7; 8; 9]%N) as Hin by (simpl; lia).
  repeat (destruct Hin as [<-|Hin]; [vm_compute; reflexivity|]). destruct Hin.
Qed.

Lemma pretty_N_char_plain d : (d < 10)%N → pretty_N_char d ≠ minus ∧ pretty_N_char d ≠ plus.
Proof.
  intros Hd. pose proof (digit_of_pretty d Hd) as H.
  split; intros Hc; rewrite Hc in H; discriminate.
Qed.

Lemma parse_digits_go (n : N) : ∀ s, (0 < n)%N → parse_digits 0 (pretty_N_go n s) = parse_digits (Z.of_N n) s.
Proof.
  induction (N.lt_wf_0 n) as [n _ IH]. intros s Hn. rewrite pretty_N_go_step by done.
  assert ((n mod 10 < 10)%N) as Hmod by (apply N.mod_lt; lia).
  assert (Z.of_N n = 10 * Z.of_N (n / 10) + Z.of_N (n mod 10)) as Hdiv.
  { pose proof (N.div_mod n 10). lia. }
  destruct (decide (n / 10 = 0)%N) as [H0|H0].
  - rewrite H0, pretty_N_go_0. cbn [parse_digits]. rewrite digit_of_pretty by done. simpl. f_equal. lia.
  - rewrite IH by (try apply N.div_lt; lia). cbn [parse_digits]. rewrite digit_of_pretty by done. cbn. f_equal. lia.
Qed.

Lemma parse_digits_pretty_N (n : N) : parse_digits 0 (pretty n) = Some (Z.of_N n).
Proof.
  unfold pretty, pretty_N. destruct (decide (n = 0)%N) as [->|]; [reflexivity|].
  rewrite parse_digits_go by lia. reflexivity.
Qed.

(** The digits of a number are not empty and hold no sign. *)
Lemma pretty_N_head (n : N) : ∃ a s, pretty n = String a s ∧ a ≠ minus ∧ a ≠ plus.
Proof.
  unfold pretty, pretty_N. case_decide; [by eexists _, _|].
  assert (∀ m s, (∃ a s', s = String a s' ∧ a ≠ minus ∧ a ≠ plus) ∨ (0 < m)%N →
    ∃ a s', pretty_N_go m s = String a s' ∧ a ≠ minus ∧ a ≠ plus) as Hgo; [|apply Hgo; right; lia].
  intros m. induction (N.lt_wf_0 m) as [m _ IH]. intros s Hs.
  destruct (decide (m = 0)%N) as [->|].
  { rewrite pretty_N_go_0. destruct Hs; [done|lia]. }
  rewrite pretty_N_go_step by lia. apply IH; [apply N.div_lt; lia|]. left.
  eexists _, _. split; [done|]. apply pretty_N_char_plain, N.mod_lt. lia.
Qed.

Lemma parse_Z_pretty (z : Z) : parse_Z (pretty z) = Some z.
Proof.
  unfold pretty, pretty_Z.
  destruct z as [|p|p]; [reflexivity| |].
  - destruct (pretty_N_head (N.pos p)) as (a & s & Hp & Hm & Hpl).
    pose proof (parse_digits_pretty_N (N.pos p)) as Hd. change (pretty p) with (pretty (N.pos p)).
    unfold parse_Z. rewrite Hp in *. rewrite !decide_False by done. done.
  - destruct (pretty_N_head (N.pos p)) as (a & s & Hp & _).
    pose proof (parse_digits_pretty_N (N.pos p)) as Hd.
    change (parse_Z (String minus (pretty (N.pos p))) = Some (Z.neg p)).
    unfold parse_Z. rewrite decide_True by done. rewrite Hp in *. rewrite Hd. done.
Qed.

Lemma i64_from_str_pretty z : is_i64 z → i64_from_str (pretty z) = Some z.
Proof.
  intros [? ?]. unfold i64_from_str, parse_int. rewrite parse_Z_pretty. simpl mbind.
  by replace ((_ <=? z) && (z <? _)) with true by lia.
Qed.

Lemma i32_from_str_pretty z : is_i32 z → i32_from_str (pretty z) = Some z.
Proof.
  intros [? ?]. unfold i32_from_str, parse_int. rewrite parse_Z_pretty. simpl mbind.
  by replace ((_ <=? z) && (z <? _)) with true by lia.
Qed.
