(* ===== verification/Redis.v ===== *)
(** Redis as the program sees it.  The server is not part of the repository:
    it is the class [Redis], a state with the commands the sources send and
    the documented effect of each on hashes and sorted sets, together with one
    concrete server to run the model.  A client request (one command, a
    [MULTI]/[EXEC] pipeline or a Lua script) is executed atomically; the
    network may refuse it, or lose the reply after it was executed. *)

From stdpp Require Import pretty.
From S2P Require Import Prelude Effects.

(** ** Commands *)

Inductive RedisCall : Type → Type :=
| HGET (key field : string) : RedisCall (option string)
| HGETALL (key : string) : RedisCall (gmap string string)
| HMGET (key : string) (fields : list string) : RedisCall (list (option string))
| HSET (key : string) (fields : list (string * string)) : RedisCall unit
| HDEL (key field : string) : RedisCall unit
| EXPIRE (key : string) (seconds : Z) : RedisCall unit
| PEXPIRE (key : string) (milliseconds : Z) : RedisCall unit
| ZREMRANGEBYSCORE_to (key : string) (max : Z) : RedisCall unit
| ZADD_NX (key : string) (score : Z) (member : string) : RedisCall unit
| ZRANK (key member : string) : RedisCall (option Z)
| ZREM (key member : string) : RedisCall unit.

(** A request; a script that fails with a Lua error is [None]. *)
Inductive RedisEff (Error : Type) : Type → Type :=
| Atomically {X : Type} (script : prog RedisCall (option X)) : RedisEff Error (Result Error X).
#[global] Arguments Atomically {Error X}.

Definition request {Error X} (script : prog RedisCall (option X)) : prog (RedisEff Error) (Result Error X) :=
  await (Atomically script).

(** A plain command as a request. *)
Definition command {Error X} (c : RedisCall X) : prog (RedisEff Error) (Result Error X) :=
  request (x ← await c; Ret (Some x)).

(** ** The server *)

Definition set_fields (fields : list (string * string)) (h : gmap string string) : gmap string string :=
  foldl (λ h '(f, v), <[f := v]> h) h fields.

(** The order of a sorted set: by score, then by the bytes of the member. *)
Definition before (a b : string * Z) : bool := (a.2 <? b.2) || ((a.2 =? b.2) && String.ltb a.1 b.1).
Definition rank_of (m : gmap string Z) (member : string) : option Z :=
  score ← m !! member;
  Some (len (filter (λ e, before e (member, score) = true) (map_to_list m))).

Class Redis (S : Type) := {
  call : ∀ X, RedisCall X → S → X * S;
  hash : string → S → gmap string string;
  zset : string → S → gmap string Z;
  call_HGET k f s : call _ (HGET k f) s = (hash k s !! f, s);
  call_HGETALL k s : call _ (HGETALL k) s = (hash k s, s);
  call_HMGET k fs s : call _ (HMGET k fs) s = ((λ f, hash k s !! f) <$> fs, s);
  call_ZRANK k m s : call _ (ZRANK k m) s = (rank_of (zset k s) m, s);
  hash_HSET k fs k' s :
    hash k' (call _ (HSET k fs) s).2 = if decide (k = k') then set_fields fs (hash k s) else hash k' s;
  hash_HDEL k f k' s :
    hash k' (call _ (HDEL k f) s).2 = if decide (k = k') then delete f (hash k s) else hash k' s;
  hash_EXPIRE k t k' s : 0 < t → hash k' (call _ (EXPIRE k t) s).2 = hash k' s;
  zset_PEXPIRE k t k' s :
    zset k' (call _ (PEXPIRE k t) s).2 = if decide (k = k' ∧ t <= 0) then ∅ else zset k' s;
  zset_ZREMRANGEBYSCORE k max k' s :
    zset k' (call _ (ZREMRANGEBYSCORE_to k max) s).2 =
      if decide (k = k') then filter (λ e, max < e.2) (zset k s) else zset k' s;
  zset_ZADD_NX k score m k' s :
    zset k' (call _ (ZADD_NX k score m) s).2 =
      if decide (k = k') then match zset k s !! m with Some _ => zset k s | None => <[m := score]> (zset k s) end
      else zset k' s;
  zset_ZREM k m k' s :
    zset k' (call _ (ZREM k m) s).2 = if decide (k = k') then delete m (zset k s) else zset k' s
}.

(** ** The network *)

Inductive Network (Error : Type) := Up | Down (error : Error) | ReplyLost (error : Error).
#[global] Arguments Up {Error}.
#[global] Arguments Down {Error}.
#[global] Arguments ReplyLost {Error}.

Section handler.
Context {Error St : Type} (script_error : Error) `{!Redis St}.

Definition handle_redis (net : Network Error) (X : Type) (e : RedisEff Error X) : St → X * St :=
  match e in RedisEff _ X return St → X * St with
  | Atomically script => λ s,
      match net with
      | Down error => (Err error, s)
      | ReplyLost error => (Err error, (run call script s).2)
      | Up =>
          match run call script s with
          | (Some x, s) => (Ok x, s)
          | (None, s) => (Err script_error, s)
          end
      end
  end.
End handler.

(** ** A concrete server *)

Record RedisStore := mkRedisStore { hashes : gmap string (gmap string string); zsets : gmap string (gmap string Z) }.

Definition at_key {A} (k : string) (m : gmap string (gmap string A)) : gmap string A := default ∅ (m !! k).

Definition store_call (X : Type) (c : RedisCall X) : RedisStore → X * RedisStore :=
  match c in RedisCall X return RedisStore → X * RedisStore with
  | HGET k f => λ s, (at_key k (hashes s) !! f, s)
  | HGETALL k => λ s, (at_key k (hashes s), s)
  | HMGET k fs => λ s, ((λ f, at_key k (hashes s) !! f) <$> fs, s)
  | ZRANK k m => λ s, (rank_of (at_key k (zsets s)) m, s)
  | HSET k fs => λ s, (tt, mkRedisStore (<[k := set_fields fs (at_key k (hashes s))]> (hashes s)) (zsets s))
  | HDEL k f => λ s, (tt, mkRedisStore (<[k := delete f (at_key k (hashes s))]> (hashes s)) (zsets s))
  | EXPIRE k t => λ s, (tt, if 0 <? t then s else mkRedisStore (delete k (hashes s)) (delete k (zsets s)))
  | PEXPIRE k t => λ s, (tt, if 0 <? t then s else mkRedisStore (delete k (hashes s)) (delete k (zsets s)))
  | ZREMRANGEBYSCORE_to k max => λ s,
      (tt, mkRedisStore (hashes s) (<[k := filter (λ e, max < e.2) (at_key k (zsets s))]> (zsets s)))
  | ZADD_NX k score m => λ s,
      (tt, mkRedisStore (hashes s)
             (<[k := match at_key k (zsets s) !! m with
                     | Some _ => at_key k (zsets s)
                     | None => <[m := score]> (at_key k (zsets s))
                     end]> (zsets s)))
  | ZREM k m => λ s, (tt, mkRedisStore (hashes s) (<[k := delete m (at_key k (zsets s))]> (zsets s)))
  end.

Lemma at_key_insert {A} k k' (m : gmap string (gmap string A)) h :
  at_key k' (<[k := h]> m) = if decide (k = k') then h else at_key k' m.
Proof.
  unfold at_key. case_decide; [subst; by rewrite lookup_insert_eq|by rewrite lookup_insert_ne].
Qed.

#[export] Instance store_redis : Redis RedisStore.
Proof.
  refine {| call := store_call; hash k s := at_key k (hashes s); zset k s := at_key k (zsets s) |};
    try reflexivity; intros; simpl; rewrite ?at_key_insert; try done.
  - by replace (0 <? t) with true by lia.
  - destruct (Z.ltb_spec 0 t); case_decide; destruct_and?; simpl; try done; try lia.
    + unfold at_key. subst. by rewrite lookup_delete_eq.
    + unfold at_key. rewrite lookup_delete_ne; [done|]. intros ->. naive_solver.
Defined.

Definition empty_store : RedisStore := mkRedisStore ∅ ∅.
