(* ===== verification/OnlineCache.v ===== *)
(** The records the services share in Redis (src/cache): who a player is and
    where he is served ([online.rs]), the cluster-wide login queue
    ([login_queue.rs]) and the player counts of the instances
    ([service_online.rs]).  Each function is a program over Redis requests;
    an embedded Lua script is a program over the commands it calls. *)

From Stdlib Require Import SpecFloat.
From stdpp Require Import pretty.
From S2P Require Import Prelude Effects Latency Decimal Redis.

#[local] Open Scope string_scope.
#[local] Open Scope Z_scope.

(** ** The owner record of a player *)

Definition ONLINE_TTL_SECONDS : Z := 30 * 24 * 60 * 60.

Record OnlineData := mkOnlineData {
  account : string;
  gid : Z;
  token : string;
  session : Z;
  login_time : Z;
  logout_time : Z;
  public_id : Z;
  gate_id : Z;
  logic_id : Z
}.

#[export] Instance OnlineData_eq_dec : EqDecision OnlineData.
Proof. solve_decision. Defined.

Definition OnlineData_default : OnlineData :=
  {| account := ""; gid := 0; token := ""; session := 0; login_time := 0; logout_time := 0;
     public_id := 0; gate_id := 0; logic_id := 0 |}.

Inductive OnlineError (E : Type) :=
| OnlineRedis (error : E)
| InvalidField (field value : string)
| InvalidGid.
#[global] Arguments OnlineRedis {E}.
#[global] Arguments InvalidField {E}.
#[global] Arguments InvalidGid {E}.

Definition online_key (gid : Z) : string := "gamer:" +:+ pretty gid.

Section online.
Context {E : Type}.
Implicit Types (fields : gmap string string).

Definition parse_i64 fields (field : string) (dflt : Z) : Result (OnlineError E) Z :=
  match fields !! field with
  | None => Ok dflt
  | Some value => match i64_from_str value with Some z => Ok z | None => Err (InvalidField field value) end
  end.

Definition parse_i32 fields (field : string) (dflt : Z) : Result (OnlineError E) Z :=
  match fields !! field with
  | None => Ok dflt
  | Some value => match i32_from_str value with Some z => Ok z | None => Err (InvalidField field value) end
  end.

(** The record of the fields of [HGETALL]. *)
Definition online_of_fields (gid : Z) fields : Result (OnlineError E) OnlineData :=
  gid ← parse_i64 fields "gid" gid;
  session ← parse_i64 fields "sess" 0;
  login_time ← parse_i64 fields "lgin" 0;
  logout_time ← parse_i64 fields "lgou" 0;
  public_id ← parse_i32 fields "psid" 0;
  gate_id ← parse_i32 fields "gsid" 0;
  logic_id ← parse_i32 fields "lsid" 0;
  Ok {| account := default "" (fields !! "acc"); gid := gid; token := default "" (fields !! "token");
        session := session; login_time := login_time; logout_time := logout_time;
        public_id := public_id; gate_id := gate_id; logic_id := logic_id |}.

Definition redis_error {A} (r : Result E A) : Result (OnlineError E) A :=
  match r with Ok a => Ok a | Err e => Err (OnlineRedis e) end.

Definition load_online (gid : Z) : prog (RedisEff E) (Result (OnlineError E) (option OnlineData)) :=
  if gid <=? 0 then Ret (Err InvalidGid)
  else
    reply ← command (HGETALL (online_key gid));
    Ret (fields ← redis_error reply;
         if decide (fields = ∅) then Ok None
         else online ← online_of_fields gid fields; Ok (Some online)).

(** The arguments of the [HSET] of [save_online], in order. *)
Definition online_fields (data : OnlineData) : list (string * string) :=
  [("acc", account data); ("gid", pretty (gid data)); ("token", token data); ("sess", pretty (session data));
   ("lgin", pretty (login_time data)); ("lgou", pretty (logout_time data)); ("psid", pretty (public_id data));
   ("gsid", pretty (gate_id data)); ("lsid", pretty (logic_id data))].

(** The [MULTI]/[EXEC] pipeline of [HSET] and [EXPIRE]. *)
Definition set_and_expire (key : string) (fields : list (string * string)) (seconds : Z) : prog RedisCall (option unit) :=
  _ ← await (HSET key fields);
  _ ← await (EXPIRE key seconds);
  Ret (Some tt).

Definition save_online (data : OnlineData) : prog (RedisEff E) (Result (OnlineError E) unit) :=
  if gid data <=? 0 then Ret (Err InvalidGid)
  else
    reply ← request (set_and_expire (online_key (gid data)) (online_fields data) ONLINE_TTL_SECONDS);
    Ret (redis_error reply).

Definition set_token (gid : Z) (account token : string) : prog (RedisEff E) (Result (OnlineError E) unit) :=
  if gid <=? 0 then Ret (Err InvalidGid)
  else
    reply ← request (set_and_expire (online_key gid) [("acc", account); ("gid", pretty gid); ("token", token)] ONLINE_TTL_SECONDS);
    Ret (redis_error reply).

Definition set_logic_owner (gid logic_id : Z) : prog (RedisEff E) (Result (OnlineError E) unit) :=
  if gid <=? 0 then Ret (Err InvalidGid)
  else
    reply ← command (HSET (online_key gid) [("lsid", pretty logic_id)]);
    Ret (redis_error reply).

(** Lua's [tonumber], a binary64; on the decimal of an [i64] it is the nearest
    double. *)
Class LuaNumber := {
  tonumber : string → option spec_float;
  tonumber_pretty z : is_i64 z → tonumber (pretty z) = Some (f64_of_Z z)
}.

(** [~=] of two Lua values that are numbers or [nil]. *)
Definition lua_ne (a b : option spec_float) : bool :=
  match a, b with
  | Some a, Some b => negb (SFeqb a b)
  | None, None => false
  | _, _ => true
  end.

Context `{!LuaNumber}.

(** The script [CLEAR]. *)
Definition clear_script (key session logout_time : string) : prog RedisCall (option Z) :=
  current ← await (HGET key "sess");
  match current with
  | None => Ret (Some 0)
  | Some current =>
      if lua_ne (tonumber current) (tonumber session) then Ret (Some 0)
      else
        _ ← await (HSET key [("gsid", "0"); ("sess", "0"); ("lgou", logout_time)]);
        Ret (Some 1)
  end.

Definition clear_gate_by_session (gid session logout_time : Z) : prog (RedisEff E) (Result (OnlineError E) bool) :=
  reply ← request (clear_script (online_key gid) (pretty session) (pretty logout_time));
  Ret (cleared ← redis_error reply; Ok (cleared =? 1)).
End online.

(** A [tonumber] for decimal integers, to run the scripts. *)
Definition decimal_tonumber : LuaNumber.
Proof.
  refine {| tonumber s := f64_of_Z <$> parse_Z s |}. intros z _. by rewrite parse_Z_pretty.
Defined.

(** ** The login queue *)

Definition LOGIN_QUEUE_KEY : string := "xkk:login_queue".

(** The script [ENQUEUE], on integers that a double holds exactly; a missing
    rank is the Lua error of adding to [false]. *)
Definition enqueue_script (key member : string) (now_ms ttl_ms : Z) : prog RedisCall (option Z) :=
  let stale_before := now_ms - ttl_ms in
  _ ← await (ZREMRANGEBYSCORE_to key stale_before);
  _ ← await (ZADD_NX key now_ms member);
  _ ← await (PEXPIRE key ttl_ms);
  rank ← await (ZRANK key member);
  Ret (rank ← rank; Some (rank + 1)).

(** [None] is the panic of a failed [assert!]; the TTL is in nanoseconds. *)
Definition enqueue_login {E} (gid now_ms entry_ttl : Z) : prog (RedisEff E) (option (Result E Z)) :=
  if negb (0 <? gid) || (entry_ttl =? 0) then Ret None
  else
    position ← request (enqueue_script LOGIN_QUEUE_KEY (pretty gid) now_ms (entry_ttl / millis 1));
    Ret (Some position).

Definition leave_login_queue {E} (gid : Z) : prog (RedisEff E) (option (Result E unit)) :=
  if negb (0 <? gid) then Ret None
  else
    left ← command (ZREM LOGIN_QUEUE_KEY (pretty gid));
    Ret (Some left).

(** ** Player counts of the instances *)

Definition SERVICE_ONLINE_PREFIX : string := "xkk:service:online".
Definition TTL_REFRESH_COUNT : Z := 3.

Record ServiceOnlineCount := mkServiceOnlineCount { instance_id : Z; online_count : Z }.

Definition MAX_DURATION : Z := secs (2 ^ 64 - 1) + 999999999.

Definition service_online_ttl (refresh_interval : Z) : option Z :=
  if refresh_interval =? 0 then None
  else
    let ttl := refresh_interval * TTL_REFRESH_COUNT in
    if ttl <=? MAX_DURATION then Some ttl else None.

Definition service_online_key (cluster : string) (service_type : Z) : option string :=
  if decide (cluster = "") then None
  else if negb (0 <? service_type) then None
  else Some (SERVICE_ONLINE_PREFIX +:+ ":" +:+ cluster +:+ ":" +:+ pretty service_type).

Definition publish_service_online {E} (cluster : string) (service_type instance_id online_count ttl : Z)
    : prog (RedisEff E) (option (Result E unit)) :=
  let ttl_seconds := ttl / secs 1 in
  if negb (0 <? instance_id) || negb (0 <=? online_count) || negb (0 <? ttl_seconds) then Ret None
  else
    match service_online_key cluster service_type with
    | None => Ret None
    | Some key =>
        reply ← request (set_and_expire key [(pretty instance_id, pretty online_count)] ttl_seconds);
        Ret (Some reply)
    end.

(** [Vec<Option<i32>>] of a reply; a value that is no [i32] is a conversion
    error of the client. *)
Fixpoint i32_values {E} (conversion : E) (values : list (option string)) : Result E (list (option Z)) :=
  match values with
  | [] => Ok []
  | v :: values =>
      first ← match v with
              | None => Ok None
              | Some s => match i32_from_str s with Some z => Ok (Some z) | None => Err conversion end
              end;
      rest ← i32_values conversion values;
      Ok (first :: rest)
  end.

Fixpoint counts_of (ids : list Z) (values : list (option Z)) : list ServiceOnlineCount :=
  match ids, values with
  | id :: ids, v :: values =>
      match v with
      | Some n => mkServiceOnlineCount id n :: counts_of ids values
      | None => counts_of ids values
      end
  | _, _ => []
  end.

Definition load_service_online_counts {E} (conversion : E) (cluster : string) (service_type : Z) (instance_ids : list Z)
    : prog (RedisEff E) (option (Result E (list ServiceOnlineCount))) :=
  match instance_ids with
  | [] => Ret (Some (Ok []))
  | _ =>
      match service_online_key cluster service_type with
      | None => Ret None
      | Some key =>
          reply ← command (HMGET key (pretty <$> instance_ids));
          Ret (Some (reply ← reply; values ← i32_values conversion reply; Ok (counts_of instance_ids values)))
      end
  end.

Definition delete_service_online {E} (cluster : string) (service_type instance_id : Z)
    : prog (RedisEff E) (option (Result E unit)) :=
  if negb (0 <? instance_id) then Ret None
  else
    match service_online_key cluster service_type with
    | None => Ret None
    | Some key =>
        reply ← command (HDEL key (pretty instance_id));
        Ret (Some reply)
    end.
