(* ===== verification/OnlineSpec.v ===== *)
(** What the Redis records promise: the stored record of a player refines an
    [OnlineData], a Gate only clears the record of its own session, and the
    login queue is first come, first served. *)

From Stdlib Require Import SpecFloat.
From stdpp Require Import pretty.
From S2P Require Import Prelude Effects Latency Decimal Redis OnlineCache.

#[local] Open Scope string_scope.
#[local] Open Scope Z_scope.

(** ** Doubles hold small integers exactly *)

Lemma digits2_shift (p : positive) (k : positive) :
  digits2_pos (Pos.iter xO p k) = (digits2_pos p + k)%positive.
Proof.
  induction k as [|k IH] using Pos.peano_ind; [simpl; lia|].
  rewrite Pos.iter_succ. simpl. lia.
Qed.

Lemma digits2_bound (p : positive) : Z.pos p < 2 ^ Z.pos (digits2_pos p) ∧ 2 ^ (Z.pos (digits2_pos p) - 1) <= Z.pos p.
Proof.
  induction p as [p IH|p IH|]; simpl; [| |done]; rewrite Pos2Z.inj_succ, Z.pow_succ_r by lia;
    replace (Z.succ _ - 1) with (Z.succ (Z.pos (digits2_pos p) - 1)) by lia; rewrite Z.pow_succ_r by lia; lia.
Qed.

Lemma Pos_iter_xO (p k : positive) : Z.pos (Pos.iter xO p k) = Z.pos p * 2 ^ Z.pos k.
Proof.
  induction k as [|k IH] using Pos.peano_ind; [simpl; lia|].
  rewrite Pos.iter_succ, Pos2Z.inj_succ, Z.pow_succ_r by lia. lia.
Qed.

(** A mantissa of 53 bits is not rounded. *)
Lemma round_aux_exact (m : positive) (e : Z) : digits2_pos m = 53%positive → -1074 <= e <= 971 →
  binary_round_aux 53 1024 false (Z.pos m) e loc_Exact = S754_finite false m e.
Proof.
  intros Hd He. unfold binary_round_aux, shr_fexp. simpl Zdigits2. rewrite Hd.
  assert (fexp 53 1024 (53 + e) = e) as Hf by (unfold fexp, emin; lia). rewrite Hf, Z.sub_diag. simpl.
  rewrite Hd, Hf, Z.sub_diag. simpl. by replace (e <=? 1024 - 53) with true by lia.
Qed.

Lemma f64_of_small (p : positive) : Z.pos p < 2 ^ 52 →
  ∃ k, Z.pos k = 53 - Z.pos (digits2_pos p) ∧ f64_of_Z (Z.pos p) = S754_finite false (Pos.iter xO p k) (- Z.pos k).
Proof.
  intros Hp. pose proof (digits2_bound p) as [_ Hb].
  assert (Z.pos (digits2_pos p) <= 52) as Hd.
  { destruct (Z.le_gt_cases (Z.pos (digits2_pos p)) 52); [done|].
    assert (2 ^ 52 <= 2 ^ (Z.pos (digits2_pos p) - 1)) by (apply Z.pow_le_mono_r; lia). lia. }
  exists (Z.to_pos (53 - Z.pos (digits2_pos p))). split; [lia|]. set (k := Z.to_pos _).
  assert (Z.pos k = 53 - Z.pos (digits2_pos p)) as Hk by lia.
  unfold f64_of_Z, binary_normalize, binary_round, shl_align.
  assert (fexp 53 1024 (Z.pos (digits2_pos p) + 0) - 0 = Z.neg k) as -> by (unfold fexp, emin; lia).
  replace (fexp 53 1024 (Z.pos (digits2_pos p) + 0)) with (- Z.pos k) by (unfold fexp, emin; lia).
  apply round_aux_exact; [rewrite digits2_shift; lia|lia].
Qed.

(** Below [2^52] two positive integers are equal as doubles exactly when they
    are equal. *)
Lemma f64_eqb_small a b : 0 < a < 2 ^ 52 → 0 < b < 2 ^ 52 → SFeqb (f64_of_Z a) (f64_of_Z b) = (a =? b).
Proof.
  intros Ha Hb. destruct a as [|p|p]; try lia. destruct b as [|q|q]; try lia.
  destruct (f64_of_small p) as (k & Hk & ->); [lia|]. destruct (f64_of_small q) as (l & Hl & ->); [lia|].
  unfold SFeqb, SFcompare. destruct (Z.compare_spec (- Z.pos k) (- Z.pos l)) as [Heq|Hlt|Hgt].
  - assert (l = k) as -> by lia. change (Pos.compare_cont Eq ?x ?y) with (Pos.compare x y).
    pose proof (Pos_iter_xO p k) as Hp. pose proof (Pos_iter_xO q k) as Hq.
    assert (0 < 2 ^ Z.pos k) by (apply Z.pow_pos_nonneg; lia).
    destruct (Pos.compare_spec (Pos.iter xO p k) (Pos.iter xO q k)); destruct (Z.eqb_spec (Z.pos p) (Z.pos q)); try done; nia.
  - destruct (Z.eqb_spec (Z.pos p) (Z.pos q)) as [[= ->]|]; [lia|done].
  - destruct (Z.eqb_spec (Z.pos p) (Z.pos q)) as [[= ->]|]; [lia|done].
Qed.

(** ** Requests on a reachable server *)

Section online.
Context {E S : Type} (script_error : E) `{!Redis S}.
Implicit Types (s : S) (d : OnlineData).
#[local] Abbreviation exec := (run (handle_redis script_error Up)).

Lemma run_request {X} (script : prog RedisCall (option X)) s :
  exec (request script) s =
    match run call script s with (Some x, s) => (Ok x, s) | (None, s) => (Err script_error, s) end.
Proof. unfold request. by rewrite run_await. Qed.

Lemma run_command {X} (c : RedisCall X) s : exec (command c) s = (Ok (call _ c s).1, (call _ c s).2).
Proof. unfold command. rewrite run_request, run_bind, run_await. by destruct (call _ c s). Qed.

Lemma run_set_and_expire key fields seconds s k : 0 < seconds →
  let '(r, s') := run call (set_and_expire key fields seconds) s in
  r = Some tt ∧ hash k s' = if decide (key = k) then set_fields fields (hash key s) else hash k s.
Proof.
  intros Ht. unfold set_and_expire. rewrite run_bind, run_await.
  pose proof (hash_HSET key fields k s) as H1. destruct (call _ (HSET key fields) s) as [[] s1]. simpl in H1.
  rewrite run_bind, run_await. pose proof (hash_EXPIRE key seconds k s1 Ht) as H2.
  destruct (call _ (EXPIRE key seconds) s1) as [[] s2]. simpl in *. split; [done|]. by rewrite H2.
Qed.

#[export] Instance online_key_inj : Inj (=) (=) online_key.
Proof. intros a b H. unfold online_key in H. by simplify_eq. Qed.

(** ** The stored record *)

(** The fields of a record are numbers of their types. *)
Definition online_ok d : Prop :=
  0 < gid d < 2 ^ 63 ∧ is_i64 (session d) ∧ is_i64 (login_time d) ∧ is_i64 (logout_time d)
  ∧ is_i32 (public_id d) ∧ is_i32 (gate_id d) ∧ is_i32 (logic_id d).

(** The server holds the record of [d]: every field reads as [d] has it. *)
Definition stored d s : Prop := ∀ f v, (f, v) ∈ online_fields d → hash (online_key (gid d)) s !! f = Some v.

Lemma set_fields_stored d h f v : (f, v) ∈ online_fields d → set_fields (online_fields d) h !! f = Some v.
Proof.
  unfold online_fields, set_fields. rewrite list_elem_of_In. cbn [foldl In].
  intros Hin. destruct_or?; simplify_eq; by simplify_map_eq.
Qed.

Lemma stored_fields d s : online_ok d → stored d s →
  online_of_fields (E := E) (gid d) (hash (online_key (gid d)) s) = Ok d.
Proof.
  intros (Hg & Hs & Hi & Ho & Hp & Hga & Hl) Hst. set (h := hash _ s).
  assert (∀ f v, (f, v) ∈ online_fields d → h !! f = Some v) as Hh by apply Hst.
  unfold online_of_fields, parse_i64, parse_i32.
  rewrite (Hh "gid" _), (Hh "sess" _), (Hh "lgin" _), (Hh "lgou" _), (Hh "psid" _), (Hh "gsid" _), (Hh "lsid" _),
    (Hh "acc" _), (Hh "token" _) by (repeat constructor).
  assert (is_i64 (gid d)) by (unfold is_i64; lia).
  rewrite !i64_from_str_pretty by done. simpl mbind. rewrite !i32_from_str_pretty by done. by destruct d.
Qed.

Lemma load_stored d s : online_ok d → stored d s → exec (load_online (gid d)) s = (Ok (Some d), s).
Proof.
  intros Hd Hst. unfold load_online. replace (gid d <=? 0) with false by (destruct Hd; lia).
  rewrite run_bind, run_command, call_HGETALL. simpl run. rewrite decide_False.
  - by rewrite stored_fields.
  - intros Hempty. specialize (Hst "acc" (account d)). rewrite Hempty in Hst.
    specialize (Hst ltac:(constructor)). by rewrite lookup_empty in Hst.
Qed.

Lemma save_stored d s : 0 < gid d →
  let '(r, s') := exec (save_online d) s in
  r = Ok tt ∧ stored d s' ∧ ∀ g, g ≠ gid d → hash (online_key g) s' = hash (online_key g) s.
Proof.
  intros Hg. unfold save_online. replace (gid d <=? 0) with false by lia.
  rewrite run_bind, run_request. set (key := online_key (gid d)).
  destruct (run call (set_and_expire key (online_fields d) ONLINE_TTL_SECONDS) s) as [r s'] eqn:Hrun.
  assert (∀ k, r = Some tt ∧ hash k s' = if decide (key = k) then set_fields (online_fields d) (hash key s) else hash k s) as Hk.
  { intros k. pose proof (run_set_and_expire key (online_fields d) ONLINE_TTL_SECONDS s k ltac:(done)) as H.
    by rewrite Hrun in H. }
  destruct (Hk key) as [-> _]. simpl. split_and!; [done| |].
  - intros f v Hin. destruct (Hk key) as [_ Hkey]. fold key. rewrite Hkey, decide_True by done. by apply set_fields_stored.
  - intros g Hne. destruct (Hk (online_key g)) as [_ ->]. apply decide_False. intros Heq.
    by apply online_key_inj in Heq.
Qed.

Lemma load_same_hash g s s' : hash (online_key g) s' = hash (online_key g) s →
  (exec (load_online g) s').1 = (exec (load_online g) s).1.
Proof.
  intros Hh. unfold load_online. destruct (g <=? 0); [done|].
  rewrite !run_bind, !run_command, !call_HGETALL. simpl. by rewrite Hh.
Qed.

(** C14: the Redis record is a faithful map from players to [OnlineData]: what
    [save_online] stores is what the next [load_online] of that player
    answers, field by field through the decimal encoding, and the records of
    the other players do not change. *)
Theorem online_round_trip d s : online_ok d →
  let '(saved, s') := exec (save_online d) s in
  saved = Ok tt
  ∧ exec (load_online (gid d)) s' = (Ok (Some d), s')
  ∧ ∀ g, g ≠ gid d → (exec (load_online g) s').1 = (exec (load_online g) s).1.
Proof.
  intros Hd. pose proof (save_stored d s (proj1 (proj1 Hd))) as H. destruct (exec (save_online d) s) as [r s'].
  destruct H as (-> & Hst & Hother). split_and!; [done|by apply load_stored|].
  intros g Hne. by apply load_same_hash, Hother.
Qed.

(** ** Clearing the Gate *)

Definition with_gate_cleared (logout : Z) d : OnlineData :=
  {| account := account d; gid := gid d; token := token d; session := 0; login_time := login_time d;
     logout_time := logout; public_id := public_id d; gate_id := 0; logic_id := logic_id d |}.

Context `{!LuaNumber}.

Lemma stored_cleared d s s' logout key : key = online_key (gid d) → stored d s →
  hash key s' = set_fields [("gsid", "0"); ("sess", "0"); ("lgou", pretty logout)] (hash key s) →
  stored (with_gate_cleared logout d) s'.
Proof.
  intros -> Hst Hh f v Hin. change (gid (with_gate_cleared logout d)) with (gid d). rewrite Hh.
  unfold online_fields, with_gate_cleared, set_fields in *. apply list_elem_of_In in Hin. cbn [In foldl] in *.
  destruct_or?; simplify_eq; simplify_map_eq; try done; apply Hst, list_elem_of_In; simpl; tauto.
Qed.

(** [clear_gate_by_session] is a compare-and-set on the session: a Gate that
    cleans up an old session (a late disconnect, a kick after a login on
    another Gate) leaves the record of the current session alone, and the
    cleanup of the current session resets exactly the Gate, the session and
    the logout time. *)
Theorem clear_gate_only_current d s sid logout : online_ok d → stored d s →
  0 < session d < 2 ^ 52 → 0 < sid < 2 ^ 52 → is_i64 logout →
  let '(cleared, s') := exec (clear_gate_by_session (gid d) sid logout) s in
  cleared = Ok (sid =? session d)
  ∧ exec (load_online (gid d)) s' = (Ok (Some (if sid =? session d then with_gate_cleared logout d else d)), s')
  ∧ ∀ g, g ≠ gid d → (exec (load_online g) s').1 = (exec (load_online g) s).1.
Proof.
  intros Hd Hst Hs Hsid Hlog. unfold clear_gate_by_session. rewrite run_bind, run_request.
  set (key := online_key (gid d)). unfold clear_script. rewrite run_bind, run_await, call_HGET.
  pose proof (Hst "sess" (pretty (session d)) ltac:(repeat constructor)) as Hsess. fold key in Hsess. rewrite Hsess.
  rewrite !tonumber_pretty by (unfold is_i64; lia). unfold lua_ne. rewrite f64_eqb_small by done.
  rewrite (Z.eqb_sym sid). destruct (Z.eqb_spec (session d) sid) as [Heq|Hne]; simpl negb; cbv iota.
  2:{ simpl. split_and!; [done|by apply load_stored|done]. }
  rewrite run_bind, run_await.
  pose proof (λ k, hash_HSET key [("gsid", "0"); ("sess", "0"); ("lgou", pretty logout)] k s) as Hset.
  destruct (call _ (HSET _ _) s) as [[] s']. simpl in Hset. simpl run. split_and!; [done| |].
  - change (gid d) with (gid (with_gate_cleared logout d)). apply load_stored.
    + unfold online_ok, is_i64, is_i32 in *. simpl. lia.
    + apply (stored_cleared d s s' logout key); [done..|]. rewrite Hset. by apply decide_True.
  - intros g Hg. apply load_same_hash. rewrite Hset. apply decide_False. intros Heq'. by apply online_key_inj in Heq'.
Qed.
End online.

(** Two sessions that one double stands for are the same session to the
    script. *)
Example clear_gate_confuses_large_sessions :
  SFeqb (f64_of_Z (2 ^ 53)) (f64_of_Z (2 ^ 53 + 1)) = true.
Proof. vm_compute. reflexivity. Qed.

(** ** The login queue *)

Section queue.
Context {E S : Type} (script_error : E) `{!Redis S}.
Implicit Types (s : S).
#[local] Abbreviation exec := (run (handle_redis script_error Up)).

Definition queue s : gmap string Z := zset LOGIN_QUEUE_KEY s.

(** The entries that are not stale, and the queue after [gid] entered it: a
    player who waits already keeps his entry. *)
Definition fresh (stale_before : Z) (q : gmap string Z) : gmap string Z := filter (λ e, stale_before < e.2) q.
Definition entered (gid now ttl : Z) (q : gmap string Z) : gmap string Z :=
  let q := fresh (now - ttl) q in
  match q !! pretty gid with Some _ => q | None => <[pretty gid := now]> q end.

Lemma string_ltb_irrefl (x : string) : String.ltb x x = false.
Proof.
  unfold String.ltb. assert (String.compare x x = Eq) as ->; [|done].
  induction x as [|a x IH]; simpl; [done|]. unfold Ascii.compare. by rewrite N.compare_refl.
Qed.

Lemma before_irrefl e : before e e = false.
Proof. unfold before. rewrite Z.ltb_irrefl, Z.eqb_refl, string_ltb_irrefl. done. Qed.

(** Who is ahead of an entry can only shrink. *)
Lemma ahead_mono (m m' : gmap string Z) e :
  (∀ k v, m' !! k = Some v → before (k, v) e = true → m !! k = Some v) →
  len (filter (λ x, before x e = true) (map_to_list m')) <= len (filter (λ x, before x e = true) (map_to_list m)).
Proof.
  intros Hm. unfold len. apply Nat2Z.inj_le, submseteq_length, NoDup_submseteq.
  - apply NoDup_filter, NoDup_map_to_list.
  - intros [k v] [Hb Hin%elem_of_map_to_list]%list_elem_of_filter. apply list_elem_of_filter.
    split; [done|]. by apply elem_of_map_to_list, Hm.
Qed.

Lemma rank_bounds m member r : rank_of m member = Some r → 0 <= r < Z.of_nat (size m).
Proof.
  unfold rank_of. destruct (m !! member) as [score|] eqn:Hm; [|done]. intros [= <-].
  split; [apply len_nonneg|]. rewrite <- (length_map_to_list m).
  assert (NoDup (filter (λ x, before x (member, score) = true) (map_to_list m))) as Hnd
    by apply NoDup_filter, NoDup_map_to_list.
  assert ((member, score) :: filter (λ x, before x (member, score) = true) (map_to_list m) ⊆+ map_to_list m) as Hsub.
  { apply NoDup_submseteq.
    - apply NoDup_cons. split; [|done]. intros [Hb _]%list_elem_of_filter. by rewrite before_irrefl in Hb.
    - intros x Hx. apply elem_of_cons in Hx as [->|Hx]; [by apply elem_of_map_to_list|].
      by apply list_elem_of_filter in Hx as [_ Hx]. }
  apply submseteq_length in Hsub. simpl in Hsub. unfold len. lia.
Qed.

Lemma entered_waits gid now ttl q : is_Some (entered gid now ttl q !! pretty gid).
Proof.
  unfold entered. destruct (fresh (now - ttl) q !! pretty gid) eqn:Hl; [by rewrite Hl|].
  rewrite lookup_insert_eq. by eexists.
Qed.

Lemma run_enqueue gid now ttl s : 0 < gid → millis 1 <= ttl →
  ∃ r s', exec (enqueue_login gid now ttl) s = (Some (Ok (r + 1)), s')
    ∧ queue s' = entered gid now (ttl / millis 1) (queue s) ∧ rank_of (queue s') (pretty gid) = Some r.
Proof.
  intros Hg Ht. unfold enqueue_login. assert (1 <= ttl / millis 1) as Hms by (apply Z.div_le_lower_bound; unfold millis in *; lia).
  replace (0 <? gid) with true by lia. replace (ttl =? 0) with false by (unfold millis in *; lia). simpl.
  set (ms := ttl / millis 1) in *.
  pose proof (zset_ZREMRANGEBYSCORE LOGIN_QUEUE_KEY (now - ms) LOGIN_QUEUE_KEY s) as H1.
  destruct (call _ (ZREMRANGEBYSCORE_to _ _) s) as [[] s1].
  pose proof (zset_ZADD_NX LOGIN_QUEUE_KEY now (pretty gid) LOGIN_QUEUE_KEY s1) as H2.
  destruct (call _ (ZADD_NX _ _ _) s1) as [[] s2].
  pose proof (zset_PEXPIRE LOGIN_QUEUE_KEY ms LOGIN_QUEUE_KEY s2) as H3.
  destruct (call _ (PEXPIRE _ _) s2) as [[] s3]. rewrite call_ZRANK.
  cbn [snd] in H1, H2, H3. rewrite decide_True in H1, H2 by done. rewrite decide_False in H3 by lia.
  assert (queue s3 = entered gid now ms (queue s)) as Hq.
  { unfold queue. rewrite H3, H2, H1. reflexivity. }
  assert (is_Some (rank_of (queue s3) (pretty gid))) as [r Hr].
  { rewrite Hq. unfold rank_of. destruct (entered_waits gid now ms (queue s)) as [v ->]. by eexists. }
  unfold queue in Hr. rewrite Hr. simpl. exists r, s3. by split_and!.
Qed.

Lemma run_leave gid s : 0 < gid →
  ∃ s', exec (leave_login_queue gid) s = (Some (Ok tt), s') ∧ queue s' = delete (pretty gid) (queue s).
Proof.
  intros Hg. unfold leave_login_queue. replace (0 <? gid) with true by lia. simpl negb. cbv iota.
  rewrite run_bind, run_command. pose proof (zset_ZREM LOGIN_QUEUE_KEY (pretty gid) LOGIN_QUEUE_KEY s) as H.
  destruct (call _ (ZREM _ _) s) as [[] s']. rewrite decide_True in H by done. simpl. by eexists.
Qed.

(** Entering the login queue answers the player's position: stale entries
    are dropped first, a waiting player keeps the entry he has, and the answer
    is one more than the number of entries ahead of his, at most the length
    of the queue.  The script does not fail. *)
Theorem enqueue_login_position gid now ttl s : 0 < gid → millis 1 <= ttl →
  ∃ pos s', exec (enqueue_login gid now ttl) s = (Some (Ok pos), s')
    ∧ queue s' = entered gid now (ttl / millis 1) (queue s)
    ∧ rank_of (queue s') (pretty gid) = Some (pos - 1)
    ∧ 1 <= pos <= Z.of_nat (size (queue s')).
Proof.
  intros Hg Ht. destruct (run_enqueue gid now ttl s Hg Ht) as (r & s' & Hrun & Hq & Hr).
  exists (r + 1), s'. replace (r + 1 - 1) with r by lia. pose proof (rank_bounds _ _ _ Hr). split_and!; [done..|lia|lia].
Qed.

(** What the players of the cluster do to the queue: they enter it or poll
    their position, and they leave it. *)
Inductive queue_op := Enqueue (gid now ttl : Z) | Leave (gid : Z).

Definition run_op s (op : queue_op) : S :=
  match op with
  | Enqueue gid now ttl => (exec (enqueue_login gid now ttl) s).2
  | Leave gid => (exec (leave_login_queue gid) s).2
  end.

(** While [me] waits with [score] and his entry is not stale: he polls, others
    poll or arrive in a later millisecond, others leave. *)
Definition while_waiting (me score : Z) (op : queue_op) : Prop :=
  match op with
  | Enqueue gid now ttl => 0 < gid ∧ millis 1 <= ttl ∧ now - ttl / millis 1 < score ∧ (gid = me ∨ score < now)
  | Leave gid => 0 < gid ∧ gid ≠ me
  end.

Lemma run_op_ahead me score s op : while_waiting me score op → queue s !! pretty me = Some score →
  queue (run_op s op) !! pretty me = Some score
  ∧ ∀ k v, queue (run_op s op) !! k = Some v → before (k, v) (pretty me, score) = true → queue s !! k = Some v.
Proof.
  intros Hop Hme. destruct op as [gid now ttl|gid]; simpl in *.
  - destruct Hop as (Hg & Ht & Hfresh & Hlate). destruct (run_enqueue gid now ttl s Hg Ht) as (r & s' & -> & Hq & _). simpl. rewrite Hq. unfold entered.
    assert (fresh (now - ttl / millis 1) (queue s) !! pretty me = Some score) as Hme'.
    { by apply map_lookup_filter_Some. }
    case_match eqn:Hl; [split; [done|by intros k v [? _]%map_lookup_filter_Some]|].
    destruct Hlate as [->|Hlate]; [congruence|].
    assert (pretty gid ≠ pretty me) as Hne' by (intros Heq; congruence).
    rewrite lookup_insert_ne by done. split; [done|]. intros k v [[<- <-]|[? [Hk _]%map_lookup_filter_Some]]%lookup_insert_Some Hb; [|done].
      unfold before in Hb. simpl in Hb. destruct (Z.ltb_spec now score), (Z.eqb_spec now score); simpl in Hb; (done || lia).
  - destruct Hop as (Hg & Hne). assert (pretty gid ≠ pretty me) as Hne' by (by intros ?%(inj pretty)).
    destruct (run_leave gid s Hg) as (s' & -> & Hq). simpl. rewrite Hq. split; [by rewrite lookup_delete_ne|].
    by intros k v [? ?]%lookup_delete_Some.
Qed.

Lemma run_ops_ahead me score s ops r : Forall (while_waiting me score) ops →
  queue s !! pretty me = Some score → rank_of (queue s) (pretty me) = Some r →
  queue (foldl run_op s ops) !! pretty me = Some score
  ∧ ∃ r', rank_of (queue (foldl run_op s ops)) (pretty me) = Some r' ∧ r' <= r.
Proof.
  intros Hops. revert s r. induction Hops as [|op ops Hop _ IH]; intros s r Hme Hr; [split; [done|by exists r]|].
  simpl. destruct (run_op_ahead me score s op Hop Hme) as [Hme' Hahead].
  destruct (IH (run_op s op) (len (filter (λ x, before x (pretty me, score) = true) (map_to_list (queue (run_op s op))))))
    as (Hlast & r' & Hr' & Hle); [done|unfold rank_of; by rewrite Hme'|].
  split; [done|]. exists r'. split; [done|]. unfold rank_of in Hr. rewrite Hme in Hr. injection Hr as <-.
  pose proof (ahead_mono _ _ _ Hahead). lia.
Qed.

(** C15: the queue is first come, first served: a waiting player is not
    overtaken.  While his entry is not stale and Redis answers, whatever happens to the
    queue (he polls, others arrive in a later millisecond, poll or leave, all
    with entries that live at least a millisecond), he keeps
    his entry and his position only improves; and the position that his next
    poll answers is never behind the one he had.  (Players who arrive in the
    same millisecond are ordered by the text of their ids.) *)
Theorem waiting_player_not_overtaken me score s ops r now ttl : Forall (while_waiting me score) ops →
  queue s !! pretty me = Some score → rank_of (queue s) (pretty me) = Some r →
  while_waiting me score (Enqueue me now ttl) →
  let s' := foldl run_op s ops in
  queue s' !! pretty me = Some score
  ∧ (∃ r', rank_of (queue s') (pretty me) = Some r' ∧ r' <= r)
  ∧ ∃ pos, (exec (enqueue_login me now ttl) s').1 = Some (Ok pos) ∧ pos <= r + 1.
Proof.
  intros Hops Hme Hr Hpoll s'. destruct (run_ops_ahead me score s ops r Hops Hme Hr) as (Hme1 & Hr1).
  split_and!; [exact Hme1|exact Hr1|].
  destruct (run_ops_ahead me score s (ops ++ [Enqueue me now ttl]) r) as (_ & r2 & Hr2 & Hle);
    [by apply Forall_app; split; [|apply Forall_singleton]|done|done|].
  rewrite foldl_app in Hr2. fold s' in Hr2. simpl in Hr2. destruct Hpoll as (Hg & Ht & _).
  destruct (run_enqueue me now ttl s' Hg Ht) as (r3 & s3 & Hrun & _ & Hr3). rewrite Hrun in Hr2 |- *.
  simpl in Hr2. rewrite Hr3 in Hr2. injection Hr2 as ->. exists (r2 + 1). split; [done|lia].
Qed.
End queue.

(** ** The counts of the service instances *)

Section counts.
Context {E S : Type} (script_error conversion : E) `{!Redis S}.
Implicit Types (s : S) (m : gmap Z Z).
#[local] Abbreviation exec := (run (handle_redis script_error Up)).

(** The hash under [key] holds the counts of [m]. *)
Definition published (key : string) m s : Prop := ∀ i : Z, hash key s !! pretty i = (λ n : Z, pretty n) <$> m !! i.

Lemma i32_values_counts m ids : map_Forall (λ _ n, is_i32 n) m →
  i32_values conversion ((λ i, (λ n : Z, pretty n) <$> m !! i) <$> ids) = Ok ((λ i, m !! i) <$> ids).
Proof.
  intros Hm. induction ids as [|i ids IH]; [done|]. rewrite !fmap_cons. cbn [i32_values].
  rewrite IH. destruct (m !! i) as [n|] eqn:Hi; [|done]. simpl. by rewrite i32_from_str_pretty by (by apply (Hm i)).
Qed.

Lemma counts_of_lookup m ids :
  counts_of ids ((λ i, m !! i) <$> ids) = omap (λ i, mkServiceOnlineCount i <$> m !! i) ids.
Proof. induction ids as [|i ids IH]; [done|]. rewrite fmap_cons. simpl. rewrite IH. by destruct (m !! i). Qed.

(** C16: the published counts behave as one map from instance to count: publishing
    sets one entry, deleting removes one, and loading answers, in the order asked, exactly the instances that have an
    entry; for positive ids, counts that are not negative, a life of at least a
    second and a Redis that answers. *)
Theorem service_counts_refine_map cluster ty key m s :
  service_online_key cluster ty = Some key → published key m s → map_Forall (λ _ n, is_i32 n) m →
  (∀ i n ttl, 0 < i → 0 <= n → secs 1 <= ttl →
     let '(r, s') := exec (publish_service_online cluster ty i n ttl) s in
     r = Some (Ok tt) ∧ published key (<[i := n]> m) s')
  ∧ (∀ i, 0 < i →
     let '(r, s') := exec (delete_service_online cluster ty i) s in
     r = Some (Ok tt) ∧ published key (delete i m) s')
  ∧ (∀ ids, exec (load_service_online_counts conversion cluster ty ids) s =
       (Some (Ok (omap (λ i, mkServiceOnlineCount i <$> m !! i) ids)), s)).
Proof.
  intros Hkey Hp Hm. split_and!.
  - intros i n ttl Hi Hn Ht. unfold publish_service_online.
    assert (1 <= ttl / secs 1) by (apply Z.div_le_lower_bound; unfold secs in *; lia).
    replace (0 <? i) with true by lia. replace (0 <=? n) with true by lia.
    replace (0 <? ttl / secs 1) with true by lia. cbv [negb orb]. rewrite Hkey, run_bind, run_request.
    pose proof (run_set_and_expire key [(pretty i, pretty n)] (ttl / secs 1) s key ltac:(lia)) as H1.
    destruct (run call _ s) as [r s']. destruct H1 as [-> Hh]. simpl run. split; [done|].
    intros j. rewrite Hh, decide_True by done. simpl. destruct (decide (i = j)) as [->|Hne].
    + by rewrite !lookup_insert_eq.
    + rewrite !lookup_insert_ne; [done..|]. by intros ?%(inj pretty).
  - intros i Hi. unfold delete_service_online. replace (0 <? i) with true by lia. cbv [negb].
    rewrite Hkey, run_bind, run_command. pose proof (hash_HDEL key (pretty i) key s) as Hh.
    rewrite decide_True in Hh by done. destruct (call _ (HDEL _ _) s) as [[] s']. simpl in *. split; [done|].
    intros j. rewrite Hh. destruct (decide (i = j)) as [->|Hne]; [by rewrite !lookup_delete_eq|].
    rewrite !lookup_delete_ne; [done..|]. by intros ?%(inj pretty).
  - intros ids. unfold load_service_online_counts. destruct ids as [|i ids]; [done|]. generalize (i :: ids) as l; intros l.
    rewrite Hkey, run_bind, run_command, call_HMGET.
    assert ((λ f, hash key s !! f) <$> (pretty <$> l) = (λ j, (λ n : Z, pretty n) <$> m !! j) <$> l) as Hl.
    { rewrite <- list_fmap_compose. apply list_fmap_ext. intros _ j _. apply Hp. }
    simpl fst. rewrite Hl. simpl snd. cbn [run]. unfold mbind at 1. cbn [Result_bind].
    rewrite i32_values_counts by done. cbn [Result_bind mbind]. by rewrite counts_of_lookup.
Qed.
End counts.

(** ** Runs *)
Module online_example.
#[local] Existing Instance decimal_tonumber.
Definition exec {A} (p : prog (RedisEff unit) A) (s : RedisStore) : A * RedisStore := run (handle_redis tt Up) p s.

Definition player : OnlineData :=
  {| account := "alice"; gid := 7; token := "t0k"; session := 4611686018427; login_time := 1700000000; logout_time := 0;
     public_id := 3; gate_id := 2; logic_id := 5 |}.
Definition saved : RedisStore := (exec (save_online player) empty_store).2.

Lemma player_ok : online_ok player.
Proof. unfold online_ok, is_i64, is_i32, player. simpl. lia. Qed.

Lemma player_stored : stored player saved.
Proof. pose proof (save_stored tt player empty_store ltac:(done)) as H. apply H. Qed.

Definition waiting : RedisStore :=
  (exec (_ ← enqueue_login 7 1000 (secs 30); enqueue_login 8 2000 (secs 30)) empty_store).2.
Definition others : list queue_op := [Enqueue 9 3000 (secs 30); Enqueue 8 4000 (secs 30); Leave 7; Enqueue 10 3000 (secs 30)].
End online_example.
Import online_example.
#[local] Existing Instance decimal_tonumber.

Lemma online_round_trip_witness :
  let '(r, s') := exec (save_online player) empty_store in
  r = Ok tt ∧ exec (load_online 7) s' = (Ok (Some player), s').
Proof.
  pose proof (online_round_trip tt player empty_store player_ok) as H. unfold exec.
  destruct (run _ _ _) as [r s']. destruct H as (H1 & H2 & _). exact (conj H1 H2).
Defined.

Lemma clear_gate_only_current_witness :
  (let '(cleared, s') := exec (clear_gate_by_session 7 99 5) saved in
   cleared = Ok false ∧ (exec (load_online 7) s').1 = Ok (Some player)).
Proof.
  pose proof (clear_gate_only_current tt player saved 99 5 player_ok player_stored
    ltac:(done) ltac:(done) ltac:(done)) as H. unfold exec. change (gid player) with 7 in H.
  destruct (run _ _ _) as [r s']. destruct H as (H1 & H2 & _). rewrite H2. exact (conj H1 eq_refl).
Defined.

Lemma enqueue_login_position_witness :
  0 < 9 ∧ ∃ pos s', exec (enqueue_login 9 3000 (secs 30)) waiting = (Some (Ok pos), s') ∧ pos = 3.
Proof.
  split; [done|]. destruct (enqueue_login_position tt 9 3000 (secs 30) waiting) as (pos & s' & H & _); [done|done|].
  exists pos, s'. split; [exact H|]. assert (Some (Ok (E := unit) pos) = Some (Ok 3)) as Hp; [|by injection Hp].
  transitivity (exec (enqueue_login 9 3000 (secs 30)) waiting).1; [unfold exec; by rewrite H|].
  vm_compute. reflexivity.
Defined.

Lemma waiting_player_not_overtaken_witness :
  ∃ pos, (exec (enqueue_login 8 5000 (secs 30)) (foldl (run_op tt) waiting others)).1 = Some (Ok pos) ∧ pos <= 2.
Proof.
  apply (waiting_player_not_overtaken tt 8 2000 waiting others 1 5000 (secs 30)).
  - repeat constructor; unfold secs, millis; (lia || (by left) || (by right) || done).
  - vm_compute. reflexivity.
  - vm_compute. reflexivity.
  - repeat constructor; unfold secs, millis; (lia || (by left) || done).
Defined.

Lemma service_counts_refine_map_witness :
  let s' := (exec (publish_service_online "local" 2 5 40 (secs 9)) empty_store).2 in
  exec (load_service_online_counts tt "local" 2 [5; 6]) s' = (Some (Ok [mkServiceOnlineCount 5 40]), s').
Proof.
  assert (service_online_key "local" 2 = Some "xkk:service:online:local:2") as Hkey by reflexivity.
  destruct (service_counts_refine_map tt tt _ _ _ ∅ empty_store Hkey) as (Hpub & _).
  { intros i. reflexivity. }
  { intros i n Hn. by rewrite lookup_empty in Hn. }
  specialize (Hpub 5 40 (secs 9) ltac:(done) ltac:(done) ltac:(done)). unfold exec. cbv zeta.
  destruct (run (handle_redis tt Up) (publish_service_online _ _ _ _ _) empty_store) as [r s'].
  destruct Hpub as [_ Hpub].
  destruct (service_counts_refine_map tt tt _ _ _ _ s' Hkey Hpub) as (_ & _ & Hload).
  { intros i n [[<- <-]|[_ Hn]]%lookup_insert_Some; [unfold is_i32; lia|by rewrite lookup_empty in Hn]. }
  exact (Hload [5; 6]).
Defined.
