(* ===== verification/GateSessions.v ===== *)
(** The sessions of a Gate (service/gate/src/session.rs, [ClientSessions]): a
    map from player to a shared, locked [ClientSession].  The cells live in a
    heap of their own, because a replaced or kicked cell is still reachable
    from a task that looked it up before.  Each method is a program over the
    critical sections it enters, so that the methods of concurrent tasks
    interleave between a map lookup and the session lock, and between the two
    sections of [kick]. *)

From S2P Require Import Prelude Effects Proto GateSession.

(** ** Connections *)

Inductive NetError := Backpressure | NetOther.

(** What a critical section does outside of the store. *)
Inductive ConnEff (Conn Payload : Type) : Type → Type :=
| SendShared (c : Conn) (p : Payload) : ConnEff Conn Payload (Result NetError unit)
| Close (c : Conn) : ConnEff Conn Payload unit
| InstantNow : ConnEff Conn Payload Z.
#[global] Arguments SendShared {Conn Payload}.
#[global] Arguments Close {Conn Payload}.
#[global] Arguments InstantNow {Conn Payload}.

Module SendError.
Inductive t := SessionMismatch | QueueFull | Transport (error : NetError) | Protocol.
End SendError.

Record StoreStats := mkStoreStats {
  stats_players : Z;
  stats_active : Z;
  stats_offline : Z;
  stats_outbox_messages : Z
}.
Definition StoreStats_default : StoreStats := mkStoreStats 0 0 0 0.

Record ClosingSession := mkClosingSession {
  closing_gid : Z;
  closing_session_id : Z;
  closing_routes : Routes
}.

(** ** The store *)

Section ClientSessions.
Context {Conn Msg Payload : Type}.
Context `{!Xnet Conn} `{!CsCodec Msg Payload} `{!Xproto} `{!MapIter Z nat}.

#[local] Abbreviation Session := (ClientSession Conn Payload).
#[local] Abbreviation io := (prog (ConnEff Conn Payload)).

(** The map of the players, and the heap of the [Arc<Mutex<_>>] cells. *)
Record Sessions := mkSessions { players : gmap Z nat; cells : list Session }.

Definition eta_Sessions (s : Sessions) : Sessions := mkSessions (players s) (cells s).
Definition on_players : (gmap Z nat → gmap Z nat) → Sessions → Sessions := ltac:(derive_update eta_Sessions players).
Definition on_cells : (list Session → list Session) → Sessions → Sessions := ltac:(derive_update eta_Sessions cells).

Inductive SessionsEff : Type → Type :=
| GetSession (gid : Z) : SessionsEff (option nat)
| LockSession {R : Type} (a : nat) (gone : R) (f : Session → io (R * Session)) : SessionsEff R
| LockPlayers {R : Type} (f : Sessions → io (R * Sessions)) : SessionsEff R.

(** The session that the map has for a player. *)
Definition attached (st : Sessions) (gid : Z) : option Session := a ← players st !! gid; cells st !! a.

Variable config : SessionConfig.

(** [ClientSessions::new]; [None] is a failed assertion of [validate]. *)
Definition sessions_new : option Sessions := if validate config then Some (mkSessions ∅ []) else None.

(** The message that [kick] sends. *)
Variable kick_message : KickNtf → Msg.

(** [ClientSessions::get], then the lock of the session.  A task only holds
    addresses that the map gave it, and cells are never freed while one is
    held: the answer [gone] of a dangling address is not reached. *)
Definition locked {R} (gid : Z) (missing : R) (f : Session → io (R * Session)) : prog SessionsEff R :=
  session ← await (GetSession gid);
  match session with
  | None => Ret missing
  | Some a => await (LockSession a missing f)
  end.

(** A section that does no input or output. *)
Definition pure_section {R} (f : Session → Session * R) : Session → io (R * Session) :=
  λ s, let '(s, r) := f s in Ret (r, s).

Definition install_login (gid : Z) (c : Conn) (routes : Routes) (client_seq : Z) : prog SessionsEff bool :=
  await (LockPlayers (λ st,
    let previous_active := match attached st gid with Some s => active s | None => false end in
    Ret (negb previous_active,
         mkSessions (<[gid := length (cells st)]> (players st)) (cells st ++ [new c routes client_seq])))).

Definition sessions_authorize_reconnect (gid previous_session client_seq ack now : Z)
    : prog SessionsEff (Result ResumeError.t Routes) :=
  locked gid (Err ResumeError.Missing) (pure_section (authorize_reconnect previous_session client_seq ack now config)).

Definition sessions_complete_reconnect (gid previous_session : Z) (c : Conn) (client_seq ack now : Z)
    : prog SessionsEff (Result ResumeError.t (ReconnectResult Payload)) :=
  locked gid (Err ResumeError.Missing) (pure_section (complete_reconnect previous_session c client_seq ack now config)).

Definition sessions_accept_request (gid session_id seq ack now : Z) : prog SessionsEff (Result RequestError.t Routes) :=
  locked gid (Err RequestError.SessionMismatch) (pure_section (accept_request session_id seq ack now config)).

Definition acknowledge (gid session_id seq ack now : Z) : prog SessionsEff (Result RequestError.t unit) :=
  locked gid (Err RequestError.SessionMismatch) (pure_section (accept_sequence session_id seq ack now (resume_ttl config))).

(** The connection of an active session is there; the branch without one is
    the [expect] that cannot fail. *)
Definition send_section (sid : Z) (msgid : MsgId.t) (message : Msg) (s : Session)
    : io (Result SendError.t unit * Session) :=
  if negb (session_id s =? sid) || negb (active s) then Ret (Err SendError.SessionMismatch, s)
  else
    now ← await InstantNow;
    let '(s, encoded) := encode msgid message now config s in
    match encoded, conn s with
    | None, _ => Ret (Err SendError.Protocol, s)
    | Some _, None => Ret (Err SendError.SessionMismatch, s)
    | Some payload, Some c =>
        sent ← await (SendShared c payload);
        Ret (match sent with
             | Ok _ => Ok tt
             | Err Backpressure => Err SendError.QueueFull
             | Err error => Err (SendError.Transport error)
             end, s)
    end.

Definition send (gid sid : Z) (msgid : MsgId.t) (message : Msg) : prog SessionsEff (Result SendError.t unit) :=
  locked gid (Err SendError.SessionMismatch) (send_section sid msgid message).

Definition current_session (gid : Z) : prog SessionsEff (option Z) :=
  locked gid None (pure_section (λ s, (s, if active s then Some (session_id s) else None))).

Definition disconnect_session (sid now : Z) (s : Session) : Session * option Routes :=
  if negb (session_id s =? sid) || negb (active s) then (s, None)
  else (with_disconnected_at (Some now) (with_conn None s), Some (routes s)).

Definition disconnect (gid sid now : Z) : prog SessionsEff (option Routes) :=
  locked gid None (pure_section (disconnect_session sid now)).

(** The first section of [kick]: the connection is taken and told. *)
Definition kick_section (sid code : Z) (reason : string) (s : Session) : io (option (option Conn) * Session) :=
  if negb (session_id s =? sid) then Ret (None, s)
  else
    let c := conn s in
    let s := with_conn None s in
    s ← (match c with
         | None => Ret s
         | Some conn =>
             now ← await InstantNow;
             let '(s, encoded) := encode MsgId.KickNtf (kick_message (mkKickNtf code reason)) now config s in
             match encoded with
             | None => Ret s
             | Some payload => _ ← await (SendShared conn payload); Ret s
             end
         end);
    Ret (Some c, s).

(** The second section: the cell is removed if the map still has it. *)
Definition kick_remove (gid : Z) (a : nat) (c : option Conn) (st : Sessions) : io (option bool * Sessions) :=
  let st := if decide (players st !! gid = Some a) then on_players (delete gid) st else st in
  _ ← (match c with Some conn => await (Close conn) | None => Ret tt end);
  Ret (Some (bool_decide (is_Some c)), st).

Definition kick (gid sid code : Z) (reason : string) : prog SessionsEff (option bool) :=
  session ← await (GetSession gid);
  match session with
  | None => Ret None
  | Some a =>
      taken ← await (LockSession a None (kick_section sid code reason));
      match taken with
      | None => Ret None
      | Some c => await (LockPlayers (kick_remove gid a c))
      end
  end.

Definition invalidate (gid sid : Z) : prog SessionsEff bool :=
  await (LockPlayers (λ st,
    match attached st gid with
    | None => Ret (false, st)
    | Some s =>
        let matches := session_id s =? sid in
        Ret (matches, if matches then on_players (delete gid) st else st)
    end)).

Definition keep_session (now : Z) (s : Session) : bool :=
  active s || match disconnected_at s with Some at_ => duration_since now at_ <=? resume_ttl config | None => false end.

Definition prune_expired (now : Z) : prog SessionsEff Z :=
  await (LockPlayers (λ st,
    let keep := λ a : nat, match cells st !! a with Some s => keep_session now s | None => false end in
    Ret (len (filter (λ e, keep e.2 = false) (map_to_list (players st))),
         on_players (filter (λ e, keep e.2 = true)) st))).

Definition count_session (st : StoreStats) (s : Session) : StoreStats :=
  {| stats_players := stats_players st;
     stats_active := stats_active st + (if active s then 1 else 0);
     stats_offline := stats_offline st + (if active s then 0 else 1);
     stats_outbox_messages := stats_outbox_messages st + len (outbox s) |}.

Definition stats : prog SessionsEff StoreStats :=
  await (LockPlayers (λ st,
    Ret (foldl count_session (mkStoreStats (Z.of_nat (size (players st))) 0 0 0)
           (omap (λ e, cells st !! e.2) (map_iter (players st))), st))).

Fixpoint drain_loop (entries : list (Z * nat)) (cs : list Session) : io (list ClosingSession * list Session) :=
  match entries with
  | [] => Ret ([], cs)
  | (gid, a) :: entries =>
      match cs !! a with
      | None => drain_loop entries cs
      | Some s =>
          _ ← (match conn s with Some c => await (Close c) | None => Ret tt end);
          '(rest, cs) ← drain_loop entries (<[a := with_conn None s]> cs);
          Ret (mkClosingSession gid (session_id s) (routes s) :: rest, cs)
      end
  end.

Definition drain : prog SessionsEff (list ClosingSession) :=
  await (LockPlayers (λ st,
    '(closing, cs) ← drain_loop (map_iter (players st)) (cells st);
    Ret (closing, mkSessions ∅ cs))).

(** ** A world to run the sections in

    The outgoing bytes of the connections, in the order of the sends, the
    closed connections, and the clock.  The environment decides which
    connections refuse a send. *)
Record World := mkWorld {
  sessions : Sessions;
  wire : list (Z * Payload);
  closed : list Z;
  clock : Z;
  refuses : Z → option NetError
}.

Definition eta_World (s : World) : World := mkWorld (sessions s) (wire s) (closed s) (clock s) (refuses s).
Definition on_sessions : (Sessions → Sessions) → World → World := ltac:(derive_update eta_World sessions).
Definition on_wire : (list (Z * Payload) → list (Z * Payload)) → World → World := ltac:(derive_update eta_World wire).
Definition on_closed : (list Z → list Z) → World → World := ltac:(derive_update eta_World closed).

Definition handle_conn (X : Type) (e : ConnEff Conn Payload X) : World → X * World :=
  match e in ConnEff _ _ X return World → X * World with
  | SendShared c p => λ w,
      match refuses w (conn_session_id c) with
      | Some error => (Err error, w)
      | None => (Ok tt, on_wire (λ l, l ++ [(conn_session_id c, p)]) w)
      end
  | Close c => λ w, (tt, on_closed (λ l, l ++ [conn_session_id c]) w)
  | InstantNow => λ w, (clock w, w)
  end.

(** A critical section runs alone. *)
Definition handle_sessions (X : Type) (e : SessionsEff X) : World → X * World :=
  match e in SessionsEff X return World → X * World with
  | GetSession gid => λ w, (players (sessions w) !! gid, w)
  | LockSession a gone f => λ w,
      match cells (sessions w) !! a with
      | None => (gone, w)
      | Some s =>
          let '((r, s), w) := run handle_conn (f s) w in
          (r, on_sessions (on_cells <[a := s]>) w)
      end
  | LockPlayers f => λ w,
      let '((r, st), w) := run handle_conn (f (sessions w)) w in
      (r, on_sessions (λ _, st) w)
  end.
End ClientSessions.
#[global] Arguments SessionsEff Conn Payload : clear implicits.
#[global] Arguments Sessions Conn Payload : clear implicits.
#[global] Arguments World Conn Payload : clear implicits.
