(* ===== verification/GateSessionsSpec.v ===== *)
(** What the sessions of a Gate guarantee: a connection that was replaced can
    do nothing, the number of online players follows from what the calls
    answer, expiry keeps every stream that may still be resumed, and the
    frames of one connection leave in the order of their sequence numbers. *)

From S2P Require Import Prelude Effects Proto GateSession GateSessions.

Section spec.
Context {Conn Msg Payload : Type}.
Context `{!Xnet Conn} `{!CsCodec Msg Payload} `{!Xproto} `{!MapIter Z nat}.
Variable config : SessionConfig.
Variable kick_message : KickNtf → Msg.
#[local] Abbreviation Session := (ClientSession Conn Payload).
#[local] Abbreviation exec := (run handle_sessions).
Implicit Types (w : World Conn Payload) (st : Sessions Conn Payload) (s : Session).

(** ** Critical sections *)

Lemma run_get gid w : exec (await (GetSession gid)) w = (players (sessions w) !! gid, w).
Proof. by rewrite run_await. Qed.

(** The inputs and outputs of a section leave the store alone. *)
Lemma conn_keeps_sessions {A} (p : prog (ConnEff Conn Payload) A) w : sessions (run handle_conn p w).2 = sessions w.
Proof.
  revert w. induction p as [a|X e k IH]; intros w; [done|]. cbn [run].
  assert (sessions (handle_conn X e w).2 = sessions w) as He.
  { destruct e as [c p| |]; simpl; [by destruct (refuses w _)|done|done]. }
  destruct (handle_conn X e w) as [x w1]. simpl in He. by rewrite IH.
Qed.

Definition with_cell (a : nat) s w : World Conn Payload := on_sessions (on_cells <[a := s]>) w.

Lemma run_locked {R} gid (missing : R) f w :
  exec (locked gid missing f) w =
    match attached (sessions w) gid, players (sessions w) !! gid with
    | Some s, Some a => let '((r, s), w) := run handle_conn (f s) w in (r, with_cell a s w)
    | _, _ => (missing, w)
    end.
Proof.
  unfold locked, attached. rewrite run_bind, run_get.
  destruct (players (sessions w) !! gid) as [a|]; simpl; [|done].
  destruct (cells (sessions w) !! a) as [s|]; simpl; [|done].
  by destruct (run handle_conn (f s) w) as [[r s'] w'].
Qed.

Lemma run_locked_pure {R} gid (missing : R) f w :
  exec (locked gid missing (pure_section f)) w =
    match attached (sessions w) gid, players (sessions w) !! gid with
    | Some s, Some a => ((f s).2, with_cell a (f s).1 w)
    | _, _ => (missing, w)
    end.
Proof.
  rewrite run_locked. unfold pure_section. destruct (attached _ _) as [s|]; [|done].
  destruct (players _ !! gid) as [a|]; [|done]. by destruct (f s).
Qed.

Lemma with_cell_id gid a s w : players (sessions w) !! gid = Some a → attached (sessions w) gid = Some s →
  with_cell a s w = w.
Proof.
  unfold attached. intros -> Hs. simpl in Hs. destruct w as [[pl cs] ? ? ? ?]. simpl in *.
  unfold with_cell, on_sessions, on_cells. simpl. by rewrite list_insert_id.
Qed.

Lemma attached_address st gid s : attached st gid = Some s → ∃ a, players st !! gid = Some a ∧ cells st !! a = Some s.
Proof. unfold attached. destruct (players st !! gid) as [a|]; [|done]. by exists a. Qed.

(** ** A replaced connection *)

(** The store has another session for the player, or none. *)
Definition not_current w gid sid : Prop := ∀ s, attached (sessions w) gid = Some s → session_id s ≠ sid.

Lemma run_locked_refused {R} gid sid (missing : R) f w :
  not_current w gid sid → (∀ s, session_id s ≠ sid → f s = Ret (missing, s)) →
  exec (locked gid missing f) w = (missing, w).
Proof.
  intros Hw Hf. rewrite run_locked. destruct (attached (sessions w) gid) as [s|] eqn:Hs; [|done].
  destruct (attached_address _ _ _ Hs) as (a & Ha & _). rewrite Ha, Hf by (by apply Hw). simpl.
  by rewrite (with_cell_id gid).
Qed.

(** C17: a connection that is no longer the player's session is powerless: with
    its session id, requests, acknowledgements, sends, disconnects, kicks and
    logouts are refused, and the store, the wires and the connections do not
    change.  A late cleanup of the old connection cannot hurt the new one. *)
Theorem replaced_connection_is_powerless w gid sid seq ack now msgid message code reason :
  not_current w gid sid →
  exec (sessions_accept_request config gid sid seq ack now) w = (Err RequestError.SessionMismatch, w)
  ∧ exec (acknowledge config gid sid seq ack now) w = (Err RequestError.SessionMismatch, w)
  ∧ exec (send config gid sid msgid message) w = (Err SendError.SessionMismatch, w)
  ∧ exec (disconnect gid sid now) w = (None, w)
  ∧ exec (kick config kick_message gid sid code reason) w = (None, w)
  ∧ exec (invalidate gid sid) w = (false, w).
Proof.
  intros Hw. split_and!.
  - apply (run_locked_refused gid sid); [done|]. intros s Hs. unfold pure_section, accept_request, accept_sequence.
    by replace (session_id s =? sid) with false by lia.
  - apply (run_locked_refused gid sid); [done|]. intros s Hs. unfold pure_section, accept_sequence.
    by replace (session_id s =? sid) with false by lia.
  - apply (run_locked_refused gid sid); [done|]. intros s Hs. unfold send_section.
    by replace (session_id s =? sid) with false by lia.
  - apply (run_locked_refused gid sid); [done|]. intros s Hs. unfold pure_section, disconnect_session.
    by replace (session_id s =? sid) with false by lia.
  - unfold kick. rewrite run_bind, run_get. destruct (players (sessions w) !! gid) as [a|] eqn:Ha; [|done].
    rewrite run_bind, run_await. cbn [handle_sessions].
    destruct (cells (sessions w) !! a) as [s|] eqn:Hs; [|done].
    assert (attached (sessions w) gid = Some s) as Hat by (unfold attached; by rewrite Ha).
    unfold kick_section. replace (session_id s =? sid) with false by (specialize (Hw s Hat); lia). simpl.
    pose proof (with_cell_id gid a s w Ha Hat) as Hid. unfold with_cell in Hid. by rewrite Hid.
  - unfold invalidate. rewrite run_await. cbn [handle_sessions].
    destruct (attached (sessions w) gid) as [s|] eqn:Hs; simpl; [|by destruct w].
    replace (session_id s =? sid) with false by (specialize (Hw s Hs); lia). by destruct w.
Qed.

(** ** What the session operations leave alone *)

(** The identity, the connection and the counter of the stream. *)
Definition core s : Z * option Conn * Z := (session_id s, conn s, server_seq s).

Lemma prune_outbox_core now ttl s : core (prune_outbox now ttl s) = core s.
Proof. by rewrite prune_outbox_unfold. Qed.

Lemma accept_sequence_core sid seq ack now ttl s : core (accept_sequence sid seq ack now ttl s).1 = core s.
Proof.
  unfold accept_sequence. case_if; [done|]. case_if; [done|]. simpl.
  change (core (prune_outbox now ttl (with_client_seq seq s)) = core s). by rewrite prune_outbox_core.
Qed.

Lemma accept_rate_core now s : core (accept_rate now config s).1 = core s.
Proof. unfold accept_rate. case_if; [done|]. by case_if. Qed.

Lemma accept_request_core sid seq ack now s : core (accept_request sid seq ack now config s).1 = core s.
Proof.
  unfold accept_request. pose proof (accept_sequence_core sid seq ack now (resume_ttl config) s) as H1.
  destruct (accept_sequence _ _ _ _ _ _) as [s1 [[]|e]]; [|done].
  pose proof (accept_rate_core now s1) as H2. destruct (accept_rate _ _ _) as [s2 []]; simpl in *; congruence.
Qed.

Lemma authorize_reconnect_core previous seq ack now s : core (authorize_reconnect previous seq ack now config s).1 = core s.
Proof.
  unfold authorize_reconnect. case_if; [done|]. case_if; [done|]. case_if; [done|].
  rewrite prune_outbox_unfold. repeat (case_if; [done|]). done.
Qed.

Lemma encode_core msgid (message : Msg) now s :
  let '(s', p) := encode msgid message now config s in
  session_id s' = session_id s ∧ conn s' = conn s ∧ server_seq s' = wrap_u32 (server_seq s + 1)
  ∧ ∀ x, p = Some x → encode_message (mkCsHead (MsgId.as_u16 msgid) (server_seq s') (client_seq s)) message = Some x.
Proof.
  unfold encode. simpl. destruct (encode_message _ _) as [x|] eqn:Hx; [|by split_and!].
  case_if; [|split_and!; [done..|]; intros y [= <-]; done].
  rewrite prune_outbox_unfold. simpl.
  case_if; [destruct (prune_loop _ _ _ _).1|]; simpl; (split_and!; [done..|]; intros y [= <-]; done).
Qed.

(** ** The online counter *)

Definition cell_active (cs : list Session) (a : nat) : Z :=
  match cs !! a with Some s => if active s then 1 else 0 | None => 0 end.

(** The players whose session has a connection. *)
Definition active_sessions st : Z := map_sum (cell_active (cells st)) (players st).

(** Every player has a cell of his own. *)
Definition store_ok st : Prop :=
  (∀ gid a, players st !! gid = Some a → (a < length (cells st))%nat)
  ∧ (∀ g g' a, players st !! g = Some a → players st !! g' = Some a → g = g').

Definition active_Z s : Z := if active s then 1 else 0.

Lemma map_sum_ext `{Countable K} {V} (f g : V → Z) (m : gmap K V) :
  (∀ k v, m !! k = Some v → f v = g v) → map_sum f m = map_sum g m.
Proof.
  intros Hfg. apply Z.le_antisymm; apply map_sum_mono; intros k v Hk; rewrite (Hfg k v Hk); lia.
Qed.

Lemma store_ok_cell a s st : store_ok st → store_ok (on_cells <[a := s]> st).
Proof. intros [H1 H2]. split; [|done]. intros gid b Hb. simpl. rewrite length_insert. by apply (H1 gid). Qed.

Lemma store_ok_delete gid st : store_ok st → store_ok (on_players (delete gid) st).
Proof.
  intros [H1 H2]. split.
  - intros g a. simpl. intros [_ Ha]%lookup_delete_Some. by apply (H1 g).
  - intros g g' a. simpl. intros [_ Ha]%lookup_delete_Some [_ Ha']%lookup_delete_Some. by apply (H2 g g' a).
Qed.

Lemma attached_active st gid s a : players st !! gid = Some a → attached st gid = Some s →
  cell_active (cells st) a = active_Z s.
Proof. unfold attached, cell_active. intros ->. simpl. by intros ->. Qed.

(** Only the player of a changed cell counts differently. *)
Lemma active_set_cell st gid a s s' : store_ok st → players st !! gid = Some a → attached st gid = Some s →
  active_sessions (on_cells <[a := s']> st) = active_sessions st - active_Z s + active_Z s'.
Proof.
  intros [Hlen Hinj] Ha Hs. unfold active_sessions. simpl.
  pose proof (map_sum_delete (cell_active (<[a := s']> (cells st))) (players st) gid a Ha) as H1.
  pose proof (map_sum_delete (cell_active (cells st)) (players st) gid a Ha) as H2.
  assert (map_sum (cell_active (<[a := s']> (cells st))) (delete gid (players st)) =
          map_sum (cell_active (cells st)) (delete gid (players st))) as H3.
  { apply map_sum_ext. intros g b [Hne Hb]%lookup_delete_Some. unfold cell_active.
    rewrite list_lookup_insert_ne; [done|]. intros ->. by apply Hne, (Hinj gid g b). }
  rewrite (attached_active st gid s a Ha Hs) in H2. unfold cell_active in H1 at 3.
  rewrite list_lookup_insert_eq in H1 by (by apply (Hlen gid)). unfold active_Z in *. lia.
Qed.

Lemma active_delete st gid a s : players st !! gid = Some a → attached st gid = Some s →
  active_sessions (on_players (delete gid) st) = active_sessions st - active_Z s.
Proof.
  intros Ha Hs. unfold active_sessions. simpl. rewrite (map_sum_delete _ _ gid a) by done.
  by rewrite (attached_active st gid s a).
Qed.

Lemma active_install st gid s : store_ok st →
  active_sessions (mkSessions (<[gid := length (cells st)]> (players st)) (cells st ++ [s]))
  = active_sessions st - match attached st gid with Some s => active_Z s | None => 0 end + active_Z s
  ∧ store_ok (mkSessions (<[gid := length (cells st)]> (players st)) (cells st ++ [s])).
Proof.
  intros [Hlen Hinj]. split.
  - unfold active_sessions. simpl. rewrite <- (insert_delete_eq (players st)).
    rewrite map_sum_insert by apply lookup_delete_eq.
    assert (map_sum (cell_active (cells st ++ [s])) (delete gid (players st)) =
            map_sum (cell_active (cells st)) (delete gid (players st))) as ->.
    { apply map_sum_ext. intros g b [_ Hb]%lookup_delete_Some. unfold cell_active.
      by rewrite lookup_app_l by (by apply (Hlen g)). }
    unfold cell_active at 1. rewrite list_lookup_middle by done. fold (active_Z s).
    destruct (players st !! gid) as [a|] eqn:Ha.
    + rewrite (map_sum_delete _ _ gid a) by done. destruct (attached st gid) as [s0|] eqn:Hs0.
      * rewrite (attached_active st gid s0 a) by done. lia.
      * unfold attached in Hs0. rewrite Ha in Hs0. simpl in Hs0. unfold cell_active at 2. rewrite Hs0. lia.
    + rewrite delete_id by done. unfold attached. rewrite Ha. simpl. lia.
  - split; simpl.
    + intros g a. rewrite length_app. simpl. intros [[_ <-]|[_ Ha]]%lookup_insert_Some; [lia|].
      specialize (Hlen g a Ha). lia.
    + intros g g' a [[<- <-]|[Hg Ha]]%lookup_insert_Some [[<- Hb]|[Hg' Ha']]%lookup_insert_Some; try done.
      * specialize (Hlen g' _ Ha'). lia.
      * subst. specialize (Hlen g _ Ha). lia.
      * by apply (Hinj g g' a).
Qed.

(** A call of the Gate, and what it adds to the online counter. *)
Inductive store_call :=
| CallInstall (gid : Z) (c : Conn) (r : Routes) (seq : Z)
| CallAuthorize (gid previous seq ack now : Z)
| CallReconnect (gid previous : Z) (c : Conn) (seq ack now : Z)
| CallRequest (gid sid seq ack now : Z)
| CallAcknowledge (gid sid seq ack now : Z)
| CallSend (gid sid : Z) (msgid : MsgId.t) (message : Msg)
| CallDisconnect (gid sid now : Z)
| CallKick (gid sid code : Z) (reason : string)
| CallLogout (gid sid seq ack now : Z)
| CallPrune (now : Z).

Definition count_change (c : store_call) : prog (SessionsEff Conn Payload) Z :=
  match c with
  | CallInstall gid c r seq => b ← install_login gid c r seq; Ret (if b : bool then 1 else 0)
  | CallAuthorize gid previous seq ack now => _ ← sessions_authorize_reconnect config gid previous seq ack now; Ret 0
  | CallReconnect gid previous c seq ack now =>
      r ← sessions_complete_reconnect config gid previous c seq ack now;
      Ret match r with Ok r => if became_active r then 1 else 0 | Err _ => 0 end
  | CallRequest gid sid seq ack now => _ ← sessions_accept_request config gid sid seq ack now; Ret 0
  | CallAcknowledge gid sid seq ack now => _ ← acknowledge config gid sid seq ack now; Ret 0
  | CallSend gid sid msgid message => _ ← send config gid sid msgid message; Ret 0
  | CallDisconnect gid sid now => r ← disconnect gid sid now; Ret match r with Some _ => -1 | None => 0 end
  | CallKick gid sid code reason =>
      r ← kick config kick_message gid sid code reason; Ret match r with Some true => -1 | _ => 0 end
  | CallLogout gid sid seq ack now =>
      r ← sessions_accept_request config gid sid seq ack now;
      match r with
      | Ok _ => _ ← invalidate gid sid; Ret (-1)
      | Err _ => Ret 0
      end
  | CallPrune now => _ ← prune_expired config now; Ret 0
  end.

Fixpoint count_changes (calls : list store_call) : prog (SessionsEff Conn Payload) Z :=
  match calls with
  | [] => Ret 0
  | c :: calls => d ← count_change c; ds ← count_changes calls; Ret (d + ds)
  end.

(** A call is exact when its answer tells how the active sessions changed. *)
Definition exact w (p : prog (SessionsEff Conn Payload) Z) : Prop :=
  let '(d, w') := exec p w in
  active_sessions (sessions w') = active_sessions (sessions w) + d ∧ store_ok (sessions w').

Lemma locked_exact {R} gid (missing : R) f (g : R → Z) w : store_ok (sessions w) → g missing = 0 →
  (∀ s, let '((r, s'), _) := run handle_conn (f s) w in active_Z s' = active_Z s + g r) →
  exact w (r ← locked gid missing f; Ret (g r)).
Proof.
  intros Hok Hg Hf. unfold exact. rewrite run_bind, run_locked.
  destruct (attached (sessions w) gid) as [s|] eqn:Hs; [|simpl; split; [lia|done]].
  destruct (attached_address _ _ _ Hs) as (a & Ha & _). rewrite Ha. specialize (Hf s).
  pose proof (conn_keeps_sessions (f s) w) as Hw. destruct (run handle_conn (f s) w) as [[r s'] w1]. simpl in Hw.
  simpl. rewrite Hw. split; [|by apply store_ok_cell].
  rewrite (active_set_cell (sessions w) gid a s s') by done. lia.
Qed.

Lemma active_core s s' : core s' = core s → active_Z s' = active_Z s.
Proof. unfold core, active_Z, active. by intros [= _ -> _]. Qed.

Lemma locked_core {R} gid (missing : R) f w : store_ok (sessions w) → (∀ s, core (f s).1 = core s) →
  exact w (_ ← locked gid missing (pure_section f); Ret 0).
Proof.
  intros Hok Hf. apply (locked_exact gid missing _ (λ _, 0)); [done..|]. intros s. unfold pure_section.
  specialize (Hf s). destruct (f s) as [s' r]. simpl in *. rewrite (active_core s s') by done. lia.
Qed.

Lemma send_exact gid sid msgid message w : store_ok (sessions w) →
  exact w (_ ← send config gid sid msgid message; Ret 0).
Proof.
  intros Hok. apply (locked_exact gid _ _ (λ _, 0)); [done..|]. intros s. unfold send_section.
  case_if; [simpl; lia|]. simpl. pose proof (encode_core msgid message (clock w) s) as He.
  destruct (encode msgid message (clock w) config s) as [s' p]. destruct He as (_ & Hc & _).
  assert (active_Z s' = active_Z s) as Ha by (unfold active_Z, active; by rewrite Hc).
  destruct p as [x|]; [|simpl; lia]. destruct (conn s') as [c|]; [|simpl; lia]. simpl.
  destruct (refuses w _); simpl; lia.
Qed.

Lemma disconnect_exact gid sid now w : store_ok (sessions w) →
  exact w (r ← disconnect gid sid now; Ret match r with Some _ => -1 | None => 0 end).
Proof.
  intros Hok. apply (locked_exact gid None _ (λ r, match r with Some _ => -1 | None => 0 end)); [done..|].
  intros s. unfold pure_section, disconnect_session, active_Z.
  destruct (negb (session_id s =? sid)), (active s) eqn:Hs; simpl; rewrite ?Hs; lia.
Qed.

Lemma reconnect_exact gid previous c seq ack now w : store_ok (sessions w) →
  exact w (r ← sessions_complete_reconnect config gid previous c seq ack now;
           Ret match r with Ok r => if became_active r then 1 else 0 | Err _ => 0 end).
Proof.
  intros Hok.
  apply (locked_exact gid _ _ (λ r, match r with Ok r => if became_active r then 1 else 0 | Err _ => 0 end)); [done..|].
  intros s. unfold pure_section, complete_reconnect. case_if; [simpl; lia|]. case_if; [simpl; lia|].
  rewrite prune_outbox_unfold. case_if; [simpl; unfold active_Z, active; simpl; lia|]. simpl. unfold active_Z.
  change (active (with_outbox ?a ?b s)) with (active s).
  change (active (acknowledge_outbox ?x (with_outbox ?a ?b s))) with (active s).
  unfold active at 1. simpl. destruct (active s); done.
Qed.

(** A kick that finds its session takes the connection, whatever its sends
    do. *)
Lemma kick_section_run sid code reason s w : session_id s = sid →
  ∃ s' w', run handle_conn (kick_section config kick_message sid code reason s) w = ((Some (conn s), s'), w')
    ∧ conn s' = None ∧ session_id s' = session_id s ∧ sessions w' = sessions w.
Proof.
  intros Hsid. unfold kick_section. replace (session_id s =? sid) with true by lia. simpl.
  destruct (conn s) as [c|]; [|by eexists _, _]. simpl.
  pose proof (encode_core MsgId.KickNtf (kick_message (mkKickNtf code reason)) (clock w) (with_conn None s)) as He.
  destruct (encode _ _ _ _ _) as [s' p]. destruct He as (Hid & Hc & _).
  destruct p as [x|]; simpl; [destruct (refuses w _); simpl|]; by eexists _, _.
Qed.

Lemma with_cell_attached st gid a s s' : store_ok st → players st !! gid = Some a → attached st gid = Some s →
  attached (on_cells <[a := s']> st) gid = Some s'.
Proof.
  intros [Hlen _] Ha _. unfold attached. simpl. rewrite Ha. simpl. apply list_lookup_insert_eq. by apply (Hlen gid).
Qed.

Lemma kick_exact gid sid code reason w : store_ok (sessions w) →
  exact w (r ← kick config kick_message gid sid code reason; Ret match r with Some true => -1 | _ => 0 end).
Proof.
  intros Hok. unfold exact, kick. rewrite run_bind, run_bind, run_get.
  destruct (players (sessions w) !! gid) as [a|] eqn:Ha; [|simpl; split; [lia|done]].
  rewrite run_bind, run_await. cbn [handle_sessions].
  destruct (cells (sessions w) !! a) as [s|] eqn:Hs; [|simpl; split; [lia|done]].
  assert (attached (sessions w) gid = Some s) as Hat by (unfold attached; by rewrite Ha).
  destruct (decide (session_id s = sid)) as [Hsid|Hsid].
  2:{ unfold kick_section. replace (session_id s =? sid) with false by lia. cbn [run negb].
      change (on_sessions _ w) with (with_cell a s w). rewrite (with_cell_id gid) by done. split; [simpl; lia|done]. }
  destruct (kick_section_run sid code reason s w Hsid) as (s' & w' & -> & Hc & _ & Hw). cbv iota beta.
  rewrite run_await. cbn [handle_sessions]. unfold kick_remove. simpl. rewrite Hw, Ha, decide_True by done.
  set (st1 := on_cells <[a := s']> (sessions w)).
  assert (active_sessions (on_players (delete gid) st1) = active_sessions (sessions w) - active_Z s) as Hcount.
  { rewrite (active_delete st1 gid a s'); [|done|by apply (with_cell_attached _ gid a s)].
    unfold st1. rewrite (active_set_cell _ gid a s s') by done.
    assert (active_Z s' = 0) as -> by (unfold active_Z, active; by rewrite Hc). lia. }
  assert (store_ok (on_players (delete gid) st1)) by (by apply store_ok_delete, store_ok_cell).
  destruct (conn s) as [c|] eqn:Hcs; simpl; (split; [|done]); etransitivity; try exact Hcount;
    unfold active_Z, active; rewrite Hcs; simpl; lia.
Qed.

Lemma logout_exact gid sid seq ack now w : store_ok (sessions w) →
  exact w (count_change (CallLogout gid sid seq ack now)).
Proof.
  intros Hok. unfold exact. cbn [count_change]. unfold sessions_accept_request. rewrite run_bind, run_locked_pure.
  destruct (attached (sessions w) gid) as [s|] eqn:Hs; [|simpl; split; [lia|done]].
  destruct (attached_address _ _ _ Hs) as (a & Ha & Hcell). rewrite Ha.
  pose proof (accept_request_core sid seq ack now s) as Hcore.
  destruct (accept_request sid seq ack now config s) as [s' r] eqn:Hr. cbn [fst snd] in *.
  pose proof (active_core s s' Hcore) as Hact.
  pose proof (active_set_cell (sessions w) gid a s s' Hok Ha Hs) as Hset.
  destruct r as [rt|e]; [|simpl; split; [lia|by apply store_ok_cell]].
  assert (session_id s = sid ∧ active s = true) as [Hsid Hactive].
  { unfold accept_request, accept_sequence in Hr. destruct (Z.eqb_spec (session_id s) sid), (active s); simpl in Hr; done. }
  rewrite run_bind. unfold invalidate. rewrite run_await. cbn [handle_sessions].
  change (sessions (with_cell a s' w)) with (on_cells <[a := s']> (sessions w)).
  rewrite (with_cell_attached _ gid a s) by done.
  replace (session_id s' =? sid) with true by (unfold core in Hcore; simplify_eq; lia).
  simpl run. split; [|by apply store_ok_delete, store_ok_cell].
  change (sessions (on_sessions ?f ?x)) with (f (sessions x)). cbv beta.
  rewrite (active_delete _ gid a s'); [|done|by apply (with_cell_attached _ gid a s)].
  rewrite Hset, Hact. unfold active_Z. rewrite Hactive. lia.
Qed.

Lemma map_sum_filter `{Countable K} {V} (f : V → Z) (keep : V → bool) (m : gmap K V) :
  (∀ k v, m !! k = Some v → keep v = false → f v = 0) →
  map_sum f (filter (λ e, keep e.2 = true) m) = map_sum f m.
Proof.
  induction m as [|k v m Hk IH] using map_ind; intros Hm; [done|]. rewrite map_sum_insert by done.
  assert (map_sum f (filter (λ e, keep e.2 = true) m) = map_sum f m) as Hrest.
  { apply IH. intros k' v' Hk'. apply (Hm k'). rewrite lookup_insert_ne; [done|]. intros <-. congruence. }
  destruct (keep v) eqn:Hv.
  - rewrite map_filter_insert_True by done. rewrite map_sum_insert; [lia|].
    apply map_lookup_filter_None. by left.
  - rewrite map_filter_insert_False by (simpl; congruence). rewrite delete_id by done.
    rewrite (Hm k v); [lia|apply lookup_insert_eq|done].
Qed.

Lemma prune_exact now w : store_ok (sessions w) → exact w (_ ← prune_expired config now; Ret 0).
Proof.
  intros [Hlen Hinj]. unfold exact, prune_expired. rewrite run_bind, run_await. simpl.
  split; [|split; simpl].
  - unfold active_sessions. simpl.
    set (keep := λ a : nat, match cells (sessions w) !! a with Some s => keep_session config now s | None => false end).
    rewrite Z.add_0_r. apply (map_sum_filter _ keep). intros g a Ha Hkeep. unfold keep in Hkeep. unfold cell_active.
    destruct (cells (sessions w) !! a) as [s|]; [|done]. unfold keep_session in Hkeep. by destruct (active s).
  - intros g a [Ha _]%map_lookup_filter_Some. by apply (Hlen g).
  - intros g g' a [Ha _]%map_lookup_filter_Some [Ha' _]%map_lookup_filter_Some. by apply (Hinj g g' a).
Qed.

Lemma count_change_exact c w : store_ok (sessions w) → exact w (count_change c).
Proof.
  intros Hok. destruct c; cbn [count_change].
  - unfold exact, install_login. rewrite run_bind, run_await. simpl.
    destruct (active_install (sessions w) gid (new c r seq) Hok) as [-> Hok']. split; [|done].
    destruct (attached (sessions w) gid) as [s|]; unfold active_Z; simpl; [destruct (active s)|]; simpl; lia.
  - apply locked_core; [done|]. intros s. apply authorize_reconnect_core.
  - by apply reconnect_exact.
  - apply locked_core; [done|]. intros s. apply accept_request_core.
  - apply locked_core; [done|]. intros s. apply accept_sequence_core.
  - by apply send_exact.
  - by apply disconnect_exact.
  - by apply kick_exact.
  - by apply logout_exact.
  - by apply prune_exact.
Qed.

(** The online counter is exact as long as the calls of the store do not
    overlap: over any sequence of logins, reconnects, disconnects, kicks,
    logouts, prunes, requests and sends, the increments and decrements that
    the answers of the calls tell the Gate to make add up to the change of
    the number of sessions with a connection.  No sequence counts a player
    twice or forgets one. *)
Theorem online_count_exact calls w : store_ok (sessions w) →
  let '(d, w') := exec (count_changes calls) w in
  active_sessions (sessions w') = active_sessions (sessions w) + d ∧ store_ok (sessions w').
Proof.
  revert w. induction calls as [|c calls IH]; intros w Hok; [simpl; split; [lia|done]|].
  cbn [count_changes]. rewrite run_bind. pose proof (count_change_exact c w Hok) as Hc. unfold exact in Hc.
  destruct (run handle_sessions (count_change c) w) as [d w1]. destruct Hc as [H1 Hok1].
  rewrite run_bind. specialize (IH w1 Hok1). destruct (run handle_sessions (count_changes calls) w1) as [ds w2].
  destruct IH as [H2 Hok2]. simpl. split; [lia|done].
Qed.

(** Expiry removes exactly the streams that can no longer be resumed: an
    online player is never removed, an offline one is removed when the resume
    time has passed, and the other players keep their session. *)
Theorem prune_keeps_resumable w now gid :
  let w' := (exec (prune_expired config now) w).2 in
  attached (sessions w') gid =
    match attached (sessions w) gid with
    | Some s =>
        if active s then Some s
        else match disconnected_at s with
             | Some at_ => if duration_since now at_ <=? resume_ttl config then Some s else None
             | None => None
             end
    | None => None
    end
  ∧ ∀ a, cells (sessions w') !! a = cells (sessions w) !! a.
Proof.
  unfold prune_expired. rewrite run_await. simpl. split; [|done]. unfold attached. simpl.
  destruct (players (sessions w) !! gid) as [a|] eqn:Ha; simpl.
  2:{ rewrite (proj2 (map_lookup_filter_None _ _ _)); [done|by left]. }
  destruct (cells (sessions w) !! a) as [s|] eqn:Hs.
  2:{ rewrite (proj2 (map_lookup_filter_None _ _ _)); [done|].
      right. intros b Hb. assert (b = a) as -> by congruence. simpl. by rewrite Hs. }
  destruct (keep_session config now s) eqn:Hk.
  - rewrite (proj2 (map_lookup_filter_Some _ _ _ a)) by (simpl; by rewrite Hs). simpl. rewrite Hs.
    unfold keep_session in Hk. destruct (active s); [done|]. simpl in Hk. destruct (disconnected_at s); [|done].
    by rewrite Hk.
  - rewrite (proj2 (map_lookup_filter_None _ _ _)).
    + unfold keep_session in Hk. destruct (active s); [done|]. simpl in *. destruct (disconnected_at s); [|done].
      by rewrite Hk.
    + right. intros b Hb. assert (b = a) as -> by congruence. simpl. rewrite Hs, Hk. done.
Qed.

(** ** The order of the frames *)

(** The sequence number of an encoded message. *)
Variable payload_seq : Payload → Z.
Hypothesis payload_seq_head : ∀ head (message : Msg) p, encode_message head message = Some p → payload_seq p = head_seq head.

Definition holds (k : Z) s : Prop := ∃ c, conn s = Some c ∧ conn_session_id c = k.

#[local] Instance holds_dec k s : Decision (holds k s).
Proof.
  unfold holds. destruct (conn s) as [c|]; [|right; by intros (c & ? & _)].
  destruct (decide (conn_session_id c = k)) as [Hk|Hk]; [left; by exists c|right].
  intros (c' & [= ->] & ?). done.
Defined.

(** What a connection was sent through the store. *)
Definition wire_of (k : Z) w : list Z := (λ e, payload_seq e.2) <$> filter (λ e, e.1 = k) (wire w).

(** The connection [k] belongs to at most the cell [a], whose counter is [m] or
    later than everything sent to [k]. *)
Definition ordered (a : nat) (k : Z) w : Prop := ∃ ns m,
  wire_of k w = wrap_u32 <$> ns ∧ StronglySorted Z.lt ns ∧ Forall (λ n, n <= m) ns
  ∧ ∀ b s, cells (sessions w) !! b = Some s → holds k s → b = a ∧ server_seq s = wrap_u32 m.

(** A section sends at most one message, the one it has just numbered, to the
    connection it found. *)
Definition numbered s s' w w' : Prop :=
  (wire w' = wire w ∧ (server_seq s' = server_seq s ∨ server_seq s' = wrap_u32 (server_seq s + 1)))
  ∨ ∃ c p, conn s = Some c ∧ wire w' = wire w ++ [(conn_session_id c, p)]
      ∧ server_seq s' = wrap_u32 (server_seq s + 1) ∧ payload_seq p = server_seq s'.
Definition tame {R} (k : Z) (f : Session → prog (ConnEff Conn Payload) (R * Session)) : Prop := ∀ s w,
  let '((_, s'), w') := run handle_conn (f s) w in
  numbered s s' w w' ∧ (conn s' = conn s ∨ conn s' = None ∨ ∃ c, conn s' = Some c ∧ conn_session_id c ≠ k).

Definition keeps_order (a : nat) (k : Z) (X : Type) (e : SessionsEff Conn Payload X) : Prop :=
  ∀ w, ordered a k w → ordered a k (handle_sessions X e w).2.

Lemma StronglySorted_snoc (l : list Z) y : StronglySorted Z.lt l → Forall (λ x, x < y) l → StronglySorted Z.lt (l ++ [y]).
Proof.
  induction 1 as [|x l Hl IH Hx]; intros Hy; simpl; [by repeat constructor|].
  apply Forall_cons in Hy as [Hxy Hy]. constructor; [by apply IH|].
  apply Forall_app. by split; [|constructor].
Qed.

Lemma wrap_u32_succ m : wrap_u32 (wrap_u32 m + 1) = wrap_u32 (m + 1).
Proof. unfold wrap_u32. by rewrite Zplus_mod_idemp_l. Qed.

Lemma wire_of_snoc k w w' c p : wire w' = wire w ++ [(conn_session_id c, p)] →
  wire_of k w' = if decide (conn_session_id c = k) then wire_of k w ++ [payload_seq p] else wire_of k w.
Proof.
  intros Hw. unfold wire_of. rewrite Hw, filter_app. case_decide as Hk.
  - rewrite filter_cons_True by done. by rewrite filter_nil, fmap_app.
  - rewrite filter_cons_False by done. by rewrite filter_nil, app_nil_r.
Qed.

(** A tame section keeps the order: on the cell of [k] the counter and the wire
    advance together, on another cell neither of them is about [k]. *)
Lemma locked_order {R} a k b (gone : R) f : tame k f → keeps_order a k _ (LockSession b gone f).
Proof.
  intros Hf w Hord. cbn [handle_sessions]. destruct (cells (sessions w) !! b) as [s|] eqn:Hs; [|done].
  pose proof (conn_keeps_sessions (f s) w) as Hsess. specialize (Hf s w).
  destruct (run handle_conn (f s) w) as [[r s'] w1]. cbn [snd] in *. destruct Hf as [Hnum Hconn].
  destruct Hord as (ns & m & Hwire & Hsort & Hle & Hcells).
  assert (holds k s' → holds k s) as Hback.
  { intros (c & Hc & Hk). destruct Hconn as [He|[He|(c' & He & Hne)]]; rewrite He in Hc; [by exists c|done|congruence]. }
  assert (∀ m', (holds k s → server_seq s' = wrap_u32 m') → (¬ holds k s → m' = m) →
    ∀ b' x, cells (sessions (on_sessions (on_cells <[b := s']>) w1)) !! b' = Some x → holds k x →
    b' = a ∧ server_seq x = wrap_u32 m') as Hnew.
  { intros m' Hs' Hm' b' x Hx Hk. simpl in Hx. rewrite Hsess in Hx. apply list_lookup_insert_Some in Hx as [(<- & <- & _)|[Hne Hx]].
    - pose proof (Hback Hk) as Hks. destruct (Hcells _ _ Hs Hks) as [-> _]. split; [done|]. by apply Hs'.
    - destruct (Hcells _ _ Hx Hk) as [-> Hseq]. split; [done|]. rewrite Hm'; [done|].
      intros Hks. by destruct (Hcells _ _ Hs Hks) as [<- _]. }
  assert (wire_of k (on_sessions (on_cells <[b := s']>) w1) = wire_of k w1) as Hww by done.
  destruct (decide (holds k s)) as [Hk|Hk].
  - destruct (Hcells _ _ Hs Hk) as [_ Hm]. destruct Hnum as [[Hw [Hq|Hq]]|(c & p & Hc & Hw & Hq & Hp)].
    + exists ns, m. split_and!; [|done|done|]; [rewrite Hww; unfold wire_of in *; by rewrite Hw|].
      apply Hnew; [intros _; congruence|done].
    + exists ns, (m + 1). split_and!; [rewrite Hww; unfold wire_of in *; by rewrite Hw|done| |].
      * eapply Forall_impl; [exact Hle|]. intros; simpl in *; lia.
      * apply Hnew; [intros _; by rewrite Hq, Hm, wrap_u32_succ|done].
    + exists (ns ++ [m + 1]), (m + 1). rewrite Hww, (wire_of_snoc k w w1 c p Hw), decide_True.
      2:{ destruct Hk as (c' & Hc' & ?). congruence. }
      assert (server_seq s' = wrap_u32 (m + 1)) as Hs1 by (by rewrite Hq, Hm, wrap_u32_succ).
      split_and!.
      * by rewrite fmap_app, Hwire, Hp, Hs1.
      * apply StronglySorted_snoc; [done|]. eapply Forall_impl; [exact Hle|]. intros; simpl in *; lia.
      * apply Forall_app. split; [eapply Forall_impl; [exact Hle|]; intros; simpl in *; lia|by repeat constructor].
      * apply Hnew; [done|done].
  - exists ns, m. split_and!; [|done|done|apply Hnew; [done|done]].
    rewrite Hww. destruct Hnum as [[Hw _]|(c & p & Hc & Hw & _)]; [unfold wire_of in *; by rewrite Hw|].
    rewrite (wire_of_snoc k w w1 c p Hw), decide_False; [done|]. intros He. apply Hk. by exists c.
Qed.

Lemma quiet_tame {R} k (f : Session → Session * R) :
  (∀ s, core (f s).1 = core s) → tame k (pure_section f).
Proof.
  intros Hf s w. unfold pure_section. specialize (Hf s). destruct (f s) as [s' r]. simpl in *.
  unfold core in Hf. injection Hf as _ Hc Hs. split; [left; split; [done|by left]|by left].
Qed.

Lemma send_tame k sid msgid message : tame k (send_section config sid msgid message).
Proof using payload_seq_head.
  intros s w. unfold send_section. case_if; [simpl; split; [left; split; [done|by left]|by left]|]. simpl.
  pose proof (encode_core msgid message (clock w) s) as He.
  destruct (encode msgid message (clock w) config s) as [s' p]. destruct He as (_ & Hc & Hseq & Hp).
  destruct p as [x|]; [destruct (conn s') as [c|] eqn:Hcs; simpl; [destruct (refuses w _); simpl|]|];
    (split; [|left; congruence]); try (left; split; [done|by right]).
  right. exists c, x. split_and!; [done|done|done|]. by rewrite (payload_seq_head _ _ _ (Hp x eq_refl)).
Qed.

Lemma kick_tame k sid code reason : tame k (kick_section config kick_message sid code reason).
Proof using payload_seq_head.
  intros s w. unfold kick_section. case_if; [simpl; split; [left; split; [done|by left]|by left]|].
  destruct (conn s) as [c|] eqn:Hcs; [|simpl; split; [left; split; [done|by left]|by right; left]].
  set (message := kick_message (mkKickNtf code reason)). simpl.
  pose proof (encode_core MsgId.KickNtf message (clock w) (with_conn None s)) as He.
  destruct (encode MsgId.KickNtf message (clock w) config (with_conn None s)) as [s' p]. destruct He as (_ & Hc & Hseq & Hp).
  destruct p as [x|]; simpl; [destruct (refuses w _); simpl|]; (split; [|by right; left]);
    try (left; split; [done|by right]).
  right. exists c, x. split_and!; [done|done|done|]. by rewrite (payload_seq_head _ _ _ (Hp x eq_refl)).
Qed.

Lemma disconnect_tame k sid now : tame k (pure_section (disconnect_session sid now)).
Proof.
  intros s w. unfold pure_section, disconnect_session.
  destruct (negb _ || negb _); simpl; (split; [left; split; [done|by left]|]); [by left|by right; left].
Qed.

Lemma reconnect_tame k previous c seq ack now : conn_session_id c ≠ k →
  tame k (pure_section (complete_reconnect previous c seq ack now config)).
Proof.
  intros Hne s w. unfold pure_section, complete_reconnect. case_if; [simpl; split; [left; split; [done|by left]|by left]|].
  case_if; [simpl; split; [left; split; [done|by left]|by left]|]. rewrite prune_outbox_unfold.
  case_if; simpl; (split; [left; split; [done|by left]|]); [by left|]. right. right. by exists c.
Qed.

Lemma locked_acts {R B} a k gid (missing : R) f (g : R → prog (SessionsEff Conn Payload) B) : tame k f →
  (∀ r, all_acts (keeps_order a k) (g r)) → all_acts (keeps_order a k) (locked gid missing f ≫= g).
Proof.
  intros Hf Hg. apply all_acts_bind; [|done]. constructor; [by intros w Hw|].
  intros [b|]; simpl; [|constructor]. apply all_acts_await. by apply locked_order.
Qed.

(** A section of the map that neither sends nor gives the connection to a
    cell. *)
Lemma players_order {R} a k (f : Sessions Conn Payload → prog (ConnEff Conn Payload) (R * Sessions Conn Payload)) :
  (∀ w, let '((_, st), w') := run handle_conn (f (sessions w)) w in
     wire w' = wire w ∧ ∀ b s, cells st !! b = Some s → holds k s → cells (sessions w) !! b = Some s) →
  keeps_order a k _ (LockPlayers f).
Proof.
  intros Hf w (ns & m & Hwire & Hsort & Hle & Hcells). cbn [handle_sessions]. specialize (Hf w).
  destruct (run handle_conn (f (sessions w)) w) as [[r st] w1]. destruct Hf as [Hw Hst].
  exists ns, m. split_and!; [|done|done|].
  - unfold wire_of in *. simpl. by rewrite Hw.
  - intros b s Hb Hk. apply Hcells; [|done]. by apply Hst.
Qed.

(** The connection a call brings is another one. *)
Definition other_connection (k : Z) (c : store_call) : Prop :=
  match c with
  | CallInstall _ c _ _ | CallReconnect _ _ c _ _ _ => conn_session_id c ≠ k
  | _ => True
  end.

Lemma call_acts a k call : other_connection k call → all_acts (keeps_order a k) (count_change call).
Proof using payload_seq_head.
  intros Hother. destruct call; cbn [count_change].
  - apply all_acts_bind; [|intros; constructor]. apply all_acts_await, players_order. intros w. simpl. split; [done|].
    intros b s [Hb|[_ Hb]]%lookup_app_Some Hk; [done|]. apply list_lookup_singleton_Some in Hb as [_ <-].
    destruct Hk as (c' & [= ->] & ?). done.
  - apply locked_acts; [|intros; constructor]. apply quiet_tame. intros s. apply authorize_reconnect_core.
  - apply locked_acts; [by apply reconnect_tame|intros; constructor].
  - apply locked_acts; [|intros; constructor]. apply quiet_tame. intros s. apply accept_request_core.
  - apply locked_acts; [|intros; constructor]. apply quiet_tame. intros s. apply accept_sequence_core.
  - apply locked_acts; [apply send_tame|intros; constructor].
  - apply locked_acts; [apply disconnect_tame|intros; constructor].
  - apply all_acts_bind; [|intros; constructor]. constructor; [by intros w Hw|].
    intros [b|]; [|constructor]. apply all_acts_bind; [apply all_acts_await, locked_order, kick_tame|].
    intros [c|]; [|constructor]. apply all_acts_await, players_order. intros w. unfold kick_remove.
    destruct c as [c|]; simpl; (split; [done|]); by case_decide.
  - apply locked_acts; [apply quiet_tame; intros s; apply accept_request_core|]. intros [rt|e]; [|constructor].
    apply all_acts_bind; [|intros; constructor]. apply all_acts_await, players_order. intros w.
    destruct (attached (sessions w) gid) as [s|]; simpl; [|done]. split; [done|]. by destruct (session_id s =? sid).
  - apply all_acts_bind; [|intros; constructor]. apply all_acts_await, players_order. intros w. by split.
Qed.

Lemma calls_acts a k calls : Forall (other_connection k) calls →
  Forall (all_acts (keeps_order a k)) (map count_change calls).
Proof using payload_seq_head. induction 1 as [|c calls Hc _ IH]; simpl; constructor; [by apply call_acts|done]. Qed.

End spec.

(** ** Runs *)
Module store_example.
#[global] Instance conn_id : Xnet Z := {| conn_session_id c := c |}.
#[global] Instance codec : CsCodec Z (CsHead * Z) := {| encode_message head message := Some (head, message) |}.
#[global] Instance proto : Xproto := {| SYSTEM_MSG_ID_END := 100 |}.

Definition payload_seq (p : CsHead * Z) : Z := head_seq p.1.
Definition kick_message (k : KickNtf) : Z := KickNtf_code k.
Definition start : World Z (CsHead * Z) := mkWorld (mkSessions ∅ []) [] [] 0 (λ _, None).
Definition exec {A} (p : prog (SessionsEff Z (CsHead * Z)) A) w := run handle_sessions p w.
Definition change : store_call (Conn := Z) (Msg := Z) → prog (SessionsEff Z (CsHead * Z)) Z :=
  count_change HARD_LIMITS kick_message.
Definition changes : list (store_call (Conn := Z) (Msg := Z)) → prog (SessionsEff Z (CsHead * Z)) Z :=
  count_changes HARD_LIMITS kick_message.

(** Player 7 is logged in on connection 1. *)
Definition logged_in := (exec (install_login 7 1 (mkRoutes 5 3) 1) start).2.

Definition day : list (store_call (Conn := Z) (Msg := Z)) :=
  [CallInstall 7 1 (mkRoutes 5 3) 1; CallInstall 8 2 (mkRoutes 5 3) 1; CallInstall 7 3 (mkRoutes 5 3) 1;
   CallDisconnect 7 1 0; CallDisconnect 8 2 0; CallReconnect 8 2 4 2 0 0; CallLogout 7 3 2 0 0].

Definition sends : list (store_call (Conn := Z) (Msg := Z)) :=
  [CallSend 7 1 MsgId.MailInfoNtf 11; CallSend 7 1 MsgId.MailInfoNtf 12].
End store_example.
Import store_example.

Lemma start_ok : store_ok (sessions start).
Proof. split; intros; simplify_eq. Qed.

Lemma replaced_connection_is_powerless_witness :
  not_current logged_in 7 9
  ∧ exec (kick HARD_LIMITS kick_message 7 9 1 "session replaced") logged_in = (None, logged_in).
Proof.
  assert (not_current logged_in 7 9) as Hn by (intros s Hs; vm_compute in Hs; by simplify_eq).
  split; [exact Hn|].
  apply (replaced_connection_is_powerless HARD_LIMITS kick_message logged_in 7 9 0 0 0 MsgId.KickNtf 0 1 "session replaced" Hn).
Defined.

Lemma online_count_exact_witness :
  (exec (changes day) start).1 = 1 ∧ active_sessions (sessions (exec (changes day) start).2) = 1.
Proof.
  pose proof (online_count_exact HARD_LIMITS kick_message day start start_ok) as H.
  assert ((exec (changes day) start).1 = 1) as H1 by (vm_compute; reflexivity).
  unfold exec, changes in *. destruct (run _ _ _) as [d w]. destruct H as [H _]. split; [exact H1|].
  change (active_sessions (sessions start)) with 0 in H. simpl in *. lia.
Defined.


(** Between the two sections of [kick] the kicked player may reconnect: his
    session is then removed although it has a connection, and the counter
    keeps a player that nobody can disconnect. *)
Lemma kick_removes_reconnected_session :
  let '(tasks, w') := interleave handle_sessions [0; 0; 1; 1; 0]%nat
    ([change (CallKick 7 1 4 "kick"); change (CallReconnect 7 1 2 2 0 0)], logged_in) in
  tasks = [Ret (-1); Ret 1]
  ∧ active_sessions (sessions logged_in) = 1 ∧ active_sessions (sessions w') = 0
  ∧ players (sessions w') = ∅.
Proof. vm_compute. by split_and!. Qed.

(** A logout whose request was accepted decrements the counter even when a
    concurrent kick has already removed and counted the session. *)
Lemma logout_and_kick_count_twice :
  let '(tasks, w') := interleave handle_sessions [0; 0; 1; 1; 1; 0]%nat
    ([change (CallLogout 7 1 2 0 0); change (CallKick 7 1 4 "kick")], logged_in) in
  tasks = [Ret (-1); Ret (-1)]
  ∧ active_sessions (sessions logged_in) = 1 ∧ active_sessions (sessions w') = 0.
Proof. vm_compute. by split_and!. Qed.
