(* ===== verification/GateGateway.v ===== *)
(** The Gate (service/gate/src/gateway.rs): from a client packet to the session
    store, the Logic and Public services and Redis, and the callbacks of the
    connection layer.  Each handler is a program over the operations it
    awaits; a handler that panics ends with [TaskPanics]. *)

From S2P Require Import Prelude Effects Routing Proto OnlineCache GateSession GateSessions.

Definition CLIENT_MAILBOX_CAPACITY : Z := 64.
Definition RPC_CALL_TIMEOUT : Z := secs 3.
Definition SHUTDOWN_CLEANUP_CONCURRENCY : Z := 64.

(** ** Messages *)

(** What the Gate sends to a client. *)
Inductive S2C :=
| SLogin (m : LoginRsp) | SReconnect (m : ReconnectRsp) | SLogout (m : LogoutRsp) | SPing (m : PingRsp)
| SPlayerInfo (m : PlayerInfoRsp) | SUseItem (m : UseItemRsp) | SMailList (m : MailListRsp)
| SMailRead (m : MailReadRsp) | SMailDelete (m : MailDeleteRsp) | SMailClaim (m : MailClaimRsp)
| SMailInfo (m : MailInfoNtf) | SKick (m : KickNtf).

(** The requests that are forwarded, by the type of their response. *)
Inductive Forward : Type → Type :=
| FPlayerInfo (r : PlayerInfoReq) : Forward PlayerInfoRsp
| FUseItem (r : UseItemReq) : Forward UseItemRsp
| FMailList (r : MailListReq) : Forward MailListRsp
| FMailRead (r : MailReadReq) : Forward MailReadRsp
| FMailDelete (r : MailDeleteReq) : Forward MailDeleteRsp
| FMailClaim (r : MailClaimReq) : Forward MailClaimRsp.

Definition response_msgid {Rsp} (f : Forward Rsp) : MsgId.t :=
  match f with
  | FPlayerInfo _ => MsgId.PlayerInfoRsp | FUseItem _ => MsgId.UseItemRsp | FMailList _ => MsgId.MailListRsp
  | FMailRead _ => MsgId.MailReadRsp | FMailDelete _ => MsgId.MailDeleteRsp | FMailClaim _ => MsgId.MailClaimRsp
  end.

Definition forward_target {Rsp} (f : Forward Rsp) : RouteTarget.t :=
  match f with
  | FPlayerInfo _ | FUseItem _ => RouteTarget.Logic
  | _ => RouteTarget.Public
  end.

(** [make_error] of the calls of [forward]. *)
Definition make_error {Rsp} (f : Forward Rsp) : Status → Rsp :=
  match f with
  | FPlayerInfo _ => λ s, mkPlayerInfoRsp (Some s) None []
  | FUseItem _ => λ s, mkUseItemRsp (Some s) None
  | FMailList _ => λ s, mkMailListRsp (Some s) []
  | FMailRead _ => λ s, mkMailReadRsp (Some s) []
  | FMailDelete _ => λ s, mkMailDeleteRsp (Some s) []
  | FMailClaim _ => λ s, mkMailClaimRsp (Some s) [] []
  end.

Definition to_client {Rsp} (f : Forward Rsp) : Rsp → S2C :=
  match f with
  | FPlayerInfo _ => SPlayerInfo | FUseItem _ => SUseItem | FMailList _ => SMailList
  | FMailRead _ => SMailRead | FMailDelete _ => SMailDelete | FMailClaim _ => SMailClaim
  end.

(** [CsPacket::decode] and [prost::Message::decode]. *)
Class PacketDecoder (Bytes Body : Type) := { decode_packet : Bytes → option (CsHead * Body) }.
Class Decode (Body M : Type) := { decode_body : Body → option M }.

(** The health of an instance that the service discovery knows. *)
Record ServiceInstance := mkServiceInstance { instance_id : Z; enable : bool; healthy : bool; connected : bool }.

(** ** Operations *)

Inductive GateEff (Conn Payload : Type) : Type → Type :=
| Store {X : Type} (e : SessionsEff Conn Payload X) : GateEff Conn Payload X
| UserId (c : Conn) : GateEff Conn Payload (option Z)
| BindUser (c : Conn) (gid : Z) : GateEff Conn Payload bool
| IsClosed (c : Conn) : GateEff Conn Payload bool
| ConnSend (c : Conn) (p : Payload) : GateEff Conn Payload (Result NetError unit)
| ConnClose (c : Conn) : GateEff Conn Payload unit
| Now : GateEff Conn Payload Z
| UnixSeconds : GateEff Conn Payload Z
| UnixMillis : GateEff Conn Payload Z
| LoadOnline (gid : Z) : GateEff Conn Payload (Result string (option OnlineData))
| SaveOnline (data : OnlineData) : GateEff Conn Payload (Result string unit)
| ClearGate (gid session logout_time : Z) : GateEff Conn Payload (Result string bool)
| PickMinOnlineAndIncrement (service : Z) : GateEff Conn Payload (option Z)
| FindInstance (service id : Z) : GateEff Conn Payload (option ServiceInstance)
| PickByHash (service gid : Z) : GateEff Conn Payload (option Z)
| CallLogicLogin (logic_id : Z) (route : RouteIdentity) (r : LogicLoginReq) : GateEff Conn Payload (Result string LogicLoginRsp)
| CallRouted {Rsp : Type} (service server_id : Z) (route : RouteIdentity) (f : Forward Rsp) : GateEff Conn Payload (Result string Rsp)
| NotifyLogic (logic_id : Z) (ntf : LogicDisconnectNtf) : GateEff Conn Payload (Result string unit)
| Online (f : Z → Z) : GateEff Conn Payload unit
| TaskPanics : GateEff Conn Payload unit.
#[global] Arguments Store {Conn Payload X}.
#[global] Arguments UserId {Conn Payload}.
#[global] Arguments BindUser {Conn Payload}.
#[global] Arguments IsClosed {Conn Payload}.
#[global] Arguments ConnSend {Conn Payload}.
#[global] Arguments ConnClose {Conn Payload}.
#[global] Arguments Now {Conn Payload}.
#[global] Arguments UnixSeconds {Conn Payload}.
#[global] Arguments UnixMillis {Conn Payload}.
#[global] Arguments LoadOnline {Conn Payload}.
#[global] Arguments SaveOnline {Conn Payload}.
#[global] Arguments ClearGate {Conn Payload}.
#[global] Arguments PickMinOnlineAndIncrement {Conn Payload}.
#[global] Arguments FindInstance {Conn Payload}.
#[global] Arguments PickByHash {Conn Payload}.
#[global] Arguments CallLogicLogin {Conn Payload}.
#[global] Arguments CallRouted {Conn Payload Rsp}.
#[global] Arguments NotifyLogic {Conn Payload}.
#[global] Arguments Online {Conn Payload}.
#[global] Arguments TaskPanics {Conn Payload}.

(** A program of the session store inside a handler. *)
Fixpoint in_store {Conn Payload A} (p : prog (SessionsEff Conn Payload) A) : prog (GateEff Conn Payload) A :=
  match p with
  | Ret a => Ret a
  | Act e k => Act (Store e) (λ x, in_store (k x))
  end.

Record NetFrame (Conn Bytes : Type) := mkNetFrame { frame_session_id : Z; frame_conn : Conn; frame_payload : Bytes }.
#[global] Arguments mkNetFrame {Conn Bytes}.
#[global] Arguments frame_session_id {Conn Bytes}.
#[global] Arguments frame_conn {Conn Bytes}.
#[global] Arguments frame_payload {Conn Bytes}.

Section gateway.
Context {Conn Payload Bytes Body : Type}.
Context `{!Xnet Conn} `{!CsCodec S2C Payload} `{!Xproto} `{!PacketDecoder Bytes Body} `{!TokenCoder}.
Context `{!Decode Body AckNtf, !Decode Body PingReq, !Decode Body LoginReq, !Decode Body ReconnectReq, !Decode Body LogoutReq,
  !Decode Body PlayerInfoReq, !Decode Body UseItemReq, !Decode Body MailListReq, !Decode Body MailReadReq,
  !Decode Body MailDeleteReq, !Decode Body MailClaimReq}.
Variable config : SessionConfig.
Variable gate_id : Z.
#[local] Abbreviation task := (prog (GateEff Conn Payload)).
#[local] Abbreviation Frame := (NetFrame Conn Bytes).

Definition decrement_online : task unit := await (Online (λ current, Z.max (current - 1) 0)).

(** ** Sending *)

Definition encode_direct (msgid : MsgId.t) (ack : Z) (message : S2C) : option Payload :=
  encode_message (mkCsHead (MsgId.as_u16 msgid) 0 ack) message.

Definition send_direct (c : Conn) (msgid : MsgId.t) (ack : Z) (message : S2C) (close : bool) : task unit :=
  _ ← (match encode_direct msgid ack message with
       | Some p => _ ← await (ConnSend c p); Ret tt
       | None => Ret tt
       end);
  if close then await (ConnClose c) else Ret tt.

(** A failed send is only logged. *)
Definition send_bound (gid sid : Z) (msgid : MsgId.t) (message : S2C) : task unit :=
  _ ← in_store (send config gid sid msgid message); Ret tt.

Definition login_error (status : Status) : LoginRsp :=
  {| LoginRsp_status := Some status; LoginRsp_gid := 0; LoginRsp_logic_id := 0; LoginRsp_public_id := 0;
     LoginRsp_player := None; LoginRsp_items := []; LoginRsp_session_id := 0 |}.

Definition reject_login (c : Conn) (ack : Z) (status : Status) : task unit :=
  send_direct c MsgId.LoginRsp ack (SLogin (login_error status)) true.

Definition reject_reconnect (c : Conn) (ack : Z) (status : Status) : task unit :=
  send_direct c MsgId.ReconnectRsp ack (SReconnect (mkReconnectRsp (Some status) 0 0)) true.

(** A body that does not decode closes the connection. *)
Definition decode {M} `{!Decode Body M} (frame : Frame) (body : Body) : task (option M) :=
  match decode_body body with
  | Some m => Ret (Some m)
  | None => _ ← await (ConnClose (frame_conn frame)); Ret None
  end.

(** ** Kicks and pushes *)

Definition kick_store (gid sid code : Z) (reason : string) : task (option bool) := in_store (kick config SKick gid sid code reason).

Definition kick_local (gid sid code : Z) (reason : string) : task unit :=
  kicked ← kick_store gid sid code reason;
  _ ← (match kicked with Some true => decrement_online | _ => Ret tt end);
  now ← await UnixSeconds;
  _ ← await (ClearGate gid sid now);
  Ret tt.

Definition kick_session (request : KickSessionReq) : task KickSessionRsp :=
  let gid := KickSessionReq_gid request in
  let sid := KickSessionReq_player_session request in
  if (gid <=? 0) || (sid <=? 0) then
    Ret (mkKickSessionRsp (Some (error_status code.INVALID_ARGUMENT "invalid kick target")) false)
  else
    result ← kick_store gid sid (KickSessionReq_code request) (KickSessionReq_reason request);
    _ ← (match result with Some true => decrement_online | _ => Ret tt end);
    _ ← (match result with
         | Some _ => now ← await UnixSeconds; _ ← await (ClearGate gid sid now); Ret tt
         | None => Ret tt
         end);
    Ret (mkKickSessionRsp (Some ok_status) (bool_decide (is_Some result))).

Definition push_mail (request : MailPushNtf) : task unit :=
  match MailPushNtf_mail request with
  | None => Ret tt
  | Some mail =>
      current ← in_store (current_session (MailPushNtf_gid request));
      match current with
      | None => Ret tt
      | Some sid => send_bound (MailPushNtf_gid request) sid MsgId.MailInfoNtf (SMailInfo (mkMailInfoNtf [mail]))
      end
  end.

(** ** Who may log in, and where *)

Definition verify_online (gid : Z) (token device_id : string) : task (option OnlineData) :=
  match simple_token_decode token device_id with
  | None => Ret None
  | Some decoded_gid =>
      if negb (decoded_gid =? gid) then Ret None
      else
        online ← await (LoadOnline gid);
        match online with
        | Ok (Some online) =>
            Ret (if (OnlineCache.gid online =? gid) && bool_decide (OnlineCache.token online = token) then Some online else None)
        | _ => Ret None
        end
  end.

Definition select_logic (online : OnlineData) : task (option Z) :=
  if OnlineCache.logic_id online =? 0 then await (PickMinOnlineAndIncrement service_type.LOGIC)
  else
    instance ← await (FindInstance service_type.LOGIC (OnlineCache.logic_id online));
    match instance with
    | None => Ret None
    | Some i => Ret (if enable i && healthy i && connected i then Some (instance_id i) else None)
    end.

(** The owner record after a login or a reconnect. *)
Definition owned_by (online : OnlineData) (sid now public_id logic_id : Z) : OnlineData :=
  {| account := account online; gid := gid online; token := token online; session := sid; login_time := now;
     logout_time := 0; OnlineCache.public_id := public_id; OnlineCache.gate_id := gate_id;
     OnlineCache.logic_id := logic_id |}.

(** ** Login *)

(** After Logic accepted the login: the connection is bound, the session
    installed, the owner record saved and the response sent. *)
Definition login_accepted (frame : Frame) (head : CsHead) (request : LoginReq) (online : OnlineData)
    (logic public : Z) (answer : LogicLoginRsp) : task unit :=
  let gid := LoginReq_gid request in
  let sid := frame_session_id frame in
  bound ← await (BindUser (frame_conn frame) gid);
  closed ← (if bound : bool then await (IsClosed (frame_conn frame)) else Ret true);
  if closed : bool then await (ConnClose (frame_conn frame))
  else
    became_active ← in_store (install_login gid (frame_conn frame) (mkRoutes logic public) (head_seq head));
    _ ← (if became_active : bool then await (Online (λ c, wrap_i32 (c + 1))) else Ret tt);
    now ← await UnixSeconds;
    saved ← await (SaveOnline (owned_by online sid now public logic));
    match saved with
    | Err _ => kick_local gid sid code.INTERNAL "online save failed"
    | Ok _ =>
        send_bound gid sid MsgId.LoginRsp
          (SLogin {| LoginRsp_status := Some ok_status; LoginRsp_gid := gid; LoginRsp_logic_id := logic;
                     LoginRsp_public_id := public; LoginRsp_player := LogicLoginRsp_player answer;
                     LoginRsp_items := LogicLoginRsp_items answer; LoginRsp_session_id := sid |})
    end.

Definition invalid_login (user : option Z) (head : CsHead) (request : LoginReq) : bool :=
  bool_decide (is_Some user) || (LoginReq_gid request <=? 0) || bool_decide (LoginReq_token request = "")
  || (Z.of_nat (String.length (LoginReq_device_id request)) <? 8) || (head_seq head =? 0).

Definition handle_login (frame : Frame) (head : CsHead) (body : Body) : task unit :=
  decoded ← decode frame body;
  match decoded with
  | None => Ret tt
  | Some request =>
      let gid := LoginReq_gid request in
      let sid := frame_session_id frame in
      let reject := reject_login (frame_conn frame) (head_seq head) in
      user ← await (UserId (frame_conn frame));
      if invalid_login user head request then reject (error_status code.INVALID_ARGUMENT "invalid login request")
      else
        verified ← verify_online gid (LoginReq_token request) (LoginReq_device_id request);
        match verified with
        | None => reject (error_status code.UNAUTHENTICATED "token verification failed")
        | Some online =>
            selected ← select_logic online;
            match selected with
            | None => reject (error_status code.TEMPORARILY_UNAVAILABLE "Logic unavailable")
            | Some logic =>
                picked ← await (PickByHash service_type.PUBLIC gid);
                match picked, from_signed gid sid with
                | None, _ => reject (error_status code.TEMPORARILY_UNAVAILABLE "Public unavailable")
                | Some _, None => await TaskPanics
                | Some public, Some route =>
                    answered ← await (CallLogicLogin logic route
                      {| LogicLoginReq_gid := gid; LogicLoginReq_gate_id := gate_id; LogicLoginReq_player_session := sid;
                         LogicLoginReq_device_id := LoginReq_device_id request; LogicLoginReq_reconnect := false |});
                    match answered with
                    | Err _ => reject (error_status code.TEMPORARILY_UNAVAILABLE "Logic login failed")
                    | Ok answer =>
                        let status := default (error_status code.INTERNAL "Logic login response has no status")
                                        (LogicLoginRsp_status answer) in
                        if negb (Status_code status =? code.OK) then reject status
                        else login_accepted frame head request online logic public answer
                    end
                end
            end
        end
  end.

(** ** Reconnect *)

(** The replay, outside of the session lock; a refused frame kicks the
    session. *)
Fixpoint send_replay (c : Conn) (gid sid : Z) (payloads : list Payload) : task bool :=
  match payloads with
  | [] => Ret true
  | p :: payloads =>
      sent ← await (ConnSend c p);
      match sent with
      | Ok _ => send_replay c gid sid payloads
      | Err _ => _ ← kick_local gid sid code.OVERLOADED "replay queue full"; Ret false
      end
  end.

Definition reconnect_accepted (frame : Frame) (head : CsHead) (request : ReconnectReq) (online : OnlineData)
    (routes : Routes) : task unit :=
  let gid := ReconnectReq_gid request in
  let sid := frame_session_id frame in
  bound ← await (BindUser (frame_conn frame) gid);
  closed ← (if bound : bool then await (IsClosed (frame_conn frame)) else Ret true);
  if closed : bool then await (ConnClose (frame_conn frame))
  else
    now ← await Now;
    completed ← in_store (sessions_complete_reconnect config gid (ReconnectReq_previous_session request) (frame_conn frame)
                   (head_seq head) (ReconnectReq_ack request) now);
    match completed with
    | Err _ => await (ConnClose (frame_conn frame))
    | Ok reconnect =>
        _ ← (if became_active reconnect then await (Online (λ c, wrap_i32 (c + 1))) else Ret tt);
        now ← await UnixSeconds;
        saved ← await (SaveOnline (owned_by online sid now (public_id routes) (OnlineCache.logic_id online)));
        match saved with
        | Err _ => kick_local gid sid code.INTERNAL "online save failed"
        | Ok _ =>
            replayed ← send_replay (frame_conn frame) gid sid (replay reconnect);
            if replayed : bool then
              send_bound gid sid MsgId.ReconnectRsp
                (SReconnect (mkReconnectRsp (Some ok_status) (wrap_u32 (len (replay reconnect))) sid))
            else Ret tt
        end
    end.

Definition invalid_reconnect (user : option Z) (head : CsHead) (request : ReconnectReq) : bool :=
  bool_decide (is_Some user) || (ReconnectReq_gid request <=? 0) || (ReconnectReq_previous_session request <=? 0)
  || bool_decide (ReconnectReq_token request = "")
  || (Z.of_nat (String.length (ReconnectReq_device_id request)) <? 8)
  || negb (ReconnectReq_ack request =? head_ack head) || (head_seq head =? 0).

Definition resume_status (error : ResumeError.t) : Status :=
  match error with
  | ResumeError.RateLimited => error_status code.RATE_LIMITED "reconnect rate exceeded"
  | _ => error_status code.RESUME_EXPIRED "resume state expired"
  end.

Definition handle_reconnect (frame : Frame) (head : CsHead) (body : Body) : task unit :=
  decoded ← decode frame body;
  match decoded with
  | None => Ret tt
  | Some request =>
      let gid := ReconnectReq_gid request in
      let sid := frame_session_id frame in
      let reject := reject_reconnect (frame_conn frame) (head_seq head) in
      user ← await (UserId (frame_conn frame));
      if invalid_reconnect user head request then reject (error_status code.INVALID_ARGUMENT "invalid reconnect request")
      else
        verified ← verify_online gid (ReconnectReq_token request) (ReconnectReq_device_id request);
        match verified with
        | None => reject (error_status code.UNAUTHENTICATED "token verification failed")
        | Some online =>
            now ← await Now;
            authorized ← in_store (sessions_authorize_reconnect config gid (ReconnectReq_previous_session request)
                           (head_seq head) (ReconnectReq_ack request) now);
            match authorized with
            | Err error => reject (resume_status error)
            | Ok routes =>
                if negb (OnlineCache.logic_id online =? logic_id routes) then
                  reject (error_status code.RESUME_EXPIRED "Logic ownership changed")
                else
                  match from_signed gid sid with
                  | None => await TaskPanics
                  | Some route =>
                      answered ← await (CallLogicLogin (logic_id routes) route
                        {| LogicLoginReq_gid := gid; LogicLoginReq_gate_id := gate_id; LogicLoginReq_player_session := sid;
                           LogicLoginReq_device_id := ReconnectReq_device_id request; LogicLoginReq_reconnect := true |});
                      match answered with
                      | Err _ => reject (error_status code.TEMPORARILY_UNAVAILABLE "Logic reconnect failed")
                      | Ok answer =>
                          let status := default (error_status code.INTERNAL "Logic reconnect response has no status")
                                          (LogicLoginRsp_status answer) in
                          if negb (Status_code status =? code.OK) then reject status
                          else reconnect_accepted frame head request online routes
                      end
                  end
            end
        end
  end.

(** ** Logout and disconnect *)

Definition handle_logout (frame : Frame) (head : CsHead) (body : Body) : task unit :=
  decoded ← decode (M := LogoutReq) frame body;
  match decoded with
  | None => Ret tt
  | Some _ =>
      let sid := frame_session_id frame in
      user ← await (UserId (frame_conn frame));
      match user with
      | None => await (ConnClose (frame_conn frame))
      | Some gid =>
          now ← await Now;
          accepted ← in_store (sessions_accept_request config gid sid (head_seq head) (head_ack head) now);
          match accepted with
          | Err RequestError.RateLimited =>
              send_bound gid sid MsgId.LogoutRsp
                (SLogout (mkLogoutRsp (Some (error_status code.RATE_LIMITED "request rate exceeded"))))
          | Err _ => await (ConnClose (frame_conn frame))
          | Ok routes =>
              _ ← send_bound gid sid MsgId.LogoutRsp (SLogout (mkLogoutRsp (Some ok_status)));
              _ ← in_store (invalidate gid sid);
              _ ← decrement_online;
              _ ← await (NotifyLogic (logic_id routes) (mkLogicDisconnectNtf gid gate_id sid));
              now ← await UnixSeconds;
              _ ← await (ClearGate gid sid now);
              await (ConnClose (frame_conn frame))
          end
      end
  end.

(** [GatewayState::disconnect]. *)
Definition connection_lost (c : Conn) : task unit :=
  let sid := conn_session_id c in
  user ← await (UserId c);
  match user with
  | None => Ret tt
  | Some gid =>
      now ← await Now;
      left ← in_store (disconnect gid sid now);
      match left with
      | None => Ret tt
      | Some routes =>
          _ ← decrement_online;
          _ ← await (NotifyLogic (logic_id routes) (mkLogicDisconnectNtf gid gate_id sid));
          now ← await UnixSeconds;
          _ ← await (ClearGate gid sid now);
          Ret tt
      end
  end.

(** ** Requests of a bound player *)

Definition handle_ack (frame : Frame) (head : CsHead) (body : Body) : task unit :=
  decoded ← decode (M := AckNtf) frame body;
  match decoded with
  | None => Ret tt
  | Some _ =>
      user ← await (UserId (frame_conn frame));
      match user with
      | None => await (ConnClose (frame_conn frame))
      | Some gid =>
          now ← await Now;
          acked ← in_store (acknowledge config gid (frame_session_id frame) (head_seq head) (head_ack head) now);
          match acked with
          | Ok _ => Ret tt
          | Err _ => await (ConnClose (frame_conn frame))
          end
      end
  end.

Definition handle_ping (frame : Frame) (head : CsHead) (body : Body) : task unit :=
  decoded ← decode (M := PingReq) frame body;
  match decoded with
  | None => Ret tt
  | Some request =>
      millis ← await UnixMillis;
      let response := SPing (mkPingRsp (Some ok_status) (PingReq_client_time_ms request) millis) in
      user ← await (UserId (frame_conn frame));
      match user with
      | None => send_direct (frame_conn frame) MsgId.PingRsp (head_seq head) response false
      | Some gid =>
          now ← await Now;
          acked ← in_store (acknowledge config gid (frame_session_id frame) (head_seq head) (head_ack head) now);
          match acked with
          | Ok _ => send_bound gid (frame_session_id frame) MsgId.PingRsp response
          | Err _ => await (ConnClose (frame_conn frame))
          end
      end
  end.

Definition forward {Rsp} (frame : Frame) (head : CsHead) (request : Forward Rsp) : task unit :=
  let sid := frame_session_id frame in
  let answer := λ gid response, send_bound gid sid (response_msgid request) (to_client request response) in
  user ← await (UserId (frame_conn frame));
  match user with
  | None => await (ConnClose (frame_conn frame))
  | Some gid =>
      now ← await Now;
      accepted ← in_store (sessions_accept_request config gid sid (head_seq head) (head_ack head) now);
      match accepted with
      | Err RequestError.RateLimited => answer gid (make_error request (error_status code.RATE_LIMITED "request rate exceeded"))
      | Err _ => await (ConnClose (frame_conn frame))
      | Ok routes =>
          match forward_target request, from_signed gid sid with
          | RouteTarget.Gate, _ | _, None => await TaskPanics
          | target, Some route =>
              let '(server_id, service) :=
                match target with
                | RouteTarget.Logic => (logic_id routes, service_type.LOGIC)
                | _ => (public_id routes, service_type.PUBLIC)
                end in
              called ← await (CallRouted service server_id route request);
              answer gid match called with
                         | Ok response => response
                         | Err _ => make_error request (error_status code.TEMPORARILY_UNAVAILABLE "target service unavailable")
                         end
          end
      end
  end.

(** The request of a message decoded and forwarded. *)
Definition decode_and_forward {M Rsp} `{!Decode Body M} (frame : Frame) (head : CsHead) (body : Body) (f : M → Forward Rsp) : task unit :=
  decoded ← decode (M := M) frame body;
  match decoded with
  | None => Ret tt
  | Some request => forward frame head (f request)
  end.

Definition handle_packet (frame : Frame) : task unit :=
  match decode_packet (frame_payload frame) with
  | None => await (ConnClose (frame_conn frame))
  | Some (head, body) =>
      match from_u16 (head_msgid head) with
      | None => await (ConnClose (frame_conn frame))
      | Some msgid =>
          match msgid with
          | MsgId.AckNtf => handle_ack frame head body
          | MsgId.PingReq => handle_ping frame head body
          | MsgId.LoginReq => handle_login frame head body
          | MsgId.ReconnectReq => handle_reconnect frame head body
          | MsgId.LogoutReq => handle_logout frame head body
          | MsgId.PlayerInfoReq => decode_and_forward frame head body FPlayerInfo
          | MsgId.UseItemReq => decode_and_forward frame head body FUseItem
          | MsgId.MailListReq => decode_and_forward frame head body FMailList
          | MsgId.MailReadReq => decode_and_forward frame head body FMailRead
          | MsgId.MailDeleteReq => decode_and_forward frame head body FMailDelete
          | MsgId.MailClaimReq => decode_and_forward frame head body FMailClaim
          | _ => await (ConnClose (frame_conn frame))
          end
      end
  end.

(** ** The workers of the connections *)

(** Each connection has a worker task with a bounded mailbox. *)
Record Gateway := mkGateway { workers : gmap Z (Conn * list Frame); draining : bool }.

(** What a callback does beside changing the map. *)
Inductive Action := CloseConn (c : Conn) | AbortWorker (sid : Z) | SpawnDisconnect (c : Conn).

(** [None] is the panic of the assertion. *)
Definition on_connected (c : Conn) (g : Gateway) : option (Gateway * list Action) :=
  if draining g then Some (g, [CloseConn c])
  else
    match workers g !! conn_session_id c with
    | Some _ => None
    | None => Some (mkGateway (<[conn_session_id c := (c, [])]> (workers g)) (draining g), [])
    end.

Definition on_packet (frame : Frame) (g : Gateway) : Gateway * list Action :=
  if draining g then (g, [CloseConn (frame_conn frame)])
  else
    match workers g !! frame_session_id frame with
    | None => (g, [CloseConn (frame_conn frame)])
    | Some (c, mailbox) =>
        if len mailbox <? CLIENT_MAILBOX_CAPACITY then
          (mkGateway (<[frame_session_id frame := (c, mailbox ++ [frame])]> (workers g)) (draining g), [])
        else (g, [CloseConn (frame_conn frame)])
    end.

Definition on_disconnected (c : Conn) (g : Gateway) : Gateway * list Action :=
  let sid := conn_session_id c in
  let abort := match workers g !! sid with Some _ => [AbortWorker sid] | None => [] end in
  (mkGateway (delete sid (workers g)) (draining g),
   abort ++ if draining g then [] else [SpawnDisconnect c]).

(** The worker takes the next frame of its mailbox. *)
Definition worker_recv (sid : Z) (g : Gateway) : option (Frame * Gateway) :=
  match workers g !! sid with
  | Some (c, frame :: mailbox) => Some (frame, mkGateway (<[sid := (c, mailbox)]> (workers g)) (draining g))
  | _ => None
  end.

Definition worker_step (frame : Frame) (c : Conn) : task unit :=
  closed ← await (IsClosed c);
  if closed : bool then Ret tt else handle_packet frame.

(** ** Shutdown *)

Definition cleanup_shutdown_session (s : ClosingSession) : task unit :=
  _ ← await (NotifyLogic (logic_id (closing_routes s)) (mkLogicDisconnectNtf (closing_gid s) gate_id (closing_session_id s)));
  now ← await UnixSeconds;
  _ ← await (ClearGate (closing_gid s) (closing_session_id s) now);
  Ret tt.

Fixpoint close_all (cs : list Conn) : task unit :=
  match cs with
  | [] => Ret tt
  | c :: cs => _ ← await (ConnClose c); close_all cs
  end.

Context `{!MapIter Z nat}.

(** The flag is raised and the workers leave the map. *)
Definition begin_shutdown (g : Gateway) : Gateway * list (Conn * list Frame) :=
  (mkGateway ∅ true, snd <$> map_to_list (workers g)).

(** Their connections are closed; once their tasks ended, the sessions that
    are left are taken. *)
Definition drain_sessions (ws : list (Conn * list Frame)) : task (list ClosingSession) :=
  _ ← close_all (fst <$> ws);
  closing ← in_store drain;
  _ ← await (Online (λ _, 0));
  Ret closing.

(** The rest: the cleanups are tasks, at most [SHUTDOWN_CLEANUP_CONCURRENCY]
    at a time, in any order of their operations. *)
Definition shutdown (schedule : list nat) (ws : list (Conn * list Frame)) : task unit :=
  closing ← drain_sessions ws;
  concurrent (Z.to_nat SHUTDOWN_CLEANUP_CONCURRENCY) schedule [] (List.map cleanup_shutdown_session closing).
End gateway.
