(* ===== verification/GateGatewaySpec.v ===== *)
(** The Gate as a whole: only an authenticated client that Logic accepted
    changes the sessions, the handlers keep the online counter exact when they
    do not overlap; and the interleavings where the counter or the order of the
    frames is lost. *)

From S2P Require Import Prelude Effects Routing Proto OnlineCache GateSession GateSessions GateSessionsSpec GateGateway.

Create HintDb gate discriminated.

(** ** A world to run the handlers in *)

(** What the other parties answer. *)
Record Env := mkEnv {
  env_logic : Z → LogicLoginReq → Result string LogicLoginRsp;
  env_route : ∀ Rsp, Forward Rsp → Result string Rsp;
  env_binds : Z → bool;
  env_closed : Z → bool;
  env_pick : Z → option Z;
  env_instance : Z → Z → option ServiceInstance;
  env_hash : Z → Z → option Z;
  env_seconds : Z;
  env_millis : Z;
  env_redis : option string
}.

Record GateWorld (Conn Payload : Type) := mkGateWorld {
  store : World Conn Payload;
  users : gmap Z Z;
  records : gmap Z OnlineData;
  online : Z;
  routed : list (Z * Z);
  notified : list LogicDisconnectNtf;
  panics : Z
}.
#[global] Arguments mkGateWorld {Conn Payload}.
#[global] Arguments store {Conn Payload}.
#[global] Arguments users {Conn Payload}.
#[global] Arguments records {Conn Payload}.
#[global] Arguments online {Conn Payload}.
#[global] Arguments routed {Conn Payload}.
#[global] Arguments notified {Conn Payload}.
#[global] Arguments panics {Conn Payload}.

Section world.
Context {Conn Payload : Type} `{!Xnet Conn}.
#[local] Abbreviation GW := (GateWorld Conn Payload).

Definition eta_GateWorld (w : GW) : GW :=
  mkGateWorld (store w) (users w) (records w) (online w) (routed w) (notified w) (panics w).
Definition on_store : (World Conn Payload → World Conn Payload) → GW → GW := ltac:(derive_update eta_GateWorld (@store Conn Payload)).
Definition on_users : (gmap Z Z → gmap Z Z) → GW → GW := ltac:(derive_update eta_GateWorld (@users Conn Payload)).
Definition on_records : (gmap Z OnlineData → gmap Z OnlineData) → GW → GW := ltac:(derive_update eta_GateWorld (@records Conn Payload)).
Definition on_online : (Z → Z) → GW → GW := ltac:(derive_update eta_GateWorld (@online Conn Payload)).
Definition on_routed : (list (Z * Z) → list (Z * Z)) → GW → GW := ltac:(derive_update eta_GateWorld (@routed Conn Payload)).
Definition on_notified : (list LogicDisconnectNtf → list LogicDisconnectNtf) → GW → GW :=
  ltac:(derive_update eta_GateWorld (@notified Conn Payload)).
Definition on_panics : (Z → Z) → GW → GW := ltac:(derive_update eta_GateWorld (@panics Conn Payload)).

Definition redis_answer {A} (env : Env) (a : A) (w' w : GW) : Result string A * GW :=
  match env_redis env with Some error => (Err error, w) | None => (Ok a, w') end.

(** The Gate's record of a session is cleared only for that session
    (property [clear_gate_only_current] of [OnlineSpec]). *)
Definition cleared (gid sid logout : Z) (m : gmap Z OnlineData) : bool * gmap Z OnlineData :=
  match m !! gid with
  | Some d =>
      if OnlineCache.session d =? sid then
        (true, <[gid := {| account := account d; OnlineCache.gid := OnlineCache.gid d; token := token d; session := 0;
                           login_time := login_time d; logout_time := logout; OnlineCache.public_id := OnlineCache.public_id d;
                           OnlineCache.gate_id := 0; OnlineCache.logic_id := OnlineCache.logic_id d |}]> m)
      else (false, m)
  | None => (false, m)
  end.

Definition handle_gate (env : Env) (X : Type) (e : GateEff Conn Payload X) : GW → X * GW :=
  match e in GateEff _ _ X return GW → X * GW with
  | Store e => λ w, let '(x, s) := handle_sessions _ e (store w) in (x, on_store (λ _, s) w)
  | UserId c => λ w, (users w !! conn_session_id c, w)
  | BindUser c gid => λ w,
      if env_binds env (conn_session_id c) then (true, on_users <[conn_session_id c := gid]> w) else (false, w)
  | IsClosed c => λ w, (env_closed env (conn_session_id c), w)
  | ConnSend c p => λ w, let '(x, s) := handle_conn _ (SendShared c p) (store w) in (x, on_store (λ _, s) w)
  | ConnClose c => λ w, let '(x, s) := handle_conn _ (Close (Payload := Payload) c) (store w) in (x, on_store (λ _, s) w)
  | Now => λ w, (clock (store w), w)
  | UnixSeconds => λ w, (env_seconds env, w)
  | UnixMillis => λ w, (env_millis env, w)
  | LoadOnline gid => λ w, redis_answer env (records w !! gid) w w
  | SaveOnline d => λ w, redis_answer env tt (on_records <[gid d := d]> w) w
  | ClearGate gid sid t => λ w,
      let '(b, m) := cleared gid sid t (records w) in redis_answer env b (on_records (λ _, m) w) w
  | PickMinOnlineAndIncrement service => λ w, (env_pick env service, w)
  | FindInstance service id => λ w, (env_instance env service id, w)
  | PickByHash service gid => λ w, (env_hash env service gid, w)
  | CallLogicLogin logic _ r => λ w, (env_logic env logic r, w)
  | CallRouted service server _ f => λ w, (env_route env _ f, on_routed (λ l, l ++ [(service, server)]) w)
  | NotifyLogic _ ntf => λ w, (Ok tt, on_notified (λ l, l ++ [ntf]) w)
  | Online f => λ w, (tt, on_online f w)
  | TaskPanics => λ w, (tt, on_panics (λ n, n + 1) w)
  end.

Lemma run_in_store env {A} (p : prog (SessionsEff Conn Payload) A) w :
  run (handle_gate env) (in_store p) w = let '(x, s) := run handle_sessions p (store w) in (x, on_store (λ _, s) w).
Proof.
  revert w. induction p as [a|X e k IH]; intros w; [by destruct w|]. simpl.
  destruct (handle_sessions X e (store w)) as [x s]. rewrite IH. simpl. by destruct (run handle_sessions (k x) s).
Qed.
End world.

(** ** The online counter *)

Section count.
Context {Conn Payload Bytes Body : Type}.
Context `{!Xnet Conn} `{!CsCodec S2C Payload} `{!Xproto} `{!PacketDecoder Bytes Body} `{!TokenCoder}.
Context `{!Decode Body AckNtf, !Decode Body PingReq, !Decode Body LoginReq, !Decode Body ReconnectReq, !Decode Body LogoutReq,
  !Decode Body PlayerInfoReq, !Decode Body UseItemReq, !Decode Body MailListReq, !Decode Body MailReadReq,
  !Decode Body MailDeleteReq, !Decode Body MailClaimReq}.
Variable config : SessionConfig.
Variable gate_id : Z.
Variable env : Env.
#[local] Abbreviation task := (prog (GateEff Conn Payload)).
#[local] Abbreviation exec := (run (handle_gate env)).
Implicit Types (w : GateWorld Conn Payload) (frame : NetFrame Conn Bytes).

(** The counter is [d] behind the active sessions. *)
Definition balanced (d n : Z) w : Prop :=
  online w = n ∧ active_sessions (sessions (store w)) = n + d ∧ store_ok (sessions (store w)).

(** From a counter that is [d] behind, with room for [m] more players, the
    program ends with an exact counter. *)
Definition settles (d m : Z) {A} (p : task A) : Prop :=
  ∀ w n, balanced d n w → n + m < 2 ^ 31 → ∃ n', balanced 0 n' (exec p w).2.

Definition quiet {A} (p : task A) : Prop := ∀ w,
  online (exec p w).2 = online w ∧ sessions (store (exec p w).2) = sessions (store w).

Definition is_quiet {X} (e : GateEff Conn Payload X) : bool :=
  match e with Store _ | Online _ => false | _ => true end.

Lemma quiet_ret {A} (a : A) : quiet (Ret a).
Proof. by intros w. Qed.

Lemma quiet_await {X} (e : GateEff Conn Payload X) : is_quiet e = true → quiet (await e).
Proof.
  intros He w. rewrite run_await. destruct e; try discriminate He; simpl; unfold redis_answer; try done.
  - by destruct (env_binds _ _).
  - by destruct (refuses _ _).
  - by destruct (env_redis env).
  - by destruct (env_redis env).
  - destruct (cleared _ _ _ _). by destruct (env_redis env).
Qed.

Lemma quiet_bind {A B} (p : task A) (k : A → task B) : quiet p → (∀ a, quiet (k a)) → quiet (p ≫= k).
Proof.
  intros Hp Hk w. rewrite run_bind. specialize (Hp w). destruct (exec p w) as [a w1]. simpl in Hp.
  destruct (Hk a w1) as [-> ->]. exact Hp.
Qed.

Lemma settles_quiet d m {A B} (p : task A) (k : A → task B) : quiet p → (∀ a, settles d m (k a)) → settles d m (p ≫= k).
Proof.
  intros Hp Hk w n (Hn & Ha & Hok) Hm. rewrite run_bind. destruct (Hp w) as [H1 H2].
  destruct (exec p w) as [a w1]. simpl in H1, H2. apply (Hk a w1 n); [|done]. split_and!; congruence.
Qed.

Lemma quiet_settles m {A} (p : task A) : quiet p → settles 0 m p.
Proof. intros Hp w n (Hn & Ha & Hok) _. destruct (Hp w) as [H1 H2]. exists n. split_and!; congruence. Qed.

(** A call of the store moves the difference by what its answer tells. *)
Lemma settles_store d m {A B} (p : prog (SessionsEff Conn Payload) A) (g : A → Z) (k : A → task B) :
  (∀ sw, store_ok (sessions sw) → exact sw (r ← p; Ret (g r))) →
  (∀ r, settles (d + g r) m (k r)) → settles d m (in_store p ≫= k).
Proof.
  intros Hp Hk w n (Hn & Ha & Hok) Hm. rewrite run_bind, run_in_store. specialize (Hp (store w) Hok).
  unfold exact in Hp. rewrite run_bind in Hp. destruct (run handle_sessions p (store w)) as [r sw].
  simpl in Hp. destruct Hp as [H1 H2]. apply (Hk r _ n); [|done]. split_and!; simpl; [done|lia|done].
Qed.

Lemma active_nonneg w : 0 <= active_sessions (sessions (store w)).
Proof.
  apply map_sum_nonneg. intros g a _. unfold cell_active. destruct (cells _ !! a) as [s|]; [|lia].
  destruct (active s); lia.
Qed.

Lemma settles_increment m {B} (k : unit → task B) : 0 <= m →
  (∀ u, settles 0 m (k u)) → settles 1 (m + 1) (await (Online (λ c, wrap_i32 (c + 1))) ≫= k).
Proof.
  intros Hm Hk w n (Hn & Ha & Hok) Hroom. rewrite run_bind, run_await. simpl.
  pose proof (active_nonneg w). apply (Hk tt _ (n + 1)); [|lia]. split_and!; simpl; [|lia|done].
  rewrite Hn. apply wrap_i32_id. unfold is_i32. lia.
Qed.

Lemma settles_decrement m {B} (k : unit → task B) :
  (∀ u, settles 0 m (k u)) → settles (-1) m (decrement_online ≫= k).
Proof.
  intros Hk w n (Hn & Ha & Hok) Hroom. unfold decrement_online. rewrite run_bind, run_await. simpl.
  pose proof (active_nonneg w). apply (Hk tt _ (n - 1)); [|lia]. split_and!; simpl; [rewrite Hn; lia|lia|done].
Qed.

Lemma settles_ret m {A} (a : A) : settles 0 m (Ret a).
Proof. apply quiet_settles, quiet_ret. Qed.

Lemma send_bound_settles m gid sid msgid message : settles 0 m (send_bound config gid sid msgid message).
Proof.
  apply (settles_store 0 m _ (λ _, 0)); [|intros; apply settles_ret].
  intros sw Hsw. by apply send_exact.
Qed.

(** Programs without a call of the store. *)
Ltac quiet_tac :=
  repeat first
    [ apply quiet_ret
    | apply quiet_bind; [|intros ?]
    | apply quiet_await; reflexivity
    | match goal with |- quiet (match ?x with _ => _ end) => destruct x end ].

Lemma send_direct_quiet c msgid ack message close : quiet (send_direct c msgid ack message close).
Proof. unfold send_direct. quiet_tac. Qed.

Lemma verify_online_quiet gid token device : quiet (verify_online gid token device).
Proof. unfold verify_online. quiet_tac. Qed.

Lemma select_logic_quiet d : quiet (select_logic d).
Proof. unfold select_logic. quiet_tac. Qed.

Lemma decode_quiet {M} `{!Decode Body M} frame body : quiet (decode (M := M) frame body).
Proof. unfold decode. quiet_tac. Qed.

(** ** The handlers settle the counter *)

#[local] Hint Resolve quiet_ret send_direct_quiet verify_online_quiet select_logic_quiet decode_quiet : gate.

Ltac quiet_solve := first [solve [auto with gate] | apply quiet_await; reflexivity | solve [quiet_tac]].
Ltac settle :=
  repeat first
    [ apply settles_ret
    | apply send_bound_settles
    | apply quiet_settles; quiet_solve
    | apply settles_quiet; [quiet_solve|intros ?]
    | match goal with |- settles _ _ (match ?x with _ => _ end) => destruct x end ].

(** What the answers of the store tell. *)
Definition kick_change (r : option bool) : Z := match r with Some true => -1 | _ => 0 end.
Definition drop_change (r : option Routes) : Z := match r with Some _ => -1 | None => 0 end.
Definition install_change (b : bool) : Z := if b then 1 else 0.
Definition resume_change (r : Result ResumeError.t (ReconnectResult Payload)) : Z :=
  match r with Ok r => if became_active r then 1 else 0 | Err _ => 0 end.

Lemma kick_store_settles m gid sid code reason {B} (k : option bool → task B) :
  (∀ r, settles (kick_change r) m (k r)) → settles 0 m (kick_store config gid sid code reason ≫= k).
Proof. apply (settles_store 0 m _ kick_change). intros sw Hsw. by apply kick_exact. Qed.

Lemma after_kick_settles m (r : option bool) {B} (k : unit → task B) : (∀ u, settles 0 m (k u)) →
  settles (kick_change r) m ((match r with Some true => decrement_online | _ => Ret tt end) ≫= k).
Proof.
  intros Hk. destruct r as [[]|]; simpl kick_change; [by apply settles_decrement| |]; apply settles_quiet; quiet_solve || done.
Qed.

Lemma kick_local_settles m gid sid code reason : settles 0 m (kick_local config gid sid code reason).
Proof. unfold kick_local. apply kick_store_settles. intros r. apply after_kick_settles. intros u. settle. Qed.

Lemma kick_session_settles m request : settles 0 m (kick_session config request).
Proof.
  unfold kick_session. case_if; [settle|]. apply kick_store_settles. intros r. apply after_kick_settles. intros u. settle.
Qed.

Lemma count_change_settles m call {B} (k : Z → task B) : (∀ d, settles d m (k d)) →
  settles 0 m (in_store (count_change config SKick call) ≫= k).
Proof.
  intros Hk. apply (settles_store 0 m _ id); [|done]. intros sw Hsw.
  pose proof (count_change_exact config SKick call sw Hsw) as Hc. unfold exact in *. rewrite run_bind.
  by destruct (run handle_sessions (count_change config SKick call) sw).
Qed.

Lemma push_mail_settles m request : settles 0 m (push_mail config request).
Proof.
  unfold push_mail. destruct (MailPushNtf_mail request) as [mail|]; [|settle].
  apply (settles_store 0 m _ (λ _, 0)); [|intros [sid|]; settle].
  intros sw Hsw. by apply locked_core.
Qed.

Lemma acknowledge_settles m gid sid seq ack now {B} (k : Result RequestError.t unit → task B) :
  (∀ r, settles 0 m (k r)) → settles 0 m (in_store (acknowledge config gid sid seq ack now) ≫= k).
Proof.
  apply (settles_store 0 m _ (λ _, 0)). intros sw Hsw. apply locked_core; [done|].
  intros s. apply accept_sequence_core.
Qed.

Lemma accept_request_settles m gid sid seq ack now {B} (k : Result RequestError.t Routes → task B) :
  (∀ r, settles 0 m (k r)) → settles 0 m (in_store (sessions_accept_request config gid sid seq ack now) ≫= k).
Proof.
  apply (settles_store 0 m _ (λ _, 0)). intros sw Hsw. apply locked_core; [done|].
  intros s. apply accept_request_core.
Qed.

Lemma handle_ack_settles m frame head body : settles 0 m (handle_ack config frame head body).
Proof.
  unfold handle_ack. apply settles_quiet; [quiet_solve|]. intros [r|]; [|settle].
  apply settles_quiet; [quiet_solve|]. intros [gid|]; [|settle]. apply settles_quiet; [quiet_solve|]. intros now.
  apply acknowledge_settles. intros []; settle.
Qed.

Lemma handle_ping_settles m frame head body : settles 0 m (handle_ping config frame head body).
Proof.
  unfold handle_ping. apply settles_quiet; [quiet_solve|]. intros [r|]; [|settle].
  apply settles_quiet; [quiet_solve|]. intros ms. apply settles_quiet; [quiet_solve|]. intros [gid|]; [|settle].
  apply settles_quiet; [quiet_solve|]. intros now. apply acknowledge_settles. intros []; settle.
Qed.

Lemma forward_settles m {Rsp} frame head (f : Forward Rsp) : settles 0 m (forward config frame head f).
Proof.
  unfold forward. apply settles_quiet; [quiet_solve|]. intros [gid|]; [|settle].
  apply settles_quiet; [quiet_solve|]. intros now. apply accept_request_settles. intros [rt|[]]; settle.
Qed.

Lemma decode_and_forward_settles m {M Rsp} `{!Decode Body M} frame head body (f : M → Forward Rsp) :
  settles 0 m (decode_and_forward config frame head body f).
Proof.
  unfold decode_and_forward. apply settles_quiet; [quiet_solve|]. intros [r|]; [|settle]. apply forward_settles.
Qed.

(** The session [sid] of the player is the current one and has a
    connection. *)
Definition current_active (sw : World Conn Payload) (gid sid : Z) : Prop :=
  ∃ s, attached (sessions sw) gid = Some s ∧ session_id s = sid ∧ active s = true.

Lemma accept_request_active sw gid sid seq ack now rt : store_ok (sessions sw) →
  (run handle_sessions (sessions_accept_request config gid sid seq ack now) sw).1 = Ok rt →
  current_active (run handle_sessions (sessions_accept_request config gid sid seq ack now) sw).2 gid sid.
Proof.
  intros Hok. unfold sessions_accept_request. rewrite run_locked_pure.
  destruct (attached (sessions sw) gid) as [s|] eqn:Hs; [|done].
  destruct (attached_address _ _ _ Hs) as (a & Ha & _). rewrite Ha. cbn [fst snd].
  pose proof (accept_request_core config sid seq ack now s) as Hcore. intros Hr.
  assert (session_id s = sid ∧ active s = true) as [Hsid Hact].
  { unfold accept_request, accept_sequence in Hr. destruct (Z.eqb_spec (session_id s) sid), (active s); simpl in Hr; done. }
  exists (accept_request sid seq ack now config s).1. split; [by apply (with_cell_attached _ gid a s)|].
  unfold core in Hcore. injection Hcore as H1 H2 _. split; [congruence|]. unfold active in *. by rewrite H2.
Qed.

Lemma send_keeps_active sw gid sid msgid message : store_ok (sessions sw) → current_active sw gid sid →
  current_active (run handle_sessions (send config gid sid msgid message) sw).2 gid sid.
Proof.
  intros Hok (s & Hs & Hsid & Hact). unfold send. rewrite run_locked, Hs.
  destruct (attached_address _ _ _ Hs) as (a & Ha & _). rewrite Ha. unfold send_section.
  replace (session_id s =? sid) with true by lia. rewrite Hact. simpl negb. simpl orb. cbv iota. simpl.
  pose proof (encode_core config msgid message (clock sw) s) as He.
  destruct (encode msgid message (clock sw) config s) as [s' p]. destruct He as (Hid & Hc & _).
  assert (∀ sw', sessions sw' = sessions sw → current_active (with_cell a s' sw') gid sid) as Hdone.
  { intros sw' Hsw. exists s'. split; [|split; [congruence|unfold active in *; by rewrite Hc]].
    unfold with_cell. simpl. rewrite Hsw. by apply (with_cell_attached _ gid a s). }
  destruct p as [x|]; [|by apply Hdone]. destruct (conn s') as [c|]; [|by apply Hdone]. simpl.
  destruct (refuses sw _); by apply Hdone.
Qed.

Lemma invalidate_active sw gid sid : store_ok (sessions sw) → current_active sw gid sid →
  let sw' := (run handle_sessions (invalidate gid sid) sw).2 in
  active_sessions (sessions sw') = active_sessions (sessions sw) - 1 ∧ store_ok (sessions sw').
Proof.
  intros Hok (s & Hs & Hsid & Hact). unfold invalidate. rewrite run_await. cbn [handle_sessions]. rewrite Hs.
  replace (session_id s =? sid) with true by lia. simpl. split; [|by apply store_ok_delete].
  destruct (attached_address _ _ _ Hs) as (a & Ha & _). rewrite (active_delete _ gid a s) by done.
  unfold active_Z. by rewrite Hact.
Qed.

Lemma handle_logout_settles m frame head body : settles 0 m (handle_logout config gate_id frame head body).
Proof.
  unfold handle_logout. apply settles_quiet; [quiet_solve|]. intros [r|]; [|settle].
  apply settles_quiet; [quiet_solve|]. intros [gid|]; [|settle]. apply settles_quiet; [quiet_solve|]. intros now.
  set (sid := frame_session_id frame). intros w n (Hn & Ha & Hok) Hm. rewrite run_bind, run_in_store.
  pose proof (accept_request_active (store w) gid sid (head_seq head) (head_ack head) now) as Hact.
  pose proof (count_change_exact config SKick (CallRequest gid sid (head_seq head) (head_ack head) now) (store w) Hok) as Hc.
  unfold exact in Hc. cbn [count_change] in Hc. rewrite run_bind in Hc.
  destruct (run handle_sessions (sessions_accept_request _ _ _ _ _ _) (store w)) as [r1 sw1].
  simpl in Hc. destruct Hc as [Hc1 Hok1]. set (w1 := on_store (λ _, sw1) w).
  assert (balanced 0 n w1) as Hw1 by (split_and!; simpl; [done|lia|done]).
  destruct r1 as [rt|e].
  2:{ assert (settles 0 m (match e with
        | RequestError.RateLimited => send_bound config gid sid MsgId.LogoutRsp
            (SLogout (mkLogoutRsp (Some (error_status code.RATE_LIMITED "request rate exceeded"))))
        | _ => await (ConnClose (frame_conn frame)) end)) as Hrest by (destruct e; settle).
      destruct e; by apply (Hrest w1 n). }
  specialize (Hact rt Hok eq_refl). cbn [snd] in Hact. rewrite run_bind. unfold send_bound.
  rewrite run_bind, run_in_store.
  pose proof (send_keeps_active sw1 gid sid MsgId.LogoutRsp (SLogout (mkLogoutRsp (Some ok_status))) Hok1 Hact) as Hact2.
  pose proof (send_exact config gid sid MsgId.LogoutRsp (SLogout (mkLogoutRsp (Some ok_status))) sw1 Hok1) as Hsend.
  unfold exact in Hsend. rewrite run_bind in Hsend. change (store w1) with sw1.
  destruct (run handle_sessions (send _ _ _ _ _) sw1) as [r2 sw2]. simpl in Hsend. destruct Hsend as [Hs2 Hok2].
  cbn [run snd] in *. rewrite run_bind, run_in_store.
  destruct (invalidate_active sw2 gid sid Hok2 Hact2) as [Hi Hok3].
  change (store (on_store (λ _, sw2) w1)) with sw2.
  destruct (run handle_sessions (invalidate gid sid) sw2) as [r3 sw3]. cbn [snd] in Hi, Hok3.
  assert (settles (-1) m (decrement_online ≫= λ _, await (NotifyLogic (logic_id rt) (mkLogicDisconnectNtf gid gate_id sid))
    ≫= λ _, await UnixSeconds ≫= λ now, await (ClearGate gid sid now) ≫= λ _, await (ConnClose (frame_conn frame)))) as Hrest.
  { apply settles_decrement. intros u. settle. }
  apply (Hrest _ n); [|done]. split_and!; simpl; [done|lia|done].
Qed.

Lemma connection_lost_settles m c : settles 0 m (connection_lost gate_id c).
Proof.
  unfold connection_lost. apply settles_quiet; [quiet_solve|]. intros [gid|]; [|settle].
  apply settles_quiet; [quiet_solve|]. intros now. apply (settles_store 0 m _ drop_change).
  { intros sw Hsw. by apply disconnect_exact. }
  intros [rt|]; [|settle]. apply settles_decrement. intros u. settle.
Qed.

Lemma login_accepted_settles frame head request d logic public answer :
  settles 0 1 (login_accepted config gate_id frame head request d logic public answer).
Proof.
  unfold login_accepted. apply settles_quiet; [quiet_solve|]. intros bound.
  apply settles_quiet; [destruct bound; quiet_solve|]. intros [|]; [settle|].
  apply (settles_store 0 1 _ install_change).
  { intros sw Hsw. apply (count_change_exact config SKick (CallInstall _ _ _ _)). done. }
  assert (∀ (u : unit), settles 0 0 (await UnixSeconds ≫= λ now,
    await (SaveOnline (owned_by gate_id d (frame_session_id frame) now public logic)) ≫= λ saved,
    match saved with
    | Err _ => kick_local config (LoginReq_gid request) (frame_session_id frame) code.INTERNAL "online save failed"
    | Ok _ => send_bound config (LoginReq_gid request) (frame_session_id frame) MsgId.LoginRsp
        (SLogin {| LoginRsp_status := Some ok_status; LoginRsp_gid := LoginReq_gid request; LoginRsp_logic_id := logic;
                   LoginRsp_public_id := public; LoginRsp_player := LogicLoginRsp_player answer;
                   LoginRsp_items := LogicLoginRsp_items answer; LoginRsp_session_id := frame_session_id frame |})
    end)) as Hrest.
  { intros _. do 2 (apply settles_quiet; [quiet_solve|intros ?]). case_match; [settle|apply kick_local_settles]. }
  intros [|]; [by apply (settles_increment 0)|].
  apply settles_quiet; [quiet_solve|]. intros u w n Hw Hm. apply (Hrest u w n Hw). lia.
Qed.

Lemma handle_login_settles frame head body : settles 0 1 (handle_login config gate_id frame head body).
Proof.
  unfold handle_login. apply settles_quiet; [quiet_solve|]. intros [request|]; [|settle].
  apply settles_quiet; [quiet_solve|]. intros user. unfold reject_login. case_if; [settle|].
  apply settles_quiet; [quiet_solve|]. intros [d|]; [|settle].
  apply settles_quiet; [quiet_solve|]. intros [logic|]; [|settle].
  apply settles_quiet; [quiet_solve|]. intros [public|]; [|settle]. destruct (from_signed _ _); [|settle].
  apply settles_quiet; [quiet_solve|]. intros [answer|]; [|settle].
  case_if; [settle|apply login_accepted_settles].
Qed.

(** A continuation that never counts a player in needs no room. *)
Lemma settles_bind m {A B} (p : task A) (k : A → task B) :
  settles 0 m p → (∀ a m', settles 0 m' (k a)) → settles 0 m (p ≫= k).
Proof.
  intros Hp Hk w n Hw Hm. rewrite run_bind. destruct (Hp w n Hw Hm) as (n' & Hw').
  destruct (exec p w) as [a w1]. apply (Hk a (- n') w1 n'); [done|lia].
Qed.

Lemma send_replay_settles m c gid sid payloads : settles 0 m (send_replay config c gid sid payloads).
Proof.
  induction payloads as [|x payloads IH]; cbn [send_replay]; [settle|].
  apply settles_quiet; [quiet_solve|]. intros [|]; [done|].
  apply settles_bind; [apply kick_local_settles|intros; settle].
Qed.

Lemma reconnect_accepted_settles frame head request d routes :
  settles 0 1 (reconnect_accepted config gate_id frame head request d routes).
Proof.
  unfold reconnect_accepted. apply settles_quiet; [quiet_solve|]. intros bound.
  apply settles_quiet; [destruct bound; quiet_solve|]. intros [|]; [settle|].
  apply settles_quiet; [quiet_solve|]. intros now. apply (settles_store 0 1 _ resume_change).
  { intros sw Hsw. by apply reconnect_exact. }
  intros [r|e]; [|settle]. simpl resume_change.
  assert (∀ m (u : unit), settles 0 m (await UnixSeconds ≫= λ now,
    await (SaveOnline (owned_by gate_id d (frame_session_id frame) now (public_id routes) (OnlineCache.logic_id d))) ≫= λ saved,
    match saved with
    | Err _ => kick_local config (ReconnectReq_gid request) (frame_session_id frame) code.INTERNAL "online save failed"
    | Ok _ =>
        send_replay config (frame_conn frame) (ReconnectReq_gid request) (frame_session_id frame) (replay r) ≫= λ replayed,
        if replayed : bool then
          send_bound config (ReconnectReq_gid request) (frame_session_id frame) MsgId.ReconnectRsp
            (SReconnect (mkReconnectRsp (Some ok_status) (wrap_u32 (len (replay r))) (frame_session_id frame)))
        else Ret tt
    end)) as Hrest.
  { intros m _. do 2 (apply settles_quiet; [quiet_solve|intros ?]). case_match; [|apply kick_local_settles].
    apply settles_bind; [apply send_replay_settles|]. intros [] m'; settle. }
  destruct (became_active r); [apply (settles_increment 0); [done|apply Hrest]|].
  apply settles_quiet; [quiet_solve|apply Hrest].
Qed.

Lemma handle_reconnect_settles frame head body : settles 0 1 (handle_reconnect config gate_id frame head body).
Proof.
  unfold handle_reconnect. apply settles_quiet; [quiet_solve|]. intros [request|]; [|settle].
  apply settles_quiet; [quiet_solve|]. intros user. unfold reject_reconnect. case_if; [settle|].
  apply settles_quiet; [quiet_solve|]. intros [d|]; [|settle]. apply settles_quiet; [quiet_solve|]. intros now.
  apply (settles_store 0 1 _ (λ _, 0)).
  { intros sw Hsw. apply locked_core; [done|]. intros s. apply authorize_reconnect_core. }
  intros [routes|e]; [|settle]. case_if; [settle|]. destruct (from_signed _ _); [|settle].
  apply settles_quiet; [quiet_solve|]. intros [answer|]; [|settle].
  case_if; [settle|apply reconnect_accepted_settles].
Qed.

Lemma handle_packet_settles frame : settles 0 1 (handle_packet config gate_id frame).
Proof.
  unfold handle_packet. destruct (decode_packet _) as [[head body]|]; [|settle].
  destruct (from_u16 _) as [msgid|]; [|settle].
  destruct msgid; first
    [ apply handle_ping_settles | apply handle_login_settles | apply handle_reconnect_settles
    | apply handle_logout_settles | apply handle_ack_settles | apply decode_and_forward_settles
    | apply quiet_settles; quiet_solve ].
Qed.


(** ** Authentication *)

(** Nothing changed but what clients were sent. *)
Definition untouched w w' : Prop :=
  sessions (store w') = sessions (store w) ∧ users w' = users w ∧ records w' = records w ∧ online w' = online w
  ∧ routed w' = routed w ∧ notified w' = notified w.

Lemma send_direct_untouched c msgid ack message close w :
  untouched w (exec (send_direct c msgid ack message close) w).2.
Proof.
  unfold send_direct. destruct (encode_direct msgid ack message) as [x|]; simpl;
    [destruct (refuses (store w) _); simpl|]; destruct close; by split_and!.
Qed.

Lemma run_verify_online gid token device w :
  ∃ verified, exec (verify_online gid token device) w = (verified, w)
    ∧ ∀ d, verified = Some d → simple_token_decode token device = Some gid ∧ records w !! gid = Some d
        ∧ OnlineCache.gid d = gid ∧ OnlineCache.token d = token.
Proof.
  unfold verify_online. destruct (simple_token_decode token device) as [g|]; [|by exists None].
  destruct (Z.eqb_spec g gid) as [->|]; simpl; [|by exists None].
  unfold redis_answer. destruct (env_redis env); simpl; [by exists None|].
  destruct (records w !! gid) as [d|] eqn:Hd; simpl; [|by exists None].
  destruct (Z.eqb_spec (OnlineCache.gid d) gid), (decide (OnlineCache.token d = token));
    rewrite ?bool_decide_eq_true_2, ?bool_decide_eq_false_2 by done; simpl; eexists; (split; [done|]); try done.
  intros d' [= <-]. by split_and!.
Qed.

Lemma run_select_logic d w :
  ∃ selected, exec (select_logic d) w = (selected, w)
    ∧ ∀ logic, selected = Some logic →
        if OnlineCache.logic_id d =? 0 then env_pick env service_type.LOGIC = Some logic
        else ∃ i, env_instance env service_type.LOGIC (OnlineCache.logic_id d) = Some i ∧ instance_id i = logic
               ∧ enable i = true ∧ healthy i = true ∧ connected i = true.
Proof.
  unfold select_logic. destruct (Z.eqb_spec (OnlineCache.logic_id d) 0); simpl; [by eexists|].
  destruct (env_instance env service_type.LOGIC (OnlineCache.logic_id d)) as [i|]; simpl; [|by eexists].
  eexists. split; [done|]. intros logic Hl. exists i.
  destruct (enable i) eqn:?, (healthy i) eqn:?, (connected i) eqn:?; simplify_eq/=; by split_and!.
Qed.


(** The player's session is the new connection, and the owner record names
    it. *)
Definition player_owned (frame : NetFrame Conn Bytes) (head : CsHead) (gid : Z) (d : OnlineData) (logic public : Z) w' : Prop :=
  let sid := frame_session_id frame in
  (∃ s, attached (sessions (store w')) gid = Some s ∧ session_id s = sid ∧ conn s = Some (frame_conn frame)
     ∧ routes s = mkRoutes logic public ∧ client_seq s = head_seq head ∧ outbox s = [])
  ∧ users w' !! sid = Some gid
  ∧ records w' !! gid = Some (owned_by gate_id d sid (env_seconds env) public logic).

Lemma encode_login (message : S2C) now (s : ClientSession Conn Payload) :
  let s' := (encode MsgId.LoginRsp message now config s).1 in
  session_id s' = session_id s ∧ conn s' = conn s ∧ routes s' = routes s ∧ client_seq s' = client_seq s ∧ outbox s' = outbox s.
Proof.
  assert (is_outbox_message (MsgId.as_u16 MsgId.LoginRsp) = false) as Hout.
  { unfold is_outbox_message. by destruct (_ && _). }
  unfold encode. cbv zeta. destruct (encode_message _ _); [|by split_and!]. rewrite Hout. by split_and!.
Qed.

(** The response leaves the session as it is, sent or not. *)
Lemma send_login gid frame head d logic public message w :
  player_owned frame head gid d logic public w →
  player_owned frame head gid d logic public (exec (send_bound config gid (frame_session_id frame) MsgId.LoginRsp message) w).2.
Proof.
  intros ((s & Hs & Hsid & Hc & Hr & Hq & Ho) & Hu & Hd). unfold send_bound, send.
  rewrite run_bind, run_in_store, run_locked, Hs.
  destruct (attached_address _ _ _ Hs) as (a & Ha & Hcell). rewrite Ha. unfold send_section.
  replace (session_id s =? frame_session_id frame) with true by lia.
  rewrite (active_Some s (frame_conn frame)) by done. simpl negb. simpl orb. cbv iota. simpl run at 1.
  pose proof (encode_login message (clock (store w)) s) as He.
  destruct (encode MsgId.LoginRsp message (clock (store w)) config s) as [s' p]. simpl in He.
  destruct He as (H1 & H2 & H3 & H4 & H5).
  assert (∀ sw, sessions sw = sessions (store w) →
    player_owned frame head gid d logic public (on_store (λ _, with_cell a s' sw) w)) as Hdone.
  { intros sw Hsw. split; [|done]. exists s'. split_and!; [|congruence..].
    unfold with_cell, attached. simpl. rewrite Hsw, Ha. simpl. apply list_lookup_insert_eq. by eapply lookup_lt_Some. }
  destruct p as [x|]; [|by apply Hdone]. rewrite H2, Hc. simpl. destruct (refuses (store w) _); by apply Hdone.
Qed.

(** An accepted login owns the player: unless the connection is gone or
    Redis fails, the player's session is the new connection with the chosen
    routes, the client's sequence and an empty outbox, and the owner record
    names this Gate, this session and the chosen services; whatever session
    the player had before is replaced. *)
Theorem accepted_login_owns_player frame head request d logic public answer w :
  let sid := frame_session_id frame in
  conn_session_id (frame_conn frame) = sid → OnlineCache.gid d = LoginReq_gid request →
  env_binds env sid = true → env_closed env sid = false → env_redis env = None →
  player_owned frame head (LoginReq_gid request) d logic public
    (exec (login_accepted config gate_id frame head request d logic public answer) w).2.
Proof.
  intros sid Hsid Hgid Hb Hc Hr. unfold login_accepted. fold sid.
  rewrite run_bind, run_await. cbn [handle_gate]. rewrite Hsid, Hb.
  rewrite run_bind, run_await. cbn [handle_gate]. rewrite Hsid, Hc.
  rewrite run_bind, run_in_store. unfold install_login. rewrite run_await. cbn [handle_sessions run].
  set (w1 := on_users <[sid := LoginReq_gid request]> w). set (st := mkSessions _ _).
  set (w2 := on_store (λ _, on_sessions (λ _, st) (store w1)) w1).
  set (s0 := new (frame_conn frame) (mkRoutes logic public) (head_seq head)) in *.
  assert (attached (sessions (store w2)) (LoginReq_gid request) = Some s0) as Hat.
  { unfold attached. simpl. rewrite lookup_insert_eq. simpl. by apply list_lookup_middle. }
  assert (∀ w3, store w3 = store w2 → users w3 = users w2 → player_owned frame head (LoginReq_gid request) d logic public
    (on_records <[OnlineCache.gid d := owned_by gate_id d sid (env_seconds env) public logic]> w3)) as Hown.
  { intros w3 Hst Hus. split; [|split].
    - exists s0. simpl. rewrite Hst. split_and!; try done.
    - simpl. rewrite Hus. simpl. fold sid. apply lookup_insert_eq.
    - simpl. rewrite Hgid. apply lookup_insert_eq. }
  rewrite run_bind. destruct (negb _); [rewrite run_await|]; cbn [handle_gate run];
    rewrite run_bind, run_await; cbn [handle_gate]; rewrite run_bind, run_await; cbn [handle_gate];
    unfold redis_answer; rewrite Hr; cbv iota beta; apply send_login; by apply Hown.
Qed.

End count.

(** ** Runs *)
Module gate_example.
Inductive Body := BLogin (m : LoginReq) | BReconnect (m : ReconnectReq) | BUseItem (m : UseItemReq) | BOther.

#[global] Instance conn_id : Xnet Z := {| conn_session_id c := c |}.
#[global] Instance codec : CsCodec S2C (CsHead * S2C) := {| encode_message head message := Some (head, message) |}.
#[global] Instance proto : Xproto := {| SYSTEM_MSG_ID_END := 100 |}.
#[global] Instance packets : PacketDecoder (CsHead * Body) Body := {| decode_packet p := Some p |}.
#[global] Instance tokens : TokenCoder := {| simple_token_decode token _ := if decide (token = "t0k") then Some 7 else None |}.
#[global] Instance login_body : Decode Body LoginReq := {| decode_body b := match b with BLogin m => Some m | _ => None end |}.
#[global] Instance reconnect_body : Decode Body ReconnectReq := {| decode_body b := match b with BReconnect m => Some m | _ => None end |}.
#[global] Instance use_item_body : Decode Body UseItemReq := {| decode_body b := match b with BUseItem m => Some m | _ => None end |}.
#[global] Instance no_body {M} : Decode Body M | 100 := {| decode_body _ := None |}.

Definition alice : OnlineData :=
  {| account := "alice"; gid := 7; token := "t0k"; session := 0; login_time := 0; logout_time := 0;
     OnlineCache.public_id := 0; OnlineCache.gate_id := 0; OnlineCache.logic_id := 0 |}.
Definition answer : LogicLoginRsp :=
  {| LogicLoginRsp_status := Some ok_status; LogicLoginRsp_logic_id := 5; LogicLoginRsp_old_gate_id := 0;
     LogicLoginRsp_old_player_session := 0; LogicLoginRsp_player := None; LogicLoginRsp_items := [] |}.

Definition env : Env :=
  {| env_logic _ _ := Ok answer;
     env_route _ f := Ok (make_error f ok_status);
     env_binds _ := true; env_closed _ := false; env_pick _ := Some 5; env_hash _ _ := Some 3;
     env_instance _ id := Some (mkServiceInstance id true true true);
     env_seconds := 100; env_millis := 100000; env_redis := None |}.

Definition start : GateWorld Z (CsHead * S2C) :=
  {| store := mkWorld (mkSessions ∅ []) [] [] 0 (λ _, None); users := ∅;
     records := {[ 7 := alice ]};
     online := 0; routed := []; notified := []; panics := 0 |}.

Definition frame (c msgid seq ack : Z) (b : Body) : NetFrame Z (CsHead * Body) := mkNetFrame c c (mkCsHead msgid seq ack, b).
Definition login_frame := frame 1 (MsgId.as_u16 MsgId.LoginReq) 1 0 (BLogin (mkLoginReq 7 "t0k" "device-1")).
Definition use_frame := frame 1 (MsgId.as_u16 MsgId.UseItemReq) 2 0 (BUseItem (mkUseItemReq 9 1)).
Definition reconnect_frame :=
  frame 2 (MsgId.as_u16 MsgId.ReconnectReq) 3 1 (BReconnect (mkReconnectReq 7 "t0k" "device-1" 1 1)).
Definition mail : MailPushNtf := mkMailPushNtf 7 (Some (mkMail 4 "hello" "" 0 0 0 [])).

Definition task := prog (GateEff Z (CsHead * S2C)) unit.
Definition packet (f : NetFrame Z (CsHead * Body)) : task := handle_packet HARD_LIMITS 2 f.
Definition exec (p : task) (w : GateWorld Z (CsHead * S2C)) := (run (handle_gate env) p w).2.
Definition overlap (schedule : list nat) (tasks : list task) w := interleave (handle_gate env) schedule (tasks, w).

Definition logged_in := exec (packet login_frame) start.
Definition wire_seqs (c : Z) (w : GateWorld Z (CsHead * S2C)) : list Z :=
  (λ e, head_seq e.2.1) <$> filter (λ e, e.1 = c) (wire (store w)).
End gate_example.
Import gate_example.

Lemma start_balanced : balanced 0 0 start.
Proof. split_and!; [done|done|]. split; intros; simplify_eq. Qed.


Lemma accepted_login_owns_player_witness :
  player_owned 2 env login_frame (mkCsHead 0 1 0) 7 alice 5 3
    (run (handle_gate env) (login_accepted HARD_LIMITS 2 login_frame (mkCsHead 0 1 0) (mkLoginReq 7 "t0k" "device-1") alice 5 3 answer) start).2.
Proof.
  apply (accepted_login_owns_player HARD_LIMITS 2 env login_frame (mkCsHead 0 1 0) (mkLoginReq 7 "t0k" "device-1")
    alice 5 3 answer start); reflexivity.
Defined.

(** A connection that is lost between the [is_closed] check of a login and
    the installation of its session leaves an online session without a
    connection: its disconnect has already run and found nothing. *)
Lemma login_of_a_lost_connection_stays_online :
  let '(tasks, w) := overlap (repeat 0%nat 7 ++ repeat 1%nat 3 ++ repeat 0%nat 10) [packet login_frame; connection_lost 2 1] start in
  tasks = [Ret tt; Ret tt] ∧ online w = 1 ∧ active_sessions (sessions (store w)) = 1.
Proof. vm_compute. by split_and!. Qed.

(** The replay of a reconnect is sent outside of the session lock: a mail that
    is pushed meanwhile overtakes the older messages. *)
Lemma replay_is_overtaken :
  let w := exec (connection_lost 2 1) (exec (packet use_frame) logged_in) in
  let '(tasks, w) := overlap (repeat 0%nat 14 ++ repeat 1%nat 10 ++ repeat 0%nat 10) [packet reconnect_frame; push_mail HARD_LIMITS mail] w in
  tasks = [Ret tt; Ret tt] ∧ wire_seqs 2 w = [3; 2; 4].
Proof. vm_compute. by split_and!. Qed.
