(* ===== verification/GateForwardSpec.v ===== *)
(** The requests of a connection: in any sequence of packets of a client, the
    numbers under which requests are forwarded to Logic or Public follow each
    other, so a duplicate or a replayed packet is not executed twice. *)

From S2P Require Import Prelude Effects Routing Proto OnlineCache GateSession GateSessions GateSessionsSpec GateGateway GateGatewaySpec.

(** ** Numbers in order *)

(** Each number comes after the one before it, the first after [last]. *)
Fixpoint in_order (last : option Z) (ns : list Z) : Prop :=
  match ns with
  | [] => True
  | n :: ns => match last with Some m => seq_after n m = true | None => False end ∧ in_order (Some n) ns
  end.

(** How far the sequence travels from [m] through [ns]. *)
Fixpoint travelled (m : Z) (ns : list Z) : Z :=
  match ns with [] => 0 | n :: ns => wrap_u32 (n - m) + travelled n ns end.

Lemma travelled_last m ns n : wrap_u32 (travelled m (ns ++ [n])) = wrap_u32 (n - m).
Proof.
  revert m. induction ns as [|x ns IH]; intros m; simpl.
  - unfold wrap_u32. by rewrite Z.add_0_r, Zmod_mod.
  - unfold wrap_u32 in *. rewrite Zplus_mod_idemp_l, <- Zplus_mod_idemp_r, IH, Zplus_mod_idemp_r. f_equal. lia.
Qed.


Lemma in_order_prefix last ns ns' : in_order last (ns ++ ns') → in_order last ns.
Proof. revert last. induction ns as [|x ns IH]; intros last; simpl; [done|]. intros [? ?]. split; [done|by apply IH]. Qed.

Lemma in_order_skip last ns n ns' : in_order last (ns ++ n :: ns') → in_order (Some n) ns'.
Proof. revert last. induction ns as [|x ns IH]; intros last [_ Ho]; [done|by eapply IH]. Qed.

Lemma travelled_pos m ns : in_order (Some m) ns → 0 <= travelled m ns ∧ (ns ≠ [] → 0 < travelled m ns).
Proof.
  revert m. induction ns as [|x ns IH]; intros m; [done|]. intros [Ha Ho]. destruct (IH x Ho) as [Hp _].
  apply seq_after_spec in Ha. simpl. change (wrap_u32 (x - m)) with ((x - m) mod 2 ^ 32). split; [lia|]. intros _. lia.
Qed.

(** So a number comes back only when the sequence has gone round. *)
Lemma in_order_round last ns1 n ns2 ns3 : in_order last (ns1 ++ n :: ns2 ++ n :: ns3) →
  2 ^ 32 <= travelled n (ns2 ++ [n]).
Proof.
  intros Ho%in_order_skip. rewrite cons_middle, app_assoc in Ho. apply in_order_prefix in Ho.
  destruct (travelled_pos n (ns2 ++ [n]) Ho) as [_ Hpos]. pose proof (travelled_last n ns2 n) as Hw.
  rewrite Z.sub_diag in Hw. unfold wrap_u32 in Hw. rewrite Z.mod_0_l in Hw by done.
  apply Z.mod_divide in Hw as [k Hk]; [|done]. assert (0 < travelled n (ns2 ++ [n])) by (apply Hpos; by destruct ns2). nia.
Qed.

(** ** The packets of a connection *)

Section forward.
Context {Conn Payload Bytes Body : Type}.
Context `{!Xnet Conn} `{!CsCodec S2C Payload} `{!Xproto} `{!PacketDecoder Bytes Body} `{!TokenCoder}.
Context `{!Decode Body AckNtf, !Decode Body PingReq, !Decode Body LoginReq, !Decode Body ReconnectReq, !Decode Body LogoutReq,
  !Decode Body PlayerInfoReq, !Decode Body UseItemReq, !Decode Body MailListReq, !Decode Body MailReadReq,
  !Decode Body MailDeleteReq, !Decode Body MailClaimReq}.
Variable config : SessionConfig.
Variable gate_id : Z.
Variable env : Env.
#[local] Abbreviation task := (prog (GateEff Conn Payload)).
#[local] Abbreviation exec := (run (handle_gate env)).
Implicit Types (w : GateWorld Conn Payload) (frame : NetFrame Conn Bytes).

Variable gid : Z.

(** The client number that the session of the player has reached. *)
Definition number w : option Z := client_seq <$> attached (sessions (store w)) gid.

(** Nothing that matters here happens. *)
Definition still w w' : Prop := users w' = users w ∧ routed w' = routed w ∧ number w' = number w.

(** The session may go. *)
Definition over w w' : Prop := users w' = users w ∧ routed w' = routed w ∧ (number w' = number w ∨ number w' = None).

(** The packet with number [seq] is refused, or it comes after the number
    the session had reached, and then makes at most one call. *)
Definition handles (seq : Z) w w' : Prop :=
  users w' = users w
  ∧ (routed w' = routed w ∧ (number w' = number w ∨ number w' = None)
     ∨ (∃ n, number w = Some n ∧ seq_after seq n = true) ∧ (number w' = Some seq ∨ number w' = None)
       ∧ (routed w' = routed w ∨ ∃ call, routed w' = routed w ++ [call])).

Lemma still_over w w' : still w w' → over w w'.
Proof. intros (? & ? & ?). split_and!; [done..|by left]. Qed.

Lemma over_handles seq w w' : over w w' → handles seq w w'.
Proof. intros (? & ? & ?). split; [done|by left]. Qed.

Lemma over_trans w1 w2 w3 : over w1 w2 → over w2 w3 → over w1 w3.
Proof.
  intros (H1 & H2 & H3) (H4 & H5 & H6). split_and!; [congruence..|].
  destruct H6 as [H6|H6]; [rewrite H6; done|by right].
Qed.

Lemma handles_over seq w1 w2 w3 : handles seq w1 w2 → over w2 w3 → handles seq w1 w3.
Proof.
  intros (H1 & H2) (H4 & H5 & H6). split; [congruence|].
  destruct H2 as [[H2 H3]|(H2 & H3 & H7)]; [left|right].
  - split; [congruence|]. destruct H6 as [H6|H6]; [rewrite H6; done|by right].
  - split_and!; [done| |by rewrite H5]. destruct H6 as [H6|H6]; [rewrite H6; done|by right].
Qed.

Definition leaves_over {A} (p : task A) : Prop := ∀ w, over w (exec p w).2.

Lemma over_ret {A} (a : A) : leaves_over (Ret a).
Proof. intros w. by apply still_over. Qed.

Lemma over_bind {A B} (p : task A) (k : A → task B) : leaves_over p → (∀ a, leaves_over (k a)) → leaves_over (p ≫= k).
Proof.
  intros Hp Hk w. rewrite run_bind. specialize (Hp w). destruct (exec p w) as [a w1].
  eapply over_trans; [exact Hp|apply Hk].
Qed.

Lemma over_await {X} (e : GateEff Conn Payload X) :
  match e with Store _ | BindUser _ _ | CallRouted _ _ _ _ => False | _ => True end → leaves_over (await e).
Proof.
  intros He w. rewrite run_await. destruct e; try done; simpl; unfold redis_answer;
    try (apply still_over; by split_and!).
  - apply still_over. destruct (refuses _ _); by split_and!.
  - apply still_over. destruct (env_redis env); by split_and!.
  - apply still_over. destruct (env_redis env); by split_and!.
  - apply still_over. destruct (cleared _ _ _ _). destruct (env_redis env); by split_and!.
Qed.

(** ** Sections of the store *)

Lemma run_section {R} (missing : R) f w :
  let '(r, w1) := exec (in_store (locked gid missing (pure_section f))) w in
  users w1 = users w ∧ routed w1 = routed w
  ∧ match attached (sessions (store w)) gid with
    | None => r = missing ∧ number w1 = None
    | Some s => r = (f s).2 ∧ number w1 = Some (client_seq (f s).1)
    end.
Proof.
  rewrite run_in_store, run_locked_pure. unfold number. destruct (attached (sessions (store w)) gid) as [s|] eqn:Hs.
  - destruct (attached_address _ _ _ Hs) as (a & Ha & Hcell). rewrite Ha. split_and!; [done..|].
    unfold attached. simpl. rewrite Ha. simpl. rewrite list_lookup_insert_eq; [done|]. by eapply lookup_lt_Some.
  - simpl. unfold attached in *. by rewrite Hs.
Qed.

Lemma encode_client_seq msgid (message : S2C) now (s : ClientSession Conn Payload) :
  client_seq (encode msgid message now config s).1 = client_seq s.
Proof.
  unfold encode. cbv zeta. destruct (encode_message _ _); [|done]. case_if; [|done].
  rewrite prune_outbox_unfold. simpl. case_if; [destruct (prune_loop _ _ _ _).1|]; done.
Qed.

Lemma over_send_bound sid msgid message : leaves_over (send_bound config gid sid msgid message).
Proof.
  intros w. unfold send_bound, send. rewrite run_bind, run_in_store, run_locked. unfold over, number.
  destruct (attached (sessions (store w)) gid) as [s|] eqn:Hs; [|simpl; rewrite Hs; split_and!; auto].
  destruct (attached_address _ _ _ Hs) as (a & Ha & Hcell). rewrite Ha.
  pose proof (conn_keeps_sessions (send_section config sid msgid message s) (store w)) as Hsess.
  assert (client_seq (run handle_conn (send_section config sid msgid message s) (store w)).1.2 = client_seq s) as Hcs.
  { unfold send_section. case_if; [done|]. simpl. pose proof (encode_client_seq msgid message (clock (store w)) s) as He.
    destruct (encode msgid message (clock (store w)) config s) as [s' x]. simpl in He.
    destruct x as [x|]; [destruct (conn s'); [simpl; destruct (refuses (store w) _)|]|]; done. }
  destruct (run handle_conn _ (store w)) as [[r s'] sw]. simpl in *. split_and!; [done..|left].
  unfold attached. simpl. rewrite Hsess, Ha. simpl. rewrite list_lookup_insert_eq by (by eapply lookup_lt_Some). simpl. congruence.
Qed.

Lemma over_invalidate sid : leaves_over (in_store (invalidate gid sid)).
Proof.
  intros w. rewrite run_in_store. unfold invalidate. rewrite run_await. simpl. unfold over, number.
  destruct (attached (sessions (store w)) gid) as [s|] eqn:Hs; simpl; [|rewrite Hs; split_and!; auto].
  case_if; simpl; [|rewrite Hs; split_and!; auto]. split_and!; [done..|right].
  unfold attached. simpl. by rewrite lookup_delete_eq.
Qed.

Lemma over_send_direct c msgid ack message close : leaves_over (send_direct c msgid ack message close).
Proof.
  unfold send_direct. apply over_bind; [destruct (encode_direct _ _ _); [apply over_bind; [by apply over_await|intros; apply over_ret]|apply over_ret]|].
  intros _. destruct close; [by apply over_await|apply over_ret].
Qed.

(** What a session does to its client number when it is given [seq]. *)
Lemma accept_sequence_number sid seq ack now ttl (s : ClientSession Conn Payload) :
  let '(s', r) := accept_sequence sid seq ack now ttl s in
  match r with
  | Ok _ => seq_after seq (client_seq s) = true ∧ client_seq s' = seq
  | Err e => s' = s ∧ e ≠ RequestError.RateLimited
  end.
Proof.
  destruct (accept_sequence sid seq ack now ttl s) as [s' [[]|e]] eqn:Ha.
  - apply accept_sequence_Ok in Ha. tauto.
  - by apply accept_sequence_Err in Ha.
Qed.

Lemma accept_request_number sid seq ack now (s : ClientSession Conn Payload) :
  let '(s', r) := accept_request sid seq ack now config s in
  match r with
  | Ok _ | Err RequestError.RateLimited => seq_after seq (client_seq s) = true ∧ client_seq s' = seq
  | Err _ => s' = s
  end.
Proof.
  unfold accept_request. pose proof (accept_sequence_number sid seq ack now (resume_ttl config) s) as Hs.
  destruct (accept_sequence _ _ _ _ _ s) as [s1 [[]|e]].
  - pose proof (accept_rate_client_seq now config s1) as Hr.
    destruct (accept_rate now config s1) as [s2 []]; simpl in Hr; destruct Hs; split; congruence.
  - destruct Hs as [-> Hne]. by destruct e.
Qed.

(** ** Handlers *)

(** At most one call. *)
Definition calls_once {A} (p : task A) : Prop := ∀ w,
  let w' := (exec p w).2 in
  users w' = users w ∧ (number w' = number w ∨ number w' = None)
  ∧ (routed w' = routed w ∨ ∃ call, routed w' = routed w ++ [call]).

Lemma over_calls_once {A} (p : task A) : leaves_over p → calls_once p.
Proof. intros Hp w. destruct (Hp w) as (? & ? & ?). split_and!; [done..|by left]. Qed.

Lemma accept_then {R A} (missing : R) f (accepts : R → bool) (k : R → task A) seq w :
  accepts missing = false →
  (∀ s, if accepts (f s).2 then seq_after seq (client_seq s) = true ∧ client_seq (f s).1 = seq
        else client_seq (f s).1 = client_seq s) →
  (∀ r, if accepts r then calls_once (k r) else leaves_over (k r)) →
  handles seq w (exec (in_store (locked gid missing (pure_section f)) ≫= k) w).2.
Proof.
  intros Hm Hf Hk. rewrite run_bind. pose proof (run_section missing f w) as Hrun.
  destruct (exec (in_store _) w) as [r w1]. destruct Hrun as (Hu & Hr & Hs). specialize (Hk r).
  destruct (accepts r) eqn:Hacc.
  - destruct (attached (sessions (store w)) gid) as [s|] eqn:Hat; [|destruct Hs; congruence].
    destruct Hs as [-> Hn]. specialize (Hf s). rewrite Hacc in Hf. destruct Hf as [Hafter Hseq].
    destruct (Hk w1) as (H1 & H2 & H3). split; [congruence|right]. rewrite <- Hr. split_and!; [|by rewrite Hn, Hseq in H2|done].
    exists (client_seq s). split; [|done]. unfold number. by rewrite Hat.
  - apply over_handles. eapply over_trans; [|apply Hk]. split_and!; [done..|].
    destruct (attached (sessions (store w)) gid) as [s|] eqn:Hat; [|right; apply Hs].
    destruct Hs as [-> Hn]. specialize (Hf s). rewrite Hacc in Hf. left. unfold number at 2. rewrite Hat. simpl. congruence.
Qed.

Definition accepts_request (r : Result RequestError.t Routes) : bool :=
  match r with Ok _ | Err RequestError.RateLimited => true | Err _ => false end.
Definition accepts_sequence (r : Result RequestError.t unit) : bool :=
  match r with Ok _ => true | Err _ => false end.

Lemma accept_request_then {A} sid seq ack now (k : Result RequestError.t Routes → task A) w :
  (∀ r, if accepts_request r then calls_once (k r) else leaves_over (k r)) →
  handles seq w (exec (in_store (sessions_accept_request config gid sid seq ack now) ≫= k) w).2.
Proof.
  intros Hk. apply (accept_then _ _ accepts_request); [done| |done]. intros s.
  pose proof (accept_request_number sid seq ack now s) as Hs.
  destruct (accept_request _ _ _ _ _ s) as [s' [rt|[]]]; simpl in *; subst; done.
Qed.

Lemma acknowledge_then {A} sid seq ack now (k : Result RequestError.t unit → task A) w :
  (∀ r, leaves_over (k r)) →
  handles seq w (exec (in_store (acknowledge config gid sid seq ack now) ≫= k) w).2.
Proof.
  intros Hk. apply (accept_then _ _ accepts_sequence); [done| |intros r; case_match; auto using over_calls_once].
  intros s. pose proof (accept_sequence_number sid seq ack now (resume_ttl config) s) as Hs.
  destruct (accept_sequence _ _ _ _ _ s) as [s' [[]|e]]; simpl in *; [done|]. by destruct Hs as [-> _].
Qed.

Ltac over :=
  repeat first
    [ apply over_ret | apply over_send_bound | apply over_send_direct | apply over_invalidate
    | apply over_bind; [|intros ?] | by apply over_await | progress cbv zeta | case_match ].

Lemma calls_once_bind {A B} (p : task A) (k : A → task B) :
  calls_once p → (∀ a, leaves_over (k a)) → calls_once (p ≫= k).
Proof.
  intros Hp Hk w. rewrite run_bind. specialize (Hp w). destruct (exec p w) as [a w1].
  destruct Hp as (H1 & H2 & H3), (Hk a w1) as (H4 & H5 & H6). simpl in *. split_and!; [congruence| |by rewrite H5].
  destruct H6 as [->|?]; [done|by right].
Qed.

Lemma calls_once_routed {Rsp} service server route (f : Forward Rsp) : calls_once (await (CallRouted service server route f)).
Proof. intros w. rewrite run_await. simpl. split_and!; [done|by left|right]. by eexists. Qed.

Lemma forward_handles {Rsp} frame head (f : Forward Rsp) w :
  users w !! conn_session_id (frame_conn frame) = Some gid →
  handles (head_seq head) w (exec (forward config frame head f) w).2.
Proof.
  intros Hu. unfold forward. rewrite run_bind, run_await. cbn [handle_gate]. rewrite Hu.
  rewrite run_bind, run_await. cbn [handle_gate]. apply accept_request_then.
  intros [rt|e]; cbn [accepts_request]; [|destruct e; try apply over_calls_once; over].
  destruct (forward_target f); [apply over_calls_once; over|destruct (from_signed _ _)..];
    first [solve [apply over_calls_once; over]|apply calls_once_bind; [apply calls_once_routed|intros; over]].
Qed.

Lemma decode_handles {M} `{!Decode Body M} frame body seq (k : option M → task unit) w :
  leaves_over (k None) → (∀ m, handles seq w (exec (k (Some m)) w).2) →
  handles seq w (exec (decode frame body ≫= k) w).2.
Proof.
  intros Hnone Hsome. unfold decode. destruct (decode_body body) as [m|]; [apply Hsome|].
  apply over_handles. rewrite run_bind. unfold await. cbn [mbind]. simpl.
  eapply over_trans; [|apply Hnone]. apply still_over. by split_and!.
Qed.

Lemma handle_ack_handles frame head body w : users w !! conn_session_id (frame_conn frame) = Some gid →
  handles (head_seq head) w (exec (handle_ack config frame head body) w).2.
Proof.
  intros Hu. unfold handle_ack. apply decode_handles; [over|]. intros _.
  rewrite run_bind, run_await. cbn [handle_gate]. rewrite Hu, run_bind, run_await. cbn [handle_gate].
  apply acknowledge_then. intros r. over.
Qed.

Lemma handle_ping_handles frame head body w : users w !! conn_session_id (frame_conn frame) = Some gid →
  handles (head_seq head) w (exec (handle_ping config frame head body) w).2.
Proof.
  intros Hu. unfold handle_ping. apply decode_handles; [over|]. intros m.
  rewrite run_bind, run_await. cbn [handle_gate]. cbv zeta.
  rewrite run_bind, run_await. cbn [handle_gate]. rewrite Hu, run_bind, run_await. cbn [handle_gate].
  apply acknowledge_then. intros r. over.
Qed.

Lemma handle_logout_handles frame head body w : users w !! conn_session_id (frame_conn frame) = Some gid →
  handles (head_seq head) w (exec (handle_logout config gate_id frame head body) w).2.
Proof.
  intros Hu. unfold handle_logout. apply decode_handles; [over|]. intros _. cbv zeta.
  rewrite run_bind, run_await. cbn [handle_gate]. rewrite Hu, run_bind, run_await. cbn [handle_gate].
  apply accept_request_then. intros [rt|e]; cbn [accepts_request]; [|destruct e; try apply over_calls_once; over].
  apply over_calls_once. unfold decrement_online. over.
Qed.

(** A bound connection does not log in or reconnect. *)
Lemma handle_login_handles frame head body w : users w !! conn_session_id (frame_conn frame) = Some gid →
  handles (head_seq head) w (exec (handle_login config gate_id frame head body) w).2.
Proof.
  intros Hu. unfold handle_login. apply decode_handles; [over|]. intros m. cbv zeta.
  rewrite run_bind, run_await. cbn [handle_gate]. rewrite Hu. unfold invalid_login.
  rewrite bool_decide_eq_true_2 by by eexists. apply over_handles. unfold reject_login. over.
Qed.

Lemma handle_reconnect_handles frame head body w : users w !! conn_session_id (frame_conn frame) = Some gid →
  handles (head_seq head) w (exec (handle_reconnect config gate_id frame head body) w).2.
Proof.
  intros Hu. unfold handle_reconnect. apply decode_handles; [over|]. intros m. cbv zeta.
  rewrite run_bind, run_await. cbn [handle_gate]. rewrite Hu. unfold invalid_reconnect.
  rewrite bool_decide_eq_true_2 by by eexists. apply over_handles. unfold reject_reconnect. over.
Qed.

Lemma handle_packet_handles frame head body w : users w !! conn_session_id (frame_conn frame) = Some gid →
  decode_packet (frame_payload frame) = Some (head, body) →
  handles (head_seq head) w (exec (handle_packet config gate_id frame) w).2.
Proof.
  intros Hu Hd. unfold handle_packet. rewrite Hd.
  assert (∀ M Rsp `{!Decode Body M} (f : M → Forward Rsp),
    handles (head_seq head) w (exec (decode_and_forward config frame head body f) w).2) as Hforward.
  { intros M Rsp HD f. unfold decode_and_forward. apply decode_handles; [over|]. intros m. by apply forward_handles. }
  destruct (from_u16 (head_msgid head)) as [[]|];
    eauto using handle_ack_handles, handle_ping_handles, handle_logout_handles, handle_login_handles, handle_reconnect_handles;
    apply over_handles; over.
Qed.

(** ** A sequence of packets *)

Definition packet_number frame : option Z := (λ p, head_seq p.1) <$> decode_packet (frame_payload frame).

(** The packets are handled one after the other; the numbers of those that
    were forwarded. *)
Fixpoint forwarded (frames : list (NetFrame Conn Bytes)) w : list Z :=
  match frames with
  | [] => []
  | frame :: frames =>
      let w' := (exec (handle_packet config gate_id frame) w).2 in
      (if len (routed w) <? len (routed w') then option_list (packet_number frame) else []) ++ forwarded frames w'
  end.

Fixpoint handle_all (frames : list (NetFrame Conn Bytes)) w : GateWorld Conn Payload :=
  match frames with
  | [] => w
  | frame :: frames => handle_all frames (exec (handle_packet config gate_id frame) w).2
  end.

Lemma in_order_weaken last last' ns : last' = last ∨ last' = None → in_order last' ns → in_order last ns.
Proof. intros [->| ->]; [done|]. destruct ns; [done|]. by intros [? _]. Qed.

(** A packet is refused, or its number comes after the one that the session
    had reached; its request may then make one call. *)
Lemma packet_logged frame w : users w !! conn_session_id (frame_conn frame) = Some gid →
  let w' := (exec (handle_packet config gate_id frame) w).2 in
  users w' = users w
  ∧ (routed w' = routed w ∧ (number w' = number w ∨ number w' = None)
     ∨ ∃ seq, packet_number frame = Some seq ∧ in_order (number w) [seq] ∧ (number w' = Some seq ∨ number w' = None)
         ∧ (routed w' = routed w ∨ ∃ call, routed w' = routed w ++ [call])).
Proof.
  intros Hu w'. destruct (decode_packet (frame_payload frame)) as [[head body]|] eqn:Hd.
  - destruct (handle_packet_handles frame head body w Hu Hd) as (Hus & Hh). fold w' in Hus, Hh. split; [done|].
    destruct Hh as [?|((n & Hn & Ha) & ? & ?)]; [by left|right]. exists (head_seq head).
    unfold packet_number. rewrite Hd, Hn. by split_and!.
  - subst w'. unfold handle_packet. rewrite Hd. split; [done|]. left. split; [done|by left].
Qed.

(** C21: a request number is forwarded at most once.  Over any sequence of packets of a bound connection, of any kind, handled one
    after the other, the packets that the session
    accepted have numbers of which each comes after the one before, and only
    they are forwarded to Logic or Public, with one call each: a duplicate or
    a replay by the client is not executed twice.  A number comes back only
    after the 32-bit sequence has gone round. *)
Theorem request_forwarded_at_most_once c frames w :
  users w !! c = Some gid → Forall (λ frame, conn_session_id (frame_conn frame) = c) frames →
  len (routed (handle_all frames w)) = len (routed w) + len (forwarded frames w)
  ∧ ∃ log : list (Z * bool),
      in_order (number w) log.*1
      ∧ log.*1 `sublist_of` omap packet_number frames
      ∧ forwarded frames w = (filter (λ x, x.2 = true) log).*1
      ∧ ∀ ns1 n ns2 ns3, log.*1 = ns1 ++ n :: ns2 ++ n :: ns3 → 2 ^ 32 <= travelled n (ns2 ++ [n]).
Proof.
  intros Hu Hc. assert (len (routed (handle_all frames w)) = len (routed w) + len (forwarded frames w)
    ∧ ∃ log : list (Z * bool), in_order (number w) log.*1 ∧ log.*1 `sublist_of` omap packet_number frames
        ∧ forwarded frames w = (filter (λ x, x.2 = true) log).*1) as (Hlen & log & Ho & Hsub & Hf).
  2:{ split; [done|]. exists log. split_and!; [done..|]. intros ns1 n ns2 ns3 Hns. rewrite Hns in Ho. by eapply in_order_round. }
  revert w Hu. induction Hc as [|frame frames Hframe _ IH]; intros w Hu.
  { split; [simpl; by rewrite len_nil, Z.add_0_r|]. exists []. by split_and!. }
  destruct (packet_logged frame w) as (Hus & Hstep); [by rewrite Hframe|]. cbn [handle_all forwarded omap list_omap].
  set (w' := (exec (handle_packet config gate_id frame) w).2) in *.
  destruct (IH w') as (Hlen & log & Ho & Hsub & Hf); [by rewrite Hus|]. rewrite Hlen, len_app.
  destruct Hstep as [[Hr Hn]|(seq & Hseq & Hafter & Hn & Hr)].
  - rewrite Hr, Z.ltb_irrefl. split; [rewrite len_nil; lia|]. exists log. split_and!; [by eapply in_order_weaken| |done].
    destruct (packet_number frame); [by apply sublist_cons|done].
  - rewrite Hseq. destruct Hafter as [Hafter _]. assert (in_order (number w) (seq :: log.*1)) as Ho'.
    { split; [done|]. by eapply in_order_weaken. }
    destruct Hr as [Hr|[call Hr]]; rewrite Hr in Hlen |- *.
    + rewrite Z.ltb_irrefl. split; [rewrite len_nil; lia|]. exists ((seq, false) :: log).
      split_and!; [done|by apply sublist_skip|done].
    + rewrite len_app, len_cons, len_nil. replace (len (routed w) <? _) with true by lia. simpl.
      split; [unfold len; simpl; lia|]. exists ((seq, true) :: log). split_and!; [done|by apply sublist_skip|].
      rewrite Hf. done.
Qed.
End forward.

(** The client logs in, uses an item twice under one number, lists its mails
    under the next, and replays the first use. *)
Module forward_example.
Import gate_example.
Definition packets : list (NetFrame Z (CsHead * Body)) :=
  [use_frame; use_frame; frame 1 (MsgId.as_u16 MsgId.AckNtf) 3 0 BOther; frame 1 (MsgId.as_u16 MsgId.UseItemReq) 4 0 (BUseItem (mkUseItemReq 9 1));
   use_frame].
End forward_example.
Import gate_example forward_example.

Lemma request_forwarded_at_most_once_witness :
  forwarded HARD_LIMITS 2 env packets logged_in = [2; 4]
  ∧ len (routed (handle_all HARD_LIMITS 2 env packets logged_in)) = 0 + 2.
Proof.
  split; [vm_compute; reflexivity|].
  destruct (request_forwarded_at_most_once HARD_LIMITS 2 env 7 1 packets logged_in) as [Hlen _].
  - vm_compute. reflexivity.
  - repeat constructor.
  - rewrite Hlen. vm_compute. reflexivity.
Defined.
