(* ===== verification/PublicPlayers.v ===== *)
(** The cached players of the Public service (src/persist/src/public_player.rs
    and public_players.rs): a player with his dirty flag, the registry of the
    dirty players, and the write-back that empties it.  The cache ([xlru]) and
    the store (Mongo) are labels of the transitions: which player is loaded or
    evicted, which entries a flush hands to the batch saver, and whether a
    save succeeds. *)

From S2P Require Import Prelude Effects Proto.

Definition PLAYER_CACHE_CAPACITY : Z := 500000.
Definition PLAYER_CACHE_TTL : Z := secs (24 * 60 * 60).
Definition PLAYER_CACHE_SHARDS : Z := 128.
Definition PLAYER_SAVE_BATCH_SIZE : Z := 1000.

(** ** One player *)

Record PublicPlayer := mkPublicPlayer { data : PublicPlayerData; dirty : bool }.

(** [None] is the panic of the assertion. *)
Definition new (gid : Z) (d : PublicPlayerData) : option PublicPlayer :=
  if negb (0 <? gid) then None
  else
    Some {| data := {| PublicPlayerData_gid := gid;
                       PublicPlayerData_mail := Some (default (mkMailData []) (PublicPlayerData_mail d)) |};
            dirty := false |}.

Definition empty (gid : Z) : option PublicPlayer :=
  new gid {| PublicPlayerData_gid := gid; PublicPlayerData_mail := Some (mkMailData []) |}.

Definition read {R} (f : PublicPlayerData → R) (p : PublicPlayer) : R := f (data p).

(** The answer, the player, and whether [on_dirty] was called. *)
Definition update {R} (f : PublicPlayerData → R * bool * PublicPlayerData) (p : PublicPlayer) : R * PublicPlayer * bool :=
  let '(result, changed, d) := f (data p) in
  (result, mkPublicPlayer d (if changed : bool then true else dirty p), changed).

Definition take_dirty_snapshot (p : PublicPlayer) : option PublicPlayerData * PublicPlayer :=
  (if dirty p then Some (data p) else None, mkPublicPlayer (data p) false).

(** Whether [remove] is called. *)
Definition remove_registration_if_clean (p : PublicPlayer) : bool := negb (dirty p).

Definition is_dirty (p : PublicPlayer) : bool := dirty p.

(** ** The cache and its write-back *)

(** Where a flush is: the keys it still has to hand to the batch saver, the
    snapshots that are being saved, the keys whose registration it still has
    to look at. *)
Inductive Flush :=
| Idle
| Snapshotting (gids todo : list Z) (taken : list (Z * PublicPlayerData))
| Saving (gids todo : list Z) (taken : list (Z * PublicPlayerData))
| Unregistering (todo : list Z).

Record PublicPlayers := mkPublicPlayers {
  cache : gmap Z nat;
  heap : list PublicPlayer;
  registered : gset Z;
  flush : Flush;
  stored : gmap Z PublicPlayerData
}.

Definition eta_PublicPlayers (s : PublicPlayers) : PublicPlayers :=
  mkPublicPlayers (cache s) (heap s) (registered s) (flush s) (stored s).
Definition on_cache : (gmap Z nat → gmap Z nat) → PublicPlayers → PublicPlayers := ltac:(derive_update eta_PublicPlayers cache).
Definition on_heap : (list PublicPlayer → list PublicPlayer) → PublicPlayers → PublicPlayers := ltac:(derive_update eta_PublicPlayers heap).
Definition on_registered : (gset Z → gset Z) → PublicPlayers → PublicPlayers := ltac:(derive_update eta_PublicPlayers registered).
Definition on_flush : (Flush → Flush) → PublicPlayers → PublicPlayers := ltac:(derive_update eta_PublicPlayers flush).
Definition on_stored : (gmap Z PublicPlayerData → gmap Z PublicPlayerData) → PublicPlayers → PublicPlayers :=
  ltac:(derive_update eta_PublicPlayers stored).

(** A cached player. *)
Definition cached (s : PublicPlayers) (gid : Z) : option (nat * PublicPlayer) :=
  a ← cache s !! gid; p ← heap s !! a; Some (a, p).

Definition save_all (taken : list (Z * PublicPlayerData)) (m : gmap Z PublicPlayerData) : gmap Z PublicPlayerData :=
  foldl (λ m '(gid, d), <[gid := d]> m) m taken.

(** The loader: a missing document is an empty player. *)
Definition load (gid : Z) (s : PublicPlayers) : option PublicPlayers :=
  match cache s !! gid with
  | Some _ => None
  | None =>
      p ← (match stored s !! gid with Some d => new gid d | None => empty gid end);
      Some (on_cache <[gid := length (heap s)]> (on_heap (λ h, h ++ [p]) s))
  end.

Inductive label :=
| Load (gid : Z)
| Update (gid : Z) (f : PublicPlayerData → unit * bool * PublicPlayerData)
| FlushDirty
| Snapshot (gid : Z)
| SaveBatch
| Saved (ok : bool)
| NextBatch
| Unregister
| Evict (gid : Z)
| SaveEvicted (gid : Z) (a : nat) (ok : bool)
| UnregisterEvicted (gid : Z) (a : nat).

(** [save_single] on the player at [a]; an error of the store is only logged. *)
Definition save_single (gid : Z) (a : nat) (ok : bool) (s : PublicPlayers) : option PublicPlayers :=
  p ← heap s !! a;
  let '(snapshot, p) := take_dirty_snapshot p in
  let s := on_heap <[a := p]> s in
  Some (match snapshot with
        | Some d => if ok then on_stored <[gid := d]> s else s
        | None => s
        end).

(** The answer of the store to [save_batch], whose snapshots were taken; an
    error is only logged. *)
Definition batch_saved (ok : bool) (s : PublicPlayers) : option PublicPlayers :=
  match flush s with
  | Saving gids todo taken => Some (on_flush (λ _, Snapshotting gids todo []) (if ok then on_stored (save_all taken) s else s))
  | _ => None
  end.

(** [None]: the label does not apply. *)
Definition exec (l : label) (s : PublicPlayers) : option PublicPlayers :=
  match l with
  | Load gid => load gid s
  (* [PublicPlayers::update] on a cached player *)
  | Update gid f =>
      '(a, p) ← cached s gid;
      let '(_, p, changed) := update f p in
      let s := on_heap <[a := p]> s in
      Some (if changed : bool then on_registered ({[ gid ]} ∪.) s else s)
  (* [flush_dirty] collects the registered players *)
  | FlushDirty =>
      match flush s with
      | Idle =>
          let gids := elements (registered s) in
          if decide (gids = []) then Some s else Some (on_flush (λ _, Snapshotting gids gids []) s)
      | _ => None
      end
  (* [save_batch] takes the snapshots of the entries of a batch *)
  | Snapshot gid =>
      match flush s with
      | Snapshotting gids todo taken =>
          if decide (gid ∈ todo) then
            let todo := filter (λ g, g ≠ gid) todo in
            match cached s gid with
            | None => Some (on_flush (λ _, Snapshotting gids todo taken) s)
            | Some (a, p) =>
                let '(snapshot, p) := take_dirty_snapshot p in
                let taken := match snapshot with Some d => taken ++ [(gid, d)] | None => taken end in
                Some (on_heap <[a := p]> (on_flush (λ _, Snapshotting gids todo taken) s))
            end
          else None
      | _ => None
      end
  | SaveBatch =>
      match flush s with
      | Snapshotting gids todo taken => Some (on_flush (λ _, Saving gids todo taken) s)
      | _ => None
      end
  (* the store answers; an error is only logged *)
  | Saved ok => batch_saved ok s
  (* [flush_keys] has handed over every key *)
  | NextBatch =>
      match flush s with
      | Snapshotting gids [] [] => Some (on_flush (λ _, Unregistering gids) s)
      | _ => None
      end
  (* the loop over the keys, one at a time *)
  | Unregister =>
      match flush s with
      | Unregistering [] => Some (on_flush (λ _, Idle) s)
      | Unregistering (gid :: todo) =>
          let remove := match cached s gid with Some (_, p) => remove_registration_if_clean p | None => true end in
          let s := on_flush (λ _, Unregistering todo) s in
          Some (if remove then on_registered (λ r, r ∖ {[ gid ]}) s else s)
      | _ => None
      end
  (* the cache drops a player; its saver runs afterwards *)
  | Evict gid => match cache s !! gid with Some _ => Some (on_cache (delete gid) s) | None => None end
  | SaveEvicted gid a ok => save_single gid a ok s
  | UnregisterEvicted gid a =>
      p ← heap s !! a;
      Some (if remove_registration_if_clean p then on_registered (λ r, r ∖ {[ gid ]}) s else s)
  end.

(** A run: the labels in order. *)
Fixpoint exec_all (ls : list label) (s : PublicPlayers) : option PublicPlayers :=
  match ls with
  | [] => Some s
  | l :: ls => s ← exec l s; exec_all ls s
  end.

Definition initial (m : gmap Z PublicPlayerData) : PublicPlayers := mkPublicPlayers ∅ [] ∅ Idle m.
