(* ===== verification/PublicPlayersSpec.v ===== *)
(** The write-back of the Public players loses nothing while saves succeed and
    players stay cached; and what is lost otherwise. *)

From S2P Require Import Prelude Effects Proto PublicPlayers.

(** ** The invariant *)

(** What loading a document gives. *)
Definition loaded (gid : Z) (doc : option PublicPlayerData) : PublicPlayerData :=
  {| PublicPlayerData_gid := gid;
     PublicPlayerData_mail :=
       Some match doc with Some d => default (mkMailData []) (PublicPlayerData_mail d) | None => mkMailData [] end |}.

Definition in_flight (s : PublicPlayers) : list (Z * PublicPlayerData) :=
  match flush s with Snapshotting _ _ taken | Saving _ _ taken => taken | _ => [] end.

(** The document once the saves in flight have arrived. *)
Definition document (s : PublicPlayers) (gid : Z) : option PublicPlayerData := save_all (in_flight s) (stored s) !! gid.

Definition normal (gid : Z) (d : PublicPlayerData) : Prop := loaded gid (Some d) = d.

Record write_back_ok (s : PublicPlayers) : Prop := {
  wb_cells gid a : cache s !! gid = Some a → (a < length (heap s))%nat;
  wb_own g g' a : cache s !! g = Some a → cache s !! g' = Some a → g = g';
  wb_normal gid a p : cached s gid = Some (a, p) → normal gid (data p);
  wb_registered gid a p : cached s gid = Some (a, p) → dirty p = true → gid ∈ registered s;
  wb_clean gid a p : cached s gid = Some (a, p) → dirty p = false → data p = loaded gid (document s gid);
  wb_flight gid d : (gid, d) ∈ in_flight s → is_Some (cache s !! gid)
}.

(** What the services' updates do: they keep the player's id and mail box, and
    change nothing when they report no change. *)
Definition well_behaved (gid : Z) (f : PublicPlayerData → unit * bool * PublicPlayerData) : Prop := ∀ d, normal gid d →
  normal gid (f d).2 ∧ ((f d).1.2 = false → (f d).2 = d).

(** The labels of a service whose saves succeed and whose cache is large
    enough. *)
Definition healthy (l : label) : Prop :=
  match l with
  | Load gid => 0 < gid
  | Update gid f => well_behaved gid f
  | Saved ok => ok = true
  | Evict _ | SaveEvicted _ _ _ | UnregisterEvicted _ _ => False
  | _ => True
  end.

Lemma loaded_normal gid doc : normal gid (loaded gid doc).
Proof. done. Qed.

Lemma new_loaded gid d : 0 < gid → new gid d = Some (mkPublicPlayer (loaded gid (Some d)) false).
Proof. intros Hg. unfold new. by replace (0 <? gid) with true by lia. Qed.

Lemma cached_Some s gid a p : cached s gid = Some (a, p) ↔ cache s !! gid = Some a ∧ heap s !! a = Some p.
Proof.
  unfold cached. destruct (cache s !! gid) as [b|]; simpl; [|naive_solver].
  destruct (heap s !! b) as [q|] eqn:Hq; simpl; split.
  - intros [= <- <-]. done.
  - intros [[= ->] H]. congruence.
  - done.
  - intros [[= ->] H]. congruence.
Qed.

(** A change of one player's cell. *)
Lemma cached_set s gid a p p' g b q : write_back_ok s → cached s gid = Some (a, p) →
  cached (on_heap <[a := p']> s) g = Some (b, q) →
  (g = gid ∧ b = a ∧ q = p') ∨ (g ≠ gid ∧ cached s g = Some (b, q)).
Proof.
  intros Hs [Hc Hp]%cached_Some [Hg Hq]%cached_Some. simpl in *.
  apply list_lookup_insert_Some in Hq as [(<- & <- & _)|[Hne Hq]].
  - left. by rewrite (wb_own s Hs g gid a).
  - right. split; [intros ->; congruence|]. by apply cached_Some.
Qed.

Lemma save_all_app taken gid d m : save_all (taken ++ [(gid, d)]) m = <[gid := d]> (save_all taken m).
Proof. unfold save_all. by rewrite foldl_app. Qed.

(** Steps of the flush that only move its bookkeeping. *)
Lemma flush_frame s s' : write_back_ok s → cache s' = cache s → heap s' = heap s → registered s' = registered s →
  (∀ gid, document s' gid = document s gid) → (∀ gid d, (gid, d) ∈ in_flight s' → (gid, d) ∈ in_flight s) →
  write_back_ok s'.
Proof.
  intros Hs Hc Hh Hr Hd Hf.
  assert (∀ gid, cached s' gid = cached s gid) as Hcached by (intros; unfold cached; by rewrite Hc, Hh).
  split.
  - intros gid a. rewrite Hc, Hh. apply (wb_cells s Hs).
  - intros g g' a. rewrite Hc. apply (wb_own s Hs).
  - intros gid a p. rewrite Hcached. apply (wb_normal s Hs).
  - intros gid a p. rewrite Hcached, Hr. apply (wb_registered s Hs).
  - intros gid a p. rewrite Hcached, Hd. apply (wb_clean s Hs).
  - intros gid d Hin. rewrite Hc. by apply (wb_flight s Hs gid d), Hf.
Qed.

Lemma load_ok gid s s' : 0 < gid → write_back_ok s → load gid s = Some s' → write_back_ok s'.
Proof.
  intros Hg Hs. unfold load. destruct (cache s !! gid) as [a|] eqn:Hc; [done|]. intros Hl.
  assert (s' = on_cache <[gid := length (heap s)]> (on_heap (λ h, h ++ [mkPublicPlayer (loaded gid (stored s !! gid)) false]) s)) as ->.
  { destruct (stored s !! gid) as [d|] eqn:Hd; [rewrite new_loaded in Hl by done|unfold empty in Hl; rewrite new_loaded in Hl by done];
      simpl in Hl; by simplify_eq. }
  clear Hl. set (p := mkPublicPlayer _ false). set (s' := on_cache _ _).
  assert (∀ g b q, cached s' g = Some (b, q) → (g = gid ∧ q = p) ∨ cached s g = Some (b, q)) as Hcached.
  { intros g b q [Hb Hq]%cached_Some. simpl in Hb, Hq. apply lookup_insert_Some in Hb as [[<- <-]|[_ Hb]].
    - left. rewrite list_lookup_middle in Hq by done. by simplify_eq.
    - right. apply cached_Some. split; [done|]. rewrite lookup_app_l in Hq; [done|]. by apply (wb_cells s Hs g). }
  split.
  - intros g b Hb. simpl in Hb. simpl. rewrite length_app. apply lookup_insert_Some in Hb as [[_ <-]|[_ Hb]]; simpl; [lia|].
    pose proof (wb_cells s Hs g b Hb). lia.
  - intros g g' b Hb Hb'. simpl in Hb, Hb'. apply lookup_insert_Some in Hb as [[<- <-]|[_ Hb]], Hb' as [[<- Hb']|[_ Hb']]; try done.
    + pose proof (wb_cells s Hs g' _ Hb'). lia.
    + pose proof (wb_cells s Hs g b Hb). lia.
    + by apply (wb_own s Hs g g' b).
  - intros g b q [[-> ->]|Hq]%Hcached; [done|]. by apply (wb_normal s Hs g b).
  - intros g b q [[-> ->]|Hq]%Hcached; [done|]. by apply (wb_registered s Hs g b).
  - intros g b q [[-> ->]|Hq]%Hcached; [|by apply (wb_clean s Hs g b)]. intros _. simpl.
    unfold document. change (in_flight s') with (in_flight s). change (stored s') with (stored s).
    assert (save_all (in_flight s) (stored s) !! gid = stored s !! gid) as ->; [|done].
    assert (∀ d, (gid, d) ∉ in_flight s) as Hno.
    { intros d Hd. apply (wb_flight s Hs) in Hd. rewrite Hc in Hd. by destruct Hd. }
    revert Hno. generalize (in_flight s) as l. intros l. generalize (stored s) as m.
    induction l as [|[k d] l IH]; intros m Hno; [done|]. simpl. unfold save_all in *. simpl.
    rewrite IH by (intros d' Hd'; apply (Hno d'); by apply elem_of_cons; right).
    apply lookup_insert_ne. intros ->. apply (Hno d). by left.
  - intros g d Hd. apply (wb_flight s Hs) in Hd as [b Hb]. simpl. rewrite lookup_insert_is_Some. destruct (decide (gid = g)); [by left|right].
    split; [done|by exists b].
Qed.

Lemma update_ok gid f s s' : well_behaved gid f → write_back_ok s → exec (Update gid f) s = Some s' → write_back_ok s'.
Proof.
  intros Hf Hs. cbn [exec]. destruct (cached s gid) as [[a p]|] eqn:Hc; simpl; [|done]. unfold update.
  destruct (Hf (data p) (wb_normal s Hs _ _ _ Hc)) as [Hn Hsame]. destruct (f (data p)) as [[u changed] d]. simpl in Hn, Hsame.
  set (p' := mkPublicPlayer d (if changed then true else dirty p)). intros Hx.
  assert (s' = on_registered (if changed then ({[ gid ]} ∪.) else id) (on_heap <[a := p']> s)) as -> by (destruct changed; simplify_eq; by destruct s).
  clear Hx. set (s' := on_registered _ _).
  assert (∀ g b q, cached s' g = Some (b, q) → (g = gid ∧ q = p') ∨ (g ≠ gid ∧ cached s g = Some (b, q))) as Hcached.
  { intros g b q Hq. apply (cached_set s gid a p p') in Hq as [(-> & _ & ->)|?]; [by left|by right|done|done]. }
  split.
  - intros g b Hb. simpl. rewrite length_insert. by apply (wb_cells s Hs g).
  - apply (wb_own s Hs).
  - intros g b q [[-> ->]|[_ Hq]]%Hcached; [done|]. by apply (wb_normal s Hs g b).
  - intros g b q [[-> ->]|[_ Hq]]%Hcached Hd; simpl.
    + destruct changed; simpl in *; [set_solver|]. by apply (wb_registered s Hs gid a p).
    + pose proof (wb_registered s Hs g b q Hq Hd). destruct changed; simpl; [set_solver|done].
  - intros g b q [[-> ->]|[_ Hq]]%Hcached; [|by apply (wb_clean s Hs g b)].
    destruct changed; simpl; [done|]. intros Hd. rewrite Hsame by done. by apply (wb_clean s Hs gid a p).
  - apply (wb_flight s Hs).
Qed.

Lemma snapshot_ok gid s s' : write_back_ok s → exec (Snapshot gid) s = Some s' → write_back_ok s'.
Proof.
  intros Hs. cbn [exec]. destruct (flush s) as [|gids todo taken| |] eqn:Hfl; try done.
  case_decide as Hin; [|done]. assert (in_flight s = taken) as Hift by (unfold in_flight; by rewrite Hfl).
  destruct (cached s gid) as [[a p]|] eqn:Hc.
  2:{ intros [= <-]. apply (flush_frame s); try done; unfold document; simpl; by rewrite ?Hift. }
  simpl. set (taken' := match (if dirty p then Some (data p) else None) with Some d => taken ++ [(gid, d)] | None => taken end).
  set (p' := mkPublicPlayer (data p) false). intros [= <-]. set (s' := on_heap _ _).
  assert (∀ g b q, cached s' g = Some (b, q) → (g = gid ∧ q = p') ∨ (g ≠ gid ∧ cached s g = Some (b, q))) as Hcached.
  { intros g b q Hq. apply (cached_set s gid a p p') in Hq as [(-> & _ & ->)|?]; [by left|by right|done|done]. }
  assert (∀ g, document s' g = if decide (g = gid ∧ dirty p = true) then Some (data p) else document s g) as Hdoc.
  { intros g. unfold document. rewrite Hift. simpl. unfold in_flight at 1. simpl. unfold taken'.
    destruct (dirty p) eqn:Hd; [|rewrite decide_False by naive_solver; done]. rewrite save_all_app.
    case_decide as Hg; [destruct Hg as [-> _]; apply lookup_insert_eq|].
    rewrite lookup_insert_ne; [done|]. intros ->. by destruct Hg. }
  split.
  - intros g b Hb. simpl. rewrite length_insert. by apply (wb_cells s Hs g).
  - apply (wb_own s Hs).
  - intros g b q [[-> ->]|[_ Hq]]%Hcached; [by apply (wb_normal s Hs gid a p)|]. by apply (wb_normal s Hs g b).
  - intros g b q [[-> ->]|[_ Hq]]%Hcached; [done|]. by apply (wb_registered s Hs g b).
  - intros g b q [[-> ->]|[Hne Hq]]%Hcached; intros Hd; rewrite Hdoc.
    + simpl. destruct (dirty p) eqn:Hdp.
      * rewrite decide_True by done. symmetry. by apply (wb_normal s Hs gid a p).
      * rewrite decide_False by naive_solver. by apply (wb_clean s Hs gid a p).
    + rewrite decide_False by naive_solver. by apply (wb_clean s Hs g b).
  - intros g d Hgd. unfold in_flight, taken' in Hgd. simpl in Hgd. simpl.
    destruct (dirty p); [apply elem_of_app in Hgd as [Hgd|Hgd]|].
    + apply (wb_flight s Hs g d). by rewrite Hift.
    + apply list_elem_of_singleton in Hgd. simplify_eq. apply cached_Some in Hc as [-> _]. done.
    + apply (wb_flight s Hs g d). by rewrite Hift.
Qed.

Lemma unregister_ok s s' : write_back_ok s → exec Unregister s = Some s' → write_back_ok s'.
Proof.
  intros Hs. cbn [exec]. destruct (flush s) as [| | |[|gid todo]] eqn:Hfl; try done; intros [= <-].
  - apply (flush_frame s); try done; unfold document, in_flight; simpl; by rewrite Hfl.
  - set (remove := match cached s gid with Some (_, p) => remove_registration_if_clean p | None => true end).
    assert (write_back_ok (on_flush (λ _, Unregistering todo) s)) as Hs1.
    { apply (flush_frame s); try done; unfold document, in_flight; simpl; by rewrite Hfl. }
    destruct remove eqn:Hrem; [|done]. destruct Hs1 as [H1 H2 H3 H4 H5 H6]. split; try done.
    intros g a p Hc Hd. simpl. specialize (H4 g a p Hc Hd). simpl in H4.
    assert (g ≠ gid); [|set_solver]. intros ->. unfold remove in Hrem.
    change (cached s gid = Some (a, p)) in Hc. rewrite Hc in Hrem. unfold remove_registration_if_clean in Hrem.
    by rewrite Hd in Hrem.
Qed.

Lemma exec_ok l s s' : healthy l → write_back_ok s → exec l s = Some s' → write_back_ok s'.
Proof.
  intros Hl Hs Hx. destruct l; simpl in Hl; try done.
  - by apply (load_ok gid s).
  - by apply (update_ok gid f s).
  - simpl in Hx. destruct (flush s) eqn:Hfl; try done.
    case_decide; simplify_eq; [done|]. apply (flush_frame s); try done; unfold document, in_flight; simpl; by rewrite Hfl.
  - by apply (snapshot_ok gid s).
  - simpl in Hx. destruct (flush s) eqn:Hfl; try done. simplify_eq.
    apply (flush_frame s); try done; unfold document, in_flight; simpl; by rewrite Hfl.
  - subst ok. simpl in Hx. unfold batch_saved in Hx. destruct (flush s) eqn:Hfl; try done. simplify_eq.
    apply (flush_frame s); try done; unfold document, in_flight; simpl; rewrite Hfl; [done|].
    intros g d Hd. by apply not_elem_of_nil in Hd.
  - simpl in Hx. destruct (flush s) as [|gids [|] [|]| |] eqn:Hfl; try done. simplify_eq.
    apply (flush_frame s); try done; unfold document, in_flight; simpl; by rewrite Hfl.
  - by apply (unregister_ok s).
Qed.

Lemma initial_ok m : write_back_ok (initial m).
Proof. by split; intros; try apply cached_Some in H as [? ?]; simplify_eq/=; try (by apply not_elem_of_nil in H). Qed.

Lemma exec_all_write_back ls s s' : Forall healthy ls → write_back_ok s → exec_all ls s = Some s' → write_back_ok s'.
Proof.
  intros Hls. revert s. induction Hls as [|l ls Hl _ IH]; intros s Hs Hx; simpl in Hx; [by simplify_eq|].
  destruct (exec l s) as [s1|] eqn:Hl1; [|done]. apply (IH s1); [|done]. by apply (exec_ok l s).
Qed.

(** C22: as long as every save succeeds and no player is evicted from the
    cache, the write-back loses nothing.  In every interleaving of reads,
    loads, updates and one flush at a time (updates between the snapshot of a
    player, its save and the look at its registration included): a changed
    player is registered for the next flush, an unchanged one is what the store
    has or is about to receive, and when no flush is running and nobody is
    registered the store has every cached player.  (A failed save is only
    logged and its change may be lost.) *)
Theorem write_back_loses_nothing ls m s : Forall healthy ls → exec_all ls (initial m) = Some s →
  ∀ gid a p, cached s gid = Some (a, p) →
    (dirty p = true → gid ∈ registered s)
    ∧ (dirty p = false → data p = loaded gid (document s gid))
    ∧ (flush s = Idle → registered s = ∅ → data p = loaded gid (stored s !! gid)).
Proof.
  intros Hls Hx gid a p Hc. pose proof (exec_all_write_back ls _ s Hls (initial_ok m) Hx) as Hs. split_and!.
  - by apply (wb_registered s Hs gid a).
  - by apply (wb_clean s Hs gid a).
  - intros Hidle Hempty. destruct (dirty p) eqn:Hd.
    + pose proof (wb_registered s Hs gid a p Hc Hd) as Hin. rewrite Hempty in Hin. by apply not_elem_of_empty in Hin.
    + rewrite (wb_clean s Hs gid a p Hc Hd). unfold document, in_flight. by rewrite Hidle.
Qed.

(** ** Runs *)
Module public_example.
Definition with_mail (id : Z) (d : PublicPlayerData) : PublicPlayerData :=
  mkPublicPlayerData (PublicPlayerData_gid d) (Some (mkMailData [mkMail id "t" "" 0 0 0 []])).
Definition receive (id : Z) (d : PublicPlayerData) : unit * bool * PublicPlayerData := (tt, true, with_mail id d).

Lemma receive_well_behaved gid id : well_behaved gid (receive id).
Proof. intros d Hd. split; [|done]. unfold normal in *. rewrite <- Hd. reflexivity. Qed.

Definition mails (s : PublicPlayers) (gid : Z) : list Z :=
  match stored s !! gid with
  | Some d => Mail_mail_id <$> MailData_mails (default (mkMailData []) (PublicPlayerData_mail d))
  | None => []
  end.

(** A mail arrives after the snapshot of the first one was taken. *)
Definition overlapping : list label :=
  [Load 7; Update 7 (receive 1); FlushDirty; Snapshot 7; Update 7 (receive 2); SaveBatch; Saved true; NextBatch;
   Unregister; Unregister; FlushDirty; Snapshot 7; SaveBatch; Saved true; NextBatch; Unregister; Unregister].
End public_example.
Import public_example.

Lemma write_back_loses_nothing_witness :
  ∃ s, exec_all overlapping (initial ∅) = Some s ∧ mails s 7 = [2]
    ∧ ∀ a p, cached s 7 = Some (a, p) → data p = loaded 7 (stored s !! 7).
Proof.
  destruct (exec_all overlapping (initial ∅)) as [s|] eqn:Hx; [|vm_compute in Hx; discriminate].
  exists s. split; [reflexivity|]. split; [vm_compute in Hx; injection Hx as <-; vm_compute; reflexivity|].
  intros a p Hc. apply (write_back_loses_nothing overlapping ∅ s) with (a := a); [|exact Hx|exact Hc| |].
  - unfold overlapping. repeat apply Forall_cons_2; first [apply receive_well_behaved|done].
  - vm_compute in Hx. injection Hx as <-. reflexivity.
  - vm_compute in Hx. injection Hx as <-. vm_compute. reflexivity.
Defined.

(** A failed save is only logged, as ADR 0016 accepts: the player is clean and
    unregistered, and the change never reaches the store. *)
Lemma failed_save_loses_the_change :
  ∃ s, exec_all [Load 7; Update 7 (receive 1); FlushDirty; Snapshot 7; SaveBatch; Saved false; NextBatch; Unregister; Unregister] (initial ∅) = Some s
    ∧ flush s = Idle ∧ registered s = ∅ ∧ mails s 7 = []
    ∧ ∃ p, cached s 7 = Some (0%nat, p) ∧ dirty p = false
        ∧ data p = with_mail 1 (loaded 7 None).
Proof. eexists. split; [vm_compute; reflexivity|]. split_and!; try (vm_compute; reflexivity). eexists. split_and!; vm_compute; reflexivity. Qed.

(** Why ADR 0016 asks for a cache that evicts no active player: the saver of an
    evicted player removes the registration of the player that was loaded
    again and changed meanwhile, so he is dirty and no flush will find him. *)
Lemma eviction_unregisters_a_reloaded_player :
  ∃ s, exec_all [Load 7; Evict 7; Load 7; Update 7 (receive 1); SaveEvicted 7 0 true; UnregisterEvicted 7 0] (initial ∅) = Some s
    ∧ registered s = ∅ ∧ ∃ p, cached s 7 = Some (1%nat, p) ∧ dirty p = true.
Proof. eexists. split; [vm_compute; reflexivity|]. split; [vm_compute; reflexivity|]. eexists. split; vm_compute; reflexivity. Qed.
