(* ===== verification/Mail.v ===== *)
(** The mail of the Public service (src/service/public/src/mail.rs): the
    operations on a player's mail box, and the handlers as programs over the
    player cache, Redis, the Logic service and the Gate. *)

From stdpp Require Import pretty.
From S2P Require Import Prelude Effects Routing Proto OnlineCache LogicHandlers.

#[local] Open Scope string_scope.
#[local] Open Scope list_scope.
#[local] Open Scope Z_scope.

Definition MAIL_READ : Z := 1.
Definition MAIL_CLAIMED : Z := 2.
Definition DEFAULT_MAIL_LIFETIME : Z := 30 * 24 * 60 * 60.
Definition MAX_REQUEST_MAILS : Z := 100.
Definition MAX_MAILS_PER_PLAYER : Z := 200.
Definition RPC_CALL_TIMEOUT : Z := secs 3.

(** ** Requests *)

(** [i64::try_from] of the head's [u64]s. *)
Definition i64_try_from (z : Z) : option Z := if z <? 2 ^ 63 then Some z else None.

Definition player_gid (head : RpcHead) : option Z :=
  gid ← i64_try_from (head_gid head);
  session ← i64_try_from (head_player_session head);
  if (0 <? gid) && (0 <? session) then Some gid else None.

Definition valid_mail_ids (ids : list Z) : option (list Z) :=
  if bool_decide (ids = []) || (MAX_REQUEST_MAILS <? len ids) then None
  else if all_new ∅ ids then Some ids else None.

(** ** The mail box *)

Definition with_state (state : Z) (m : Mail) : Mail :=
  mkMail (Mail_mail_id m) (Mail_title m) (Mail_content m) (Mail_send_time m) (Mail_end_time m) state (Mail_attachments m).

Definition expired (now : Z) (m : Mail) : bool := negb (Mail_end_time m =? 0) && (Mail_end_time m <=? now).

Section mailbox.
Context `{!UnstableSort Mail Mail_mail_id}.

Definition list_mails (now : Z) (d : MailData) : list Mail :=
  sort_unstable_by_key Mail_mail_id (filter (λ m, (Mail_end_time m =? 0) || (now <? Mail_end_time m) = true) (MailData_mails d)).

(** The loop of [read]: the mails, and the ids that changed. *)
Fixpoint read_loop (requested : gset Z) (mails : list Mail) : list Mail * list Z :=
  match mails with
  | [] => ([], [])
  | m :: mails =>
      let '(rest, changed) := read_loop requested mails in
      if bool_decide (Mail_mail_id m ∈ requested) && (Mail_state m <? MAIL_READ)
      then (with_state MAIL_READ m :: rest, Mail_mail_id m :: changed)
      else (m :: rest, changed)
  end.

Definition read_mails (ids : list Z) (d : MailData) : list Z * bool * MailData :=
  let '(mails, changed) := read_loop (list_to_set ids) (MailData_mails d) in
  (changed, negb (bool_decide (changed = [])), mkMailData mails).

Definition delete_mails (ids : list Z) (d : MailData) : list Z * bool * MailData :=
  let requested : gset Z := list_to_set ids in
  let removed := Mail_mail_id <$> filter (λ m, Mail_mail_id m ∈ requested) (MailData_mails d) in
  (removed, negb (bool_decide (removed = [])),
   mkMailData (filter (λ m, Mail_mail_id m ∉ requested) (MailData_mails d))).

(** [iter().find]. *)
Fixpoint find_mail (id : Z) (mails : list Mail) : option Mail :=
  match mails with
  | [] => None
  | m :: mails => if Mail_mail_id m =? id then Some m else find_mail id mails
  end.

(** The checks of [claim_mails], id by id. *)
Fixpoint claim_check (now : Z) (ids : list Z) (mails : list Mail) : Result Status (list Item) :=
  match ids with
  | [] => Ok []
  | id :: ids =>
      match find_mail id mails with
      | None => Err (error_status code.NOT_FOUND "mail not found")
      | Some m =>
          if expired now m || (MAIL_CLAIMED <=? Mail_state m) then Err (error_status code.CONFLICT "mail cannot be claimed")
          else rest ← claim_check now ids mails; Ok (Mail_attachments m ++ rest)
      end
  end.

Definition claim_mails (now : Z) (ids : list Z) (d : MailData) : Result Status (list Item) * bool * MailData :=
  match claim_check now ids (MailData_mails d) with
  | Err status => (Err status, false, d)
  | Ok attachments =>
      (Ok attachments, true,
       mkMailData ((λ m, if bool_decide (Mail_mail_id m ∈ ids) then with_state MAIL_CLAIMED m else m) <$> MailData_mails d))
  end.

(** The mail that [send_mail] stores, and the box after it. *)
Definition stamped (now id : Z) (m : Mail) : Mail :=
  let send_time := if Mail_send_time m =? 0 then now else Mail_send_time m in
  mkMail id (Mail_title m) (Mail_content m) send_time
    (if Mail_end_time m =? 0 then wrap_i64 (send_time + DEFAULT_MAIL_LIFETIME) else Mail_end_time m)
    (Mail_state m) (Mail_attachments m).

Definition store_mail (now id : Z) (m : Mail) (d : MailData) : Result Status Mail * bool * MailData :=
  let m := stamped now id m in
  if Mail_end_time m <=? now then (Err (error_status code.INVALID_ARGUMENT "mail is already expired"), false, d)
  else
    let m := with_state 0 m in
    let mails := sort_unstable_by_key Mail_mail_id (MailData_mails d ++ [m]) in
    let mails := if MAX_MAILS_PER_PLAYER <? len mails then drop (Z.to_nat (len mails - MAX_MAILS_PER_PLAYER)) mails else mails in
    (Ok m, true, mkMailData mails).
End mailbox.

Definition valid_mail (gid : Z) (m : Mail) : bool :=
  negb ((gid <=? 0) || bool_decide (Mail_title m = "") || (128 <? Z.of_nat (String.length (Mail_title m)))
        || (4096 <? Z.of_nat (String.length (Mail_content m)))
        || existsb (λ i, (Item_item_id i <=? 0) || (Item_count i <=? 0)) (Mail_attachments m)).

(** ** Handlers *)

(** What the closures of [PublicPlayers::read] and [update] ask for while they
    hold the player's lock. *)
Inductive ClockEff : Type → Type :=
| UnixSeconds : ClockEff Z
| NewMailId : ClockEff Z.

(** The closures work on the mail box that every cached player has. *)
Inductive MailEff : Type → Type :=
| ReadMail {R : Type} (gid : Z) (f : MailData → prog ClockEff R) : MailEff (Result string R)
| UpdateMail {R : Type} (gid : Z) (f : MailData → prog ClockEff (R * bool * MailData)) : MailEff (Result string R)
| LoadOnline (gid : Z) : MailEff (Result string (option OnlineData))
| CallAddItems (logic_id : Z) (head : RpcHead) (r : AddItemsReq) : MailEff (Result string AddItemsRsp)
| SendMailPush (gate_id : Z) (ntf : MailPushNtf) : MailEff (Result string unit).

Definition cache_status : Status := error_status code.INTERNAL "Public player data unavailable".

Definition mail_list_status (s : Status) : MailListRsp := mkMailListRsp (Some s) [].
Definition mail_read_status (s : Status) : MailReadRsp := mkMailReadRsp (Some s) [].
Definition mail_delete_status (s : Status) : MailDeleteRsp := mkMailDeleteRsp (Some s) [].
Definition mail_claim_status (s : Status) : MailClaimRsp := mkMailClaimRsp (Some s) [] [].
Definition send_mail_status (s : Status) : SendMailRsp := mkSendMailRsp (Some s) 0.

(** [{:?}] of a vector of integers. *)
Fixpoint debug_list (l : list Z) : string :=
  match l with
  | [] => ""
  | [z] => pretty z
  | z :: l => pretty z +:+ ", " +:+ debug_list l
  end.
Definition claim_reason (ids : list Z) : string := "mail_claim:[" +:+ debug_list ids +:+ "]".

Section handlers.
Context `{!UnstableSort Mail Mail_mail_id}.

Definition handle_list (head : RpcHead) : prog MailEff MailListRsp :=
  match player_gid head with
  | None => Ret (mail_list_status (error_status code.INVALID_ARGUMENT "missing player route"))
  | Some gid =>
      result ← await (ReadMail gid (λ d, now ← await UnixSeconds; Ret (list_mails now d)));
      Ret match result with
          | Ok mails => mkMailListRsp (Some ok_status) mails
          | Err _ => mail_list_status cache_status
          end
  end.

Definition handle_read (head : RpcHead) (request : MailReadReq) : prog MailEff MailReadRsp :=
  match player_gid head, valid_mail_ids (MailReadReq_mail_ids request) with
  | None, _ => Ret (mail_read_status (error_status code.INVALID_ARGUMENT "missing player route"))
  | Some _, None => Ret (mail_read_status (error_status code.INVALID_ARGUMENT "invalid mail ids"))
  | Some gid, Some ids =>
      result ← await (UpdateMail gid (λ d, Ret (read_mails ids d)));
      Ret match result with
          | Ok changed => mkMailReadRsp (Some ok_status) changed
          | Err _ => mail_read_status cache_status
          end
  end.

Definition handle_delete (head : RpcHead) (request : MailDeleteReq) : prog MailEff MailDeleteRsp :=
  match player_gid head, valid_mail_ids (MailDeleteReq_mail_ids request) with
  | None, _ => Ret (mail_delete_status (error_status code.INVALID_ARGUMENT "missing player route"))
  | Some _, None => Ret (mail_delete_status (error_status code.INVALID_ARGUMENT "invalid mail ids"))
  | Some gid, Some ids =>
      result ← await (UpdateMail gid (λ d, Ret (delete_mails ids d)));
      Ret match result with
          | Ok removed => mkMailDeleteRsp (Some ok_status) removed
          | Err _ => mail_delete_status cache_status
          end
  end.

Definition handle_claim (head : RpcHead) (request : MailClaimReq) : prog MailEff MailClaimRsp :=
  match player_gid head, valid_mail_ids (MailClaimReq_mail_ids request) with
  | None, _ => Ret (mail_claim_status (error_status code.INVALID_ARGUMENT "missing player route"))
  | Some _, None => Ret (mail_claim_status (error_status code.INVALID_ARGUMENT "invalid mail ids"))
  | Some gid, Some ids =>
      result ← await (UpdateMail gid (λ d, now ← await UnixSeconds; Ret (claim_mails now ids d)));
      match result with
      | Err _ => Ret (mail_claim_status cache_status)
      | Ok (Err status) => Ret (mail_claim_status status)
      | Ok (Ok []) => Ret (mkMailClaimRsp (Some ok_status) ids [])
      | Ok (Ok attachments) =>
          loaded ← await (LoadOnline gid);
          match loaded with
          | Err _ => Ret (mail_claim_status (error_status code.INTERNAL "online state load failed"))
          | Ok None => Ret (mail_claim_status (error_status code.TEMPORARILY_UNAVAILABLE "Logic ownership unavailable"))
          | Ok (Some online) =>
              if negb (0 <? logic_id online) then
                Ret (mail_claim_status (error_status code.TEMPORARILY_UNAVAILABLE "Logic ownership unavailable"))
              else
                called ← await (CallAddItems (logic_id online) head (mkAddItemsReq gid attachments (claim_reason ids)));
                Ret match called with
                    | Err _ => mail_claim_status (error_status code.TEMPORARILY_UNAVAILABLE "item grant failed")
                    | Ok response =>
                        let status := default (error_status code.INTERNAL "Logic item response has no status") (AddItemsRsp_status response) in
                        if negb (Status_code status =? code.OK) then mail_claim_status status
                        else mkMailClaimRsp (Some ok_status) ids (AddItemsRsp_items response)
                    end
          end
      end
  end.

Definition notify_mail (gid : Z) (m : Mail) : prog MailEff unit :=
  loaded ← await (LoadOnline gid);
  match loaded with
  | Ok (Some online) =>
      if (gate_id online <=? 0) || (session online <=? 0) then Ret tt
      else _ ← await (SendMailPush (gate_id online) (mkMailPushNtf gid (Some m))); Ret tt
  | _ => Ret tt
  end.

Definition handle_send_mail (request : SendMailReq) : prog MailEff SendMailRsp :=
  match SendMailReq_mail request with
  | None => Ret (send_mail_status (error_status code.INVALID_ARGUMENT "mail is required"))
  | Some m =>
      let gid := SendMailReq_gid request in
      if negb (valid_mail gid m) then Ret (send_mail_status (error_status code.INVALID_ARGUMENT "invalid mail request"))
      else
        result ← await (UpdateMail gid (λ d,
          now ← await UnixSeconds;
          id ← await NewMailId;
          Ret (store_mail now id m d)));
        match result with
        | Err _ => Ret (send_mail_status cache_status)
        | Ok (Err status) => Ret (send_mail_status status)
        | Ok (Ok m) => _ ← notify_mail gid m; Ret (mkSendMailRsp (Some ok_status) (Mail_mail_id m))
        end
  end.

(** [register_handlers]: the RPCs of the service and the handler of each. *)
Inductive MailCall :=
| MailListCall (head : RpcHead) (request : MailListReq)
| MailReadCall (head : RpcHead) (request : MailReadReq)
| MailDeleteCall (head : RpcHead) (request : MailDeleteReq)
| MailClaimCall (head : RpcHead) (request : MailClaimReq)
| SendMailCall (request : SendMailReq).

Inductive MailReply :=
| MailListReply (r : MailListRsp)
| MailReadReply (r : MailReadRsp)
| MailDeleteReply (r : MailDeleteRsp)
| MailClaimReply (r : MailClaimRsp)
| SendMailReply (r : SendMailRsp).

Definition dispatch (call : MailCall) : prog MailEff MailReply :=
  match call with
  | MailListCall head _ => r ← handle_list head; Ret (MailListReply r)
  | MailReadCall head request => r ← handle_read head request; Ret (MailReadReply r)
  | MailDeleteCall head request => r ← handle_delete head request; Ret (MailDeleteReply r)
  | MailClaimCall head request => r ← handle_claim head request; Ret (MailClaimReply r)
  | SendMailCall request => r ← handle_send_mail request; Ret (SendMailReply r)
  end.
End handlers.

(** ** A world to run them in *)

Record World := mkWorld {
  boxes : gmap Z MailData;
  clock : Z;
  next_id : Z;
  grants : list AddItemsReq;
  pushes : list (Z * MailPushNtf);
  cache_fails : Z → option string;
  online_of : Z → Result string (option OnlineData);
  logic_answer : AddItemsReq → Result string AddItemsRsp
}.

Definition eta_World (s : World) : World :=
  mkWorld (boxes s) (clock s) (next_id s) (grants s) (pushes s) (cache_fails s) (online_of s) (logic_answer s).
Definition on_boxes : (gmap Z MailData → gmap Z MailData) → World → World := ltac:(derive_update eta_World boxes).
Definition on_next_id : (Z → Z) → World → World := ltac:(derive_update eta_World next_id).
Definition on_grants : (list AddItemsReq → list AddItemsReq) → World → World := ltac:(derive_update eta_World grants).
Definition on_pushes : (list (Z * MailPushNtf) → list (Z * MailPushNtf)) → World → World := ltac:(derive_update eta_World pushes).

Definition box (w : World) (gid : Z) : MailData := default (mkMailData []) (boxes w !! gid).

Definition handle_clock (X : Type) (e : ClockEff X) : World → X * World :=
  match e in ClockEff X return World → X * World with
  | UnixSeconds => λ w, (clock w, w)
  | NewMailId => λ w, (next_id w, on_next_id (λ n, n + 1) w)
  end.

Definition handle_mail (X : Type) (e : MailEff X) : World → X * World :=
  match e in MailEff X return World → X * World with
  | ReadMail gid f => λ w,
      match cache_fails w gid with
      | Some error => (Err error, w)
      | None => let '(r, w) := run handle_clock (f (box w gid)) w in (Ok r, w)
      end
  | UpdateMail gid f => λ w,
      match cache_fails w gid with
      | Some error => (Err error, w)
      | None => let '((r, _, d), w) := run handle_clock (f (box w gid)) w in (Ok r, on_boxes <[gid := d]> w)
      end
  | LoadOnline gid => λ w, (online_of w gid, w)
  | CallAddItems _ _ r => λ w, (logic_answer w r, on_grants (λ l, l ++ [r]) w)
  | SendMailPush gate ntf => λ w, (Ok tt, on_pushes (λ l, l ++ [(gate, ntf)]) w)
  end.
