(* ===== verification/MailSpec.v ===== *)
(** The mail service: claims are all or nothing and grant every attachment at
    most once, however they interleave; the box stays sorted and bounded. *)

From stdpp Require Import pretty.
From S2P Require Import Prelude Effects Routing Proto OnlineCache LogicHandlers Mail.

(** ** Requests *)

(** The ids of a request are accepted when they are positive, distinct, and
    between one and a hundred. *)
Lemma valid_mail_ids_spec ids r :
  valid_mail_ids ids = Some r ↔ r = ids ∧ 0 < len ids <= MAX_REQUEST_MAILS ∧ Forall (λ id, 0 < id) ids ∧ NoDup ids.
Proof. apply valid_ids_spec. Qed.

(** ** Claims *)

Definition claimable (now : Z) (m : Mail) : Prop := expired now m = false ∧ Mail_state m < MAIL_CLAIMED.
Definition mark (ids : list Z) (m : Mail) : Mail := if bool_decide (Mail_mail_id m ∈ ids) then with_state MAIL_CLAIMED m else m.

Lemma find_mail_Some id mails m : find_mail id mails = Some m → m ∈ mails ∧ Mail_mail_id m = id.
Proof.
  induction mails as [|x mails IH]; simpl; [done|]. destruct (Z.eqb_spec (Mail_mail_id x) id).
  - intros [= ->]. split; [by left|done].
  - intros Hf. destruct (IH Hf) as [? ?]. split; [by right|done].
Qed.

Lemma find_mail_mark id ids mails : find_mail id (mark ids <$> mails) = mark ids <$> find_mail id mails.
Proof.
  induction mails as [|x mails IH]; [done|]. rewrite fmap_cons. simpl.
  assert (Mail_mail_id (mark ids x) = Mail_mail_id x) as -> by (unfold mark; by destruct (bool_decide _)).
  by destruct (Mail_mail_id x =? id).
Qed.

Lemma claim_check_Ok now ids mails attachments : claim_check now ids mails = Ok attachments →
  ∃ ms, Forall2 (λ id m, find_mail id mails = Some m ∧ claimable now m) ids ms ∧ attachments = ms ≫= Mail_attachments.
Proof.
  revert attachments. induction ids as [|id ids IH]; intros attachments; simpl.
  { intros [= <-]. by exists []. }
  destruct (find_mail id mails) as [m|] eqn:Hm; [|done].
  destruct (expired now m) eqn:He; simpl; [done|]. destruct (Z.leb_spec MAIL_CLAIMED (Mail_state m)); [done|].
  destruct (claim_check now ids mails) as [rest|]; [|done]. simpl. intros [= <-].
  destruct (IH rest eq_refl) as (ms & H2 & ->). exists (m :: ms). split; [constructor; [|done]|done]. done.
Qed.

Lemma claim_check_Err now ids mails status : claim_check now ids mails = Err status →
  ∃ id, id ∈ ids ∧ (find_mail id mails = None ∨ ∃ m, find_mail id mails = Some m ∧ ¬ claimable now m).
Proof.
  induction ids as [|id ids IH]; simpl; [done|].
  destruct (find_mail id mails) as [m|] eqn:Hm; [|intros _; exists id; split; [by left|by left]].
  destruct (expired now m) eqn:He; simpl.
  { intros _. exists id. split; [by left|]. right. exists m. split; [done|]. unfold claimable. rewrite He. by intros [[=] _]. }
  destruct (Z.leb_spec MAIL_CLAIMED (Mail_state m)).
  { intros _. exists id. split; [by left|]. right. exists m. split; [done|]. unfold claimable. lia. }
  destruct (claim_check now ids mails) as [rest|]; simpl; [done|]. intros [= <-].
  destruct (IH eq_refl) as (x & Hx & Hbad). exists x. split; [by right|done].
Qed.

(** A check that includes a mail that is not claimable fails. *)
Lemma claim_check_refused now ids mails id m : id ∈ ids → find_mail id mails = Some m → ¬ claimable now m →
  ∃ status, claim_check now ids mails = Err status.
Proof.
  intros Hin Hm Hno. destruct (claim_check now ids mails) as [a|status] eqn:Hc; [|by exists status].
  apply claim_check_Ok in Hc as (ms & H2 & _). apply list_elem_of_lookup in Hin as [i Hi].
  destruct (Forall2_lookup_l _ _ _ _ _ H2 Hi) as (m' & _ & Hm' & Hc). rewrite Hm in Hm'. by simplify_eq.
Qed.

(** C24: a claim is all or nothing, and final.  Either some requested mail is
    missing, expired or claimed before, and then nothing changes; or every
    one is claimable, the answer is their attachments in the order of the
    request, exactly the requested mails become claimed, and no later claim
    that asks for one of them succeeds. *)
Theorem claim_mails_all_or_nothing now ids d :
  let '(r, changed, d') := claim_mails now ids d in
  match r with
  | Err _ => changed = false ∧ d' = d
      ∧ ∃ id, id ∈ ids ∧ (find_mail id (MailData_mails d) = None
                           ∨ ∃ m, find_mail id (MailData_mails d) = Some m ∧ ¬ claimable now m)
  | Ok attachments => changed = true
      ∧ (∃ ms, Forall2 (λ id m, find_mail id (MailData_mails d) = Some m ∧ claimable now m) ids ms
               ∧ attachments = ms ≫= Mail_attachments)
      ∧ MailData_mails d' = mark ids <$> MailData_mails d
      ∧ ∀ now' ids' id, id ∈ ids → id ∈ ids' → ∃ status, claim_mails now' ids' d' = (Err status, false, d')
  end.
Proof.
  unfold claim_mails. destruct (claim_check now ids (MailData_mails d)) as [attachments|status] eqn:Hc.
  2:{ split_and!; [done..|]. by eapply claim_check_Err. }
  destruct (claim_check_Ok _ _ _ _ Hc) as (ms & H2 & Hatt). split_and!; [done|by exists ms|done|].
  intros now' ids' id Hin Hin'. simpl. change (λ m, if bool_decide (Mail_mail_id m ∈ ids) then _ else m) with (mark ids).
  apply list_elem_of_lookup in Hin as [i Hi]. destruct (Forall2_lookup_l _ _ _ _ _ H2 Hi) as (m & _ & Hm & _).
  destruct (find_mail_Some _ _ _ Hm) as [_ Hid].
  assert (id ∈ ids) as Hin by (by eapply list_elem_of_lookup_2).
  destruct (claim_check_refused now' ids' (mark ids <$> MailData_mails d) id (mark ids m)) as [status ->]; [done| | |by exists status].
  - by rewrite find_mail_mark, Hm.
  - unfold claimable, mark. rewrite bool_decide_eq_true_2 by congruence. simpl. unfold MAIL_CLAIMED. lia.
Qed.

(** ** Storing a mail *)

Section storing.
Context `{!UnstableSort Mail Mail_mail_id}.

(** A mail that is sent is stored stamped, unread and unexpired, or refused
    with the box unchanged.  The box stays sorted by mail id and never holds
    more than two hundred mails; what is dropped to stay within the limit are
    the oldest ids, so that a mail with a fresh id is kept. *)
Theorem store_mail_keeps_newest now id m d :
  let '(r, changed, d') := store_mail now id m d in
  match r with
  | Err _ => changed = false ∧ d' = d ∧ Mail_end_time (stamped now id m) <= now
  | Ok stored =>
      changed = true ∧ stored = with_state 0 (stamped now id m) ∧ expired now stored = false
      ∧ StronglySorted (λ x y, Mail_mail_id x <= Mail_mail_id y) (MailData_mails d')
      ∧ len (MailData_mails d') <= MAX_MAILS_PER_PLAYER
      ∧ ∃ dropped, dropped ++ MailData_mails d' ≡ₚ MailData_mails d ++ [stored]
          ∧ (dropped = [] ∨ len (MailData_mails d') = MAX_MAILS_PER_PLAYER)
          ∧ (∀ x y, x ∈ dropped → y ∈ MailData_mails d' → Mail_mail_id x <= Mail_mail_id y)
          ∧ ((∀ x, x ∈ MailData_mails d → Mail_mail_id x < id) → stored ∈ MailData_mails d')
  end.
Proof.
  unfold store_mail. destruct (Z.leb_spec (Mail_end_time (stamped now id m)) now) as [Hle|Hlt]; [done|].
  set (stored := with_state 0 (stamped now id m)). set (sorted := sort_unstable_by_key Mail_mail_id (MailData_mails d ++ [stored])).
  set (kept := if _ <? _ then _ else _). cbn [MailData_mails].
  assert (∃ dropped, sorted = dropped ++ kept ∧ len kept <= MAX_MAILS_PER_PLAYER ∧ (dropped = [] ∨ len kept = MAX_MAILS_PER_PLAYER))
    as (dropped & Hsplit & Hlen & Hfull).
  { unfold kept. destruct (Z.ltb_spec MAX_MAILS_PER_PLAYER (len sorted)); [|exists []; split_and!; [done|lia|by left]].
    exists (take (Z.to_nat (len sorted - MAX_MAILS_PER_PLAYER)) sorted). rewrite take_drop.
    assert (len (drop (Z.to_nat (len sorted - MAX_MAILS_PER_PLAYER)) sorted) = MAX_MAILS_PER_PLAYER) as ->; [|split_and!; [done|lia|by right]].
    unfold len in *. rewrite length_drop. unfold MAX_MAILS_PER_PLAYER in *. lia. }
  pose proof (sort_unstable_perm (MailData_mails d ++ [stored])) as Hperm. fold sorted in Hperm.
  pose proof (sort_unstable_sorted (MailData_mails d ++ [stored])) as Hsorted. fold sorted in Hsorted.
  rewrite Hsplit in Hperm, Hsorted. apply StronglySorted_app in Hsorted as (Hcross & _ & Hkept).
  split_and!; [done|done| |done|done|].
  { unfold expired, stored. simpl in *. apply andb_false_intro2. by apply Z.leb_gt. }
  exists dropped. split_and!; [done|done|exact Hcross|]. intros Hfresh.
  assert (stored ∈ dropped ++ kept) as [Hin|Hin]%elem_of_app by (rewrite Hperm; apply elem_of_app; right; by left); [|done].
  destruct Hfull as [->|Hfull]; [by apply not_elem_of_nil in Hin|].
  assert (∃ y, y ∈ kept) as [y Hy].
  { destruct kept as [|y kept']; [by rewrite len_nil in Hfull|exists y; by left]. }
  pose proof (Hcross _ _ Hin Hy) as Hxy.
  assert (y ∈ MailData_mails d ++ [stored]) as [Hold|Hnew%list_elem_of_singleton]%elem_of_app.
  - rewrite <- Hperm. apply elem_of_app. by right.
  - specialize (Hfresh y Hold). simpl in Hxy. lia.
  - by subst.
Qed.
End storing.

(** ** What claims grant

    The worth of items is any weight: the number of entries of one kind, or the
    quantity of one item. *)
Section worth.
Context (weight : Item → nat) (gid : Z).

Definition worth (items : list Item) : nat := sum_list_with weight items.
Definition unclaimed_mail (m : Mail) : nat := if Mail_state m <? MAIL_CLAIMED then worth (Mail_attachments m) else 0.
Definition unclaimed (mails : list Mail) : nat := sum_list_with unclaimed_mail mails.
(** What the requests to Logic grant to the player. *)
Definition grant (r : AddItemsReq) : nat := if AddItemsReq_gid r =? gid then worth (AddItemsReq_items r) else 0.
Definition granted (w : World) : nat := sum_list_with grant (grants w).
Definition ledger (w : World) : nat := granted w + unclaimed (MailData_mails (box w gid)).
(** What a call may add to the box. *)
Definition sent (call : MailCall) : nat :=
  match call with
  | SendMailCall request =>
      if SendMailReq_gid request =? gid then from_option (λ m, worth (Mail_attachments m)) 0%nat (SendMailReq_mail request) else 0
  | _ => 0
  end.

Lemma worth_app l l' : worth (l ++ l') = (worth l + worth l')%nat.
Proof. apply sum_list_with_app. Qed.

Lemma unclaimed_mark_le ids mails : (unclaimed (mark ids <$> mails) ≤ unclaimed mails)%nat.
Proof.
  induction mails as [|m mails IH]; [done|]. unfold unclaimed in *. rewrite fmap_cons. cbn [sum_list_with].
  assert (unclaimed_mail (mark ids m) ≤ unclaimed_mail m)%nat; [|lia].
  unfold mark. destruct (bool_decide _); [|done]. change (unclaimed_mail (with_state MAIL_CLAIMED m)) with 0%nat. lia.
Qed.

Lemma unclaimed_mark_one id mails m : find_mail id mails = Some m → Mail_state m < MAIL_CLAIMED →
  (worth (Mail_attachments m) + unclaimed (mark [id] <$> mails) ≤ unclaimed mails)%nat.
Proof.
  intros Hm Hs. induction mails as [|x mails IH]; [done|]. unfold unclaimed in *. rewrite fmap_cons. cbn [sum_list_with find_mail] in *.
  destruct (Z.eqb_spec (Mail_mail_id x) id) as [<-|Hne].
  - simplify_eq. pose proof (unclaimed_mark_le [Mail_mail_id m] mails) as Hle. unfold unclaimed in Hle.
    assert (unclaimed_mail (mark [Mail_mail_id m] m) = 0%nat) as ->.
    { unfold mark. rewrite bool_decide_eq_true_2 by by left. done. }
    unfold unclaimed_mail at 2. destruct (Z.ltb_spec (Mail_state m) MAIL_CLAIMED); lia.
  - specialize (IH Hm). assert (mark [id] x = x) as ->; [|lia].
    unfold mark. rewrite bool_decide_eq_false_2; [done|]. by intros ?%list_elem_of_singleton.
Qed.

Lemma mark_cons id ids (mails : list Mail) : mark (id :: ids) <$> mails = mark ids <$> (mark [id] <$> mails).
Proof.
  rewrite <- list_fmap_compose. apply list_fmap_ext. intros _ m _. unfold mark, compose.
  destruct (decide (Mail_mail_id m = id)) as [->|Hne].
  - rewrite (bool_decide_eq_true_2 (id ∈ id :: ids)), (bool_decide_eq_true_2 (id ∈ [id])) by by left. simpl. by case_bool_decide.
  - rewrite (bool_decide_eq_false_2 (Mail_mail_id m ∈ [id])) by (by intros ?%list_elem_of_singleton).
    rewrite (bool_decide_ext _ (Mail_mail_id m ∈ ids)); [done|]. rewrite elem_of_cons. naive_solver.
Qed.

Lemma unclaimed_mark_all ids mails ms : NoDup ids →
  Forall2 (λ id m, find_mail id mails = Some m ∧ Mail_state m < MAIL_CLAIMED) ids ms →
  (worth (ms ≫= Mail_attachments) + unclaimed (mark ids <$> mails) ≤ unclaimed mails)%nat.
Proof.
  intros Hnd H2. revert mails H2. induction Hnd as [|id ids Hni Hnd IH] in ms |- *; intros mails H2; inversion H2 as [|? m ? ms' [Hm Hs] Hrest]; subst.
  - apply (unclaimed_mark_le []).
  - rewrite mark_cons. pose proof (unclaimed_mark_one _ _ _ Hm Hs) as Hone.
    destruct (find_mail_Some _ _ _ Hm) as [_ Hid].
    assert ((worth (ms' ≫= Mail_attachments) + unclaimed (mark ids <$> (mark [id] <$> mails)) ≤ unclaimed (mark [id] <$> mails))%nat) as Hall.
    { apply IH. clear -Hrest Hni. induction Hrest as [|x mx ids ms [Hx Hsx] _ IHr]; constructor; [|apply IHr; set_solver].
      split; [|done]. rewrite find_mail_mark, Hx. simpl. f_equal. unfold mark.
      destruct (find_mail_Some _ _ _ Hx) as [_ <-]. rewrite bool_decide_eq_false_2; [done|].
      intros Heq%list_elem_of_singleton. apply Hni. rewrite <- Heq. by left. }
    rewrite bind_cons, worth_app. lia.
Qed.

Lemma unclaimed_perm mails mails' : mails ≡ₚ mails' → unclaimed mails = unclaimed mails'.
Proof. unfold unclaimed. induction 1; simpl; lia. Qed.

Lemma unclaimed_filter (P : Mail → Prop) `{∀ m, Decision (P m)} mails : (unclaimed (filter P mails) ≤ unclaimed mails)%nat.
Proof.
  unfold unclaimed. induction mails as [|m mails IH]; [done|].
  destruct (decide (P m)); [rewrite filter_cons_True by done|rewrite filter_cons_False by done]; simpl; lia.
Qed.

(** ** What each operation on the box does to it *)

Lemma claim_unclaimed now ids d : NoDup ids →
  let '(r, _, d') := claim_mails now ids d in
  ((match r with Ok items => worth items | Err _ => 0 end) + unclaimed (MailData_mails d') ≤ unclaimed (MailData_mails d))%nat.
Proof.
  intros Hnd. unfold claim_mails. destruct (claim_check now ids (MailData_mails d)) as [items|] eqn:Hc; [|simpl; lia].
  destruct (claim_check_Ok _ _ _ _ Hc) as (ms & H2 & ->). cbn [MailData_mails].
  apply (unclaimed_mark_all ids (MailData_mails d) ms Hnd). eapply Forall2_impl; [exact H2|].
  unfold claimable. naive_solver.
Qed.

Lemma read_unclaimed requested mails : unclaimed (read_loop requested mails).1 = unclaimed mails.
Proof.
  induction mails as [|m mails IH]; [done|]. simpl. destruct (read_loop requested mails) as [rest changed]. simpl in IH.
  destruct (_ && _) eqn:Hb; unfold unclaimed in *; simpl; rewrite IH; [|done]. f_equal.
  apply andb_true_iff in Hb as [_ Hs%Z.ltb_lt]. unfold unclaimed_mail. simpl.
  destruct (Z.ltb_spec (Mail_state m) MAIL_CLAIMED); [done|unfold MAIL_READ, MAIL_CLAIMED in *; lia].
Qed.

Lemma store_unclaimed `{!UnstableSort Mail Mail_mail_id} now id m d :
  let '(_, _, d') := store_mail now id m d in
  (unclaimed (MailData_mails d') ≤ unclaimed (MailData_mails d) + worth (Mail_attachments m))%nat.
Proof.
  unfold store_mail. destruct (_ <=? _); [lia|]. cbn [MailData_mails].
  set (stored := with_state 0 (stamped now id m)).
  assert (unclaimed (sort_unstable_by_key Mail_mail_id (MailData_mails d ++ [stored]))
          = unclaimed (MailData_mails d) + worth (Mail_attachments m))%nat as Hall.
  { rewrite (unclaimed_perm _ _ (sort_unstable_perm _)). unfold unclaimed. rewrite sum_list_with_app. simpl.
    unfold unclaimed_mail. simpl. lia. }
  destruct (_ <? _); [|lia]. rewrite <- Hall.
  rewrite <- (take_drop (Z.to_nat (len (sort_unstable_by_key Mail_mail_id (MailData_mails d ++ [stored])) - MAX_MAILS_PER_PLAYER))
                (sort_unstable_by_key Mail_mail_id (MailData_mails d ++ [stored]))) at 3.
  unfold unclaimed. rewrite sum_list_with_app. lia.
Qed.

(** ** The handlers *)

Lemma box_insert w g d : MailData_mails (box (on_boxes <[g := d]> w) gid)
  = if decide (g = gid) then MailData_mails d else MailData_mails (box w gid).
Proof. unfold box. simpl. destruct (decide (g = gid)) as [->|Hne]; [by rewrite lookup_insert_eq|by rewrite lookup_insert_ne]. Qed.

Lemma ledger_boxes w g d : ledger (on_boxes <[g := d]> w)
  = (granted w + if decide (g = gid) then unclaimed (MailData_mails d) else unclaimed (MailData_mails (box w gid)))%nat.
Proof. unfold ledger. rewrite box_insert. by destruct (decide (g = gid)). Qed.

Lemma ledger_grants w r : ledger (on_grants (λ l, l ++ [r]) w) = (ledger w + grant r)%nat.
Proof. unfold ledger, granted. simpl. rewrite sum_list_with_app. change (box (on_grants _ w) gid) with (box w gid). simpl. lia. Qed.

#[local] Abbreviation owes := (owes handle_mail ledger).

Lemma owes_ret {A} n (a : A) : owes n (Ret a).
Proof. done. Qed.

Lemma owes_load {A} n g (k : _ → prog MailEff A) : (∀ x, owes n (k x)) → owes n (Act (LoadOnline g) k).
Proof. intros Hk s. exists n. split; [apply Hk|done]. Qed.

Lemma owes_push {A} n gate ntf (k : _ → prog MailEff A) : (∀ x, owes n (k x)) → owes n (Act (SendMailPush gate ntf) k).
Proof. intros Hk s. exists n. split; [apply Hk|]. simpl. unfold ledger, granted, box. simpl. lia. Qed.

Lemma owes_call {A} n logic head r (k : _ → prog MailEff A) : (grant r ≤ n)%nat → (∀ x, owes 0 (k x)) →
  owes n (Act (CallAddItems logic head r) k).
Proof. intros Hr Hk s. exists 0%nat. split; [apply Hk|]. simpl. rewrite ledger_grants. lia. Qed.

(** An update whose change of the box is paid by [n] and by what the rest of
    the handler owes on its answer. *)
Lemma owes_update {A R} n g (f : MailData → prog ClockEff (R * bool * MailData)) (k : _ → prog MailEff A) (m : R → nat) :
  (∀ error, owes n (k (Err error))) → (∀ r, owes (m r) (k (Ok r))) →
  (∀ d w, let '((r, _, d'), w') := run handle_clock (f d) w in
     grants w' = grants w ∧ boxes w' = boxes w
     ∧ ((if decide (g = gid) then unclaimed (MailData_mails d') else unclaimed (MailData_mails d)) + m r
        ≤ n + unclaimed (MailData_mails d))%nat) →
  owes n (Act (UpdateMail g f) k).
Proof.
  intros Herr Hok Hf s. simpl. destruct (cache_fails s g) as [error|]; [exists n; split; [apply Herr|done]|].
  specialize (Hf (box s g) s). destruct (run handle_clock (f (box s g)) s) as [[[r b] d'] w']. destruct Hf as (Hg & Hb & Hle).
  exists (m r). split; [apply Hok|]. cbn [snd]. rewrite ledger_boxes. unfold ledger, granted, box in *. rewrite Hg, Hb.
  destruct (decide (g = gid)) as [->|]; simpl in *; lia.
Qed.

Lemma valid_mail_ids_NoDup ids r : valid_mail_ids ids = Some r → NoDup r.
Proof. by intros (-> & _ & _ & ?)%valid_mail_ids_spec. Qed.

Section with_sort.
Context `{!UnstableSort Mail Mail_mail_id}.

Lemma claim_owes head request : owes 0 (handle_claim head request).
Proof.
  unfold handle_claim. destruct (player_gid head) as [g|]; [|done].
  destruct (valid_mail_ids _) as [ids|] eqn:Hids; [|done].
  apply (owes_update 0 g (λ d, now ← await UnixSeconds; Ret (claim_mails now ids d)) _
           (λ r, match r with Ok items => if decide (g = gid) then worth items else 0 | Err _ => 0 end)%nat).
  - done.
  - intros [[|item items]|status]; [done| |done]. cbn [prog_bind]. apply owes_load.
    intros [[online|]|]; [|done|done]. destruct (negb _); [done|].
    apply owes_call; [|done]. unfold grant. simpl. destruct (Z.eqb_spec g gid), (decide (g = gid)); lia.
  - intros d w. simpl. pose proof (claim_unclaimed (clock w) ids d (valid_mail_ids_NoDup _ _ Hids)) as Hc.
    destruct (claim_mails (clock w) ids d) as [[[items|status] b] d']; split_and!; try done; repeat case_decide; lia.
Qed.

Lemma read_owes head request : owes 0 (handle_read head request).
Proof.
  unfold handle_read. destruct (player_gid head) as [g|]; [|done]. destruct (valid_mail_ids _) as [ids|]; [|done].
  apply (owes_update 0 g (λ d, Ret (read_mails ids d)) _ (λ _, 0%nat)); [done|done|].
  intros d w. simpl. pose proof (read_unclaimed (list_to_set ids) (MailData_mails d)) as Hr. unfold read_mails.
  destruct (read_loop _ _) as [mails changed]. simpl in *. split_and!; [done..|]. destruct (decide (g = gid)); lia.
Qed.

Lemma delete_owes head request : owes 0 (handle_delete head request).
Proof.
  unfold handle_delete. destruct (player_gid head) as [g|]; [|done]. destruct (valid_mail_ids _) as [ids|]; [|done].
  apply (owes_update 0 g (λ d, Ret (delete_mails ids d)) _ (λ _, 0%nat)); [done|done|].
  intros d w. cbn [run delete_mails]. split_and!; [done..|]. cbn [MailData_mails].
  pose proof (unclaimed_filter (λ m, Mail_mail_id m ∉ (list_to_set ids : gset Z)) (MailData_mails d)). case_decide; lia.
Qed.

Lemma list_owes head : owes 0 (handle_list head).
Proof.
  unfold handle_list. destruct (player_gid head) as [g|]; [|done]. intros s. exists 0%nat. split; [done|].
  simpl. by destruct (cache_fails s g).
Qed.

Lemma notify_owes g m : owes 0 (notify_mail g m).
Proof. apply owes_load. intros [[online|]|]; [|done|done]. simpl. destruct (_ || _); [done|]. by apply owes_push. Qed.

Lemma send_owes request : owes (sent (SendMailCall request)) (handle_send_mail request).
Proof.
  unfold handle_send_mail, sent. destruct (SendMailReq_mail request) as [m|]; [|done]. cbn [from_option]. destruct (negb _); [done|].
  apply (owes_update _ (SendMailReq_gid request) (λ d, now ← await UnixSeconds; id ← await NewMailId; Ret (store_mail now id m d)) _ (λ _, 0%nat)); [done| |].
  - intros [stored|status]; [|done]. apply owes_bind; [apply notify_owes|done].
  - intros d w. simpl. pose proof (store_unclaimed (clock w) (next_id w) m d) as Hs.
    destruct (store_mail _ _ _ _) as [[r b] d']. split_and!; [done..|].
    destruct (decide (SendMailReq_gid request = gid)) as [->|]; [rewrite Z.eqb_refl|]; lia.
Qed.

Lemma dispatch_owes call : owes (sent call) (dispatch call).
Proof.
  destruct call; (apply owes_bind; [|done]);
    [apply list_owes|apply read_owes|apply delete_owes|apply claim_owes|apply send_owes].
Qed.

Lemma calls_owe calls : owes_all handle_mail ledger (sum_list_with sent calls) (map dispatch calls).
Proof.
  induction calls as [|call calls IH]; [done|]. exists (sent call), (sum_list_with sent calls).
  split_and!; [done|apply dispatch_owes|exact IH].
Qed.
End with_sort.
End worth.

(** C23: attachments are granted at most once.  However the calls of the mail
    service interleave, and whatever the cache, Redis and Logic answer, what
    the claims ask Logic to grant to a player, with what is left unclaimed in
    his box, never exceeds what was unclaimed or granted before, with the
    attachments of the mails that the calls send him.  This holds for every
    weight of items: for the entries of one kind and for the quantity of one
    item. *)
Theorem claims_grant_at_most_once `{!UnstableSort Mail Mail_mail_id} (weight : Item → nat) (gid : Z) calls schedule w :
  let w' := (interleave handle_mail schedule (map dispatch calls, w)).2 in
  (granted weight gid w' + unclaimed weight (MailData_mails (box w' gid))
   ≤ granted weight gid w + unclaimed weight (MailData_mails (box w gid)) + sum_list_with (sent weight gid) calls)%nat.
Proof. apply (interleave_ledger handle_mail (ledger weight gid) schedule (map dispatch calls, w)). apply calls_owe. Qed.

(** The other direction fails.  The mails are marked before Logic is asked to
    grant their attachments, and nothing marks them back: when the owner of the
    player is not known, or Logic refuses, the client is told to retry and the
    attachments are lost, because every later claim of these mails conflicts. *)
Lemma claim_lost_when_grant_fails head request gid ids item items d' w :
  player_gid head = Some gid → valid_mail_ids (MailClaimReq_mail_ids request) = Some ids →
  cache_fails w gid = None → online_of w gid = Ok None →
  claim_mails (clock w) ids (box w gid) = (Ok (item :: items), true, d') →
  run handle_mail (handle_claim head request) w
  = (mail_claim_status (error_status code.TEMPORARILY_UNAVAILABLE "Logic ownership unavailable"%string), on_boxes <[gid := d']> w).
Proof.
  intros Hgid Hids Hcache Honline Hclaim. unfold handle_claim. rewrite Hgid, Hids. simpl. rewrite Hcache, Hclaim. simpl.
  by rewrite Honline.
Qed.
