(* ===== verification/Mongo.v ===== *)
(** Mongo as the program sees it.  The driver, its BSON values and the helpers
    of [xmongo] are not part of the repository: they are the class [Xmongo],
    the operations the sources call with their documented behaviour, and the
    server is the class [Mongo], documents by collection and id.  Both come
    with one concrete instance to run the model. *)

From stdpp Require Import pretty.
From S2P Require Import Prelude Effects Decimal Redis.

#[local] Open Scope string_scope.
#[local] Open Scope list_scope.
#[local] Open Scope Z_scope.

(** ** Documents *)

Definition dot : Ascii.ascii := Ascii.ascii_of_nat 46.

Class Xmongo (E : Type) := {
  Bson : Type;
  Bson_eq_dec :: EqDecision Bson;
  Document : Type;
  Int32 : Z → Bson;
  Int64 : Z → Bson;
  BsonString : string → Bson;
  BsonArray : list Bson → Bson;
  BsonDocument : Document → Bson;
  doc_new : Document;
  doc_insert : string → Bson → Document → Document;
  doc_get : string → Document → option Bson;
  doc_entries : Document → list (string * Bson);
  (* the pattern [Bson::Document(_)] *)
  as_document : Bson → option Document;
  bson_document : Bson → string → Result E Document;
  bson_array : Bson → string → Result E (list Bson);
  bson_string : Bson → string → Result E string;
  bson_i32 : Bson → string → Result E Z;
  bson_i64 : Bson → string → Result E Z;
  parse_bson_i32_map_key : string → string → Result E Z;
  split_bson_path : string → string * option string;
  InvalidBsonPath : string → E;

  get_new k : doc_get k doc_new = None;
  get_insert k v d k' : doc_get k' (doc_insert k v d) = if decide (k = k') then Some v else doc_get k' d;
  entries_new : doc_entries doc_new = [];
  entries_insert k v d : k ∉ (doc_entries d).*1 → doc_entries (doc_insert k v d) = doc_entries d ++ [(k, v)];
  as_document_Document d : as_document (BsonDocument d) = Some d;
  bson_document_Document d name : bson_document (BsonDocument d) name = Ok d;
  bson_array_Array l name : bson_array (BsonArray l) name = Ok l;
  bson_string_String s name : bson_string (BsonString s) name = Ok s;
  bson_i32_Int32 z name : bson_i32 (Int32 z) name = Ok z;
  bson_i64_Int64 z name : bson_i64 (Int64 z) name = Ok z;
  parse_key_pretty k name : is_i32 k → parse_bson_i32_map_key (pretty k) name = Ok k;
  (* a path without a dot is one segment; the first dot ends the first one *)
  split_simple path : dot ∉ String.list_ascii_of_string path → split_bson_path path = (path, None);
  split_nested field rest : dot ∉ String.list_ascii_of_string field →
    split_bson_path (field +:+ String dot rest) = (field, Some rest)
}.

(** The answer of [bson_path_value]. *)
Inductive BsonPathValue (B : Type) := PathSet (value : B) | PathUnset.
#[global] Arguments PathSet {B}.
#[global] Arguments PathUnset {B}.

(** The generated trait: a model as a document and back. *)
Class BsonPathGetter (E : Type) `{!Xmongo E} (T : Type) := {
  bson_value : T → Result E Bson;
  from_bson_value : Bson → Result E T
}.

Section xmongo_laws.
Context {E : Type} `{!Xmongo E}.

Lemma get_insert_eq k v d : doc_get k (doc_insert k v d) = Some v.
Proof. by rewrite get_insert, decide_True. Qed.

Lemma get_insert_ne k v d k' : k ≠ k' → doc_get k' (doc_insert k v d) = doc_get k' d.
Proof. intros. by rewrite get_insert, decide_False. Qed.

Lemma Int64_inj z z' : Int64 z = Int64 z' → z = z'.
Proof. intros Heq. pose proof (bson_i64_Int64 z "") as Hz. rewrite Heq, bson_i64_Int64 in Hz. by simplify_eq. Qed.

Lemma BsonString_inj s s' : BsonString s = BsonString s' → s = s'.
Proof. intros Heq. pose proof (bson_string_String s "") as Hs. rewrite Heq, bson_string_String in Hs. by simplify_eq. Qed.
End xmongo_laws.

(** ** The server *)

Record Collection := mkCollection { db : string; coll : string }.
#[export] Instance Collection_eq_dec : EqDecision Collection.
Proof. solve_decision. Defined.

Section mongo.
Context {E : Type} `{!Xmongo E}.

Inductive MongoEff : Type → Type :=
| FindOne (c : Collection) (id : Bson) : MongoEff (Result E (option Document))
(* the cursor of [find { _id: { $in: ids } }], step by step *)
| FindIn (c : Collection) (ids : list Bson) : MongoEff (Result E (list (Result E Document)))
| ReplaceOne (c : Collection) (id : Bson) (replacement : Document) : MongoEff (Result E unit)
(* an unordered bulk of such replacements; their ids are distinct *)
| BulkWrite (writes : list (Collection * Bson * Document)) : MongoEff (Result E unit).

Class Mongo (S : Type) := {
  document : Collection → Bson → S → option Document;
  replace : Collection → Bson → Document → S → S;
  find_in : Collection → list Bson → S → list Document;
  document_replace_eq c id d s : document c id (replace c id d s) = Some d;
  document_replace_ne c id d c' id' s : (c, id) ≠ (c', id') → document c' id' (replace c id d s) = document c' id' s;
  find_in_documents c ids s : NoDup ids → find_in c ids s ≡ₚ omap (λ id, document c id s) ids
}.

Context {S : Type} `{!Mongo S}.

Definition write (s : S) (w : Collection * Bson * Document) : S := let '(c, id, d) := w in replace c id d s.

(** A request is executed, or refused, or executed with its answer lost. *)
Definition executed (net : Network E) {A} (reply : A) : Result E A :=
  match net with Up => Ok reply | Down error | ReplyLost error => Err error end.
Definition reaches (net : Network E) : bool := match net with Down _ => false | _ => true end.

Definition handle_mongo (net : Network E) (X : Type) (e : MongoEff X) : S → X * S :=
  match e in MongoEff X return S → X * S with
  | FindOne c id => λ s, (executed net (document c id s), s)
  | FindIn c ids => λ s, (executed net (Ok <$> find_in c ids s), s)
  | ReplaceOne c id d => λ s, (executed net tt, if reaches net then replace c id d s else s)
  | BulkWrite writes => λ s, (executed net tt, if reaches net then foldl write s writes else s)
  end.
End mongo.
#[global] Arguments MongoEff E {_} _.
#[global] Arguments Mongo E {_} _.

(** ** A concrete library and server *)

Inductive bson :=
| bson_Int32 (z : Z)
| bson_Int64 (z : Z)
| bson_String (s : string)
| bson_Array (l : list bson)
| bson_Document (d : list (string * bson)).

#[export] Instance bson_eq_dec : EqDecision bson.
Proof.
  refine (fix go (a b : bson) {struct a} : Decision (a = b) :=
    match a, b with
    | bson_Int32 z, bson_Int32 z' | bson_Int64 z, bson_Int64 z' => cast_if (decide (z = z'))
    | bson_String s, bson_String s' => cast_if (decide (s = s'))
    | bson_Array l, bson_Array l' => cast_if (List.list_eq_dec go l l')
    | bson_Document d, bson_Document d' => cast_if (List.list_eq_dec (λ e e', prod_eq_dec (EqDecision0 := String.string_dec) (EqDecision1 := go) e e') d d')
    | _, _ => right _
    end); congruence.
Defined.

Inductive bson_error := TypeMismatch (name : string) | InvalidKey (name : string) | InvalidPath (path : string).

(** An insertion-ordered map: an existing key keeps its place. *)
Fixpoint entry_insert (k : string) (v : bson) (d : list (string * bson)) : list (string * bson) :=
  match d with
  | [] => [(k, v)]
  | (k', v') :: d => if decide (k = k') then (k, v) :: d else (k', v') :: entry_insert k v d
  end.
Fixpoint entry_get (k : string) (d : list (string * bson)) : option bson :=
  match d with
  | [] => None
  | (k', v) :: d => if decide (k = k') then Some v else entry_get k d
  end.

(** The path up to its first dot, and the rest. *)
Fixpoint split_path (path : string) : string * option string :=
  match path with
  | "" => ("", None)
  | String a path =>
      if decide (a = dot) then ("", Some path)
      else let '(field, rest) := split_path path in (String a field, rest)
  end.

Lemma entry_get_insert k v d k' : entry_get k' (entry_insert k v d) = if decide (k = k') then Some v else entry_get k' d.
Proof.
  induction d as [|[k0 v0] d IH]; simpl; [repeat case_decide; congruence|].
  destruct (decide (k = k0)) as [->|Hne]; simpl; [repeat case_decide; congruence|].
  rewrite IH. repeat case_decide; congruence.
Qed.

Lemma entry_insert_fresh k v d : k ∉ d.*1 → entry_insert k v d = d ++ [(k, v)].
Proof.
  induction d as [|[k0 v0] d IH]; simpl; [done|]. intros [Hk Hd]%not_elem_of_cons.
  rewrite decide_False by done. by rewrite IH.
Qed.

Lemma split_path_simple path : dot ∉ String.list_ascii_of_string path → split_path path = (path, None).
Proof.
  induction path as [|a path IH]; simpl; [done|]. intros [Ha Hp]%not_elem_of_cons.
  rewrite decide_False by congruence. by rewrite IH.
Qed.

Lemma split_path_nested field rest : dot ∉ String.list_ascii_of_string field →
  split_path (field +:+ String dot rest) = (field, Some rest).
Proof.
  induction field as [|a field IH]; simpl; [done|]. intros [Ha Hf]%not_elem_of_cons.
  rewrite decide_False by congruence. by rewrite IH.
Qed.

#[export] Instance bson_xmongo : Xmongo bson_error.
Proof.
  refine {| Bson := bson; Bson_eq_dec := _; Document := list (string * bson); Int32 := bson_Int32; Int64 := bson_Int64; BsonString := bson_String;
            BsonArray := bson_Array; BsonDocument := bson_Document; doc_new := []; doc_insert := entry_insert; doc_get := entry_get;
            doc_entries d := d; as_document b := match b with bson_Document d => Some d | _ => None end;
            bson_document b name := match b with bson_Document d => Ok d | _ => Err (TypeMismatch name) end;
            bson_array b name := match b with bson_Array l => Ok l | _ => Err (TypeMismatch name) end;
            bson_string b name := match b with bson_String s => Ok s | _ => Err (TypeMismatch name) end;
            bson_i32 b name := match b with bson_Int32 z => Ok z | _ => Err (TypeMismatch name) end;
            bson_i64 b name := match b with bson_Int64 z => Ok z | _ => Err (TypeMismatch name) end;
            parse_bson_i32_map_key k name := match i32_from_str k with Some z => Ok z | None => Err (InvalidKey name) end;
            split_bson_path := split_path; InvalidBsonPath := InvalidPath |};
    try done.
  - apply entry_get_insert.
  - apply entry_insert_fresh.
  - intros k name Hk. by rewrite i32_from_str_pretty.
  - apply split_path_simple.
  - apply split_path_nested.
Defined.

(** The documents by collection and id. *)
Definition MongoStore : Type := list (Collection * bson * list (string * bson)).

Fixpoint stored_document (c : Collection) (id : bson) (s : MongoStore) : option (list (string * bson)) :=
  match s with
  | [] => None
  | (c', id', d) :: s => if decide ((c, id) = (c', id')) then Some d else stored_document c id s
  end.

#[export] Instance store_mongo : Mongo bson_error MongoStore.
Proof.
  refine {| document := stored_document : Collection → @Bson bson_error _ → MongoStore → option (@Document bson_error _);
            replace c id d s := ((c, id, d) :: s) : MongoStore;
            find_in c ids s := omap (λ id, stored_document c id s) (ids : list bson) |}.
  - intros c id d s. simpl. by rewrite decide_True.
  - intros c id d c' id' s Hne. simpl. rewrite decide_False; [done|]. intros [= -> ->]. done.
  - done.
Defined.
