(* ===== verification/Documents.v ===== *)
(** The documents of the program in Mongo: the generated codecs of its models
    (src/protocol/generated/xkk.xmongo.rs and model.xmongo.rs) and the stores
    on top of them (src/persist: catalog.rs, model.rs and stores.rs). *)

From stdpp Require Import pretty.
From S2P Require Import Prelude Effects Mongo Proto.

#[local] Open Scope string_scope.
#[local] Open Scope list_scope.
#[local] Open Scope Z_scope.

Section codecs.
Context {E : Type} `{!Xmongo E, !MapIter Z Z}.

(** ** The parts of the models *)

(** [if let Some(value) = doc.get(name) { out.field = decode(value)? }], where
    the field of the default value is [dflt]. *)
Definition field {A} (doc : Document) (name : string) (dflt : A) (decode : Bson → Result E A) : Result E A :=
  match doc_get name doc with
  | Some value => decode value
  | None => Ok dflt
  end.

Definition i32_field (doc : Document) (name : string) : Result E Z := field doc name 0 (λ v, bson_i32 v name).
Definition i64_field (doc : Document) (name : string) : Result E Z := field doc name 0 (λ v, bson_i64 v name).
Definition string_field (doc : Document) (name : string) : Result E string := field doc name "" (λ v, bson_string v name).
Definition array_field {A} (doc : Document) (name : string) (decode : Bson → Result E A) : Result E (list A) :=
  field doc name [] (λ v, array ← bson_array v name; mapM decode array).

Definition to_bson_role (value : Role) : Result E Bson :=
  let doc := doc_new in
  let doc := doc_insert "gid" (Int64 (Role_gid value)) doc in
  let doc := doc_insert "sid" (Int32 (Role_sid value)) doc in
  let doc := doc_insert "nm" (BsonString (Role_name value)) doc in
  let doc := doc_insert "lv" (Int32 (Role_level value)) doc in
  let doc := doc_insert "ic" (Int32 (Role_icon value)) doc in
  Ok (BsonDocument doc).

Definition from_bson_role (value : Bson) : Result E Role :=
  doc ← bson_document value "Role";
  gid ← i64_field doc "gid";
  sid ← i32_field doc "sid";
  name ← string_field doc "nm";
  level ← i32_field doc "lv";
  icon ← i32_field doc "ic";
  Ok (mkRole gid sid name level icon).

Definition to_bson_player_info (value : PlayerInfo) : Result E Bson :=
  let doc := doc_new in
  let doc := doc_insert "gid" (Int64 (PlayerInfo_gid value)) doc in
  let doc := doc_insert "nm" (BsonString (PlayerInfo_name value)) doc in
  let doc := doc_insert "lv" (Int32 (PlayerInfo_level value)) doc in
  let doc := doc_insert "ic" (Int32 (PlayerInfo_icon value)) doc in
  let doc := doc_insert "xp" (Int64 (PlayerInfo_exp value)) doc in
  Ok (BsonDocument doc).

Definition from_bson_player_info (value : Bson) : Result E PlayerInfo :=
  doc ← bson_document value "PlayerInfo";
  gid ← i64_field doc "gid";
  name ← string_field doc "nm";
  level ← i32_field doc "lv";
  icon ← i32_field doc "ic";
  exp ← i64_field doc "xp";
  Ok (mkPlayerInfo gid name level icon exp).

(** The change of an item is not stored. *)
Definition to_bson_item (value : Item) : Result E Bson :=
  let doc := doc_new in
  let doc := doc_insert "id" (Int32 (Item_item_id value)) doc in
  let doc := doc_insert "nm" (Int64 (Item_count value)) doc in
  Ok (BsonDocument doc).

Definition from_bson_item (value : Bson) : Result E Item :=
  doc ← bson_document value "Item";
  item_id ← i32_field doc "id";
  count ← i64_field doc "nm";
  Ok (mkItem item_id count 0).

Definition to_bson_mail (value : Mail) : Result E Bson :=
  let doc := doc_new in
  let doc := doc_insert "id" (Int64 (Mail_mail_id value)) doc in
  let doc := doc_insert "title" (BsonString (Mail_title value)) doc in
  let doc := doc_insert "content" (BsonString (Mail_content value)) doc in
  let doc := doc_insert "send" (Int64 (Mail_send_time value)) doc in
  let doc := if negb (Mail_end_time value =? 0) then doc_insert "end" (Int64 (Mail_end_time value)) doc else doc in
  let doc := doc_insert "state" (Int32 (Mail_state value)) doc in
  if bool_decide (Mail_attachments value = []) then Ok (BsonDocument doc)
  else
    array ← mapM to_bson_item (Mail_attachments value);
    Ok (BsonDocument (doc_insert "items" (BsonArray array) doc)).

Definition from_bson_mail (value : Bson) : Result E Mail :=
  doc ← bson_document value "Mail";
  mail_id ← i64_field doc "id";
  title ← string_field doc "title";
  content ← string_field doc "content";
  send_time ← i64_field doc "send";
  end_time ← i64_field doc "end";
  state ← i32_field doc "state";
  attachments ← array_field doc "items" from_bson_item;
  Ok (mkMail mail_id title content send_time end_time state attachments).

Definition to_bson_mail_data (value : MailData) : Result E Bson :=
  let doc := doc_new in
  if bool_decide (MailData_mails value = []) then Ok (BsonDocument doc)
  else
    array ← mapM to_bson_mail (MailData_mails value);
    Ok (BsonDocument (doc_insert "mails" (BsonArray array) doc)).

Definition from_bson_mail_data (value : Bson) : Result E MailData :=
  doc ← bson_document value "MailData";
  mails ← array_field doc "mails" from_bson_mail;
  Ok (mkMailData mails).

(** ** The stored models *)

Definition to_bson_account_data (value : AccountData) : Result E Bson :=
  let doc := doc_new in
  let doc := doc_insert "_id" (BsonString (AccountData_account value)) doc in
  let doc := doc_insert "cred" (BsonString (AccountData_credential_hash value)) doc in
  doc ← (if bool_decide (AccountData_roles value = []) then Ok doc
         else array ← mapM to_bson_role (AccountData_roles value); Ok (doc_insert "roles" (BsonArray array) doc));
  let doc := doc_insert "ct" (Int64 (AccountData_created_at value)) doc in
  Ok (BsonDocument doc).

Definition from_bson_account_data (value : Bson) : Result E AccountData :=
  doc ← bson_document value "AccountData";
  account ← string_field doc "_id";
  credential_hash ← string_field doc "cred";
  roles ← array_field doc "roles" from_bson_role;
  created_at ← i64_field doc "ct";
  Ok (mkAccountData account credential_hash roles created_at).

(** The document of the items: the keys in decimal, in the order of the
    iteration. *)
Definition items_document (items : gmap Z Z) : Document :=
  foldl (λ map_doc '(key, value), doc_insert (pretty key) (Int64 value) map_doc) doc_new (map_iter items).

Definition to_bson_player_data (value : PlayerData) : Result E Bson :=
  let doc := doc_new in
  let doc := doc_insert "_id" (Int64 (PlayerData_gid value)) doc in
  doc ← match PlayerData_profile value with
        | Some value => bson ← to_bson_player_info value; Ok (doc_insert "profile" bson doc)
        | None => Ok doc
        end;
  Ok (BsonDocument
        (if bool_decide (PlayerData_items value = ∅) then doc
         else doc_insert "items" (BsonDocument (items_document (PlayerData_items value))) doc)).

(** The loop over the entries of the document of the items. *)
Fixpoint items_of_entries (entries : list (string * Bson)) (items : gmap Z Z) : Result E (gmap Z Z) :=
  match entries with
  | [] => Ok items
  | (key, value) :: entries =>
      key ← parse_bson_i32_map_key key "items";
      value ← bson_i64 value "items";
      items_of_entries entries (<[key := value]> items)
  end.

Definition from_bson_player_data (value : Bson) : Result E PlayerData :=
  doc ← bson_document value "PlayerData";
  gid ← i64_field doc "_id";
  profile ← field doc "profile" None (λ v, info ← from_bson_player_info v; Ok (Some info));
  items ← field doc "items" ∅ (λ v, map_doc ← bson_document v "items"; items_of_entries (doc_entries map_doc) ∅);
  Ok (mkPlayerData gid profile items).

Definition to_bson_public_player_data (value : PublicPlayerData) : Result E Bson :=
  let doc := doc_new in
  let doc := doc_insert "_id" (Int64 (PublicPlayerData_gid value)) doc in
  match PublicPlayerData_mail value with
  | Some value => bson ← to_bson_mail_data value; Ok (BsonDocument (doc_insert "mail" bson doc))
  | None => Ok (BsonDocument doc)
  end.

Definition from_bson_public_player_data (value : Bson) : Result E PublicPlayerData :=
  doc ← bson_document value "PublicPlayerData";
  gid ← i64_field doc "_id";
  mail ← field doc "mail" None (λ v, data ← from_bson_mail_data v; Ok (Some data));
  Ok (mkPublicPlayerData gid mail).

#[export] Instance AccountData_bson : BsonPathGetter E AccountData :=
  {| bson_value := to_bson_account_data; from_bson_value := from_bson_account_data |}.
#[export] Instance PlayerData_bson : BsonPathGetter E PlayerData :=
  {| bson_value := to_bson_player_data; from_bson_value := from_bson_player_data |}.
#[export] Instance PublicPlayerData_bson : BsonPathGetter E PublicPlayerData :=
  {| bson_value := to_bson_public_player_data; from_bson_value := from_bson_public_player_data |}.

(** ** One path of a stored model *)

Definition account_path_value (self : AccountData) (path : string) : Result E (BsonPathValue Bson) :=
  match split_bson_path path with
  | ("_id", None) => Ok (PathSet (BsonString (AccountData_account self)))
  | ("cred", None) => Ok (PathSet (BsonString (AccountData_credential_hash self)))
  | ("roles", None) => array ← mapM to_bson_role (AccountData_roles self); Ok (PathSet (BsonArray array))
  | ("ct", None) => Ok (PathSet (Int64 (AccountData_created_at self)))
  | _ => Err (InvalidBsonPath path)
  end.

Definition player_path_value (self : PlayerData) (path : string) : Result E (BsonPathValue Bson) :=
  match split_bson_path path with
  | ("_id", None) => Ok (PathSet (Int64 (PlayerData_gid self)))
  | ("profile", None) =>
      match PlayerData_profile self with
      | None => Ok PathUnset
      | Some value => bson ← to_bson_player_info value; Ok (PathSet bson)
      end
  | ("items", None) => Ok (PathSet (BsonDocument (items_document (PlayerData_items self))))
  | ("items", Some key) =>
      if bool_decide (dot ∈ String.list_ascii_of_string key) then Err (InvalidBsonPath path)
      else
        key ← parse_bson_i32_map_key key path;
        match PlayerData_items self !! key with
        | Some value => Ok (PathSet (Int64 value))
        | None => Ok PathUnset
        end
  | _ => Err (InvalidBsonPath path)
  end.

Definition public_player_path_value (self : PublicPlayerData) (path : string) : Result E (BsonPathValue Bson) :=
  match split_bson_path path with
  | ("_id", None) => Ok (PathSet (Int64 (PublicPlayerData_gid self)))
  | ("mail", None) =>
      match PublicPlayerData_mail self with
      | None => Ok PathUnset
      | Some value => bson ← to_bson_mail_data value; Ok (PathSet bson)
      end
  | _ => Err (InvalidBsonPath path)
  end.

(** ** Models in a collection *)

Section models.
Context {T : Type} `{!BsonPathGetter E T}.

Definition load_model (collection : Collection) (id : Bson) : prog (MongoEff E) (Result E (option T)) :=
  reply ← await (FindOne collection id);
  Ret (document ← reply;
       match document with
       | None => Ok None
       | Some document => value ← from_bson_value (BsonDocument document); Ok (Some value)
       end).

(** The id and the document of a replacement; [None] is the panic of a model
    that does not encode to a document. *)
Definition replacement (model : T) : option (Result E (Bson * Document)) :=
  match bson_value model with
  | Err error => Some (Err error)
  | Ok bson =>
      document ← as_document bson;
      Some match doc_get "_id" document with
           | None => Err (InvalidBsonPath "_id")
           | Some id => Ok (id, document)
           end
  end.

Definition save_model (collection : Collection) (model : T) : prog (MongoEff E) (option (Result E unit)) :=
  match replacement model with
  | None => Ret None
  | Some (Err error) => Ret (Some (Err error))
  | Some (Ok (id, document)) => reply ← await (ReplaceOne collection id document); Ret (Some reply)
  end.

(** The writes of a batch: the first model that fails ends the collection. *)
Fixpoint replacements (collection : Collection) (models : list T) : option (Result E (list (Collection * Bson * Document))) :=
  match models with
  | [] => Some (Ok [])
  | model :: models =>
      r ← replacement model;
      match r with
      | Err error => Some (Err error)
      | Ok (id, document) => rest ← replacements collection models; Some (rest ← rest; Ok ((collection, id, document) :: rest))
      end
  end.

Definition save_models (collection : Collection) (models : list T) : prog (MongoEff E) (option (Result E Z)) :=
  match replacements collection models with
  | None => Ret None
  | Some (Err error) => Ret (Some (Err error))
  | Some (Ok []) => Ret (Some (Ok 0))
  | Some (Ok writes) => reply ← await (BulkWrite writes); Ret (Some (_ ← reply; Ok (len writes)))
  end.
End models.

(** ** The catalog and the stores *)

Definition ACCOUNTS : string := "accounts".
Definition PLAYERS : string := "players".
Definition PUBLIC_PLAYERS : string := "public_players".

Inductive PersistError := MissingMongoDatabase | MongoError (error : E).

Record Database := mkDatabase { accounts : Collection; players : Collection; public_players : Collection }.

(** [Database::new], from the default database of the DSN. *)
Definition open_database (default_database : option string) : Result PersistError Database :=
  match default_database with
  | None => Err MissingMongoDatabase
  | Some database => Ok (mkDatabase (mkCollection database ACCOUNTS) (mkCollection database PLAYERS) (mkCollection database PUBLIC_PLAYERS))
  end.

Definition persist_error {A} (r : Result E A) : Result PersistError A :=
  match r with Ok a => Ok a | Err error => Err (MongoError error) end.

Definition persist_result {A} (r : option (Result E A)) : option (Result PersistError A) := r ← r; Some (persist_error r).

Definition load_account (d : Database) (account : string) : prog (MongoEff E) (Result PersistError (option AccountData)) :=
  r ← load_model (accounts d) (BsonString account); Ret (persist_error r).
Definition save_account (d : Database) (account : AccountData) : prog (MongoEff E) (option (Result PersistError unit)) :=
  r ← save_model (accounts d) account; Ret (persist_result r).

Definition load_player (d : Database) (gid : Z) : prog (MongoEff E) (Result PersistError (option PlayerData)) :=
  r ← load_model (players d) (Int64 gid); Ret (persist_error r).
Definition save_player (d : Database) (player : PlayerData) : prog (MongoEff E) (option (Result PersistError unit)) :=
  r ← save_model (players d) player; Ret (persist_result r).

Definition load_public_player (d : Database) (gid : Z) : prog (MongoEff E) (Result PersistError (option PublicPlayerData)) :=
  r ← load_model (public_players d) (Int64 gid); Ret (persist_error r).
Definition save_public_player (d : Database) (player : PublicPlayerData) : prog (MongoEff E) (option (Result PersistError unit)) :=
  r ← save_model (public_players d) player; Ret (persist_result r).
Definition save_public_players (d : Database) (batch : list PublicPlayerData) : prog (MongoEff E) (option (Result PersistError Z)) :=
  r ← save_models (public_players d) batch; Ret (persist_result r).

(** The loop over the cursor of [load_profiles]. *)
Fixpoint collect_profiles (cursor : list (Result E Document)) (loaded : gmap Z PlayerInfo) : Result E (gmap Z PlayerInfo) :=
  match cursor with
  | [] => Ok loaded
  | step :: cursor =>
      document ← step;
      player ← from_bson_player_data (BsonDocument document);
      collect_profiles cursor
        match PlayerData_profile player with
        | Some profile => <[PlayerData_gid player := profile]> loaded
        | None => loaded
        end
  end.

(** [gids.iter().filter_map(|gid| loaded.remove(gid))]. *)
Fixpoint take_profiles (gids : list Z) (loaded : gmap Z PlayerInfo) : list PlayerInfo :=
  match gids with
  | [] => []
  | gid :: gids =>
      match loaded !! gid with
      | Some profile => profile :: take_profiles gids (delete gid loaded)
      | None => take_profiles gids loaded
      end
  end.

Definition load_profiles (d : Database) (gids : list Z) : prog (MongoEff E) (Result PersistError (list PlayerInfo)) :=
  if bool_decide (gids = []) then Ret (Ok [])
  else
    reply ← await (FindIn (players d) (Int64 <$> gids));
    Ret (persist_error (cursor ← reply; loaded ← collect_profiles cursor ∅; Ok (take_profiles gids loaded))).
End codecs.
#[global] Arguments PersistError E : clear implicits.
