(* ===== verification/DocumentsSpec.v ===== *)
(** The documents are faithful: every model survives its codec, what a store
    saved it loads back, and the path accessors agree with the document. *)

From stdpp Require Import pretty.
From S2P Require Import Prelude Effects Redis Mongo Proto Documents.

#[local] Open Scope string_scope.
#[local] Open Scope list_scope.
#[local] Open Scope Z_scope.

(** Reads of a document that was built by insertions, and of its values. *)
Ltac bson :=
  unfold i32_field, i64_field, string_field, array_field, field in *;
  repeat first
    [ rewrite get_insert_eq | rewrite get_insert_ne by done | rewrite get_new
    | rewrite bson_document_Document | rewrite bson_array_Array | rewrite bson_string_String
    | rewrite bson_i32_Int32 | rewrite bson_i64_Int64 | progress simpl ].

Section codecs.
Context {E : Type} `{!Xmongo E, !MapIter Z Z}.

Lemma mapM_round_trip {A} (to : A → Result E Bson) (from : Bson → Result E A) (norm : A → A) l :
  (∀ a, to a ≫= from = Ok (norm a)) → ∃ bs, mapM to l = Ok bs ∧ mapM from bs = Ok (norm <$> l).
Proof.
  intros Hrt. induction l as [|a l (bs & Hto & Hfrom)]; [by exists []|].
  pose proof (Hrt a) as Ha. destruct (to a) as [b|] eqn:Hb; [|done]. simpl in Ha.
  exists (b :: bs). simpl. rewrite Hb. simpl. rewrite Hto. simpl. rewrite Ha. simpl. by rewrite Hfrom.
Qed.

(** What of a mail is stored: the attachments without their [change]. *)
Definition stored_item (i : Item) : Item := mkItem (Item_item_id i) (Item_count i) 0.
Definition stored_mail (m : Mail) : Mail :=
  mkMail (Mail_mail_id m) (Mail_title m) (Mail_content m) (Mail_send_time m) (Mail_end_time m) (Mail_state m)
    (stored_item <$> Mail_attachments m).
Definition stored_mail_data (d : MailData) : MailData := mkMailData (stored_mail <$> MailData_mails d).
Definition stored_public_player (p : PublicPlayerData) : PublicPlayerData :=
  mkPublicPlayerData (PublicPlayerData_gid p) (stored_mail_data <$> PublicPlayerData_mail p).

Lemma role_round_trip r : to_bson_role r ≫= from_bson_role = Ok r.
Proof. unfold to_bson_role, from_bson_role. bson. by destruct r. Qed.

Lemma player_info_round_trip i : to_bson_player_info i ≫= from_bson_player_info = Ok i.
Proof. unfold to_bson_player_info, from_bson_player_info. bson. by destruct i. Qed.

Lemma item_round_trip i : to_bson_item i ≫= from_bson_item = Ok (stored_item i).
Proof. unfold to_bson_item, from_bson_item. by bson. Qed.

Lemma mail_round_trip m : to_bson_mail m ≫= from_bson_mail = Ok (stored_mail m).
Proof.
  destruct (mapM_round_trip _ _ _ (Mail_attachments m) item_round_trip) as (bs & Hto & Hfrom).
  unfold to_bson_mail, from_bson_mail, stored_mail.
  destruct (Z.eqb_spec (Mail_end_time m) 0) as [Hend|Hend]; case_bool_decide as Hatt; rewrite ?Hto; cbn [negb]; bson;
    rewrite ?Hfrom, ?Hatt, ?Hend; done.
Qed.

Lemma mail_data_round_trip d : to_bson_mail_data d ≫= from_bson_mail_data = Ok (stored_mail_data d).
Proof.
  destruct (mapM_round_trip _ _ _ (MailData_mails d) mail_round_trip) as (bs & Hto & Hfrom).
  unfold to_bson_mail_data, from_bson_mail_data, stored_mail_data.
  case_bool_decide as Hm; rewrite ?Hto; bson; rewrite ?Hfrom, ?Hm; done.
Qed.

(** ** The items of a player *)

Lemma items_entries (l : list (Z * Z)) d : NoDup l.*1 → (∀ k, k ∈ l.*1 → pretty k ∉ (doc_entries d).*1) →
  doc_entries (foldl (λ map_doc '(key, value), doc_insert (pretty key) (Int64 value) map_doc) d l)
  = doc_entries d ++ ((λ '(key, value), (pretty key, Int64 value)) <$> l).
Proof.
  revert d. induction l as [|[k v] l IH]; intros d Hnd Hfresh; simpl; [by rewrite app_nil_r|].
  apply NoDup_cons in Hnd as [Hk Hnd]. rewrite IH, entries_insert; [by rewrite <- app_assoc| |done|].
  - apply Hfresh. by left.
  - intros k' Hk'. rewrite entries_insert by (apply Hfresh; by left). rewrite fmap_app. simpl.
    rewrite elem_of_app, list_elem_of_singleton. intros [Hin|Heq].
    + apply (Hfresh k'); [by right|done].
    + apply (inj pretty) in Heq. by subst.
Qed.

Lemma items_of_entries_all (l : list (Z * Z)) acc : Forall (λ e, is_i32 e.1) l →
  items_of_entries ((λ '(key, value), (pretty key, Int64 value)) <$> l) acc = Ok (foldl (λ m '(k, v), <[k := v]> m) acc l).
Proof.
  intros Hl. revert acc. induction Hl as [|[k v] l Hk _ IH]; intros acc; [done|].
  simpl. rewrite parse_key_pretty by done. simpl. rewrite bson_i64_Int64. simpl. apply IH.
Qed.

Lemma foldl_insert_map (l : list (Z * Z)) (acc : gmap Z Z) : NoDup l.*1 →
  foldl (λ m '(k, v), <[k := v]> m) acc l = list_to_map l ∪ acc.
Proof.
  revert acc. induction l as [|[k v] l IH]; intros acc Hnd; simpl; [by rewrite (left_id_L ∅ _)|].
  apply NoDup_cons in Hnd as [Hk Hnd]. rewrite IH by done.
  rewrite <- insert_union_l, <- insert_union_r; [done|]. by apply not_elem_of_list_to_map_1.
Qed.

Lemma items_round_trip (items : gmap Z Z) : map_Forall (λ k _, is_i32 k) items →
  items_of_entries (doc_entries (items_document items)) ∅ = Ok items.
Proof.
  intros Hi. unfold items_document. pose proof (map_iter_perm items) as Hp.
  assert (NoDup (map_iter items).*1) as Hnd by (rewrite Hp; apply NoDup_fst_map_to_list).
  rewrite items_entries; [|done|by rewrite entries_new; intros ? _ ?%not_elem_of_nil].
  rewrite entries_new. simpl. rewrite items_of_entries_all.
  - rewrite foldl_insert_map, (right_id_L ∅ _) by done. f_equal. rewrite Hp in Hnd.
    rewrite <- (list_to_map_to_list items) at 2. apply list_to_map_proper; [by rewrite Hp|done].
  - rewrite Hp. apply Forall_forall. intros [k v] Hkv%elem_of_map_to_list. exact (Hi k v Hkv).
Qed.
End codecs.

(** ** The contract of a stored model

    Its document has its id, and decodes to what of the model is stored. *)
Class StoredModel (E : Type) `{!Xmongo E} (T : Type) `{!BsonPathGetter E T} := {
  model_id : T → Bson;
  valid_model : T → Prop;
  stored : T → T;
  model_document x : valid_model x → ∃ d,
    bson_value x = Ok (BsonDocument d) ∧ doc_get "_id" d = Some (model_id x) ∧ from_bson_value (BsonDocument d) = Ok (stored x)
}.

Section stored_models.
Context {E : Type} `{!Xmongo E, !MapIter Z Z}.

#[export] Instance AccountData_stored : StoredModel E AccountData.
Proof.
  refine {| model_id a := BsonString (AccountData_account a); valid_model _ := True; stored a := a |}.
  intros a _. destruct (mapM_round_trip _ _ id (AccountData_roles a) role_round_trip) as (bs & Hto & Hfrom).
  rewrite list_fmap_id in Hfrom. cbn [bson_value from_bson_value AccountData_bson].
  unfold to_bson_account_data, from_bson_account_data.
  case_bool_decide as Hr; rewrite ?Hto; eexists; split_and!; [bson; reflexivity|by bson| |bson; reflexivity|by bson|];
    bson; rewrite ?Hfrom, <- ?Hr; by destruct a.
Defined.

#[export] Instance PlayerData_stored : StoredModel E PlayerData.
Proof.
  refine {| model_id p := Int64 (PlayerData_gid p); valid_model p := map_Forall (λ k _, is_i32 k) (PlayerData_items p); stored p := p |}.
  intros [gid profile items] Hi. cbn [bson_value from_bson_value PlayerData_bson PlayerData_gid PlayerData_items] in *.
  unfold to_bson_player_data, from_bson_player_data. cbn [PlayerData_gid PlayerData_profile PlayerData_items].
  destruct profile as [info|]; [pose proof (player_info_round_trip info) as Hinfo; destruct (to_bson_player_info info) as [b|] eqn:Hb; [|done]; simpl in Hinfo|];
    simpl; eexists; (split; [reflexivity|]); case_bool_decide as He; (split; [by bson|]); bson; rewrite ?Hinfo; bson;
    rewrite ?items_round_trip, ?He by done; done.
Defined.

#[export] Instance PublicPlayerData_stored : StoredModel E PublicPlayerData.
Proof.
  refine {| model_id p := Int64 (PublicPlayerData_gid p); valid_model _ := True; stored := stored_public_player |}.
  intros [gid mail] _. cbn [bson_value from_bson_value PublicPlayerData_bson PublicPlayerData_gid].
  unfold to_bson_public_player_data, from_bson_public_player_data. cbn [PublicPlayerData_gid PublicPlayerData_mail].
  destruct mail as [d|]; [pose proof (mail_data_round_trip d) as Hd; destruct (to_bson_mail_data d) as [b|] eqn:Hb; [|done]; simpl in Hd|];
    simpl; eexists; (split; [reflexivity|]); (split; [by bson|]); bson; rewrite ?Hd; done.
Defined.
End stored_models.

(** ** What was saved is loaded back *)

Section stores.
Context {E : Type} `{!Xmongo E, !MapIter Z Z} {S : Type} `{!Mongo E S}.

#[local] Abbreviation exec := (run (handle_mongo Up)).

(** [load] finds under [k] what [save] stored, everything else as before. *)
Definition saved_and_loaded {K T : Type} (save : prog (MongoEff E) (option (Result (PersistError E) unit)))
    (load : K → prog (MongoEff E) (Result (PersistError E) (option T))) (k : K) (x : T) (s : S) : Prop :=
  ∃ s', exec save s = (Some (Ok tt), s') ∧ exec (load k) s' = (Ok (Some x), s')
        ∧ ∀ k', k' ≠ k → (exec (load k') s').1 = (exec (load k') s).1.

Lemma save_model_run {T} `{!BsonPathGetter E T, !StoredModel E T} c (x : T) s : valid_model x →
  ∃ d, from_bson_value (BsonDocument d) = Ok (stored x) ∧ exec (save_model c x) s = (Some (Ok tt), replace c (model_id x) d s).
Proof.
  intros Hx. destruct (model_document x Hx) as (d & Hd & Hid & Hfrom). exists d. split; [done|].
  unfold save_model, replacement. rewrite Hd. simpl. rewrite as_document_Document. simpl. by rewrite Hid.
Qed.

Lemma load_model_run {T} `{!BsonPathGetter E T} c id d (x : T) s : document c id s = Some d →
  from_bson_value (BsonDocument d) = Ok x → exec (load_model c id) s = (Ok (Some x), s).
Proof. intros Hd Hx. unfold load_model. simpl. rewrite Hd. simpl. by rewrite Hx. Qed.

Lemma load_model_other {T} `{!BsonPathGetter E T} c id c' id' d s : (c, id) ≠ (c', id') →
  (exec (load_model (T := T) c' id') (replace c id d s)).1 = (exec (load_model (T := T) c' id') s).1.
Proof. intros Hne. unfold load_model. simpl. by rewrite document_replace_ne. Qed.

Lemma store_round_trip {K T} `{!BsonPathGetter E T, !StoredModel E T} c (key : K → Bson) (x : T) k s :
  valid_model x → model_id x = key k → (∀ k k', key k = key k' → k = k') →
  saved_and_loaded (r ← save_model c x; Ret (persist_result r)) (λ k, r ← load_model c (key k); Ret (persist_error r)) k (stored x) s.
Proof.
  intros Hx Hid Hinj. destruct (save_model_run c x s Hx) as (d & Hfrom & Hsave).
  exists (replace c (model_id x) d s). split_and!.
  - rewrite run_bind, Hsave. done.
  - rewrite run_bind, (load_model_run c (key k) d (stored x)); [done| |done]. rewrite Hid. apply document_replace_eq.
  - intros k' Hne. rewrite !run_bind. pose proof (load_model_other (T := T) c (model_id x) c (key k') d s) as Ho.
    rewrite Hid in *. destruct (exec (load_model c (key k')) _) as [r1 s1], (exec (load_model c (key k')) _) as [r2 s2].
    simpl in *. rewrite Ho; [done|]. intros [= Heq]. apply Hne. symmetry. by apply Hinj.
Qed.

(** A batch that Mongo executed stores every model of it, whatever their
    order, when their ids differ. *)
Lemma replacements_models {T} `{!BsonPathGetter E T, !StoredModel E T} c (xs : list T) : Forall valid_model xs →
  ∃ ws, replacements c xs = Some (Ok ws) ∧ length ws = length xs
    ∧ Forall2 (λ w x, ∃ d, w = (c, model_id x, d) ∧ from_bson_value (BsonDocument d) = Ok (stored x)) ws xs.
Proof.
  induction 1 as [|x xs Hx _ (ws & Hws & Hlen & H2)]; [exists []; split_and!; [done|done|constructor]|].
  destruct (model_document x Hx) as (d & Hd & Hid & Hfrom). exists ((c, model_id x, d) :: ws). split_and!.
  - simpl. unfold replacement. rewrite Hd. simpl. rewrite as_document_Document. simpl. rewrite Hid. by rewrite Hws.
  - simpl. by rewrite Hlen.
  - constructor; [by exists d|done].
Qed.

Lemma bulk_documents {T} `{!BsonPathGetter E T, !StoredModel E T} c (ws : list (Collection * Bson * Document)) (xs : list T) s :
  Forall2 (λ w x, ∃ d, w = (c, model_id x, d) ∧ from_bson_value (BsonDocument d) = Ok (stored x)) ws xs →
  NoDup (model_id <$> xs) →
  (∀ id, id ∉ model_id <$> xs → document c id (foldl write s ws) = document c id s)
  ∧ ∀ x, x ∈ xs → ∃ d, document c (model_id x) (foldl write s ws) = Some d ∧ from_bson_value (BsonDocument d) = Ok (stored x).
Proof.
  intros H2. revert s. induction H2 as [|w x ws xs (d & -> & Hfrom) _ IH]; intros s Hnd.
  { split; [done|]. by intros x ?%not_elem_of_nil. }
  rewrite fmap_cons in *. apply NoDup_cons in Hnd as [Hx Hnd]. destruct (IH (write s (c, model_id x, d)) Hnd) as [Hother Hin].
  simpl in *. split.
  - intros id Hid. rewrite elem_of_cons in Hid. rewrite Hother by tauto. apply document_replace_ne. intros [= Heq]. apply Hid. by left.
  - intros y [->|Hy]%elem_of_cons; [|by apply Hin]. exists d. split; [|done].
    rewrite Hother by done. apply document_replace_eq.
Qed.

Lemma save_models_run {T} `{!BsonPathGetter E T, !StoredModel E T} c (xs : list T) s :
  Forall valid_model xs → NoDup (model_id <$> xs) →
  ∃ s', exec (save_models c xs) s = (Some (Ok (len xs)), s')
    ∧ ∀ x, x ∈ xs → exec (load_model c (model_id x)) s' = (Ok (Some (stored x)), s').
Proof.
  intros Hx Hnd. destruct (replacements_models c xs Hx) as (ws & Hws & Hlen & H2).
  destruct (bulk_documents c ws xs s H2 Hnd) as [_ Hin]. unfold save_models. rewrite Hws.
  exists (foldl write s ws). split; [destruct ws as [|w ws]; simpl; unfold len; by rewrite <- Hlen|].
  intros x Hxs. destruct (Hin x Hxs) as (d & Hd & Hfrom). by apply (load_model_run c _ d).
Qed.

(** C25: what a store saved it loads back.  After a save that Mongo executed,
    the account or player is found again under its own id with every field
    that is persisted (a mail's attachments come back without their transient
    [change]), and what is found under any other id is as before.  A batch of
    public players with different ids is stored whole. *)
Theorem stores_round_trip d (a : AccountData) (p : PlayerData) (q : PublicPlayerData) (qs : list PublicPlayerData) s :
  map_Forall (λ item _, is_i32 item) (PlayerData_items p) → NoDup (PublicPlayerData_gid <$> qs) →
  saved_and_loaded (save_account d a) (load_account d) (AccountData_account a) a s
  ∧ saved_and_loaded (save_player d p) (load_player d) (PlayerData_gid p) p s
  ∧ saved_and_loaded (save_public_player d q) (load_public_player d) (PublicPlayerData_gid q) (stored_public_player q) s
  ∧ ∃ s', exec (save_public_players d qs) s = (Some (Ok (len qs)), s')
      ∧ ∀ x, x ∈ qs → exec (load_public_player d (PublicPlayerData_gid x)) s' = (Ok (Some (stored_public_player x)), s').
Proof.
  intros Hp Hqs. split_and!.
  - exact (store_round_trip (accounts d) BsonString a _ s I eq_refl BsonString_inj).
  - exact (store_round_trip (players d) Int64 p _ s Hp eq_refl Int64_inj).
  - exact (store_round_trip (public_players d) Int64 q _ s I eq_refl Int64_inj).
  - destruct (save_models_run (public_players d) qs s) as (s' & Hsave & Hload); [by apply Forall_true| |].
    { change (NoDup (Int64 ∘ PublicPlayerData_gid <$> qs)). rewrite (list_fmap_compose PublicPlayerData_gid Int64).
      apply NoDup_fmap_2; [exact Int64_inj|done]. }
    exists s'. split; [unfold save_public_players; by rewrite run_bind, Hsave|].
    intros x Hx. unfold load_public_player. rewrite run_bind. change (Int64 (PublicPlayerData_gid x)) with (model_id x).
    by rewrite (Hload x Hx).
Qed.
End stores.

Module documents_example.
Definition account : AccountData := mkAccountData "ann" "hash" [mkRole 7 0 "Player7" 1 0] 100.
Definition player : PlayerData := mkPlayerData 7 (Some (mkPlayerInfo 7 "Player7" 1 0 5)) {[ 3 := 10; -2 := 4 ]}.
Definition public (gid : Z) : PublicPlayerData :=
  mkPublicPlayerData gid (Some (mkMailData [mkMail 1 "hello" "" 5 0 0 [mkItem 3 2 9]])).
Definition catalog : Database := mkDatabase (mkCollection "xkk" "accounts") (mkCollection "xkk" "players") (mkCollection "xkk" "public_players").
End documents_example.

Lemma stores_round_trip_witness :
  let d := documents_example.catalog in
  (run (handle_mongo Up) (save_player d documents_example.player) ([] : MongoStore)).1 = Some (Ok tt)
  ∧ saved_and_loaded (save_account d documents_example.account) (load_account d) "ann" documents_example.account ([] : MongoStore).
Proof.
  split; [vm_compute; reflexivity|].
  refine (proj1 (stores_round_trip (S := MongoStore) documents_example.catalog documents_example.account documents_example.player
                   (documents_example.public 7) [documents_example.public 7; documents_example.public 8] [] _ _)).
  - apply map_Forall_insert_2; [unfold is_i32; lia|]. apply map_Forall_singleton. unfold is_i32. lia.
  - exact (bool_decide_unpack (NoDup [7; 8]) I).
Defined.

Ltac no_dot := match goal with |- ?P => exact (bool_decide_unpack P I) end.

(** ** Paths

    A field of the document is what its path answers.  (A field the document
    leaves out answers [PathUnset] or its empty value.) *)
Section paths.
Context {E : Type} `{!Xmongo E, !MapIter Z Z}.

Lemma player_path_agrees (p : PlayerData) d name v :
  to_bson_player_data p = Ok (BsonDocument d) → name ∈ ["_id"; "profile"; "items"] → doc_get name d = Some v →
  player_path_value p name = Ok (PathSet v).
Proof.
  intros Hd Hname Hv. unfold player_path_value.
  assert (split_bson_path name = (name, None)) as ->.
  { apply split_simple. rewrite !elem_of_cons in Hname. destruct Hname as [->|[->|[->|?%not_elem_of_nil]]]; [..|done];
      no_dot. }
  assert (∀ a b, BsonDocument a = BsonDocument b → a = b) as Hinj.
  { intros a b Hab. pose proof (as_document_Document a) as Ha. rewrite Hab, as_document_Document in Ha. by simplify_eq. }
  unfold to_bson_player_data in Hd.
  rewrite !elem_of_cons in Hname. destruct Hname as [->|[->|[->|?%not_elem_of_nil]]]; [..|done];
    destruct (PlayerData_profile p) as [info|]; cbn in Hd; try case_bool_decide; simplify_eq;
    apply Hinj in Hd; subst d;
    repeat first [rewrite get_insert_eq in Hv | rewrite get_insert_ne in Hv by done | rewrite get_new in Hv]; by simplify_eq.
Qed.

(** An item is addressed by its id in decimal. *)
Lemma player_item_path (p : PlayerData) item : is_i32 item → dot ∉ String.list_ascii_of_string (pretty item) →
  player_path_value p ("items." +:+ pretty item)
  = Ok (match PlayerData_items p !! item with Some v => PathSet (Int64 v) | None => PathUnset end).
Proof.
  intros Hi Hdot. unfold player_path_value. change ("items." +:+ pretty item) with ("items" +:+ String dot (pretty item)).
  rewrite split_nested by no_dot. rewrite bool_decide_eq_false_2 by done.
  rewrite parse_key_pretty by done. simpl. by destruct (PlayerData_items p !! item).
Qed.
End paths.
