(* ===== verification/AuthApi.v ===== *)
(** The Auth service (src/service/auth/src/api.rs): the account login that
    issues a token, and the role admission that queues the player and sends
    him to a Gate.  Each handler is a program over the operations it awaits;
    a handler that panics answers [None]. *)

From stdpp Require Import pretty.
From S2P Require Import Prelude Effects Routing Proto Decimal Redis OnlineCache Mongo Documents.

#[local] Open Scope string_scope.
#[local] Open Scope list_scope.
#[local] Open Scope Z_scope.

Definition LOGIN_PATH : string := "/v1/auth/login".
Definition USE_ROLE_PATH : string := "/v1/auth/use-role".
Definition LOGIN_GLOBAL_LIMIT : Z := 1000.
Definition LOGIN_PER_IP_LIMIT : Z := 20.
Definition LOGIN_RATE_WINDOW : Z := secs 5.
Definition ROLE_ADMISSION_LIMIT : Z := 200.
Definition ROLE_ADMISSION_WINDOW : Z := secs 1.
Definition HTTP_INFLIGHT_CAPACITY : Z := 1024.
Definition GATE_PLAYER_CAPACITY : Z := 10000.
Definition LOGIN_QUEUE_CAPACITY : Z := 100000.
Definition LOGIN_QUEUE_RETRY_SECONDS : Z := 3.
Definition LOGIN_QUEUE_ENTRY_TTL : Z := secs 30.
Definition ACCOUNT_LOCK_TTL : Z := secs 5.

(** ** What the service is given *)

(** [sha2::Sha256::digest] of the bytes of a string. *)
Class Sha256 := { digest : string → list Z }.

(** [{:x}] of a digest: two digits for every byte. *)
Definition hex_digit (z : Z) : Ascii.ascii :=
  Ascii.ascii_of_nat (Z.to_nat (if z <? 10 then 48 + z else 87 + z)).
Fixpoint lower_hex (bytes : list Z) : string :=
  match bytes with
  | [] => ""
  | b :: bytes => String (hex_digit (b / 16)) (String (hex_digit (b mod 16)) (lower_hex bytes))
  end.

Definition credential_hash `{!Sha256} (account credential : string) : string :=
  lower_hex (digest (account +:+ String (Ascii.ascii_of_nat 0) credential)).

(** [xtoken::TokenCoder::simple_token_encode]: until it expires, a token
    decodes on its own device to the player it was issued to. *)
Class TokenIssuer `{!TokenCoder} := {
  simple_token_encode : Z → string → Result string string;
  decode_issued gid device token : simple_token_encode gid device = Ok token → simple_token_decode token device = Some gid
}.

(** What the service discovery knows of a Gate. *)
Record ServiceInstance := mkServiceInstance {
  instance_id : Z;
  enable : bool;
  healthy : bool;
  online_count : Z;
  host : string;
  meta_data : gmap string string
}.

(** A rate limiter of Redis: its name, limit and window. *)
Record Limiter := mkLimiter { limiter_key : string; limit : Z; window : Z }.
Definition login_global : Limiter := mkLimiter "xkk:auth:login:global" LOGIN_GLOBAL_LIMIT LOGIN_RATE_WINDOW.
Definition login_per_ip : Limiter := mkLimiter "xkk:auth:login:ip" LOGIN_PER_IP_LIMIT LOGIN_RATE_WINDOW.
Definition role_admission : Limiter := mkLimiter "xkk:auth:role:admission" ROLE_ADMISSION_LIMIT ROLE_ADMISSION_WINDOW.

Section auth.
Context {E : Type} `{!Xmongo E, !MapIter Z Z} `{!Sha256} `{!TokenCoder} `{!TokenIssuer}.

Inductive AuthEff : Type → Type :=
(* the semaphore of the requests in flight *)
| TryAcquire : AuthEff bool
| DropPermit : AuthEff unit
| Allow (l : Limiter) (key : string) : AuthEff (Result string bool)
| OnRedis {X : Type} (e : RedisEff string X) : AuthEff X
| OnMongo {X : Type} (e : MongoEff E X) : AuthEff X
(* [try_lock], whether the lock was free, and [release] *)
| TryLock (key : string) (ttl : Z) : AuthEff (Result string bool)
| ReleaseLock (key : string) : AuthEff (Result string unit)
| GenId : AuthEff Z
| UnixSeconds : AuthEff Z
| UnixMillis : AuthEff Z
| ServiceInstances (service : Z) : AuthEff (Result string (list ServiceInstance))
| PickMinOnlineAndIncrement (service : Z) : AuthEff (Result string ServiceInstance).

Definition redis {A} : prog (RedisEff string) A → prog AuthEff A := lift (λ X, @OnRedis X).
Definition mongo {A} : prog (MongoEff E) A → prog AuthEff A := lift (λ X, @OnMongo X).

Definition login_status (status : Status) : AuthLoginRsp := mkAuthLoginRsp (Some status) "" "" [] 0.
Definition login_error (error_code : Z) (message : string) : AuthLoginRsp := login_status (error_status error_code message).
Definition use_role_error (error_code : Z) (message : string) : AuthUseRoleRsp :=
  mkAuthUseRoleRsp (Some (error_status error_code message)) 0 [] None.

(** ** Login *)

Variable accounts_of : Database.

Definition new_account (account hash : string) (gid created_at : Z) : AccountData :=
  mkAccountData account hash [mkRole gid 0 ("Player" +:+ pretty gid) 1 0] created_at.

Definition load_or_create_account_locked (account credential : string) : prog AuthEff (option (Result Status AccountData)) :=
  let hash := credential_hash account credential in
  loaded ← mongo (load_account accounts_of account);
  match loaded with
  | Ok (Some found) =>
      Ret (Some (if bool_decide (AccountData_credential_hash found = hash) then Ok found
                 else Err (error_status code.UNAUTHENTICATED "credential mismatch")))
  | Ok None =>
      gid ← await GenId;
      now ← await UnixSeconds;
      let created := new_account account hash gid now in
      saved ← mongo (save_account accounts_of created);
      Ret match saved with
          | None => None
          | Some (Err _) => Some (Err (error_status code.INTERNAL "account create failed"))
          | Some (Ok _) => Some (Ok created)
          end
  | Err _ => Ret (Some (Err (error_status code.INTERNAL "account load failed")))
  end.

Definition lock_key (account : string) : string := "xkk:account:lock:" +:+ account.

Definition load_or_create_account (account credential : string) : prog AuthEff (option (Result Status AccountData)) :=
  lock ← await (TryLock (lock_key account) ACCOUNT_LOCK_TTL);
  match lock with
  | Ok true =>
      result ← load_or_create_account_locked account credential;
      _ ← await (ReleaseLock (lock_key account));
      Ret result
  | Ok false => Ret (Some (Err (error_status code.RATE_LIMITED "account login in progress")))
  | Err _ => Ret (Some (Err (error_status code.INTERNAL "account lock failed")))
  end.

Definition invalid_login (request : AuthLoginReq) (device : DeviceInfo) : bool :=
  bool_decide (AuthLoginReq_account request = "") || (64 <? Z.of_nat (String.length (AuthLoginReq_account request)))
  || bool_decide (AuthLoginReq_credential request = "") || (256 <? Z.of_nat (String.length (AuthLoginReq_credential request)))
  || (Z.of_nat (String.length (DeviceInfo_device_id device)) <? 8).

(** After the limiters. *)
Definition issue_token (request : AuthLoginReq) (device : DeviceInfo) : prog AuthEff (option AuthLoginRsp) :=
  account ← load_or_create_account (AuthLoginReq_account request) (AuthLoginReq_credential request);
  match account with
  | None => Ret None
  | Some (Err status) => Ret (Some (login_status status))
  | Some (Ok account) =>
      match AccountData_roles account with
      | [] => Ret (Some (login_error code.CONFLICT "account has no role"))
      | role :: _ =>
          match simple_token_encode (Role_gid role) (DeviceInfo_device_id device) with
          | Err _ => Ret (Some (login_error code.INTERNAL "token encode failed"))
          | Ok token =>
              saved ← redis (set_token (Role_gid role) (AccountData_account account) token);
              Ret (Some match saved with
                        | Err _ => login_error code.INTERNAL "token save failed"
                        | Ok _ => mkAuthLoginRsp (Some ok_status) (AccountData_account account) token
                                    (AccountData_roles account) (AccountData_created_at account)
                        end)
          end
      end
  end.

Definition login (client_ip : option string) (request : AuthLoginReq) : prog AuthEff (option AuthLoginRsp) :=
  with_permit TryAcquire DropPermit (Some (login_error code.OVERLOADED "Auth request capacity exhausted"))
    (match AuthLoginReq_device request with
     | None => Ret (Some (login_error code.INVALID_ARGUMENT "device is required"))
     | Some device =>
         if invalid_login request device then Ret (Some (login_error code.INVALID_ARGUMENT "invalid Auth login request"))
         else
           let ip := default "unknown" client_ip in
           global ← await (Allow login_global "all");
           per_ip ← await (Allow login_per_ip ip);
           match global, per_ip with
           | Ok true, Ok true => issue_token request device
           | Ok _, Ok _ => Ret (Some (login_error code.RATE_LIMITED "login rate exceeded"))
           | _, _ => Ret (Some (login_error code.INTERNAL "login limiter failed"))
           end
     end).

(** ** Role admission *)

(** [str::parse::<u32>]: no sign but a plus. *)
Definition u32_from_str (s : string) : option Z :=
  match s with
  | String a _ => if decide (a = minus) then None else parse_int 0 (2 ^ 32) s
  | "" => None
  end.

Definition gate_endpoints (gate : ServiceInstance) : list Endpoint :=
  omap (λ '(transport, port_key),
    port ← meta_data gate !! port_key ≫= u32_from_str;
    Some (mkEndpoint transport (host gate) port
            (if bool_decide (transport = "websocket") then default "/" (meta_data gate !! "websocket_path") else "")))
    [("tcp", "tcp_port"); ("kcp", "kcp_port"); ("websocket", "websocket_port")].

(** The free seats of the Gates that take players. *)
Definition available_seats (gates : list ServiceInstance) : Z :=
  foldr (λ gate sum, Z.max (wrap_i32 (GATE_PLAYER_CAPACITY - online_count gate)) 0 + sum) 0
    (filter (λ gate, enable gate && healthy gate = true) gates).

Definition queued (gid position now : Z) : AuthUseRoleRsp :=
  mkAuthUseRoleRsp (Some ok_status) gid [] (Some (mkLoginQueue position (wrap_i64 (now + LOGIN_QUEUE_RETRY_SECONDS)))).

(** After the queue and the limiter let the player through. *)
Definition admit_role (gid : Z) : prog AuthEff (option AuthUseRoleRsp) :=
  picked ← await (PickMinOnlineAndIncrement service_type.GATE);
  match picked with
  | Err _ => Ret (Some (use_role_error code.TEMPORARILY_UNAVAILABLE "Gate unavailable"))
  | Ok gate =>
      let endpoints := gate_endpoints gate in
      if bool_decide (endpoints = []) then Ret (Some (use_role_error code.TEMPORARILY_UNAVAILABLE "Gate endpoint unavailable"))
      else
        left ← redis (leave_login_queue gid);
        Ret match left with
            | None => None
            | Some _ => Some (mkAuthUseRoleRsp (Some ok_status) gid endpoints None)
            end
  end.

(** With the position in the queue. *)
Definition take_position (gid available position : Z) : prog AuthEff (option AuthUseRoleRsp) :=
  if LOGIN_QUEUE_CAPACITY <? position then
    left ← redis (leave_login_queue gid);
    Ret (_ ← left; Some (use_role_error code.OVERLOADED "login queue is full"))
  else if (available =? 0) || (available <? position) then
    now ← await UnixSeconds;
    Ret (Some (queued gid position now))
  else
    allowed ← await (Allow role_admission "all");
    match allowed with
    | Ok true => admit_role gid
    | Ok false => now ← await UnixSeconds; Ret (Some (queued gid position now))
    | Err _ => Ret (Some (use_role_error code.INTERNAL "role admission failed"))
    end.

(** After the authentication. *)
Definition wait_for_seat (gid : Z) : prog AuthEff (option AuthUseRoleRsp) :=
  gates ← await (ServiceInstances service_type.GATE);
  match gates with
  | Err _ => Ret (Some (use_role_error code.TEMPORARILY_UNAVAILABLE "Gate unavailable"))
  | Ok gates =>
      let available := available_seats gates in
      now ← await UnixMillis;
      enqueued ← redis (enqueue_login gid now LOGIN_QUEUE_ENTRY_TTL);
      match enqueued with
      | None => Ret None
      | Some (Err _) => Ret (Some (use_role_error code.INTERNAL "login queue failed"))
      | Some (Ok position) => take_position gid available position
      end
  end.

Definition use_role (request : AuthUseRoleReq) : prog AuthEff (option AuthUseRoleRsp) :=
  with_permit TryAcquire DropPermit (Some (use_role_error code.OVERLOADED "Auth request capacity exhausted"))
    (if (AuthUseRoleReq_gid request <=? 0) || bool_decide (AuthUseRoleReq_token request = "")
        || (Z.of_nat (String.length (AuthUseRoleReq_device_id request)) <? 8)
     then Ret (Some (use_role_error code.INVALID_ARGUMENT "invalid role request"))
     else
       let decoded := simple_token_decode (AuthUseRoleReq_token request) (AuthUseRoleReq_device_id request) in
       if negb (bool_decide (decoded = Some (AuthUseRoleReq_gid request)))
       then Ret (Some (use_role_error code.UNAUTHENTICATED "token verification failed"))
       else
         loaded ← redis (load_online (AuthUseRoleReq_gid request));
         match loaded with
         | Ok (Some online) =>
             if bool_decide (token online = AuthUseRoleReq_token request) then wait_for_seat (AuthUseRoleReq_gid request)
             else Ret (Some (use_role_error code.UNAUTHENTICATED "token state mismatch"))
         | Ok None => Ret (Some (use_role_error code.UNAUTHENTICATED "token state mismatch"))
         | Err _ => Ret (Some (use_role_error code.INTERNAL "online state load failed"))
         end).
End auth.
#[global] Arguments AuthEff E {_} _.

(** ** A world to run them in

    What the outside answers may differ from one operation to the next: the
    [n]-th operation of a run finds the networks, the limiters and the
    discovery as [env] says for [n]. *)

Section world.
Context {E : Type} `{!Xmongo E} {SR SM : Type} (script_error : string) `{!Redis SR} `{!Mongo E SM}.

Record AuthEnv := mkAuthEnv {
  redis_net : nat → Network string;
  mongo_net : nat → Network E;
  allow : nat → Limiter → string → Result string bool;
  lock_net : nat → option string;
  gates : nat → Result string (list ServiceInstance);
  pick : nat → Result string ServiceInstance;
  seconds : nat → Z;
  fast_id : nat → Z
}.

Record AuthWorld := mkAuthWorld {
  steps : nat;
  permits : Z;
  locks : gset string;
  redis_store : SR;
  mongo_store : SM
}.

Definition eta_AuthWorld (s : AuthWorld) : AuthWorld :=
  mkAuthWorld (steps s) (permits s) (locks s) (redis_store s) (mongo_store s).
Definition on_steps : (nat → nat) → AuthWorld → AuthWorld := ltac:(derive_update eta_AuthWorld steps).
Definition on_permits : (Z → Z) → AuthWorld → AuthWorld := ltac:(derive_update eta_AuthWorld permits).
Definition on_locks : (gset string → gset string) → AuthWorld → AuthWorld := ltac:(derive_update eta_AuthWorld locks).
Definition on_redis : (SR → SR) → AuthWorld → AuthWorld := ltac:(derive_update eta_AuthWorld redis_store).
Definition on_mongo : (SM → SM) → AuthWorld → AuthWorld := ltac:(derive_update eta_AuthWorld mongo_store).

Variable env : AuthEnv.

Definition answer_auth (n : nat) (X : Type) (e : AuthEff E X) : AuthWorld → X * AuthWorld :=
  match e in AuthEff _ X return AuthWorld → X * AuthWorld with
  | TryAcquire => λ w, if 0 <? permits w then (true, on_permits (λ n, n - 1) w) else (false, w)
  | DropPermit => λ w, (tt, on_permits (λ n, n + 1) w)
  | Allow l key => λ w, (allow env n l key, w)
  | OnRedis e => λ w, let '(x, s) := handle_redis script_error (redis_net env n) _ e (redis_store w) in (x, on_redis (λ _, s) w)
  | OnMongo e => λ w, let '(x, s) := handle_mongo (mongo_net env n) _ e (mongo_store w) in (x, on_mongo (λ _, s) w)
  | TryLock key _ => λ w,
      match lock_net env n with
      | Some error => (Err error, w)
      | None => if decide (key ∈ locks w) then (Ok false, w) else (Ok true, on_locks ({[ key ]} ∪.) w)
      end
  | ReleaseLock key => λ w,
      match lock_net env n with
      | Some error => (Err error, w)
      | None => (Ok tt, on_locks (λ l, l ∖ {[ key ]}) w)
      end
  | GenId => λ w, (fast_id env n, w)
  | UnixSeconds => λ w, (seconds env n, w)
  | UnixMillis => λ w, (seconds env n * 1000, w)
  | ServiceInstances _ => λ w, (gates env n, w)
  | PickMinOnlineAndIncrement _ => λ w, (pick env n, w)
  end.

Definition handle_auth (X : Type) (e : AuthEff E X) (w : AuthWorld) : X * AuthWorld :=
  let '(x, w') := answer_auth (steps w) X e w in (x, on_steps S w').
End world.
