(* ===== verification/AuthSpec.v ===== *)
(** What the Auth service promises: one account per name however logins
    interleave, tokens that the role admission accepts, and seats that are
    never promised beyond what the Gates have. *)

From stdpp Require Import pretty.
From S2P Require Import Prelude Effects Routing Proto Decimal Redis OnlineCache OnlineSpec Mongo Documents DocumentsSpec AuthApi.

#[local] Open Scope string_scope.
#[local] Open Scope list_scope.
#[local] Open Scope Z_scope.

Section auth.
Context {E : Type} `{!Xmongo E, !MapIter Z Z} `{!Sha256} `{!TokenCoder} `{!TokenIssuer}.
Context {SR SM : Type} (script_error : string) `{!Redis SR} `{!Mongo E SM}.
Variable env : AuthEnv (E := E).
Variable d : Database.
#[local] Abbreviation handle := (handle_auth (SR := SR) (SM := SM) script_error env).
#[local] Abbreviation World := (AuthWorld (SR := SR) (SM := SM)).
#[local] Abbreviation task := (prog (AuthEff E)).

(** ** One account per name *)

Section one_name.
Variable acc : string.

Definition name_document (w : World) : option Document := document (accounts d) (BsonString acc) (mongo_store w).
Definition decoded (document : Document) : option AccountData :=
  match from_bson_account_data (BsonDocument document) with Ok a => Some a | Err _ => None end.

(** Where a program is with the lock of the account, and the account it knows
    to be stored. *)
Inductive mode := Idle | Locked | Missing.
#[local] Instance mode_eq_dec : EqDecision mode.
Proof. solve_decision. Defined.
Definition Knowledge : Type := option AccountData.

(** A program keeps to the rules when it writes the account only while it
    holds the lock and has found no account since. *)
Definition mongo_rule {X} (e : MongoEff E X) (m : mode) (know : Knowledge) : (mode → Knowledge → X → Prop) → Prop :=
  match e in MongoEff _ X return (mode → Knowledge → X → Prop) → Prop with
  | FindOne c id => λ f, ∀ r,
      ((c, id) = (accounts d, BsonString acc) →
         f (match m, r with Locked, Ok None => Missing | _, _ => m end)
           (match r with Ok (Some document) => match decoded document with Some a => Some a | None => know end | _ => know end) r)
      ∧ ((c, id) ≠ (accounts d, BsonString acc) → f m know r)
  | ReplaceOne c id document => λ f,
      ((c, id) = (accounts d, BsonString acc) →
         m = Missing ∧ ∀ r, f Locked (match r with Ok _ => decoded document | Err _ => know end) r)
      ∧ ((c, id) ≠ (accounts d, BsonString acc) → ∀ r, f m know r)
  | FindIn _ _ => λ f, ∀ r, f m know r
  | BulkWrite _ => λ _, False
  end.

Definition rule {X} (e : AuthEff E X) (m : mode) (know : Knowledge) : (mode → Knowledge → X → Prop) → Prop :=
  match e in AuthEff _ X return (mode → Knowledge → X → Prop) → Prop with
  | TryLock key _ => λ f,
      if decide (key = lock_key acc) then m = Idle ∧ ∀ r, f (match r with Ok true => Locked | _ => Idle end) know r
      else ∀ r, f m know r
  | ReleaseLock key => λ f,
      if decide (key = lock_key acc) then m ≠ Idle ∧ ∀ r, f Idle know r else ∀ r, f m know r
  | OnMongo e => mongo_rule e m know
  | _ => λ f, ∀ r, f m know r
  end.

Fixpoint follows {A} (Q : mode → Knowledge → A → Prop) (m : mode) (know : Knowledge) (p : task A) : Prop :=
  match p with
  | Ret a => Q m know a
  | Act e k => rule e m know (λ m know x, follows Q m know (k x))
  end.

Lemma rule_mono {X} (e : AuthEff E X) m know (f g : mode → Knowledge → X → Prop) :
  (∀ m know x, f m know x → g m know x) → rule e m know f → rule e m know g.
Proof.
  intros Hfg. destruct e as [| |l key|X e|X e|key ttl|key| | | |service|service]; simpl; auto.
  - destruct e as [c id|c ids|c id doc|ws]; simpl; auto.
    + intros Hf r. destruct (Hf r). split; auto.
    + intros [Hw Ho]. split; [intros Heq; destruct (Hw Heq); auto|auto].
  - case_decide; [intros [? ?]; auto|auto].
  - case_decide; [intros [? ?]; auto|auto].
Qed.

Lemma follows_bind {A B} (p : task A) (f : A → task B) Q Q' m know :
  follows Q' m know p → (∀ m know a, Q' m know a → follows Q m know (f a)) → follows Q m know (p ≫= f).
Proof.
  intros Hp Hf. revert m know Hp. induction p as [a|X e k IH]; intros m know Hp; [by apply Hf|].
  simpl in *. eapply rule_mono; [|exact Hp]. simpl. intros m' know' x. apply IH.
Qed.

Lemma follows_mono {A} (p : task A) (Q Q' : mode → Knowledge → A → Prop) m know :
  follows Q' m know p → (∀ m know a, Q' m know a → Q m know a) → follows Q m know p.
Proof.
  intros Hp Hq. revert m know Hp. induction p as [a|X e k IH]; intros m know Hp; [by apply Hq|].
  simpl in *. eapply rule_mono; [|exact Hp]. simpl. intros m' know' x. apply IH.
Qed.

(** Whatever a run answers, it ends as the rules promise. *)
Lemma rule_any {X} (e : AuthEff E X) m know (f : mode → Knowledge → X → Prop) x : rule e m know f → ∃ m' know', f m' know' x.
Proof.
  intros Hr. destruct e as [| |l key|X e|X e|key ttl|key| | | |service|service]; simpl in Hr; eauto.
  - destruct e as [c id|c ids|c id doc|ws]; simpl in Hr; [|eauto| |done].
    + destruct (Hr x) as [Hs Ho]. destruct (decide ((c, id) = (accounts d, BsonString acc))); eauto.
    + destruct Hr as [Hs Ho]. destruct (decide ((c, id) = (accounts d, BsonString acc))) as [Heq|]; [destruct (Hs Heq)|]; eauto.
  - case_decide; [destruct Hr|]; eauto.
  - case_decide; [destruct Hr|]; eauto.
Qed.

Lemma follows_run {A} (Q : mode → Knowledge → A → Prop) (p : task A) m know (w : World) :
  follows Q m know p → ∃ m' know', Q m' know' (run handle p w).1.
Proof.
  revert m know w. induction p as [a|X e k IH]; intros m know w Hp; [by exists m, know|].
  cbn [run]. destruct (handle X e w) as [x w']. destruct (rule_any e m know _ x Hp) as (m' & know' & Hf). by apply (IH x m' know').
Qed.

Definition knows (w : World) (know : Knowledge) : Prop :=
  ∀ a, know = Some a → ∃ document, name_document w = Some document ∧ decoded document = Some a.
Definition holds (w : World) (m : mode) : Prop :=
  (m ≠ Idle → lock_key acc ∈ locks w) ∧ (m = Missing → name_document w = None).

(** What one operation of a program that keeps to the rules does to the
    account. *)
Definition advances (w w' : World) (m m' : mode) : Prop :=
  (m = Idle → m' ≠ Idle → lock_key acc ∉ locks w)
  ∧ (m = Idle → lock_key acc ∈ locks w → lock_key acc ∈ locks w')
  ∧ (m = Idle → name_document w' = name_document w)
  ∧ ∀ document, name_document w = Some document → name_document w' = Some document.

Lemma advances_same w w' m : locks w' = locks w → mongo_store w' = mongo_store w → advances w w' m m.
Proof. intros Hl Hm. unfold advances, name_document. rewrite Hl, Hm. by split_and!. Qed.

Lemma knows_stable w w' know : (∀ document, name_document w = Some document → name_document w' = Some document) →
  knows w know → knows w' know.
Proof. intros Hdoc Hk a Ha. destruct (Hk a Ha) as (document & Hd & Hdec). exists document. auto. Qed.

Lemma rule_same {X} (e : AuthEff E X) w w' m know (f : mode → Knowledge → X → Prop) x :
  locks w' = locks w → mongo_store w' = mongo_store w → knows w know → holds w m → f m know x →
  ∃ m' know', f m' know' x ∧ knows w' know' ∧ holds w' m' ∧ advances w w' m m'.
Proof.
  intros Hl Hm Hk Hh Hf. exists m, know. split_and!; [done| | |by apply advances_same].
  - apply (knows_stable w); [|done]. unfold name_document. by rewrite Hm.
  - unfold holds, name_document in *. by rewrite Hl, Hm.
Qed.

Lemma mongo_rule_step {X} (e : MongoEff E X) w m know f x s' : mongo_rule e m know f →
  handle_mongo (mongo_net env (steps w)) X e (mongo_store w) = (x, s') → knows w know → holds w m →
  let w' := on_steps S (on_mongo (λ _, s') w) in
  ∃ m' know', f m' know' x ∧ knows w' know' ∧ holds w' m' ∧ advances w w' m m'.
Proof.
  intros Hr Hx Hk Hh. destruct e as [c id|c ids|c id doc|ws]; simpl in Hr; [| | |done]; simpl in Hx; simplify_eq.
  - destruct (Hr (executed (mongo_net env (steps w)) (document c id (mongo_store w)))) as [Hsame Hother].
    destruct (decide ((c, id) = (accounts d, BsonString acc))) as [Heq|Hne]; [|apply (rule_same (OnMongo (FindOne c id)) w _ m know); auto].
    specialize (Hsame Heq). injection Heq as -> ->. eexists _, _. split; [exact Hsame|]. clear Hsame.
    fold (name_document w) in *. unfold executed.
    split_and!.
    + destruct (mongo_net env (steps w)); [|done..]. destruct (name_document w) as [doc|] eqn:Hd; [|done].
      destruct (decoded doc) as [a|] eqn:Ha; [|done]. intros a' [= <-]. exists doc. done.
    + destruct Hh as [Hl Hmiss]. split.
      * intros Hm. apply Hl. destruct m; [by destruct (mongo_net _ _)|done..].
      * intros Hm. change (name_document _) with (name_document w). destruct m; [by destruct (mongo_net _ _)| |auto].
        destruct (mongo_net _ _); [|done..]. by destruct (name_document w).
    + unfold advances. split_and!; try done. destruct m; by destruct (mongo_net _ _).
  - by apply (rule_same (OnMongo (FindIn c ids)) w _ m know).
  - destruct Hr as [Hsame Hother].
    destruct (decide ((c, id) = (accounts d, BsonString acc))) as [Heq|Hne].
    + destruct (Hsame Heq) as [-> Hf]. injection Heq as -> ->. destruct Hh as [Hl Hmiss]. specialize (Hmiss eq_refl).
      specialize (Hl ltac:(done)).
      eexists Locked, _. split; [apply Hf|]. clear Hf. split_and!.
      * intros a Ha. unfold name_document. simpl. destruct (mongo_net _ _); simpl in *.
        -- exists doc. by rewrite document_replace_eq.
        -- destruct (Hk a Ha) as (? & ? & ?). congruence.
        -- destruct (Hk a Ha) as (? & ? & ?). congruence.
      * done.
      * unfold advances. split_and!; try done. congruence.
    + assert (∀ s, document (accounts d) (BsonString acc) (if reaches (mongo_net env (steps w)) then replace c id doc s else s)
                   = document (accounts d) (BsonString acc) s) as Hdoc.
      { intros s. destruct (reaches _); [by apply document_replace_ne|done]. }
      exists m, know. split_and!; [by apply Hother| | |].
      * apply (knows_stable w); [|done]. unfold name_document. simpl. by rewrite Hdoc.
      * unfold holds, name_document in *. simpl. by rewrite Hdoc.
      * unfold advances, name_document. simpl. rewrite Hdoc. by split_and!.
Qed.

Lemma lock_rule_step key ttl w w' m know (f : mode → Knowledge → Result string bool → Prop) x :
  rule (TryLock key ttl) m know f → handle _ (TryLock key ttl) w = (x, w') → knows w know → holds w m →
  ∃ m' know', f m' know' x ∧ knows w' know' ∧ holds w' m' ∧ advances w w' m m'.
Proof.
  intros Hr Hx Hk Hh. unfold handle_auth in Hx. simpl in Hr, Hx.
  destruct (decide (key = lock_key acc)) as [->|Hne].
  - destruct Hr as [-> Hf]. specialize (Hf x).
    destruct (lock_net env (steps w)) as [error|]; [simplify_eq; by apply (rule_same (TryLock (lock_key acc) ttl) w _ Idle know)|].
    destruct (decide (lock_key acc ∈ locks w)) as [Hin|Hni]; simplify_eq;
      [by apply (rule_same (TryLock (lock_key acc) ttl) w _ Idle know)|].
    exists Locked, know. split_and!; [exact Hf|done| |].
    + split; [intros _; simpl; set_solver|done].
    + unfold advances, name_document. simpl. split_and!; [done|set_solver|done|done].
  - specialize (Hr x). destruct (lock_net env (steps w)) as [error|]; [simplify_eq; by apply (rule_same (TryLock key ttl) w _ m know)|].
    destruct (decide (key ∈ locks w)); simplify_eq; [by apply (rule_same (TryLock key ttl) w _ m know)|].
    exists m, know. destruct Hh as [Hl Hm]. split_and!; [done|done| |].
    + split; [intros Hi; simpl; specialize (Hl Hi); set_solver|done].
    + unfold advances, name_document. simpl. split_and!; [done|set_solver|done|done].
Qed.

Lemma release_rule_step key w w' m know (f : mode → Knowledge → Result string unit → Prop) x :
  rule (ReleaseLock key) m know f → handle _ (ReleaseLock key) w = (x, w') → knows w know → holds w m →
  ∃ m' know', f m' know' x ∧ knows w' know' ∧ holds w' m' ∧ advances w w' m m'.
Proof.
  intros Hr Hx Hk Hh. unfold handle_auth in Hx. simpl in Hr, Hx.
  destruct (decide (key = lock_key acc)) as [->|Hne].
  - destruct Hr as [Hm Hf]. exists Idle, know. specialize (Hf x).
    destruct (lock_net env (steps w)) as [error|]; simplify_eq; (split_and!; [exact Hf|done|done|]);
      unfold advances, name_document; by split_and!.
  - specialize (Hr x). destruct (lock_net env (steps w)) as [error|]; simplify_eq; [by apply (rule_same (ReleaseLock key) w _ m know)|].
    exists m, know. destruct Hh as [Hl Hm]. split_and!; [done|done| |].
    + split; [intros Hi; simpl; specialize (Hl Hi); set_solver|done].
    + unfold advances, name_document. simpl. split_and!; [done|set_solver|done|done].
Qed.

Lemma rule_step {X} (e : AuthEff E X) w w' m know f x : rule e m know f → handle X e w = (x, w') →
  knows w know → holds w m → ∃ m' know', f m' know' x ∧ knows w' know' ∧ holds w' m' ∧ advances w w' m m'.
Proof.
  intros Hr Hx Hk Hh. unfold handle_auth in Hx.
  destruct e as [| |l key|X e|X e|key ttl|key| | | |service|service]; simpl in Hr, Hx.
  - destruct (0 <? permits w); simplify_eq; by apply (rule_same TryAcquire w _ m know).
  - simplify_eq. by apply (rule_same DropPermit w _ m know).
  - simplify_eq. by apply (rule_same (Allow l key) w _ m know).
  - destruct (handle_redis _ _ _ _ _) as [x0 s]. simplify_eq. by apply (rule_same (OnRedis e) w _ m know).
  - destruct (handle_mongo _ _ _ _) as [x0 s] eqn:Hm. simplify_eq. by apply (mongo_rule_step e w m know f x s).
  - exact (lock_rule_step key ttl w w' m know f x Hr Hx Hk Hh).
  - exact (release_rule_step key w w' m know f x Hr Hx Hk Hh).
  - simplify_eq. by apply (rule_same GenId w _ m know).
  - simplify_eq. by apply (rule_same UnixSeconds w _ m know).
  - simplify_eq. by apply (rule_same UnixMillis w _ m know).
  - simplify_eq. by apply (rule_same (ServiceInstances service) w _ m know).
  - simplify_eq. by apply (rule_same (PickMinOnlineAndIncrement service) w _ m know).
Qed.

(** A pool of programs that keep to the rules: at most one of them has the
    lock. *)
Definition pool_rules {A} (Q : nat → mode → Knowledge → A → Prop) (pool : list (task A)) (w : World) : Prop :=
  ∃ st : nat → mode * Knowledge,
    (∀ i p, pool !! i = Some p → follows (Q i) (st i).1 (st i).2 p)
    ∧ (∀ i, knows w (st i).2 ∧ holds w (st i).1)
    ∧ ∀ i j, (st i).1 ≠ Idle → (st j).1 ≠ Idle → i = j.

Lemma pool_step {A} (Q : nat → mode → Knowledge → A → Prop) i pool w :
  pool_rules Q pool w →
  let '(pool', w') := advance handle i (pool, w) in
  pool_rules Q pool' w' ∧ ∀ document, name_document w = Some document → name_document w' = Some document.
Proof.
  intros (st & Hp & Hw & Hone). unfold advance. simpl. destruct (pool !! i) as [p|] eqn:Hi; [|split; [by exists st|done]].
  destruct p as [a|X e k]; simpl.
  { split; [|done]. exists st. split_and!; [|done|done]. intros j q Hj.
    destruct (pool_lookup_insert _ _ _ _ _ Hj) as [[-> ->]|[_ Hq]]; [by apply (Hp i)|by apply Hp]. }
  specialize (Hp i _ Hi) as Hpi. simpl in Hpi. destruct (Hw i) as [Hk Hh].
  destruct (handle X e w) as [x w'] eqn:Hx. simpl.
  destruct (rule_step e w w' _ _ _ x Hpi Hx Hk Hh) as (m' & know' & Hf & Hk' & Hh' & Hlock & Hkeep & Hsame & Hdoc).
  split; [|exact Hdoc]. exists (λ j, if decide (j = i) then (m', know') else st j). split_and!.
  - intros j q Hj. destruct (pool_lookup_insert _ _ _ _ _ Hj) as [[-> ->]|[Hne Hq]]; [by rewrite decide_True|].
    rewrite decide_False by done. by apply Hp.
  - intros j. case_decide as Hji; [by split|]. destruct (Hw j) as [Hkj [Hlj Hmj]]. split; [by apply (knows_stable w)|].
    assert ((st j).1 ≠ Idle → (st i).1 = Idle) as Hother.
    { intros Hj. destruct (st i).1 eqn:Hm; [done|..]; destruct Hji; apply Hone; congruence. }
    split; [intros Hj; apply Hkeep; auto|]. intros Hj. rewrite Hsame; [auto|]. apply Hother. congruence.
  - assert (m' ≠ Idle → ∀ j, j ≠ i → (st j).1 = Idle) as Hsole.
    { intros Hm' j Hj. destruct (st j).1 eqn:Hmj; [done|..]; exfalso;
        destruct (decide ((st i).1 = Idle)) as [Hmi|Hmi];
        [apply (Hlock Hmi Hm'); apply (proj1 (proj2 (Hw j))); congruence|apply Hj, Hone; congruence
        |apply (Hlock Hmi Hm'); apply (proj1 (proj2 (Hw j))); congruence|apply Hj, Hone; congruence]. }
    intros a b. repeat case_decide; simpl; subst; [done| | |apply Hone].
    + intros Ha Hb. by rewrite (Hsole Ha b) in Hb.
    + intros Ha Hb. by rewrite (Hsole Hb a) in Ha.
Qed.

Lemma pool_run {A} (Q : nat → mode → Knowledge → A → Prop) schedule pool w :
  pool_rules Q pool w →
  let '(pool', w') := interleave handle schedule (pool, w) in
  pool_rules Q pool' w' ∧ ∀ document, name_document w = Some document → name_document w' = Some document.
Proof.
  revert pool w. induction schedule as [|i schedule IH]; intros pool w Hp; [done|].
  change (interleave handle (i :: schedule) (pool, w)) with (interleave handle schedule (advance handle i (pool, w))).
  pose proof (pool_step Q i pool w Hp) as Hs. destruct (advance handle i (pool, w)) as [pool1 w1]. destruct Hs as [Hp1 Hd1].
  specialize (IH pool1 w1 Hp1). destruct (interleave handle schedule (pool1, w1)) as [pool2 w2]. destruct IH as [Hp2 Hd2].
  split; [done|]. auto.
Qed.

(** ** The handlers keep to the rules *)

Lemma redis_follows {A} (p : prog (RedisEff string) A) Q m know : (∀ a, Q m know a) → follows Q m know (redis p).
Proof. intros Hq. unfold redis. induction p as [a|X e k IH]; simpl; [apply Hq|]. intros r. apply IH. Qed.

Lemma follows_await {X A} (e : AuthEff E X) (k : X → task A) Q m know :
  follows Q m know (x ← await e; k x) = rule e m know (λ m know x, follows Q m know (k x)).
Proof. done. Qed.

(** The reply of a login reports the account that is stored. *)
Definition reports (request : AuthLoginReq) (m : mode) (know : Knowledge) (reply : option AuthLoginRsp) : Prop :=
  m = Idle ∧
  match reply with
  | Some (mkAuthLoginRsp (Some status) account _ roles created_at) =>
      Status_code status = code.OK → AuthLoginReq_account request = acc →
      ∃ a, know = Some a ∧ roles = AccountData_roles a ∧ created_at = AccountData_created_at a
  | _ => True
  end.

Definition account_reported (account : string) (know : Knowledge) (r : option (Result Status AccountData)) : Prop :=
  match r with
  | Some (Ok a) => account = acc → know = Some a
  | Some (Err status) => Status_code status ≠ code.OK
  | None => True
  end.

Lemma decoded_account a document : from_bson_account_data (BsonDocument document) = Ok a → decoded document = Some a.
Proof. unfold decoded. by intros ->. Qed.

Lemma account_document a : ∃ document, replacement a = Some (Ok (BsonString (AccountData_account a), document)) ∧ decoded document = Some a.
Proof.
  destruct (model_document (StoredModel := AccountData_stored) a I) as (doc & Hd & Hid & Hfrom).
  exists doc. split; [|by apply decoded_account]. unfold replacement. rewrite Hd. simpl. rewrite as_document_Document. simpl. by rewrite Hid.
Qed.

Lemma locked_follows_same credential know :
  follows (λ m know r, m ≠ Idle ∧ account_reported acc know r) Locked know (load_or_create_account_locked d acc credential).
Proof.
  unfold load_or_create_account_locked, load_account, load_model, save_account, save_model. cbn -[replacement new_account]. intros r. split; [intros _|done].
  destruct r as [[document|]|error]; cbn -[replacement new_account].
  - destruct (from_bson_account_data (BsonDocument document)) as [found|] eqn:Hf; simpl; [|done].
    rewrite (decoded_account _ _ Hf). by case_bool_decide.
  - intros gid now. destruct (account_document (new_account acc (credential_hash acc credential) gid now)) as (document & -> & Hdec).
    simpl. split; [|done]. intros _. split; [done|]. intros [u|error]; [|done]. simpl. rewrite Hdec. done.
  - done.
Qed.

Lemma locked_follows_other account credential know : account ≠ acc →
  follows (λ m know r, m = Idle ∧ account_reported account know r) Idle know (load_or_create_account_locked d account credential).
Proof.
  intros Hne. assert ((accounts d, BsonString account) ≠ (accounts d, BsonString acc)) as Hid.
  { intros [= Heq]. by apply Hne, BsonString_inj. }
  unfold load_or_create_account_locked, load_account, load_model, save_account, save_model. cbn -[replacement new_account]. intros r. split; [done|intros _].
  destruct r as [[document|]|error]; cbn -[replacement new_account].
  - destruct (from_bson_account_data (BsonDocument document)) as [found|]; simpl; [|done]. case_bool_decide; simpl; (split; [done|]); [by intros ?|done].
  - intros gid now. destruct (account_document (new_account account (credential_hash account credential) gid now)) as (document & -> & Hdec).
    simpl. split; [done|]. intros _ [u|error]; simpl; (split; [done|]); [by intros ?|done].
  - done.
Qed.

Lemma lock_key_inj a b : lock_key a = lock_key b → a = b.
Proof. unfold lock_key. by intros ?%(inj _). Qed.

Lemma account_follows account credential know :
  follows (λ m know r, m = Idle ∧ account_reported account know r) Idle know (load_or_create_account d account credential).
Proof.
  unfold load_or_create_account. rewrite follows_await. cbn [rule]. destruct (decide (account = acc)) as [->|Hne].
  - rewrite decide_True by done. split; [done|]. intros [[|]|error]; [|done..].
    eapply follows_bind; [apply locked_follows_same|]. intros m know' r [Hm Hr]. rewrite follows_await. cbn [rule]. rewrite decide_True by done. by split.
  - rewrite decide_False by (by intros ?%lock_key_inj). intros [[|]|error]; [|done..].
    eapply follows_bind; [by apply locked_follows_other|]. intros m know' r [Hm Hr]. rewrite follows_await. cbn [rule].
    rewrite decide_False by (by intros ?%lock_key_inj). by split.
Qed.

Lemma login_follows ip request know : follows (reports request) Idle know (login d ip request).
Proof.
  unfold login, with_permit. rewrite follows_await. intros [|]; [|done]. cbn [negb].
  apply (follows_bind _ _ (reports request) (reports request)); [|intros m know' a Ha; rewrite follows_await; intros _; exact Ha].
  destruct (AuthLoginReq_device request) as [device|]; [|done]. destruct (invalid_login _ _); [done|].
  rewrite follows_await. intros global. rewrite follows_await. intros per_ip.
  destruct global as [[|]|], per_ip as [[|]|]; [|done..].
  unfold issue_token. eapply follows_bind; [apply account_follows|]. intros m know' [[a|status]|] [-> Hr]; [|by split; [|intros ?]|by split].
  destruct (AccountData_roles a) as [|role roles] eqn:Hroles; [done|]. destruct (simple_token_encode _ _) as [token|error]; [|done].
  eapply follows_bind; [by apply (redis_follows _ (λ m know _, m = Idle ∧ account_reported (AuthLoginReq_account request) know (Some (Ok a))))|].
  intros m know'' [u|error] [-> Hr']; (split; [done|]); [|done]. simpl in *. intros _ Hacc. exists a. rewrite Hroles. auto.
Qed.
End one_name.

(** The account a finished login reports. *)
Definition reported (p : task (option AuthLoginRsp)) : option (list Role * Z) :=
  match p with
  | Ret (Some (mkAuthLoginRsp (Some status) _ _ roles created_at)) =>
      if Status_code status =? code.OK then Some (roles, created_at) else None
  | _ => None
  end.

(** C26: a name has one account.  However logins interleave, whatever Redis and
    Mongo answer, and as long as no account lock expires while it is held, a
    stored account is never overwritten, and all logins of a name that succeed
    report the same roles. *)
Theorem one_account_per_name (calls : list (option string * AuthLoginReq)) schedule (w : World) acc :
  let '(pool, w') := interleave handle schedule (map (λ '(ip, request), login d ip request) calls, w) in
  (∀ document, name_document acc w = Some document → name_document acc w' = Some document)
  ∧ ∀ i j ci cj pi pj x y, calls !! i = Some ci → calls !! j = Some cj →
      AuthLoginReq_account ci.2 = acc → AuthLoginReq_account cj.2 = acc →
      pool !! i = Some pi → pool !! j = Some pj → reported pi = Some x → reported pj = Some y → x = y.
Proof.
  set (Q := λ i, match calls !! i with Some (_, request) => reports acc request | None => λ _ _ _, True end).
  assert (pool_rules acc Q (map (λ '(ip, request), login d ip request) calls) w) as Hpool.
  { exists (λ _, (Idle, None)). split_and!; [|done|done]. intros i p Hi. subst Q. simpl.
    revert i Hi. induction calls as [|[ip request] cs IH]; intros [|i] Hi; simplify_eq/=; [apply login_follows|by apply IH]. }
  pose proof (pool_run acc Q schedule _ w Hpool) as Hrun.
  destruct (interleave handle schedule _) as [pool w']. destruct Hrun as [(st & Hp & Hw & _) Hdoc]. split; [exact Hdoc|].
  assert (∀ i c p x, calls !! i = Some c → AuthLoginReq_account c.2 = acc → pool !! i = Some p → reported p = Some x →
    ∃ a, knows acc w' (Some a) ∧ x = (AccountData_roles a, AccountData_created_at a)) as Hone.
  { intros i [ip request] p x Hc Hacc Hi Hx. specialize (Hp i p Hi). unfold Q in Hp. rewrite Hc in Hp.
    destruct p as [[[[status|] account token roles created_at]|]|]; try done. simpl in Hx, Hp.
    destruct (Z.eqb_spec (Status_code status) code.OK) as [Hok|]; [|done]. simplify_eq.
    destruct Hp as [_ Hp]. destruct (Hp Hok eq_refl) as (a & Hk & -> & ->). exists a. split; [|done].
    rewrite <- Hk. apply Hw. }
  intros i j ci cj pi pj x y Hci Hcj Hai Haj Hpi Hpj Hx Hy.
  destruct (Hone i ci pi x Hci Hai Hpi Hx) as (a & Ha & ->). destruct (Hone j cj pj y Hcj Haj Hpj Hy) as (b & Hb & ->).
  destruct (Ha a eq_refl) as (doc & Hd & Hda). destruct (Hb b eq_refl) as (doc' & Hd' & Hdb). by simplify_eq.
Qed.

(** ** Role admission *)

Section admission.
Hypothesis redis_up : ∀ n, redis_net env n = Up.

(** The number of operations of a program over Redis. *)
Fixpoint operations {A} (p : prog (RedisEff string) A) (s : SR) : nat :=
  match p with
  | Ret _ => 0
  | Act e k => let '(x, s) := handle_redis script_error Up _ e s in S (operations (k x) s)
  end.

(** A program over Redis, on a reachable server. *)
Lemma run_redis {A} (p : prog (RedisEff string) A) (w : World) :
  ∃ w', run handle (redis p) w = ((run (handle_redis script_error Up) p (redis_store w)).1, w')
    ∧ redis_store w' = (run (handle_redis script_error Up) p (redis_store w)).2 ∧ permits w' = permits w
    ∧ steps w' = (steps w + operations p (redis_store w))%nat.
Proof using redis_up.
  revert w. induction p as [a|X e k IH]; intros w; [exists w; split_and!; [done..|simpl; lia]|].
  change (redis (Act e k)) with (Act (OnRedis e) (λ x, redis (k x)) : task A). cbn [run]. unfold handle_auth at 1. cbn [answer_auth].
  rewrite redis_up. cbn [operations]. destruct (handle_redis script_error Up X e (redis_store w)) as [x s].
  destruct (IH x (on_steps S (on_redis (λ _, s) w))) as (w' & Hrun & Hs & Hp & Hn). exists w'. split_and!; [exact Hrun|exact Hs|exact Hp|].
  rewrite Hn. simpl. lia.
Qed.

Lemma one_request {X A} (script : prog RedisCall (option X)) (f : Result string X → A) s :
  operations (x ← request script; Ret (f x)) s = 1%nat.
Proof. unfold request. cbn -[handle_redis]. by destruct (handle_redis _ _ _ _ s). Qed.

(** A player whose token is valid and is the one of his record. *)
Definition authenticated (request : AuthUseRoleReq) (w : World) : Prop :=
  0 < AuthUseRoleReq_gid request ∧ AuthUseRoleReq_token request ≠ "" ∧ (8 ≤ String.length (AuthUseRoleReq_device_id request))%nat
  ∧ simple_token_decode (AuthUseRoleReq_token request) (AuthUseRoleReq_device_id request) = Some (AuthUseRoleReq_gid request)
  ∧ ∃ online, (run (handle_redis script_error Up) (load_online (AuthUseRoleReq_gid request)) (redis_store w)).1 = Ok (Some online)
      ∧ token online = AuthUseRoleReq_token request.

Definition failed (rsp : AuthUseRoleRsp) : Prop :=
  AuthUseRoleRsp_status rsp ≠ Some ok_status ∧ AuthUseRoleRsp_endpoints rsp = [] ∧ AuthUseRoleRsp_queue rsp = None.
Definition waits (gid pos : Z) (rsp : AuthUseRoleRsp) : Prop := ∃ now, rsp = queued gid pos now.

(** What follows from the position [pos], with [n] the next operation. *)
Definition positioned (n : nat) (gid available pos : Z) (rsp : AuthUseRoleRsp) (q q' : gmap string Z) : Prop :=
  if LOGIN_QUEUE_CAPACITY <? pos then failed rsp ∧ q' = delete (pretty gid) q
  else if available <? pos then waits gid pos rsp ∧ q' = q
  else
    match allow env n role_admission "all", pick env (S n) with
    | Err _, _ => failed rsp ∧ q' = q
    | Ok false, _ => waits gid pos rsp ∧ q' = q
    | Ok true, Err _ => failed rsp ∧ q' = q
    | Ok true, Ok gate =>
        if bool_decide (gate_endpoints gate = []) then failed rsp ∧ q' = q
        else rsp = mkAuthUseRoleRsp (Some ok_status) gid (gate_endpoints gate) None ∧ q' = delete (pretty gid) q
    end.

(** What an answer means.  [n] is the operation of the run that asked the
    discovery for the Gates; the clock of the queue is read next, and two
    operations later the limiter is asked and then a Gate picked.  [q] and
    [q'] are the queue before and after. *)
Definition admission (n : nat) (gid : Z) (rsp : AuthUseRoleRsp) (q q' : gmap string Z) : Prop :=
  match gates env n with
  | Err _ => failed rsp ∧ q' = q
  | Ok gates_now =>
      let entered := entered gid (seconds env (S n) * 1000) 30000 q in
      ∃ pos, rank_of entered (pretty gid) = Some (pos - 1)
        ∧ positioned (n + 3) gid (available_seats gates_now) pos rsp entered q'
  end.

Lemma use_role_error_fails error_code message : error_code ≠ code.OK → failed (use_role_error error_code message).
Proof. intros Hc. split; [|done]. simpl. intros [=]. done. Qed.

Lemma admit_spec gid (w : World) : 0 < gid →
  ∃ rsp w', run handle (admit_role gid) w = (Some rsp, w') ∧ permits w' = permits w
    ∧ match pick env (steps w) with
      | Err _ => failed rsp ∧ queue (redis_store w') = queue (redis_store w)
      | Ok gate =>
          if bool_decide (gate_endpoints gate = []) then failed rsp ∧ queue (redis_store w') = queue (redis_store w)
          else rsp = mkAuthUseRoleRsp (Some ok_status) gid (gate_endpoints gate) None
               ∧ queue (redis_store w') = delete (pretty gid) (queue (redis_store w))
      end.
Proof using redis_up.
  intros Hg. unfold admit_role. rewrite run_bind, run_await. unfold handle_auth at 1. cbn [answer_auth].
  destruct (pick env (steps w)) as [gate|error].
  2:{ eexists _, _. split_and!; [done|done|by apply use_role_error_fails|done]. }
  case_bool_decide as Hep; [eexists _, _; split_and!; [done|done|by apply use_role_error_fails|done]|].
  rewrite run_bind. set (w1 := on_steps S w).
  destruct (run_redis (leave_login_queue gid) w1) as (w2 & -> & Hs & Hp & _).
  destruct (run_leave script_error gid (redis_store w1) Hg) as (s' & Hrun & Hqs). rewrite Hrun in *. cbn [fst snd] in *.
  eexists _, w2. split_and!; [reflexivity|exact Hp|done|by rewrite Hs].
Qed.

Lemma position_spec gid available pos (w : World) : 0 < gid → 1 <= pos →
  ∃ rsp w', run handle (take_position gid available pos) w = (Some rsp, w') ∧ permits w' = permits w
    ∧ positioned (steps w) gid available pos rsp (queue (redis_store w)) (queue (redis_store w')).
Proof using redis_up.
  intros Hg Hpos. unfold take_position, positioned.
  destruct (LOGIN_QUEUE_CAPACITY <? pos).
  { rewrite run_bind. destruct (run_redis (leave_login_queue gid) w) as (w2 & -> & Hs2 & Hp2 & _).
    destruct (run_leave script_error gid (redis_store w) Hg) as (s2 & Hrun2 & Hq2). rewrite Hrun2 in *. cbn [fst snd] in *.
    eexists _, w2. split_and!; [reflexivity|done|by apply use_role_error_fails|by rewrite Hs2, Hq2]. }
  assert ((available =? 0) || (available <? pos) = (available <? pos)) as ->.
  { destruct (Z.eqb_spec available 0), (Z.ltb_spec available pos); simpl; lia || done. }
  destruct (available <? pos).
  { rewrite run_bind, run_await. unfold handle_auth at 1. cbn [answer_auth]. eexists _, _. split_and!; [reflexivity|done|by eexists|done]. }
  rewrite run_bind, run_await. unfold handle_auth at 1. cbn [answer_auth].
  destruct (allow env (steps w) role_admission "all") as [[|]|error].
  - destruct (admit_spec gid (on_steps S w) Hg) as (rsp & w' & -> & Hp' & Hadm). exists rsp, w'.
    split_and!; [done|by rewrite Hp'|]. change (queue (redis_store (on_steps S w))) with (queue (redis_store w)) in Hadm. exact Hadm.
  - rewrite run_bind, run_await. unfold handle_auth at 1. cbn [answer_auth]. eexists _, _. split_and!; [reflexivity|done|by eexists|done].
  - eexists _, _. split_and!; [done|done|by apply use_role_error_fails|done].
Qed.

Lemma wait_spec gid (w : World) : 0 < gid →
  ∃ rsp w', run handle (wait_for_seat gid) w = (Some rsp, w') ∧ permits w' = permits w
    ∧ admission (steps w) gid rsp (queue (redis_store w)) (queue (redis_store w')).
Proof using redis_up.
  intros Hg. unfold wait_for_seat, admission. rewrite run_bind, run_await. unfold handle_auth at 1. cbn [answer_auth].
  destruct (gates env (steps w)) as [gs|error].
  2:{ eexists _, _. split_and!; [done|done|by apply use_role_error_fails|done]. }
  rewrite run_bind, run_await. unfold handle_auth at 1. cbn [answer_auth]. set (now := _ * 1000). set (w1 := on_steps S (on_steps S w)).
  rewrite run_bind. destruct (run_redis (enqueue_login gid now LOGIN_QUEUE_ENTRY_TTL) w1) as (w2 & -> & Hs & Hp & Hn).
  unfold enqueue_login in Hn. rewrite (proj2 (Z.ltb_lt 0 gid) Hg) in Hn. simpl orb in Hn. cbv iota in Hn. rewrite one_request in Hn.
  destruct (run_enqueue script_error gid now LOGIN_QUEUE_ENTRY_TTL (redis_store w1) Hg ltac:(done)) as (r & s' & Hrun & Hq & Hr).
  rewrite Hrun in *. cbn [fst snd] in *. change (LOGIN_QUEUE_ENTRY_TTL / millis 1) with 30000 in Hq.
  change (queue (redis_store w1)) with (queue (redis_store w)) in Hq.
  change (seconds env (S (steps w)) * 1000) with now. rewrite <- Hq in *.
  assert (1 <= r + 1) as Hpos by (pose proof (rank_bounds _ _ _ Hr); lia).
  assert (queue (redis_store w2) = queue s') as Hq2 by by rewrite Hs.
  assert (steps w2 = (steps w + 3)%nat) as Hn2 by (rewrite Hn; simpl; lia).
  destruct (position_spec gid (available_seats gs) (r + 1) w2 Hg Hpos) as (rsp & w' & -> & Hp' & Hadm).
  exists rsp, w'. split_and!; [done|by rewrite Hp'|]. exists (r + 1). replace (r + 1 - 1) with r by lia.
  split; [done|]. by rewrite Hn2, Hq2 in Hadm.
Qed.
End admission.

Lemma load_online_same {Error} (error : Error) net gid (s : SR) :
  (run (handle_redis error net) (load_online gid) s).2 = s.
Proof.
  unfold load_online. destruct (gid <=? 0); [done|]. unfold command, request. simpl. destruct net; simpl; rewrite ?call_HGETALL; done.
Qed.

(** C27: the outcome of a role admission, handled alone, for an authenticated
    player, with a request permit free and Redis up.  He takes a place in the login queue, or keeps
    the one he had, and is admitted exactly when his position is within the
    capacity of the queue and the free seats of the Gates that the discovery
    reported to this very request, the admission limiter allows it, and a Gate
    with an endpoint could be picked; then, and only then, he is answered
    endpoints, those of that Gate, and leaves the queue.  Without a seat, or
    refused by the limiter, he is answered his position and keeps his place;
    every other answer is an error without an endpoint.  The handler returns
    and gives its permit back. *)
Theorem admission_takes_a_seat request (w : World) :
  (∀ n, redis_net env n = Up) → 0 < permits w → authenticated request w →
  ∃ rsp w', run handle (use_role request) w = (Some rsp, w') ∧ permits w' = permits w
    ∧ admission (steps w + 2) (AuthUseRoleReq_gid request) rsp (queue (redis_store w)) (queue (redis_store w')).
Proof.
  intros Hup Hpermit (Hg & Htoken & Hdevice & Hdecode & online & Honline & Hrecord). unfold use_role, with_permit.
  rewrite run_bind, run_await. unfold handle_auth at 1. cbn [answer_auth]. replace (0 <? permits w) with true by lia. cbn [negb].
  rewrite run_bind. replace (AuthUseRoleReq_gid request <=? 0) with false by lia. rewrite (bool_decide_eq_false_2 _ Htoken).
  replace (Z.of_nat _ <? 8) with false by lia. cbn [orb]. rewrite (bool_decide_eq_true_2 _ Hdecode). cbn [negb]. rewrite run_bind.
  set (w1 := on_steps S _). destruct (run_redis Hup (load_online (AuthUseRoleReq_gid request)) w1) as (w2 & -> & Hs & Hp & Hn).
  change (redis_store w1) with (redis_store w) in *. rewrite load_online_same in Hs.
  assert (steps w2 = (steps w + 2)%nat) as Hn2.
  { rewrite Hn. unfold load_online. replace (AuthUseRoleReq_gid request <=? 0) with false by lia.
    unfold command. rewrite one_request. simpl. lia. } rewrite Honline. rewrite (bool_decide_eq_true_2 _ Hrecord).
  destruct (wait_spec Hup (AuthUseRoleReq_gid request) w2 Hg) as (rsp & w3 & -> & Hp3 & Hadm).
  rewrite run_bind, run_await. unfold handle_auth at 1. cbn [answer_auth]. eexists rsp, _. split; [reflexivity|].
  rewrite Hs, Hn2 in Hadm. split; [simpl; rewrite Hp3, Hp; simpl; lia|exact Hadm].
Qed.

(** ** Tokens *)

Definition code_of (rsp : option AuthUseRoleRsp) : option Z := rsp ← rsp; status ← AuthUseRoleRsp_status rsp; Some (Status_code status).

(** The part of the admission after the authentication answers no
    authentication error. *)
Lemma wait_code gid (w : World) : code_of (run handle (wait_for_seat gid) w).1 ≠ Some code.UNAUTHENTICATED.
Proof.
  unfold wait_for_seat. rewrite run_bind. destruct (run handle (await _) w) as [[gs|error] w1]; [|done].
  rewrite run_bind. destruct (run handle (await _) w1) as [now w2]. rewrite run_bind. destruct (run handle (redis _) w2) as [[[pos|error]|] w3]; [|done..].
  unfold take_position. destruct (_ <? pos).
  { rewrite run_bind. by destruct (run handle (redis _) w3) as [[[u|error]|] w4]. }
  destruct (_ || _); [rewrite run_bind; by destruct (run handle (await _) w3)|].
  rewrite run_bind. destruct (run handle (await _) w3) as [[[|]|error] w4]; [|rewrite run_bind; by destruct (run handle (await _) w4)|done].
  unfold admit_role. rewrite run_bind. destruct (run handle (await _) w4) as [[gate|error] w5]; [|done].
  case_bool_decide; [done|]. rewrite run_bind. by destruct (run handle (redis _) w5) as [[u|] w6].
Qed.

(** [set_token] writes three fields of the record and leaves the others. *)
Definition token_fields (gid : Z) (account token : string) : list (string * string) :=
  [("acc", account); ("gid", pretty gid); ("token", token)].

Lemma set_token_stores gid account token (w w' : World) u :
  run handle (redis (set_token gid account token)) w = (Ok u, w') →
  0 < gid ∧ hash (online_key gid) (redis_store w') = set_fields (token_fields gid account token) (hash (online_key gid) (redis_store w)).
Proof.
  unfold set_token. destruct (Z.leb_spec gid 0) as [|Hg]; [done|]. cbn -[set_and_expire]. unfold handle_auth at 1. cbn -[set_and_expire].
  destruct (redis_net env (steps w)); cbn -[set_and_expire]; [|done..].
  pose proof (run_set_and_expire (online_key gid) (token_fields gid account token) ONLINE_TTL_SECONDS
                (redis_store w) (online_key gid) ltac:(done)) as Hset. unfold token_fields in Hset.
  destruct (run call _ _) as [r s]. destruct Hset as [-> Hhash]. cbn. intros [= _ <-]. split; [done|]. simpl.
  by rewrite Hhash, decide_True.
Qed.

Lemma token_fields_token gid account token h : set_fields (token_fields gid account token) h !! "token" = Some token.
Proof. unfold set_fields. simpl. by simplify_map_eq. Qed.

(** Only [set_token] writes to Redis while a login runs. *)
Definition keeps_redis {A} (p : task A) : Prop := ∀ w : World, redis_store (run handle p w).2 = redis_store w.

Lemma keeps_redis_bind {A B} (p : task A) (f : A → task B) : keeps_redis p → (∀ a, keeps_redis (f a)) → keeps_redis (p ≫= f).
Proof.
  intros Hp Hf w. rewrite run_bind. specialize (Hp w). destruct (run handle p w) as [a w']. by rewrite (Hf a w').
Qed.

Lemma keeps_redis_mongo {A} (p : prog (MongoEff E) A) : keeps_redis (mongo p).
Proof.
  induction p as [a|X e k IH]; intros w; [done|]. cbn. unfold handle_auth at 1. cbn.
  destruct (handle_mongo _ _ e (mongo_store w)) as [x m]. exact (IH x _).
Qed.

Lemma keeps_redis_await {X} (e : AuthEff E X) : match e with OnRedis _ => False | _ => True end → keeps_redis (await e).
Proof.
  intros He w. rewrite run_await. destruct e; try done; unfold handle_auth; cbn.
  - by destruct (0 <? permits w).
  - by destruct (handle_mongo _ _ _ _).
  - destruct (lock_net env _); [done|]. by case_decide.
  - by destruct (lock_net env _).
Qed.

Lemma account_keeps_redis account credential : keeps_redis (load_or_create_account d account credential).
Proof.
  unfold load_or_create_account. apply keeps_redis_bind; [by apply keeps_redis_await|]. intros [[|]|error]; [|done..].
  apply keeps_redis_bind.
  - apply keeps_redis_bind; [apply keeps_redis_mongo|]. intros [[found|]|error]; [done| |done].
    apply keeps_redis_bind; [by apply keeps_redis_await|]. intros gid.
    apply keeps_redis_bind; [by apply keeps_redis_await|]. intros now.
    apply keeps_redis_bind; [apply keeps_redis_mongo|done].
  - intros result. apply keeps_redis_bind; [by apply keeps_redis_await|done].
Qed.

Lemma account_status account credential (w w' : World) status :
  run handle (load_or_create_account d account credential) w = (Some (Err status), w') → status ≠ ok_status.
Proof.
  intros Hrun ->. destruct (follows_run account _ _ _ _ w (account_follows account account credential None)) as (m & know & _ & Hr).
  by rewrite Hrun in Hr.
Qed.

Lemma issue_token_stores request device (w w' : World) rsp :
  run handle (issue_token d request device) w = (Some rsp, w') → AuthLoginRsp_status rsp = Some ok_status →
  ∃ role roles account, AuthLoginRsp_roles rsp = role :: roles ∧ 0 < Role_gid role
    ∧ simple_token_encode (Role_gid role) (DeviceInfo_device_id device) = Ok (AuthLoginRsp_token rsp)
    ∧ hash (online_key (Role_gid role)) (redis_store w')
      = set_fields (token_fields (Role_gid role) account (AuthLoginRsp_token rsp)) (hash (online_key (Role_gid role)) (redis_store w)).
Proof.
  intros Hrun Hok. unfold issue_token in Hrun. rewrite run_bind in Hrun.
  pose proof (account_keeps_redis (AuthLoginReq_account request) (AuthLoginReq_credential request) w) as Hkeep.
  destruct (run handle (load_or_create_account d _ _) w) as [[[a|status]|] w1] eqn:Haccount; [|simplify_eq/=|done].
  2:{ apply account_status in Haccount. congruence. }
  destruct (AccountData_roles a) as [|role roles] eqn:Hroles; [by simplify_eq/=|].
  destruct (simple_token_encode _ _) as [token|error] eqn:Htoken; [|by simplify_eq/=].
  rewrite run_bind in Hrun. destruct (run handle (redis _) w1) as [[u|error] w2] eqn:Hset; [|by simplify_eq/=].
  apply set_token_stores in Hset as [Hg Hhash]. simpl in Hrun, Hkeep. rewrite Hkeep in Hhash. simplify_eq.
  exists role, roles, (AccountData_account a). by split_and!.
Qed.

(** A login that succeeds had a valid request and passed the limiters before it
    issued the token. *)
Lemma login_runs_issue ip request device (w w' : World) rsp :
  run handle (login d ip request) w = (Some rsp, w') → AuthLoginRsp_status rsp = Some ok_status →
  AuthLoginReq_device request = Some device →
  ∃ w1 w2, run handle (issue_token d request device) w1 = (Some rsp, w2)
    ∧ redis_store w1 = redis_store w ∧ redis_store w' = redis_store w2 ∧ invalid_login request device = false.
Proof.
  intros Hrun Hok Hdev. unfold login, with_permit in Hrun. rewrite run_bind in Hrun.
  pose proof (keeps_redis_await TryAcquire I w) as Hr1. destruct (run handle (await TryAcquire) w) as [[|] w1]; cbn [negb] in Hrun; [|by simplify_eq/=].
  rewrite run_bind, Hdev in Hrun. destruct (invalid_login request device); [by simplify_eq/=|].
  rewrite run_bind in Hrun. pose proof (keeps_redis_await (Allow login_global "all") I w1) as Hr2.
  destruct (run handle (await (Allow login_global _)) w1) as [global w2]. rewrite run_bind in Hrun.
  pose proof (keeps_redis_await (Allow login_per_ip (default "unknown" ip)) I w2) as Hr3.
  destruct (run handle (await (Allow login_per_ip _)) w2) as [per_ip w3]. simpl in Hr1, Hr2, Hr3.
  exists w3. destruct global as [[|]|], per_ip as [[|]|]; try by simplify_eq/=.
  destruct (run handle (issue_token d request device) w3) as [r w4]. exists w4. rewrite run_bind, run_await in Hrun.
  unfold handle_auth in Hrun. simpl in Hrun. simplify_eq. split_and!; [done|congruence|done|done].
Qed.

(** A record with a token loads with this token. *)
Lemma load_token gid token (w w' : World) r : (gid <=? 0) = false → hash (online_key gid) (redis_store w) !! "token" = Some token →
  run handle (redis (load_online gid)) w = (r, w') →
  match r with Ok (Some online) => OnlineCache.token online = token | Ok None => False | Err _ => True end.
Proof.
  intros Hg Hhash. unfold load_online. rewrite Hg. cbn. unfold handle_auth at 1. cbn.
  destruct (redis_net env (steps w)); cbn; rewrite ?call_HGETALL; cbn; intros [= <- _]; [|done..].
  case_decide as Hempty; [by rewrite Hempty in Hhash|]. unfold online_of_fields.
  destruct (parse_i64 _ "gid" _); cbn; [|done]. destruct (parse_i64 _ "sess" _); cbn; [|done].
  destruct (parse_i64 _ "lgin" _); cbn; [|done]. destruct (parse_i64 _ "lgou" _); cbn; [|done].
  destruct (parse_i32 _ "psid" _); cbn; [|done]. destruct (parse_i32 _ "gsid" _); cbn; [|done].
  destruct (parse_i32 _ "lsid" _); cbn; [|done].
  by rewrite Hhash.
Qed.

(** A valid token that is the one of the record authenticates. *)
Lemma record_authenticates gid token device_id (w : World) :
  simple_token_decode token device_id = Some gid → hash (online_key gid) (redis_store w) !! "token" = Some token →
  code_of (run handle (use_role (mkAuthUseRoleReq gid token device_id)) w).1 ≠ Some code.UNAUTHENTICATED.
Proof.
  intros Hdecode Hhash. unfold use_role, with_permit. rewrite run_bind, run_await. unfold handle_auth at 1. cbn [answer_auth].
  destruct (0 <? permits w); cbn [negb]; [|done]. set (w1 := on_steps S _). rewrite run_bind.
  cbn [AuthUseRoleReq_gid AuthUseRoleReq_token AuthUseRoleReq_device_id].
  assert (∀ (body : task (option AuthUseRoleRsp)) w, code_of (run handle body w).1 ≠ Some code.UNAUTHENTICATED →
    code_of (let '(a, s') := run handle body w in run handle (_ ← await DropPermit; Ret a) s').1 ≠ Some code.UNAUTHENTICATED) as Hdrop.
  { intros body w0 Hb. destruct (run handle body w0) as [a s]. exact Hb. }
  apply Hdrop. destruct (_ || _) eqn:Hbad; [done|]. rewrite (bool_decide_eq_true_2 _ Hdecode). cbn [negb].
  apply orb_false_iff in Hbad as [[Hg _]%orb_false_iff _].
  rewrite run_bind. destruct (run handle (redis (load_online gid)) w1) as [r w2] eqn:Hload.
  apply (load_token gid token) in Hload; [|done|done]. destruct r as [[online|]|error]; [|done|done].
  rewrite (bool_decide_eq_true_2 _ Hload). apply wait_code.
Qed.

(** The token a login issues is the one that lets the player in.  A login
    that succeeds wrote its token into the record of the player's role, and as
    long as the record has it and the token has not expired, the role admission
    for this player on this device does not answer that he is not
    authenticated. *)
Theorem issued_token_is_accepted ip request device (w : World) rsp w1 :
  run handle (login d ip request) w = (Some rsp, w1) → AuthLoginRsp_status rsp = Some ok_status →
  AuthLoginReq_device request = Some device →
  ∃ role roles, AuthLoginRsp_roles rsp = role :: roles ∧ 0 < Role_gid role
    ∧ hash (online_key (Role_gid role)) (redis_store w1) !! "token" = Some (AuthLoginRsp_token rsp)
    ∧ ∀ w2 : World, hash (online_key (Role_gid role)) (redis_store w2) !! "token" = Some (AuthLoginRsp_token rsp) →
        code_of (run handle (use_role (mkAuthUseRoleReq (Role_gid role) (AuthLoginRsp_token rsp) (DeviceInfo_device_id device))) w2).1
        ≠ Some code.UNAUTHENTICATED.
Proof.
  intros Hrun Hok Hdev. destruct (login_runs_issue _ _ _ _ _ _ Hrun Hok Hdev) as (w2 & w3 & Hissue & _ & Hredis & _).
  destruct (issue_token_stores _ _ _ _ _ Hissue Hok) as (role & roles & account & Hroles & Hg & Hencode & Hhash).
  exists role, roles. rewrite Hredis, Hhash. split_and!; [done..|apply token_fields_token|].
  intros w4 Hw4. apply record_authenticates; [|done]. by eapply decode_issued.
Qed.
End auth.

(** ** Concrete runs *)

Module auth_example.
#[global] Instance sha : Sha256 := {| digest s := (λ a, Z.of_nat (Ascii.nat_of_ascii a)) <$> String.list_ascii_of_string s |}.
#[global] Instance tokens : TokenCoder := {|
  simple_token_decode token device :=
    if decide (String.substring 0 (String.length device) token = device)
    then i64_from_str (String.substring (String.length device) (String.length token - String.length device) token) else None |}.
#[global] Program Instance issuer : TokenIssuer := {|
  simple_token_encode gid device :=
    let token := device +:+ pretty gid in
    if decide (simple_token_decode token device = Some gid) then Ok token else Err "cannot encode" |}.
Next Obligation. intros gid device token. simpl. case_decide; [by intros [= <-]|done]. Qed.
Definition catalog : Database := mkDatabase (mkCollection "xkk" ACCOUNTS) (mkCollection "xkk" PLAYERS) (mkCollection "xkk" PUBLIC_PLAYERS).

Definition gate : ServiceInstance :=
  mkServiceInstance 1 true true 9999 "gate" {[ "tcp_port" := "3201"; "websocket_port" := "3203"; "websocket_path" := "/ws" ]}.
Definition env : AuthEnv (E := bson_error) :=
  mkAuthEnv (λ _, Up) (λ _, Up) (λ _ _ _, Ok true) (λ _, None) (λ _, Ok [gate]) (λ _, Ok gate) (λ n, 1000 + Z.of_nat n) (λ n, 100 + Z.of_nat n).
Definition world : AuthWorld (SR := RedisStore) (SM := MongoStore) := mkAuthWorld 0 1024 ∅ empty_store [].
Definition ann : AuthLoginReq := mkAuthLoginReq "ann" "secret" (Some (mkDeviceInfo "device-1" "" "")).

Definition exec {A} (p : prog (AuthEff bson_error) A) (w : AuthWorld) : A * AuthWorld := run (handle_auth "script" env) p w.
Definition logged_in : option AuthLoginRsp * AuthWorld := exec (login catalog (Some "10.0.0.1") ann) world.
Definition use_105 : AuthUseRoleReq := mkAuthUseRoleReq 105 "device-1105" "device-1".

(** Two logins of the same name, one after the other and overlapping. *)
Definition two_logins : list (option string * AuthLoginReq) := [(None, ann); (None, ann)].
(** A login while the lock of its account is lost in the middle: the lock was
    taken for five seconds, and the store took longer. *)
Definition lock_expires : list nat := replicate 5 0%nat ++ [2%nat] ++ replicate 11 1%nat ++ replicate 6 0%nat.
Definition with_expiry : list (prog (AuthEff bson_error) (option AuthLoginRsp)) :=
  (interleave (handle_auth "script" env) lock_expires
    ([login catalog None ann; login catalog None ann; Act (ReleaseLock (lock_key "ann")) (λ _, Ret None)], world)).1.
End auth_example.
Import auth_example.

Example first_login : reported (Ret (logged_in.1)) = Some ([mkRole 105 0 "Player105" 1 0], 1006).
Proof. vm_compute. reflexivity. Qed.

#[local] Abbreviation after schedule :=
  (interleave (handle_auth "script" env) schedule (map (λ '(ip, request), login catalog ip request) two_logins, world)).

Lemma both_succeed : map (λ p, bool_decide (is_Some (reported p))) (after (replicate 11 0 ++ replicate 9 1)%nat).1 = [true; true].
Proof. vm_compute. reflexivity. Qed.

Lemma one_account_per_name_witness :
  ∃ x, map reported (after (replicate 11 0 ++ replicate 9 1)%nat).1 = [Some x; Some x].
Proof.
  pose proof both_succeed as Hmap. generalize dependent (replicate 11 0 ++ replicate 9 1)%nat. intros schedule Hmap.
  pose proof (one_account_per_name "script" env catalog two_logins schedule world "ann") as Hone.
  destruct (interleave _ _ _) as [pool w']. destruct Hone as [_ Hone]. cbn [fst] in *.
  destruct pool as [|p [|q [|]]]; try discriminate.
  injection Hmap as [x Hp]%bool_decide_eq_true_1 [y Hq]%bool_decide_eq_true_1. exists x. cbn [map]. rewrite Hp, Hq.
  by rewrite (Hone 1%nat 0%nat (None, ann) (None, ann) q p y x eq_refl eq_refl eq_refl eq_refl eq_refl eq_refl Hq Hp).
Defined.

Lemma admission_takes_a_seat_witness :
  ∃ rsp w', exec (use_role use_105) logged_in.2 = (Some rsp, w') ∧ AuthUseRoleRsp_queue rsp = None
    ∧ admission env (steps logged_in.2 + 2) 105 rsp ∅ (queue (redis_store w')).
Proof.
  destruct (admission_takes_a_seat "script" env use_105 logged_in.2) as (rsp & w' & Hrun & _ & Hadm); [done|vm_compute; reflexivity| |].
  - unfold authenticated. split_and!; [done|done|vm_compute; lia|vm_compute; reflexivity|].
    eexists. split; [vm_compute; reflexivity|reflexivity].
  - exists rsp, w'. split_and!; [exact Hrun| |exact Hadm].
    assert (option_map AuthUseRoleRsp_queue (exec (use_role use_105) logged_in.2).1 = Some None) as Hq by (vm_compute; reflexivity).
    unfold exec in Hq. rewrite Hrun in Hq. by injection Hq.
Defined.

Lemma issued_token_is_accepted_witness :
  ∃ rsp, logged_in.1 = Some rsp ∧ code_of (exec (use_role (mkAuthUseRoleReq 105 (AuthLoginRsp_token rsp) "device-1")) logged_in.2).1
    ≠ Some code.UNAUTHENTICATED.
Proof.
  set (reply := mkAuthLoginRsp (Some ok_status) "ann" "device-1105" [mkRole 105 0 "Player105" 1 0] 1006).
  assert (logged_in.1 = Some reply) as Hreply by (vm_compute; reflexivity). exists reply. split; [exact Hreply|].
  destruct (issued_token_is_accepted "script" env catalog (Some "10.0.0.1") ann (mkDeviceInfo "device-1" "" "") world reply logged_in.2)
    as (role & roles & Hroles & _ & Hhash & Haccept); [|reflexivity|reflexivity|].
  - unfold logged_in, exec in *. rewrite <- Hreply. apply surjective_pairing.
  - injection Hroles as <- <-. exact (Haccept logged_in.2 Hhash).
Defined.

(** The lock of an account expires after five seconds, whoever holds it.  When
    the store takes longer, a second login creates the account again under
    another id: both succeed, and the first player's account is lost. *)
Lemma expired_lock_creates_two_accounts :
  map reported with_expiry
  = [Some ([mkRole 117 0 "Player117" 1 0], 1018); Some ([mkRole 111 0 "Player111" 1 0], 1012); None].
Proof. vm_compute. reflexivity. Qed.
