(* ===== verification/LoginFlow.v ===== *)
(** A login across the services: Auth (src/service/auth/src/api.rs) issues a
    token and writes it into the record of the player in Redis
    (src/cache/src/online.rs); the Gate (src/service/gate/src/gateway.rs)
    reads this record when the client connects with the token.  The record is
    the only thing the two services share. *)

From stdpp Require Import pretty.
From S2P Require Import Prelude Effects Routing Proto Decimal Redis OnlineCache OnlineSpec.
From S2P Require Import GateSession GateSessions GateSessionsSpec GateGateway GateGatewaySpec.
From S2P Require Import Mongo Documents AuthApi AuthSpec.

#[local] Open Scope string_scope.
#[local] Open Scope list_scope.
#[local] Open Scope Z_scope.

(** ** The record between the services *)

Section record.
Context {SR : Type} `{!Redis SR}.
Implicit Types (s : SR) (o : OnlineData).

(** The record of a player as a service loads it while Redis is up. *)
Definition published s (gid : Z) : option OnlineData :=
  match (run (handle_redis "" Up) (load_online gid) s).1 with Ok o => o | Err _ => None end.

(** The fields of every record are numbers of their types: a record is only
    ever written by [save_online], [set_token], [set_logic_owner] and
    [clear_gate_by_session]. *)
Definition readable s : Prop :=
  ∀ gid, 0 < gid → ∃ o, online_of_fields (E := string) gid (hash (online_key gid) s) = Ok o.

(** What [set_token] makes of a record. *)
Definition with_token (gid : Z) (acc tok : string) o : OnlineData :=
  {| account := acc; OnlineCache.gid := gid; token := tok; session := session o; login_time := login_time o;
     logout_time := logout_time o; OnlineCache.public_id := OnlineCache.public_id o;
     OnlineCache.gate_id := OnlineCache.gate_id o; OnlineCache.logic_id := OnlineCache.logic_id o |}.

Lemma token_fields_record gid acc tok h o : is_i64 gid → online_of_fields (E := string) gid h = Ok o →
  online_of_fields (E := string) gid (set_fields (token_fields gid acc tok) h) = Ok (with_token gid acc tok o).
Proof.
  intros Hi Hread. set (h' := set_fields _ h).
  assert (∀ f, f ∉ ["acc"; "gid"; "token"] → h' !! f = h !! f) as Hother.
  { intros f Hf. unfold h', set_fields. simpl. rewrite !lookup_insert_ne; set_solver. }
  assert (h' !! "acc" = Some acc ∧ h' !! "gid" = Some (pretty gid) ∧ h' !! "token" = Some tok) as (Ha & Hg & Ht).
  { unfold h', set_fields. simpl. by split_and!; simplify_map_eq. }
  assert (parse_i64 (E := string) h' "gid" gid = Ok gid) as Hgid by (unfold parse_i64; by rewrite Hg, i64_from_str_pretty).
  unfold online_of_fields in *. rewrite Ha, Ht, Hgid.
  assert (∀ f dflt, f ∉ ["acc"; "gid"; "token"] → parse_i64 (E := string) h' f dflt = parse_i64 h f dflt) as H64
    by (intros f dflt Hf; unfold parse_i64; by rewrite Hother).
  assert (∀ f dflt, f ∉ ["acc"; "gid"; "token"] → parse_i32 (E := string) h' f dflt = parse_i32 h f dflt) as H32
    by (intros f dflt Hf; unfold parse_i32; by rewrite Hother).
  rewrite !H64, !H32 by set_solver. destruct (parse_i64 h "gid" gid); [|done]. simpl in *.
  destruct (parse_i64 h "sess" 0); [|done]. simpl in *. destruct (parse_i64 h "lgin" 0); [|done]. simpl in *.
  destruct (parse_i64 h "lgou" 0); [|done]. simpl in *. destruct (parse_i32 h "psid" 0); [|done]. simpl in *.
  destruct (parse_i32 h "gsid" 0); [|done]. simpl in *. destruct (parse_i32 h "lsid" 0); [|done]. simpl in *. by simplify_eq.
Qed.

Lemma published_token gid acc tok s s' : 0 < gid → is_i64 gid → readable s →
  hash (online_key gid) s' = set_fields (token_fields gid acc tok) (hash (online_key gid) s) →
  ∃ o, online_of_fields (E := string) gid (hash (online_key gid) s) = Ok o ∧ published s' gid = Some (with_token gid acc tok o).
Proof.
  intros Hg Hi Hread Hhash. destruct (Hread gid Hg) as [o Ho].
  exists o. split; [done|]. unfold published, load_online. replace (gid <=? 0) with false by lia.
  rewrite run_bind, run_command, call_HGETALL, Hhash. pose proof (token_fields_record gid acc tok _ o Hi Ho) as Hrecord.
  pose proof (token_fields_token gid acc tok (hash (online_key gid) s)) as Ht.
  generalize dependent (set_fields (token_fields gid acc tok) (hash (online_key gid) s)). intros h' _ Hrecord Ht.
  simpl. rewrite decide_False by (by intros ->). by rewrite Hrecord.
Qed.
End record.

(** ** From the token to the session *)

Section flow.
Context {E : Type} `{!Xmongo E, !MapIter Z Z} `{!Sha256} `{!TokenCoder} `{!TokenIssuer}.
Context {SR SM : Type} (script_error : string) `{!Redis SR} `{!Mongo E SM}.
Variable auth_env : AuthEnv (E := E).
Variable catalog : Database.
Context {Conn Payload Bytes Body : Type}.
Context `{!Xnet Conn} `{!CsCodec S2C Payload} `{!Xproto} `{!Decode Body LoginReq} `{!Decode Body ReconnectReq}.
Variable config : SessionConfig.
Variable gate_id : Z.
Variable env : Env.
#[local] Abbreviation auth := (run (handle_auth (SR := SR) (SM := SM) script_error auth_env)).
#[local] Abbreviation gate p w := (run (handle_gate (Conn := Conn) (Payload := Payload) env) p w).2.
Implicit Types (frame : NetFrame Conn Bytes) (head : CsHead) (body : Body) (w : GateWorld Conn Payload).

(** The record of the player allows the token. *)
Lemma verify_online_matches gid tok device o w :
  env_redis env = None → simple_token_decode tok device = Some gid → records w !! gid = Some o →
  OnlineCache.gid o = gid → token o = tok →
  run (handle_gate env) (verify_online (Conn := Conn) (Payload := Payload) gid tok device) w = (Some o, w).
Proof.
  intros Hr Hdecode Hrec Hg Ht. unfold verify_online. rewrite Hdecode, Z.eqb_refl. simpl. unfold redis_answer. rewrite Hr. simpl.
  by rewrite Hrec, Hg, Z.eqb_refl, bool_decide_eq_true_2.
Qed.

(** The record of the player has another token. *)
Lemma verify_online_differs gid tok device o w : records w !! gid = Some o → token o ≠ tok →
  run (handle_gate env) (verify_online (Conn := Conn) (Payload := Payload) gid tok device) w = (None, w).
Proof.
  intros Hrec Ht. destruct (run_verify_online env gid tok device w) as (verified & Hrun & Hver). rewrite Hrun.
  destruct verified as [o'|]; [|done]. destruct (Hver o' eq_refl) as (_ & Hrec' & _ & Ht'). congruence.
Qed.

(** Everything but the token: the connection is live and unbound, the services
    of the player are up and Logic consents. *)
Definition gate_ready frame head gid device o logic public answer w : Prop :=
  let sid := frame_session_id frame in
  conn_session_id (frame_conn frame) = sid ∧ 0 < sid ∧ users w !! sid = None ∧ head_seq head ≠ 0
  ∧ env_redis env = None ∧ env_binds env sid = true ∧ env_closed env sid = false
  ∧ run (handle_gate env) (select_logic o) w = (Some logic, w)
  ∧ env_hash env service_type.PUBLIC gid = Some public
  ∧ env_logic env logic
      {| LogicLoginReq_gid := gid; LogicLoginReq_gate_id := gate_id; LogicLoginReq_player_session := sid;
         LogicLoginReq_device_id := device; LogicLoginReq_reconnect := false |} = Ok answer
  ∧ Status_code <$> LogicLoginRsp_status answer = Some code.OK.

Lemma login_owns_player frame head body gid tok device o logic public answer w :
  decode_body body = Some (mkLoginReq gid tok device) → 0 < gid → tok ≠ "" → 8 <= Z.of_nat (String.length device) →
  simple_token_decode tok device = Some gid → records w !! gid = Some o → OnlineCache.gid o = gid → token o = tok →
  gate_ready frame head gid device o logic public answer w →
  player_owned gate_id env frame head gid o logic public (gate (GateGateway.handle_login config gate_id frame head body) w).
Proof.
  intros Hbody Hg Htok Hdev Hdecode Hrec Hog Hot (Hsid & Hs & Hu & Hseq & Hr & Hb & Hc & Hsel & Hpub & Hlogic & Hok).
  unfold GateGateway.handle_login, decode. rewrite Hbody, !run_bind. cbn [run]. rewrite run_bind, run_await. cbn [handle_gate].
  assert (GateGateway.invalid_login None head (mkLoginReq gid tok device) = false) as Hvalid.
  { unfold GateGateway.invalid_login. simpl. rewrite bool_decide_eq_false_2 by done. lia. }
  rewrite Hsid, Hu, Hvalid, run_bind. cbn [LoginReq_gid LoginReq_token LoginReq_device_id].
  rewrite (verify_online_matches _ _ _ o) by done. rewrite run_bind, Hsel, run_bind, run_await. cbn [handle_gate]. rewrite Hpub.
  destruct (from_signed gid (frame_session_id frame)) as [route|] eqn:Hroute.
  2:{ pose proof (proj2 (from_signed_Some gid (frame_session_id frame) _) (conj Hg (conj Hs eq_refl))). congruence. }
  rewrite run_bind, run_await. cbn [handle_gate]. rewrite Hlogic. destruct (LogicLoginRsp_status answer) as [status|]; [|done].
  injection Hok as Hok. cbn [from_option id]. rewrite Hok, Z.eqb_refl. cbn [negb].
  by apply (accepted_login_owns_player config gate_id env frame head (mkLoginReq gid tok device) o logic public answer).
Qed.

(** What a successful login leaves behind: the record every service loads has
    the token of the response, and the token decodes to the player. *)
Lemma login_publishes ip request device (w w' : AuthWorld) rsp :
  auth (login catalog ip request) w = (Some rsp, w') → AuthLoginRsp_status rsp = Some ok_status →
  AuthLoginReq_device request = Some device → readable (redis_store w) →
  Forall (λ role, is_i64 (Role_gid role)) (AuthLoginRsp_roles rsp) →
  ∃ role roles o, AuthLoginRsp_roles rsp = role :: roles ∧ 0 < Role_gid role
    ∧ published (redis_store w') (Role_gid role) = Some o
    ∧ OnlineCache.gid o = Role_gid role ∧ token o = AuthLoginRsp_token rsp
    ∧ simple_token_decode (AuthLoginRsp_token rsp) (DeviceInfo_device_id device) = Some (Role_gid role)
    ∧ 8 <= Z.of_nat (String.length (DeviceInfo_device_id device)).
Proof.
  intros Hrun Hok Hdev Hread Hids.
  destruct (login_runs_issue script_error auth_env catalog _ _ _ _ _ _ Hrun Hok Hdev) as (w1 & w2 & Hissue & Hw1 & Hw2 & Hvalid).
  destruct (issue_token_stores script_error auth_env catalog _ _ _ _ _ Hissue Hok) as (role & roles & acc & Hroles & Hg & Hencode & Hhash).
  rewrite Hw1, <- Hw2 in Hhash. rewrite Hroles in Hids. apply Forall_cons in Hids as [Hi _].
  destruct (published_token _ _ _ _ _ Hg Hi Hread Hhash) as (o & _ & Hpub).
  eexists role, roles, _. split_and!; [done|done|exact Hpub|done|done|by eapply decode_issued|].
  unfold invalid_login in Hvalid. lia.
Qed.

(** C28: a login works from end to end.  After a successful Auth login, a client
    that connects to any Gate with the issued token from the same device owns
    the player: as long as the Gate reads the record that Auth left in Redis,
    its connection is live and the services of the player consent, the Gate
    installs the session with the chosen routes and names itself in the
    record.  No other agreement between Auth and the Gate is needed. *)
Theorem issued_token_owns_the_player ip request device (w w' : AuthWorld) rsp :
  auth (login catalog ip request) w = (Some rsp, w') → AuthLoginRsp_status rsp = Some ok_status →
  AuthLoginReq_device request = Some device → readable (redis_store w) →
  Forall (λ role, is_i64 (Role_gid role)) (AuthLoginRsp_roles rsp) → AuthLoginRsp_token rsp ≠ "" →
  ∃ role roles o, AuthLoginRsp_roles rsp = role :: roles ∧ published (redis_store w') (Role_gid role) = Some o
    ∧ ∀ g frame head body logic public answer,
        records g !! Role_gid role = published (redis_store w') (Role_gid role) →
        decode_body body = Some (mkLoginReq (Role_gid role) (AuthLoginRsp_token rsp) (DeviceInfo_device_id device)) →
        gate_ready frame head (Role_gid role) (DeviceInfo_device_id device) o logic public answer g →
        player_owned gate_id env frame head (Role_gid role) o logic public
          (gate (GateGateway.handle_login config gate_id frame head body) g).
Proof.
  intros Hrun Hok Hdev Hread Hids Htok.
  destruct (login_publishes _ _ _ _ _ _ Hrun Hok Hdev Hread Hids) as (role & roles & o & Hroles & Hg & Hpub & Hog & Hot & Hdecode & Hlen).
  exists role, roles, o. split_and!; [done..|]. intros g frame head body logic public answer Hrec Hbody Hready.
  rewrite Hpub in Hrec. by eapply login_owns_player.
Qed.

End flow.

(** ** Ann logs in and connects to Gate 2 *)

Module flow_example.
Import auth_example.
#[export] Existing Instances gate_example.conn_id gate_example.codec gate_example.proto gate_example.login_body gate_example.reconnect_body.

Definition reply : AuthLoginRsp := mkAuthLoginRsp (Some ok_status) "ann" "device-1105" [mkRole 105 0 "Player105" 1 0] 1006.
Definition device : DeviceInfo := mkDeviceInfo "device-1" "" "".
Definition record : OnlineData := with_token 105 "ann" "device-1105" OnlineData_default.
Definition connected : GateWorld Z (CsHead * S2C) := on_records (λ _, {[ 105 := record ]}) gate_example.start.
Definition frame : NetFrame Z unit := mkNetFrame 3 3 tt.
Definition request (token : string) : gate_example.Body := gate_example.BLogin (mkLoginReq 105 token "device-1").
Definition after_login (token : string) :=
  (run (handle_gate gate_example.env) (GateGateway.handle_login HARD_LIMITS 2 frame (mkCsHead 0 1 0) (request token)) connected).2.
End flow_example.
Import auth_example flow_example.

Lemma empty_readable : readable empty_store.
Proof. intros gid _. by eexists. Qed.

Lemma ann_logged_in : run (handle_auth "script" env) (login catalog (Some "10.0.0.1") ann) world = (Some reply, logged_in.2).
Proof. assert (logged_in.1 = Some reply) as <- by (vm_compute; reflexivity). apply surjective_pairing. Qed.

Lemma ann_published : published (redis_store logged_in.2) 105 = Some record.
Proof. vm_compute. reflexivity. Qed.

Lemma issued_token_owns_the_player_witness :
  player_owned 2 gate_example.env frame (mkCsHead 0 1 0) 105 record 5 3 (after_login (AuthLoginRsp_token reply)).
Proof.
  destruct (issued_token_owns_the_player "script" env catalog HARD_LIMITS 2 gate_example.env (Bytes := unit)
    (Some "10.0.0.1") ann device world logged_in.2 reply) as (role & roles & o & Hroles & Hpub & Howns).
  - exact ann_logged_in.
  - reflexivity.
  - reflexivity.
  - exact empty_readable.
  - repeat constructor; vm_compute; congruence.
  - discriminate.
  - injection Hroles as <- _. cbn [Role_gid] in *. rewrite ann_published in Hpub. injection Hpub as <-.
    apply (Howns connected frame (mkCsHead 0 1 0) (request (AuthLoginRsp_token reply)) 5 3 gate_example.answer).
    + rewrite ann_published. reflexivity.
    + reflexivity.
    + unfold gate_ready. split_and!; vm_compute; congruence || reflexivity.
Defined.

