(* ===== verification/Cluster.v ===== *)
(** The Gates and the Logic services of a cluster: a Gate's login RPC runs the
    login handler of the Logic service it names
    (src/service/logic/src/player.rs), whose preload runs the kick handler of
    the old Gate (src/service/gate/src/gateway.rs); a disconnect notification
    runs the disconnect handler; all of them share the records in Redis
    (src/cache/src/online.rs).  The handlers are those of [GateGateway] and
    [LogicHandlers]; this file only connects their operations.  The calls
    between services arrive.  [event_prog] is the handler of a packet, a lost
    connection, a push and so on as a program that interleaves with others. *)

From stdpp Require Import functions.
From S2P Require Import Prelude Effects Routing Proto OnlineCache GateSession GateSessions GateGateway GateGatewaySpec.
From S2P Require Import LogicAdmission LogicRuntime LogicPlayer LogicHandlers.

Section cluster.
Context {Conn Payload Bytes Body : Type}.
Context `{!Xnet Conn} `{!CsCodec S2C Payload} `{!Xproto} `{!PacketDecoder Bytes Body} `{!TokenCoder}.
Context `{!Decode Body AckNtf, !Decode Body PingReq, !Decode Body LoginReq, !Decode Body ReconnectReq, !Decode Body LogoutReq,
  !Decode Body PlayerInfoReq, !Decode Body UseItemReq, !Decode Body MailListReq, !Decode Body MailReadReq,
  !Decode Body MailDeleteReq, !Decode Body MailClaimReq}.
Context `{!UnstableSort Item Item_item_id} `{!EncodedLen LogicLoginReq} `{!MapIter Z nat}.
Variable config : SessionConfig.
(** The other parties of each Gate: the connection layer, discovery, the
    forwarded requests and Redis. *)
Variable env : Z → Env.

(** The Gates and Logic services by instance id, and the owner records. *)
Record Cluster := mkCluster {
  gates : Z → GateWorld Conn Payload;
  logics : Z → LogicHandlers.World;
  redis : gmap Z OnlineData
}.

(** One operation of Gate [i]; its view of the records is the shared one. *)
Definition at_gate (i : Z) {X} (f : GateWorld Conn Payload → X * GateWorld Conn Payload) (c : Cluster) : X * Cluster :=
  let '(x, g) := f (on_records (λ _, redis c) (gates c i)) in
  (x, mkCluster (<[i := g]> (gates c)) (logics c) (records g)).

Definition at_logic (l : Z) {X} (f : LogicHandlers.World → X * LogicHandlers.World) (c : Cluster) : X * Cluster :=
  let '(x, w) := f (logics c l) in (x, mkCluster (gates c) (<[l := w]> (logics c)) (redis c)).

Definition handle_local (i : Z) (X : Type) (e : GateEff Conn Payload X) : Cluster → X * Cluster :=
  at_gate i (handle_gate (env i) X e).

(** [HSET gamer:{gid} lsid]: the other fields of a new record read as their
    defaults. *)
Definition set_owner (gid logic_id : Z) (m : gmap Z OnlineData) : gmap Z OnlineData :=
  let d := default (mkOnlineData "" gid "" 0 0 0 0 0 0) (m !! gid) in
  <[gid := mkOnlineData (account d) (OnlineCache.gid d) (token d) (OnlineCache.session d) (login_time d) (logout_time d)
             (OnlineCache.public_id d) (OnlineCache.gate_id d) logic_id]> m.

(** One operation of a handler of Logic [l], other than a call with a preload,
    whose parts are operations of their own below. *)
Definition handle_logic_call (l : Z) (X : Type) (e : LogicEff X) : Cluster → X * Cluster :=
  match e in LogicEff X return Cluster → X * Cluster with
  | SetLogicOwner gid logic_id => λ c,
      if redis_down (logics c l) gid then (Err "redis", c)
      else (Ok tt, mkCluster (gates c) (logics c) (set_owner gid logic_id (redis c)))
  | e => at_logic l (handle_logic _ e)
  end.

(** [try_use_preloaded], up to its preload: the call is refused, or the preload
    is given the player. *)
Definition begin_call (l gid : Z) (c : Cluster) : Result RejectReason.t PlayerState * Cluster :=
  (match LogicHandlers.refuses (logics c l) gid with
   | Some reason => Err reason
   | None => Ok (player_of (logics c l) gid)
   end, c).

(** [try_use_preloaded], after its preload: the logic runs on the player, and a
    change is saved. *)
Definition finish_call {R : Type} (l gid : Z) (logic : PlayerState → option (R * PlayerState)) (c : Cluster)
  : Result RejectReason.t (CallResult R) * Cluster :=
  match logic (player_of (logics c l) gid) with
  | None => (Ok (Err LogicCallError.RuntimeStopped), c)
  | Some (v, p) => at_logic l (λ w, settle w gid v p) c
  end.

(** ** Events *)

#[local] Abbreviation Frame := (NetFrame Conn Bytes).

(** [Stop] is the end of a Gate, after its workers ended; [Token] is a token
    that Auth issues.  [schedule] says how the cleanups of a stopped Gate take
    turns. *)
Inductive event :=
| Packet (i : Z) (frame : Frame)
| Lost (i : Z) (c : Conn)
| PushMail (i : Z) (ntf : MailPushNtf)
| Prune (i : Z) (now : Z)
| Stop (i : Z) (workers : list (Conn * list Frame)) (schedule : list nat)
| Token (gid : Z) (account token : string).

(** A handler of a Gate as a program over the operations of the cluster: those
    of the Gate and, for a call of a Logic service, those of its handler, and
    for the kick that the preload of a login sends, those of the kick handler
    of the old Gate.  The handlers of all services interleave at these
    operations.  A call of the player runtime of Logic is one operation, since
    the runtime runs the calls of a player one at a time; a call with a preload
    begins, runs its preload and finishes, and here even other calls of the
    player may come in between. *)
Inductive ClusterEff : Type → Type :=
| AtGate {X : Type} (i : Z) (e : GateEff Conn Payload X) : ClusterEff X
| AtLogic {X : Type} (l : Z) (e : LogicEff X) : ClusterEff X
| BeginCall (l gid : Z) : ClusterEff (Result RejectReason.t PlayerState)
| FinishCall {R : Type} (l gid : Z) (logic : PlayerState → option (R * PlayerState)) : ClusterEff (Result RejectReason.t (CallResult R))
| SetToken (gid : Z) (account token : string) : ClusterEff unit.

(** [set_token] of Auth: [HSET gamer:{gid} acc gid token]. *)
Definition set_token_of (gid : Z) (account token : string) (m : gmap Z OnlineData) : gmap Z OnlineData :=
  let d := default (mkOnlineData "" gid "" 0 0 0 0 0 0) (m !! gid) in
  if gid <=? 0 then m
  else <[gid := mkOnlineData account gid token (OnlineCache.session d) (login_time d) (logout_time d)
                  (OnlineCache.public_id d) (OnlineCache.gate_id d) (OnlineCache.logic_id d)]> m.

Definition handle_op (X : Type) (e : ClusterEff X) : Cluster → X * Cluster :=
  match e in ClusterEff X return Cluster → X * Cluster with
  | AtGate i e => handle_local i _ e
  | AtLogic l e => handle_logic_call l _ e
  | BeginCall l gid => begin_call l gid
  | FinishCall l gid logic => finish_call l gid logic
  | SetToken gid account token => λ c, (tt, mkCluster (gates c) (logics c) (set_token_of gid account token (redis c)))
  end.

(** [call_routed_to] of a login preload runs the kick handler of the old Gate,
    whose operations are all its own. *)
Definition expand_kick (X : Type) (e : KickEff X) : prog ClusterEff X :=
  match e in KickEff X return prog ClusterEff X with
  | CallGate old_gate _ kick => rsp ← lift (λ X e, AtGate old_gate e) (kick_session config kick); Ret (Ok rsp)
  end.

Fixpoint in_preload {A} (p : prog KickEff A) : prog ClusterEff A :=
  match p with
  | Ret a => Ret a
  | Act e k => expand_kick _ e ≫= λ x, in_preload (k x)
  end.

Definition expand_logic (l : Z) (X : Type) (e : LogicEff X) : prog ClusterEff X :=
  match e in LogicEff X return prog ClusterEff X with
  | TryUsePreloaded gid kib preload logic =>
      begun ← await (BeginCall l gid);
      match begun with
      | Err reason => Ret (Err reason)
      | Ok player =>
          loaded ← in_preload (preload player);
          match loaded with
          | None => Ret (Ok (Err LogicCallError.RuntimeStopped))
          | Some (Err error) => Ret (Ok (Err (LogicCallError.Preload error)))
          | Some (Ok a) => await (FinishCall l gid (logic a))
          end
      end
  | e => await (AtLogic l e)
  end.

Fixpoint in_logic (l : Z) {A} (p : prog LogicEff A) : prog ClusterEff A :=
  match p with
  | Ret a => Ret a
  | Act e k => expand_logic l _ e ≫= λ x, in_logic l (k x)
  end.

Definition expand (i : Z) (X : Type) (e : GateEff Conn Payload X) : prog ClusterEff X :=
  match e in GateEff _ _ X return prog ClusterEff X with
  | CallLogicLogin l route r =>
      rsp ← in_logic l (LogicHandlers.handle_login l (mkRpcHead (route_key route) (route_session route)) r); Ret (Ok rsp)
  | NotifyLogic l ntf => _ ← in_logic l (handle_disconnect ntf); Ret (Ok tt)
  | e => await (AtGate i e)
  end.

Fixpoint expanded (i : Z) {A} (p : prog (GateEff Conn Payload) A) : prog ClusterEff A :=
  match p with
  | Ret a => Ret a
  | Act e k => expand i _ e ≫= λ x, expanded i (k x)
  end.

(** [GateGateway.shutdown], whose cleanups interleave at the operations of the
    cluster. *)
Definition stop_prog (i : Z) (workers : list (Conn * list Frame)) (schedule : list nat) : prog ClusterEff unit :=
  closing ← expanded i (drain_sessions workers);
  concurrent (Z.to_nat SHUTDOWN_CLEANUP_CONCURRENCY) schedule [] (List.map (λ s, expanded i (cleanup_shutdown_session i s)) closing).

Definition event_prog (e : event) : prog ClusterEff unit :=
  match e with
  | Packet i frame => expanded i (handle_packet config i frame)
  | Lost i conn => expanded i (connection_lost i conn)
  | PushMail i ntf => expanded i (push_mail config ntf)
  | Prune i now => expanded i (_ ← in_store (prune_expired config now); Ret tt)
  | Stop i workers schedule => stop_prog i workers schedule
  | Token gid account token => await (SetToken gid account token)
  end.

(** One event after the other. *)
Definition handle_event (e : event) (c : Cluster) : Cluster := (run handle_op (event_prog e) c).2.
Definition handle_events (events : list event) (c : Cluster) : Cluster := foldl (λ c e, handle_event e c) c events.

(** ** Who acts

    A handler may open a connection of one player ([Entering], by a login or by
    a reconnect, which [resumes]), end one connection ([Leaving]) or all those
    of a Gate ([Stopping]), or write the token of a player ([Issuing]); the
    others do nothing of that. *)
Inductive Party :=
| Calm
| Leaving (i sid : Z)
| Stopping (i : Z)
| Entering (resumes : bool) (gid i sid : Z)
| Issuing (gid : Z).

Definition party (e : event) : Party :=
  match e with
  | Packet i frame =>
      match decode_packet (frame_payload frame) with
      | Some (head, body) =>
          match from_u16 (head_msgid head) with
          | Some MsgId.LoginReq =>
              match decode_body body with Some r => Entering false (LoginReq_gid r) i (frame_session_id frame) | None => Calm end
          | Some MsgId.ReconnectReq =>
              match decode_body body with Some r => Entering true (ReconnectReq_gid r) i (frame_session_id frame) | None => Calm end
          | Some MsgId.LogoutReq => Leaving i (frame_session_id frame)
          | _ => Calm
          end
      | None => Calm
      end
  | Lost i conn => Leaving i (conn_session_id conn)
  | Stop i _ _ => Stopping i
  | Token gid _ _ => Issuing gid
  | _ => Calm
  end.

(** The logins in progress are of different players on different connections,
    a connection is not left while a login on it is in progress, and no token
    is issued to a player who reconnects. *)
Definition compat (w w' : Party) : bool :=
  match w, w' with
  | Entering _ g i s, Entering _ g' i' s' => negb (g =? g') && negb ((i =? i') && (s =? s'))
  | Entering _ _ i s, Leaving i' s' | Leaving i' s', Entering _ _ i s => negb ((i =? i') && (s =? s'))
  | Entering _ _ i _, Stopping i' | Stopping i', Entering _ _ i _ => negb (i =? i')
  | Entering true g _ _, Issuing g' | Issuing g', Entering true g _ _ => negb (g =? g')
  | _, _ => true
  end.

(** ** Who is connected where *)

(** Gate [i] has a connection of the player, under the session id [sid]. *)
Definition connected (c : Cluster) (i gid sid : Z) : Prop := current_active (store (gates c i)) gid sid.

(** A player has at most one connection in the whole cluster. *)
Definition one_connection (c : Cluster) : Prop :=
  ∀ i j gid sid sid', connected c i gid sid → connected c j gid sid' → i = j ∧ sid = sid'.
End cluster.
