(* ===== verification/ClusterSpec.v ===== *)
(** The invariant of a cluster, and what an operation of each party may do to
    it.  A connection of a player at a Gate is the session that the Logic
    service named by his record holds ([sound]).  The operations of a Gate lose
    connections at most, but for the installation of a session; a call of
    Logic ends the connections of the player or is refused. *)

From stdpp Require Import functions.
From S2P Require Import Prelude Effects Rely Routing Proto LogicAdmission LogicRuntime LogicPlayer LogicHandlers LogicOnline.
From S2P Require Import OnlineCache GateSession GateSessions GateSessionsSpec GateGateway GateGatewaySpec Cluster.

Create HintDb cluster discriminated.

(** ** The session store *)

Section store.
Context {Conn Payload : Type} `{!Xnet Conn} `{!CsCodec S2C Payload} `{!Xproto} `{!MapIter Z nat}.
Variable config : SessionConfig.
Implicit Types (sw : GateSessions.World Conn Payload) (s : ClientSession Conn Payload).

Definition address sw (gid : Z) : option nat := players (sessions sw) !! gid.

(** The connections in [N] may appear, the others can only disappear; a player
    keeps his cell, loses it, or has a new one. *)
Definition store_step (N : Z → Z → Prop) sw sw' : Prop :=
  (store_ok (sessions sw) → store_ok (sessions sw'))
  ∧ (∀ gid sid, current_active sw' gid sid → N gid sid ∨ current_active sw gid sid ∧ address sw' gid = address sw gid)
  ∧ (length (cells (sessions sw)) ≤ length (cells (sessions sw')))%nat
  ∧ ∀ gid a, address sw' gid = Some a → address sw gid = Some a ∨ (length (cells (sessions sw)) ≤ a)%nat.

Lemma store_step_refl N sw : store_step N sw sw.
Proof. split_and!; auto. Qed.

Lemma store_step_trans N sw1 sw2 sw3 : store_step N sw1 sw2 → store_step N sw2 sw3 → store_step N sw1 sw3.
Proof.
  intros (A1 & B1 & C1 & D1) (A2 & B2 & C2 & D2). split_and!; [auto| |lia|].
  - intros gid sid [?|[[?|[? H1]]%B1 H2]]%B2; [by left..|]. right. split; [done|congruence].
  - intros gid a [[?|?]%D1|?]%D2; [by left|by right|right; lia].
Qed.

Lemma store_step_weaken (N N' : Z → Z → Prop) sw sw' : (∀ gid sid, N gid sid → N' gid sid) → store_step N sw sw' → store_step N' sw sw'.
Proof. intros HN (A & B & C & D). split_and!; [done| |done..]. intros gid sid [?|?]%B; auto. Qed.

Lemma attached_at sw gid a s : address sw gid = Some a → cells (sessions sw) !! a = Some s → attached (sessions sw) gid = Some s.
Proof. unfold address, attached. by intros ->. Qed.

(** A change of one cell. *)
Lemma cell_step N sw sw' a s s' : cells (sessions sw) !! a = Some s → sessions sw' = on_cells <[a := s']> (sessions sw) →
  (active s' = true → active s = true ∧ session_id s' = session_id s ∨ ∀ gid, address sw gid = Some a → N gid (session_id s')) →
  store_step N sw sw'.
Proof.
  intros Ha Hsw Hs'. assert (∀ g, address sw' g = address sw g) as Haddr by (intros g; unfold address; by rewrite Hsw).
  split_and!.
  - intros Hok. rewrite Hsw. by apply store_ok_cell.
  - intros gid sid (t & Ht & <- & Hact). apply attached_address in Ht as (b & Hb & Ht). change (address sw' gid = Some b) in Hb.
    rewrite Hsw in Ht. simpl in Ht. destruct (decide (b = a)) as [->|Hne].
    + rewrite list_lookup_insert_eq in Ht by (by eapply lookup_lt_Some). injection Ht as <-. rewrite Haddr in Hb.
      destruct (Hs' Hact) as [[H1 H2]|HN]; [|left; by apply HN]. right. split; [|by rewrite Haddr].
      exists s. split_and!; [by eapply attached_at|congruence|done].
    + rewrite list_lookup_insert_ne in Ht by done. right. split; [|by rewrite Haddr]. rewrite Haddr in Hb.
      exists t. by split_and!; [eapply attached_at| |].
  - rewrite Hsw. simpl. by rewrite length_insert.
  - intros gid b. rewrite Haddr. by left.
Qed.

Lemma lock_run {R} a (gone : R) f sw s : cells (sessions sw) !! a = Some s →
  ∃ r s' sw1, run handle_conn (f s) sw = ((r, s'), sw1) ∧ handle_sessions _ (LockSession a gone f) sw = (r, with_cell a s' sw1)
    ∧ sessions (with_cell a s' sw1) = on_cells <[a := s']> (sessions sw).
Proof.
  intros Ha. simpl. rewrite Ha. pose proof (conn_keeps_sessions (f s) sw) as Hsw. destruct (run handle_conn (f s) sw) as [[r s'] sw1].
  exists r, s', sw1. simpl in *. by rewrite Hsw.
Qed.

(** The operations that open no connection. *)
Definition calm_store (X : Type) (e : SessionsEff Conn Payload X) : Prop :=
  ∀ sw, store_step (λ _ _, False) sw (handle_sessions X e sw).2.

Lemma get_calm gid : calm_store _ (GetSession gid).
Proof. intros sw. apply store_step_refl. Qed.

Lemma lock_calm {R} a (gone : R) f :
  (∀ s sw, let '((_, s'), _) := run handle_conn (f s) sw in active s' = true → active s = true ∧ session_id s' = session_id s) →
  calm_store _ (LockSession a gone f).
Proof.
  intros Hf sw. destruct (cells (sessions sw) !! a) as [s|] eqn:Ha; [|simpl; rewrite Ha; apply store_step_refl].
  destruct (lock_run a gone f sw s Ha) as (r & s' & sw1 & Hr & -> & Hsw). specialize (Hf s sw). rewrite Hr in Hf.
  apply (cell_step _ sw _ a s s'); [done..|]. by left; apply Hf.
Qed.

Lemma pure_lock_calm {R} a (gone : R) f : (∀ s, core (f s).1 = core s) → calm_store _ (LockSession a gone (pure_section f)).
Proof.
  intros Hf. apply lock_calm. intros s sw. unfold pure_section. specialize (Hf s). destruct (f s) as [s' r]. simpl in *.
  unfold core, active in *. by injection Hf as -> -> _.
Qed.

Lemma players_calm {R} (f : Sessions Conn Payload → prog (ConnEff Conn Payload) (R * Sessions Conn Payload)) :
  (∀ st sw, let '((_, st'), _) := run handle_conn (f st) sw in (length (cells st) ≤ length (cells st'))%nat
     ∧ ∀ gid a, players st' !! gid = Some a → players st !! gid = Some a ∧ cells st' !! a = cells st !! a) →
  calm_store _ (LockPlayers f).
Proof.
  intros Hf sw. simpl. specialize (Hf (sessions sw) sw). destruct (run handle_conn (f (sessions sw)) sw) as [[r st'] sw1].
  destruct Hf as [Hlen Hp]. unfold store_step, address, current_active. simpl. split_and!.
  - intros [Hl Hi]. split; [intros gid a [Ha _]%Hp; specialize (Hl gid a Ha); lia|].
    intros g g' a [Ha _]%Hp [Ha' _]%Hp. by eapply Hi.
  - intros gid sid (s & Hs & Hsid & Hact). simpl in Hs. apply attached_address in Hs as (a & Ha & Hs). destruct (Hp gid a Ha) as [Ha' Hc].
    right. split; [|by rewrite Ha, Ha']. exists s. split_and!; [|done..]. unfold attached. rewrite Ha'. simpl. by rewrite <- Hc.
  - done.
  - intros gid a [Ha _]%Hp. by left.
Qed.

Lemma locked_calm {R} gid (missing : R) f : (∀ a, calm_store _ (LockSession a missing f)) → all_acts calm_store (locked gid missing f).
Proof. intros Hf. constructor; [apply get_calm|]. intros [a|]; constructor; [apply Hf|]. intros x. constructor. Qed.

Lemma send_calm gid sid msgid (message : S2C) : all_acts calm_store (send config gid sid msgid message).
Proof.
  apply locked_calm. intros a. apply lock_calm. intros s sw. unfold send_section. case_if; [simpl; by split|]. simpl.
  pose proof (encode_core config msgid message (clock sw) s) as He.
  destruct (encode msgid message (clock sw) config s) as [s' p]. destruct He as (Hid & Hc & _).
  assert (active s' = true → active s = true ∧ session_id s' = session_id s) by (unfold active; by rewrite Hc, Hid).
  destruct p as [x|]; [|done]. destruct (conn s') as [c|]; [|done]. simpl. by destruct (GateSessions.refuses sw _).
Qed.

Lemma disconnect_calm gid sid now : all_acts calm_store (GateSessions.disconnect gid sid now).
Proof.
  apply locked_calm. intros a. apply lock_calm. intros s sw. unfold pure_section, disconnect_session. by case_if.
Qed.

Lemma invalidate_calm gid sid : all_acts calm_store (invalidate gid sid).
Proof.
  apply all_acts_await, players_calm. intros st sw. destruct (attached st gid); [|by simpl; auto]. simpl. split; [by case_if|].
  intros g a Ha. case_if; [|done]. simpl in *. apply lookup_delete_Some in Ha. by destruct Ha.
Qed.

Lemma prune_calm now : all_acts calm_store (prune_expired config now).
Proof.
  apply all_acts_await, players_calm. intros st sw. simpl. split; [done|]. by intros g a [Ha _]%map_lookup_filter_Some.
Qed.

Lemma kick_section_calm a sid code reason : calm_store _ (LockSession a None (kick_section config SKick sid code reason)).
Proof.
  apply lock_calm. intros s sw. destruct (decide (session_id s = sid)) as [Hsid|Hsid].
  - destruct (kick_section_run config SKick sid code reason s sw Hsid) as (s' & sw1 & -> & Hc & _). unfold active. by rewrite Hc.
  - unfold kick_section. replace (session_id s =? sid) with false by lia. simpl. done.
Qed.

Lemma kick_remove_calm gid a c : calm_store _ (LockPlayers (kick_remove gid a c)).
Proof.
  apply players_calm. intros st sw. unfold kick_remove. destruct c; simpl;
    (split; [by case_decide|]); intros g b Hb; case_decide; simpl in *; try done; apply lookup_delete_Some in Hb; by destruct Hb.
Qed.

Lemma kick_calm gid sid code reason : all_acts calm_store (kick config SKick gid sid code reason).
Proof.
  constructor; [apply get_calm|]. intros [a|]; [|constructor]. apply all_acts_bind; [apply all_acts_await, kick_section_calm|].
  intros [c|]; [|constructor]. apply all_acts_await, kick_remove_calm.
Qed.

Lemma drain_loop_length entries (cs : list (ClientSession Conn Payload)) sw :
  length (run handle_conn (drain_loop entries cs) sw).1.2 = length cs.
Proof.
  revert cs sw. induction entries as [|[gid a] entries IH]; intros cs sw; [done|]. cbn [drain_loop].
  destruct (cs !! a) as [s|]; [|apply IH]. rewrite run_bind. destruct (run handle_conn _ sw) as [u sw1]. rewrite run_bind.
  specialize (IH (<[a := with_conn None s]> cs) sw1). destruct (run handle_conn (drain_loop _ _) sw1) as [[rest cs'] sw2]. simpl in *.
  by rewrite IH, length_insert.
Qed.

Lemma drain_calm : all_acts calm_store drain.
Proof.
  apply all_acts_await, players_calm. intros st sw. rewrite run_bind. pose proof (drain_loop_length (map_iter (players st)) (cells st) sw) as Hl.
  destruct (run handle_conn _ sw) as [[closing cs] sw1]. simpl in *. split; [lia|]. intros gid a. by rewrite lookup_empty.
Qed.

(** ** Sessions that have ended *)

Lemma connected_cell sw gid sid a : current_active sw gid sid → address sw gid = Some a →
  ∃ s, cells (sessions sw) !! a = Some s ∧ session_id s = sid ∧ active s = true.
Proof. intros (s & (b & Hb & Hs)%attached_address & ? & ?) Ha. unfold address in Ha. rewrite Ha in Hb. injection Hb as <-. by exists s. Qed.

Lemma changed_cell_ends sw sw' gid sid a s s' : cells (sessions sw) !! a = Some s → sessions sw' = on_cells <[a := s']> (sessions sw) →
  address sw gid = Some a → (active s' = true → session_id s' ≠ sid) → ¬ current_active sw' gid sid.
Proof.
  intros Ha Hsw Haddr Hs' Hcon. destruct (connected_cell sw' gid sid a Hcon) as (t & Ht & <- & Hact); [unfold address; by rewrite Hsw|].
  rewrite Hsw in Ht. simpl in Ht. rewrite list_lookup_insert_eq in Ht by (by eapply lookup_lt_Some). injection Ht as <-. by apply Hs'.
Qed.

Lemma disconnect_ends a sid now sw gid : address sw gid = Some a →
  ¬ current_active (handle_sessions _ (LockSession a (@None Routes) (pure_section (disconnect_session sid now))) sw).2 gid sid.
Proof.
  intros Haddr. destruct (cells (sessions sw) !! a) as [s|] eqn:Ha.
  2:{ simpl. rewrite Ha. intros Hcon. destruct (connected_cell _ _ _ _ Hcon Haddr) as (s & Hs & _). simpl in Hs. congruence. }
  destruct (lock_run a None (pure_section (disconnect_session sid now)) sw s Ha) as (r & s' & sw1 & Hr & -> & Hsw).
  eapply changed_cell_ends; [done..|]. unfold pure_section, disconnect_session in Hr.
  destruct (_ || _) eqn:E; simpl in Hr; injection Hr as _ <- _; [|done]. intros Hact <-. rewrite Hact, Z.eqb_refl in E. done.
Qed.

Lemma invalidate_ends gid sid sw : ¬ current_active (run handle_sessions (invalidate gid sid) sw).2 gid sid.
Proof.
  unfold invalidate. rewrite run_await. cbn [handle_sessions]. destruct (attached (sessions sw) gid) as [s|] eqn:Hs; simpl.
  2:{ intros (t & Ht & _). simpl in Ht. congruence. }
  destruct (Z.eqb_spec (session_id s) sid); simpl; intros (t & Ht & ? & _); simpl in Ht; [|congruence].
  unfold attached in Ht. simpl in Ht. by rewrite lookup_delete_eq in Ht.
Qed.

Lemma drain_ends sw gid sid : ¬ current_active (run handle_sessions drain sw).2 gid sid.
Proof.
  unfold drain. rewrite run_await. cbn [handle_sessions]. rewrite run_bind. destruct (run handle_conn _ sw) as [[closing cs] sw1].
  intros (t & Ht & _). unfold attached in Ht. simpl in Ht. by rewrite lookup_empty in Ht.
Qed.

(** The section of a kick ends the session in its cell. *)
Lemma kick_section_ends a gid sid code reason sw : address sw gid = Some a →
  ¬ current_active (handle_sessions _ (LockSession a None (kick_section config SKick sid code reason)) sw).2 gid sid.
Proof.
  intros Ha. destruct (cells (sessions sw) !! a) as [s|] eqn:Hs.
  2:{ simpl. rewrite Hs. intros Hcon. destruct (connected_cell _ _ _ a Hcon) as (t & Ht & _); [done|]. simpl in Ht. congruence. }
  destruct (lock_run a None (kick_section config SKick sid code reason) sw s Hs) as (r & s' & sw1 & Hr & -> & Hsw).
  eapply changed_cell_ends; [done..|]. destruct (decide (session_id s = sid)) as [Hsid|Hsid].
  - destruct (kick_section_run config SKick sid code reason s sw Hsid) as (t & sw2 & Hr' & Hc & _). rewrite Hr in Hr'.
    injection Hr' as _ -> _. unfold active. by rewrite Hc.
  - unfold kick_section in Hr. replace (session_id s =? sid) with false in Hr by lia. simpl in Hr. by injection Hr as _ <- _.
Qed.

(** ** Sessions that begin *)

Lemma install_step (N : Z → Z → Prop) gid conn rts seq sw : store_ok (sessions sw) → N gid (conn_session_id conn) →
  store_step N sw (run handle_sessions (install_login gid conn rts seq) sw).2.
Proof.
  intros Hok HN. unfold install_login. rewrite run_await. cbn [handle_sessions run]. set (st := sessions sw) in *.
  match goal with |- store_step N sw ?w => set (sw' := w) end.
  assert (sessions sw' = mkSessions (<[gid := length (cells st)]> (players st)) (cells st ++ [new conn rts seq])) as Hsw by done. clearbody sw'.
  unfold store_step, address. rewrite Hsw. fold st. cbn [players cells]. split_and!.
  - intros _. by apply active_install.
  - intros g sid (t & (a & Ha & Ht)%attached_address & <- & Hact). rewrite Hsw in Ha, Ht. simpl in Ha, Ht.
    destruct (decide (g = gid)) as [->|Hne].
    + rewrite lookup_insert_eq in Ha. injection Ha as <-. rewrite list_lookup_middle in Ht by done. injection Ht as <-. by left.
    + rewrite lookup_insert_ne in Ha by done. rewrite lookup_app_l in Ht by (by apply (proj1 Hok g)).
      right. split; [|by rewrite lookup_insert_ne]. exists t. split_and!; [by eapply attached_at|done..].
  - rewrite length_app. lia.
  - intros g a. destruct (decide (g = gid)) as [->|Hne]; [rewrite lookup_insert_eq; intros [= <-]; by right|].
    rewrite lookup_insert_ne by done. by left.
Qed.

Lemma complete_reconnect_session previous conn sq ack now s :
  match (complete_reconnect previous conn sq ack now config s).2 with
  | Ok _ => session_id (complete_reconnect previous conn sq ack now config s).1 = conn_session_id conn
  | Err _ => core (complete_reconnect previous conn sq ack now config s).1 = core s
  end.
Proof.
  unfold complete_reconnect. case_if; [done|]. case_if; [done|]. rewrite prune_outbox_unfold. by destruct (match _ with Some _ => _ | None => _ end).
Qed.

Lemma reconnect_step (N : Z → Z → Prop) a gone previous conn sq ack now sw :
  (∀ g, address sw g = Some a → N g (conn_session_id conn)) →
  store_step N sw (handle_sessions _ (LockSession a gone (pure_section (complete_reconnect previous conn sq ack now config))) sw).2.
Proof.
  intros HN. destruct (cells (sessions sw) !! a) as [s|] eqn:Ha; [|simpl; rewrite Ha; apply store_step_refl].
  destruct (lock_run a gone (pure_section (complete_reconnect previous conn sq ack now config)) sw s Ha) as (r & s' & sw1 & Hr & -> & Hsw).
  eapply cell_step; [done..|]. pose proof (complete_reconnect_session previous conn sq ack now s) as Hs. unfold pure_section in Hr.
  destruct (complete_reconnect previous conn sq ack now config s) as [t o]. simpl in Hr, Hs. injection Hr as _ <- _. intros Hact.
  destruct o; [right; by rewrite Hs|left]. unfold core, active in *. injection Hs as H1 H2 _. by rewrite H1, <- H2.
Qed.
End store.
#[export] Hint Resolve send_calm disconnect_calm invalidate_calm prune_calm kick_calm drain_calm : cluster.

(** ** The invariant, and the steps of a party *)

Section cluster.
Context {Conn Payload Bytes Body : Type}.
Context `{!Xnet Conn} `{!CsCodec S2C Payload} `{!Xproto} `{!PacketDecoder Bytes Body} `{!TokenCoder}.
Context `{!Decode Body AckNtf, !Decode Body PingReq, !Decode Body LoginReq, !Decode Body ReconnectReq, !Decode Body LogoutReq,
  !Decode Body PlayerInfoReq, !Decode Body UseItemReq, !Decode Body MailListReq, !Decode Body MailReadReq,
  !Decode Body MailDeleteReq, !Decode Body MailClaimReq}.
Context `{!UnstableSort Item Item_item_id} `{!EncodedLen LogicLoginReq} `{!MapIter Z nat}.
Variable config : SessionConfig.
Variable env : Z → Env.
#[local] Abbreviation Cluster := (Cluster (Conn := Conn) (Payload := Payload)).
#[local] Abbreviation task := (prog (GateEff Conn Payload)).
#[local] Abbreviation GW := (GateWorld Conn Payload).
Implicit Types (c : Cluster) (frame : NetFrame Conn Bytes) (w : Party).

Definition session_at c (l gid : Z) : option PlayerSession := LogicPlayer.session (player_of (logics c l) gid).

(** The Logic that the record of the player names. *)
Definition named c (gid : Z) : option Z := OnlineCache.logic_id <$> redis c !! gid.

(** What a Gate compares a login with. *)
Definition credential c (gid : Z) : option (Z * string) := (λ d, (OnlineCache.gid d, OnlineCache.token d)) <$> redis c !! gid.

(** The stores are in order and Logic holds real sessions only. *)
Definition well_formed c : Prop :=
  (∀ i, store_ok (sessions (store (gates c i)))) ∧ ∀ l gid, session_ok (player_of (logics c l) gid).

(** A connection of the player is bound, and it is the session that the Logic
    in his record holds. *)
Definition sound_at c (gid : Z) : Prop :=
  ∀ i sid, connected c i gid sid → users (gates c i) !! sid = Some gid
    ∧ ∃ l, named c gid = Some l ∧ l ≠ 0 ∧ session_at c l gid = Some (mkPlayerSession i sid).

Definition sound c : Prop := well_formed c ∧ ∀ gid, sound_at c gid.

Lemma sound_one_connection c : sound c → one_connection c.
Proof.
  intros [_ Hs] i j gid sid sid' (_ & l & Hl & _ & H1)%(Hs gid) (_ & l' & Hl' & _ & H2)%(Hs gid). by simplify_eq.
Qed.

Definition no_connection c (gid : Z) : Prop := ∀ j sid, ¬ connected c j gid sid.

Lemma no_connection_sound c gid : no_connection c gid → sound_at c gid.
Proof. intros Hn i sid Hc. by apply Hn in Hc. Qed.

(** What the parties may do: open a connection, bind it, change the record and
    the session of a player, end a session. *)
Definition opens w (i gid sid : Z) : Prop := ∃ b, w = Entering b gid i sid.
Definition binds w (i sid : Z) : Prop := ∃ b gid, w = Entering b gid i sid.
Definition moves w (gid : Z) : Prop := ∃ b i sid, w = Entering b gid i sid.
Definition leaves w (i sid : Z) : Prop := w = Leaving i sid ∨ w = Stopping i.
Definition issues w (gid : Z) : Prop := w = Issuing gid.

Record step w c c' : Prop := mkStep {
  step_store i : store_step (opens w i) (store (gates c i)) (store (gates c' i));
  step_users i sid : users (gates c' i) !! sid = users (gates c i) !! sid ∨ binds w i sid ∧ users (gates c i) !! sid = None;
  step_named gid : named c' gid = named c gid ∨ moves w gid ∨ issues w gid ∧ named c gid = None ∧ named c' gid = Some 0;
  step_credential gid : credential c' gid = credential c gid ∨ moves w gid ∨ issues w gid;
  step_session l gid : session_at c' l gid = session_at c l gid ∨ moves w gid
    ∨ ∃ i sid, leaves w i sid ∧ session_at c l gid = Some (mkPlayerSession i sid) ∧ session_at c' l gid = None
        ∧ ¬ connected c i gid sid
}.

Lemma step_refl w c : step w c c.
Proof. split; intros; [apply store_step_refl|by left..]. Qed.

Lemma calm_opens i gid sid : ¬ opens Calm i gid sid.
Proof. by intros [? ?]. Qed.
Lemma calm_moves gid : ¬ moves Calm gid.
Proof. by intros (? & ? & ? & ?). Qed.
Lemma calm_binds i sid : ¬ binds Calm i sid.
Proof. by intros (? & ? & ?). Qed.
Lemma calm_leaves i sid : ¬ leaves Calm i sid.
Proof. by intros [?|?]. Qed.

Lemma calm_any w c c' : step Calm c c' → step w c c'.
Proof.
  intros [A B C K D]. split.
  - intros i. eapply store_step_weaken; [|apply A]. by intros gid sid []%calm_opens.
  - intros i sid. destruct (B i sid) as [?|[[]%calm_binds _]]. by left.
  - intros gid. destruct (C gid) as [?|[[]%calm_moves|[[=] _]]]. by left.
  - intros gid. destruct (K gid) as [?|[[]%calm_moves|[=]]]. by left.
  - intros l gid. destruct (D l gid) as [?|[[]%calm_moves|(? & ? & []%calm_leaves & _)]]. by left.
Qed.

(** A calm step leaves bindings, records and sessions as they are. *)
Lemma calm_same c c' : step Calm c c' → (∀ i sid, users (gates c' i) !! sid = users (gates c i) !! sid)
  ∧ (∀ gid, named c' gid = named c gid) ∧ (∀ gid, credential c' gid = credential c gid)
  ∧ ∀ l gid, session_at c' l gid = session_at c l gid.
Proof.
  intros [A B C K D]. split_and!.
  - intros i sid. by destruct (B i sid) as [?|[[]%calm_binds _]].
  - intros gid. by destruct (C gid) as [?|[[]%calm_moves|[[=] _]]].
  - intros gid. by destruct (K gid) as [?|[[]%calm_moves|[=]]].
  - intros l gid. by destruct (D l gid) as [?|[[]%calm_moves|(? & ? & []%calm_leaves & _)]].
Qed.

Lemma calm_trans c1 c2 c3 : step Calm c1 c2 → step Calm c2 c3 → step Calm c1 c3.
Proof.
  intros H1 H2. destruct (calm_same _ _ H1) as (U1 & N1 & K1 & S1), (calm_same _ _ H2) as (U2 & N2 & K2 & S2). split.
  - intros i. eapply store_step_trans; [apply H1|apply H2].
  - intros i sid. left. by rewrite U2, U1.
  - intros gid. left. by rewrite N2, N1.
  - intros gid. left. by rewrite K2, K1.
  - intros l gid. left. by rewrite S2, S1.
Qed.

Lemma step_connected w c c' i gid sid : step w c c' → connected c' i gid sid → opens w i gid sid ∨ connected c i gid sid.
Proof. intros Hs Hc. destruct (step_store _ _ _ Hs i) as (_ & Hcon & _). by destruct (Hcon _ _ Hc) as [?|[? _]]; [left|right]. Qed.

(** A step keeps soundness when it is so for the player who moves. *)
Lemma step_sound w c c' : step w c c' → sound c →
  (∀ gid, moves w gid → sound_at c' gid ∧ ∀ l, session_ok (player_of (logics c' l) gid)) → sound c'.
Proof.
  intros Hstep [[Hst Hl] Hs] Hmoved.
  assert (∀ gid, moves w gid ∨ ¬ moves w gid) as Hdec.
  { intros gid. destruct w as [| | |b g i s|]; try (right; by intros (? & ? & ? & ?)).
    destruct (decide (g = gid)) as [->|Hne]; [left; by exists b, i, s|]. right. by intros (? & ? & ? & [= _ -> _ _]). }
  split; [split|].
  - intros i. by apply (step_store _ _ _ Hstep i).
  - intros l gid. destruct (Hdec gid) as [Hm|Hm]; [by apply Hmoved|]. intros o Ho.
    destruct (step_session _ _ _ Hstep l gid) as [Heq|[?|(i & sid & _ & _ & Hn & _)]]; unfold session_at in *; [|done|congruence].
    apply (Hl l gid). by rewrite <- Heq.
  - intros gid. destruct (Hdec gid) as [Hm|Hm]; [by apply Hmoved|]. intros i sid Hcon.
    destruct (step_connected _ _ _ _ _ _ Hstep Hcon) as [[b Ho]|Hc]; [destruct Hm; by exists b, i, sid|].
    destruct (Hs gid i sid Hc) as (Hu & l & Hn & Hl0 & Hses). split.
    { destruct (step_users _ _ _ Hstep i sid) as [->|[_ Hno]]; [done|congruence]. }
    exists l. destruct (step_named _ _ _ Hstep gid) as [->|[?|(_ & ? & _)]]; [|done|congruence]. split_and!; [done..|].
    destruct (step_session _ _ _ Hstep l gid) as [->|[?|(j & t & _ & Hjt & _ & Hnot)]]; [done..|].
    rewrite Hses in Hjt. by injection Hjt as -> ->.
Qed.

Lemma calm_sound c c' : step Calm c c' → sound c → sound c'.
Proof. intros Hs Hc. eapply step_sound; [done..|]. by intros gid []%calm_moves. Qed.

(** ** Operations of a Gate *)

(** What an operation of Gate [i] does to the Gate, it does to the cluster. *)
Lemma at_gate_step w i {X} (f : GW → X * GW) c (g := on_records (λ _, redis c) (gates c i)) (g' := (f g).2) :
  store_step (opens w i) (store (gates c i)) (store g') →
  (∀ sid, users g' !! sid = users (gates c i) !! sid ∨ binds w i sid ∧ users (gates c i) !! sid = None) →
  (∀ gid, OnlineCache.logic_id <$> records g' !! gid = named c gid) →
  (∀ gid, (λ d, (OnlineCache.gid d, OnlineCache.token d)) <$> records g' !! gid = credential c gid ∨ moves w gid) → step w c (at_gate i f c).2.
Proof.
  intros Hst Hu Hn Hk. unfold at_gate. fold g. subst g'. destruct (f g) as [x w']. simpl in *. split; simpl.
  - intros j. destruct (decide (i = j)) as [->|]; [by rewrite fn_lookup_insert|rewrite fn_lookup_insert_ne by done; apply store_step_refl].
  - intros j sid. destruct (decide (i = j)) as [->|]; [by rewrite fn_lookup_insert|rewrite fn_lookup_insert_ne by done; by left].
  - intros gid. left. apply Hn.
  - intros gid. destruct (Hk gid); auto.
  - by left.
Qed.

Lemma at_gate_store i {X} (f : GW → X * GW) c : store (gates (at_gate i f c).2 i) = store (f (on_records (λ _, redis c) (gates c i))).2.
Proof. unfold at_gate. destruct (f _) as [x w']. simpl. by rewrite fn_lookup_insert. Qed.

(** The operations that only act on the Gate itself, and change neither
    bindings nor records. *)
Definition is_calm {X} (e : GateEff Conn Payload X) : bool :=
  match e with Store _ | BindUser _ _ | SaveOnline _ | CallLogicLogin _ _ _ | NotifyLogic _ _ => false | _ => true end.

Definition is_local {X} (e : GateEff Conn Payload X) : bool :=
  match e with CallLogicLogin _ _ _ | NotifyLogic _ _ => false | _ => true end.

Definition calm_op (X : Type) (e : GateEff Conn Payload X) : Prop :=
  is_local e = true ∧ ∀ e_env (g : GW), let g' := (handle_gate e_env X e g).2 in
    store_step (λ _ _, False) (store g) (store g') ∧ users g' = users g
    ∧ (∀ gid, OnlineCache.logic_id <$> records g' !! gid = OnlineCache.logic_id <$> records g !! gid)
    ∧ ∀ gid, (λ d, (OnlineCache.gid d, OnlineCache.token d)) <$> records g' !! gid
             = (λ d, (OnlineCache.gid d, OnlineCache.token d)) <$> records g !! gid.

Lemma same_sessions_step N (sw sw' : GateSessions.World Conn Payload) : sessions sw' = sessions sw → store_step N sw sw'.
Proof.
  intros Hsw. unfold store_step, address, current_active. rewrite Hsw. by split_and!; auto.
Qed.

Lemma is_calm_op {X} (e : GateEff Conn Payload X) : is_calm e = true → calm_op X e.
Proof.
  intros He. split; [by destruct e|]. intros e_env g. destruct e; try discriminate He; simpl; unfold redis_answer;
    try (split_and!; [by apply same_sessions_step|done..]).
  - destruct (GateSessions.refuses _ _); by split_and!; [apply same_sessions_step|..].
  - destruct (env_redis e_env); by split_and!; [apply same_sessions_step|..].
  - unfold cleared. destruct (records g !! gid) as [d|] eqn:Hd; [case_if|]; simpl; destruct (env_redis e_env); simpl;
      (split_and!; [by apply same_sessions_step|done|intros g0..]); try done;
    (destruct (decide (g0 = gid)) as [->|]; [by rewrite lookup_insert_eq, Hd|by rewrite lookup_insert_ne]).
Qed.

Lemma calm_store_op {X} (e : SessionsEff Conn Payload X) : calm_store X e → calm_op X (Store e).
Proof.
  intros He. split; [done|]. intros e_env g. simpl. specialize (He (store g)). destruct (handle_sessions X e (store g)) as [x s]. by split_and!.
Qed.

Lemma calm_in_store {A} (p : prog (SessionsEff Conn Payload) A) : all_acts calm_store p → all_acts calm_op (in_store p).
Proof. intros Hp. induction Hp as [a|X e k He _ IH]; cbn [in_store]; constructor; [by apply calm_store_op|exact IH]. Qed.

Lemma calm_await {X} (e : GateEff Conn Payload X) : is_calm e = true → all_acts calm_op (await e).
Proof. intros He. by apply all_acts_await, is_calm_op. Qed.

Lemma calm_ret {A} (a : A) : all_acts calm_op (Ret a).
Proof. constructor. Qed.

(** Programs of such operations. *)
Ltac calm_tac :=
  repeat first
    [ apply calm_ret
    | apply all_acts_bind; [|intros ?]
    | apply calm_await; reflexivity
    | apply calm_in_store; solve [auto with cluster]
    | solve [auto with cluster]
    | match goal with |- all_acts _ (match ?x with _ => _ end) => destruct x end ].

Lemma locked_core_calm {R} gid (missing : R) f : (∀ s : ClientSession Conn Payload, core (f s).1 = core s) →
  all_acts calm_op (in_store (locked gid missing (pure_section f))).
Proof. intros Hf. apply calm_in_store, locked_calm. intros a. by apply pure_lock_calm. Qed.

Lemma accept_request_calm gid sid seq ack now : all_acts calm_op (in_store (sessions_accept_request config gid sid seq ack now)).
Proof. apply locked_core_calm. intros s. apply accept_request_core. Qed.
Lemma acknowledge_calm gid sid seq ack now : all_acts calm_op (in_store (acknowledge config gid sid seq ack now)).
Proof. apply locked_core_calm. intros s. apply accept_sequence_core. Qed.
Lemma authorize_reconnect_calm gid previous seq ack now :
  all_acts calm_op (in_store (sessions_authorize_reconnect config gid previous seq ack now)).
Proof. apply locked_core_calm. intros s. apply authorize_reconnect_core. Qed.
Lemma current_session_calm gid : all_acts calm_op (in_store (current_session gid)).
Proof. by apply locked_core_calm. Qed.
#[local] Hint Resolve accept_request_calm acknowledge_calm authorize_reconnect_calm current_session_calm : cluster.

Lemma decrement_online_calm : all_acts calm_op decrement_online.
Proof. unfold GateGateway.decrement_online. calm_tac. Qed.
Lemma send_direct_calm cn msgid ack message close : all_acts calm_op (send_direct cn msgid ack message close).
Proof. unfold send_direct. calm_tac. Qed.
Lemma send_bound_calm gid sid msgid message : all_acts calm_op (send_bound config gid sid msgid message).
Proof. unfold send_bound. calm_tac. Qed.
Lemma decode_calm {M} `{!Decode Body M} frame body : all_acts calm_op (decode (M := M) frame body).
Proof. unfold decode. calm_tac. Qed.
Lemma verify_online_calm gid token device : all_acts calm_op (verify_online gid token device).
Proof. unfold verify_online. calm_tac. Qed.
#[local] Hint Resolve decrement_online_calm send_direct_calm send_bound_calm decode_calm : cluster.
Lemma reject_login_calm conn ack status : all_acts calm_op (reject_login conn ack status).
Proof. apply send_direct_calm. Qed.
Lemma reject_reconnect_calm conn ack status : all_acts calm_op (reject_reconnect conn ack status).
Proof. apply send_direct_calm. Qed.
Lemma kick_local_calm gid sid code reason : all_acts calm_op (kick_local config gid sid code reason).
Proof. unfold kick_local, kick_store. calm_tac. Qed.
Lemma kick_session_calm request : all_acts calm_op (kick_session config request).
Proof. unfold kick_session, kick_store. calm_tac. Qed.
Lemma push_mail_calm request : all_acts calm_op (push_mail config request).
Proof. unfold push_mail. calm_tac. Qed.
Lemma handle_ack_calm frame head body : all_acts calm_op (handle_ack config frame head body).
Proof. unfold handle_ack. calm_tac. Qed.
Lemma handle_ping_calm frame head body : all_acts calm_op (handle_ping config frame head body).
Proof. unfold handle_ping. calm_tac. Qed.
Lemma forward_calm {Rsp} frame head (f : Forward Rsp) : all_acts calm_op (forward config frame head f).
Proof. unfold forward. calm_tac. Qed.
Lemma decode_and_forward_calm {M Rsp} `{!Decode Body M} frame head body (f : M → Forward Rsp) :
  all_acts calm_op (decode_and_forward config frame head body f).
Proof. unfold decode_and_forward. apply all_acts_bind; [apply decode_calm|]. intros [r|]; [apply forward_calm|constructor]. Qed.
Lemma close_all_calm conns : all_acts calm_op (close_all conns).
Proof. induction conns; cbn [close_all]; calm_tac. Qed.
Lemma send_replay_calm conn gid sid payloads : all_acts calm_op (send_replay config conn gid sid payloads).
Proof.
  induction payloads as [|x payloads IH]; cbn [send_replay]; [constructor|]. apply all_acts_bind; [by apply calm_await|].
  intros [|]; [exact IH|]. apply all_acts_bind; [apply kick_local_calm|constructor].
Qed.

(** The operations of a Gate. *)
Lemma local_calm i {X} (e : GateEff Conn Payload X) c : calm_op X e → step Calm c (handle_local env i X e c).2.
Proof.
  intros [_ He]. destruct (He (env i) (on_records (λ _, redis c) (gates c i))) as (H1 & H2 & H3 & H4). apply at_gate_step.
  - eapply store_step_weaken; [|exact H1]. by intros gid sid [].
  - intros sid. left. by rewrite H2.
  - exact H3.
  - intros gid. left. apply H4.
Qed.

(** ** The Logic services *)

(** A step of Logic [l] for one player. *)
Lemma at_logic_step w l {X} (f : LogicHandlers.World → X * LogicHandlers.World) c gid (p' := player_of (f (logics c l)).2 gid) :
  (∀ g, g ≠ gid → player_of (f (logics c l)).2 g = player_of (logics c l) g) →
  (LogicPlayer.session p' = session_at c l gid ∨ moves w gid
   ∨ ∃ i sid, leaves w i sid ∧ session_at c l gid = Some (mkPlayerSession i sid) ∧ LogicPlayer.session p' = None ∧ ¬ connected c i gid sid) →
  step w c (at_logic l f c).2 ∧ session_at (at_logic l f c).2 l gid = LogicPlayer.session p'
  ∧ gates (at_logic l f c).2 = gates c ∧ redis (at_logic l f c).2 = redis c.
Proof.
  intros Hother Hp. subst p'. unfold at_logic. destruct (f (logics c l)) as [x lw]. simpl in *. split_and!; [|unfold session_at; simpl; by rewrite fn_lookup_insert|done..].
  split; simpl; [intros; apply store_step_refl|by left..|]. intros l' g. unfold session_at in *. simpl.
  destruct (decide (l = l')) as [->|]; [rewrite fn_lookup_insert|rewrite fn_lookup_insert_ne by done; by left].
  destruct (decide (g = gid)) as [->|Hne]; [done|left; by rewrite Hother].
Qed.

Lemma settle_player {R} (lw : LogicHandlers.World) gid (v : R) p : ∃ persisted,
  (settle lw gid v p).1 = Ok (Ok (mkCompleted v persisted))
  ∧ LogicPlayer.session (player_of (settle lw gid v p).2 gid) = LogicPlayer.session p
  ∧ ∀ g, g ≠ gid → player_of (settle lw gid v p).2 g = player_of lw g.
Proof.
  unfold settle, player_of. destruct (dirty p); [destruct (saver_fails lw gid)|]; simpl; eexists;
    (split_and!; [done|by rewrite lookup_insert_eq|]); intros g Hg; by rewrite lookup_insert_ne.
Qed.

(** The end of a session that is not connected, or of one's own player. *)
Lemma disconnect_step w l gid i sid c : moves w gid ∨ leaves w i sid ∧ ¬ connected c i gid sid →
  let c' := (handle_logic_call l _ (TryUse gid 1 (logic (LogicPlayer.disconnect i sid))) c).2 in
  step w c c' ∧ gates c' = gates c ∧ redis c' = redis c
  ∧ ((∀ l, session_ok (player_of (logics c l) gid)) → ∀ l, session_ok (player_of (logics c' l) gid)).
Proof.
  intros Hw. cbn [handle_logic_call]. cbv zeta. set (p := player_of (logics c l) gid).
  set (f := handle_logic _ (TryUse gid 1 (logic (LogicPlayer.disconnect i sid)))).
  assert ((∀ g, g ≠ gid → player_of (f (logics c l)).2 g = player_of (logics c l) g)
    ∧ (LogicPlayer.session (player_of (f (logics c l)).2 gid) = LogicPlayer.session p
       ∨ LogicPlayer.session p = Some (mkPlayerSession i sid) ∧ LogicPlayer.session (player_of (f (logics c l)).2 gid) = None)) as [Hother Hsession].
  { unfold f. cbn [handle_logic]. destruct (LogicHandlers.refuses _ _); [by auto|]. unfold logic. fold p.
    destruct (LogicPlayer.disconnect i sid p) as [b q] eqn:Hq.
    destruct (settle_player (logics c l) gid b q) as (pe & _ & -> & Ho). split; [exact Ho|].
    unfold LogicPlayer.disconnect in Hq. destruct (LogicPlayer.session p) as [[g s]|] eqn:Hp; simpl in Hq; [|left; by injection Hq as _ <-].
    destruct (Z.eqb_spec g i), (Z.eqb_spec s sid); simpl in Hq; injection Hq as _ <-; subst; auto. }
  destruct (at_logic_step w l f c gid Hother) as (Hstep & Hs & Hg & Hr).
  { destruct Hsession as [?|[H1 H2]]; [by left|right]. destruct Hw as [?|[??]]; [by left|right; by exists i, sid]. }
  split_and!; [done..|]. intros Hok l' o. destruct (step_session _ _ _ Hstep l' gid) as [Heq|Hor].
  - unfold session_at in Heq. rewrite Heq. apply Hok.
  - destruct (decide (l' = l)) as [->|Hne].
    + unfold session_at in Hs. rewrite Hs. destruct Hsession as [->|[_ ->]]; [apply Hok|done].
    + unfold at_logic. destruct (f (logics c l)). simpl. rewrite fn_lookup_insert_ne by done. apply Hok.
Qed.

Lemma online_step l f c : step Calm c (handle_logic_call l _ (LogicHandlers.Online f) c).2.
Proof.
  cbn [handle_logic_call]. apply (at_logic_step Calm l (handle_logic unit (LogicHandlers.Online f)) c 0); [done|by left].
Qed.

(** The session the player asks for is not connected, and Logic holds his
    connected one; for a reconnect, he has none. *)
Definition may_login c (l gid i sid : Z) (reconnect : bool) : Prop :=
  if reconnect then no_connection c gid
  else ¬ connected c i gid sid ∧ ∀ j sid', connected c j gid sid' → session_at c l gid = Some (mkPlayerSession j sid').

(** The end of the call of a login, of a player without connections: when it
    succeeds, Logic holds the new session. *)
Lemma finish_login b l gid i sid old c : sound c → 0 < sid → no_connection c gid →
  let '(r, c') := finish_call l gid (login_logic l i sid old) c in
  step (Entering b gid i sid) c c' ∧ sound c' ∧ gates c' = gates c
  ∧ match await_logic r with
    | Ok _ => session_at c' l gid = Some (mkPlayerSession i sid)
    | Err status => Status_code status ≠ code.OK
    end.
Proof.
  intros Hs Hsid Hno. unfold finish_call, login_logic. destruct (LogicPlayer.login i sid (player_of (logics c l) gid)) as [result p] eqn:Hlogin.
  assert (LogicPlayer.session p = Some (mkPlayerSession i sid)) as Hp by (unfold LogicPlayer.login in Hlogin; by injection Hlogin as _ <-).
  match goal with |- context [settle _ gid ?v p] => set (result' := v) end.
  destruct (settle_player (logics c l) gid result' p) as (persisted & Hanswer & Hps & Hother).
  destruct (at_logic_step (Entering b gid i sid) l (λ lw, settle lw gid result' p) c gid Hother) as (Hstep & Hs2 & Hg2 & Hr2).
  { right. left. by exists b, i, sid. }
  rewrite Hps, Hp in Hs2. unfold at_logic in *.
  change (settle (logics c l)) with (settle (R := LoginResult) (logics c l)) in *.
  destruct (settle (logics c l) gid result' p) as [r w'] eqn:Hsettle. cbn [fst snd] in *. rewrite Hanswer.
  assert (no_connection (mkCluster (gates c) (<[l := w']> (logics c)) (redis c)) gid) as Hno2 by (intros j s; apply Hno).
  split_and!; [done| |done|].
  - apply (step_sound _ _ _ Hstep Hs). intros g (? & i' & sid' & [= _ <- _ _]). split; [by apply no_connection_sound|].
    intros l' o Ho. change (session_at (mkCluster (gates c) (<[l := w']> (logics c)) (redis c)) l' gid = Some o) in Ho.
    destruct (decide (l' = l)) as [->|Hne]; [rewrite Hs2 in Ho; by injection Ho as <-|].
    unfold session_at in Ho. simpl in Ho. rewrite fn_lookup_insert_ne in Ho by done. by apply (proj2 (proj1 Hs) l' gid).
  - unfold await_logic. simpl. by destruct persisted.
Qed.

(** The owner record, of a player without connections. *)
Lemma owner_step b l gid i sid c : sound c → no_connection c gid →
  let '(r, c') := handle_logic_call l _ (SetLogicOwner gid l) c in
  step (Entering b gid i sid) c c' ∧ sound c' ∧ gates c' = gates c ∧ (∀ l g, session_at c' l g = session_at c l g)
  ∧ match r with Ok _ => named c' gid = Some l | Err _ => True end.
Proof.
  intros Hs Hno. cbn [handle_logic_call]. destruct (redis_down (logics c l) gid).
  { split_and!; [apply step_refl|done..]. }
  assert (step (Entering b gid i sid) c (mkCluster (gates c) (logics c) (set_owner gid l (redis c)))) as Hstep.
  { split; simpl; [intros; apply store_step_refl|by left| | |by left]; intros g; unfold named, credential, set_owner; simpl;
      (destruct (decide (g = gid)) as [->|Hne]; [right; left; by exists b, i, sid|left; by rewrite lookup_insert_ne]). }
  split_and!; [done| |done|done|].
  - apply (step_sound _ _ _ Hstep Hs). intros g (? & ? & ? & [= _ <- _ _]). split; [by apply no_connection_sound|]. intros l'. apply Hs.
  - unfold named, set_owner. simpl. by rewrite lookup_insert_eq.
Qed.

(** ** Auth *)

(** A token is written: the record of the player is new, or names who it
    named. *)
Lemma token_step gid account token c : step (Issuing gid) c (handle_op env unit (SetToken gid account token) c).2.
Proof.
  simpl. unfold set_token_of. case_if; [destruct c; apply step_refl|].
  split; simpl; [intros; apply store_step_refl|by left| | |by left]; intros g; unfold named, credential; simpl;
    (destruct (decide (g = gid)) as [->|Hne]; [rewrite lookup_insert_eq|left; by rewrite lookup_insert_ne]).
  - destruct (redis c !! gid) as [d|]; simpl; [by left|right; right; done].
  - right. by right.
Qed.

End cluster.
#[export] Hint Resolve decrement_online_calm send_direct_calm send_bound_calm decode_calm verify_online_calm reject_login_calm
  reject_reconnect_calm kick_local_calm push_mail_calm handle_ack_calm handle_ping_calm forward_calm decode_and_forward_calm
  close_all_calm send_replay_calm accept_request_calm authorize_reconnect_calm calm_ret : cluster.
#[export] Hint Extern 1 (all_acts _ (await _)) => (apply calm_await; reflexivity) : cluster.
