(* ===== verification/ClusterLogin.v ===== *)
(** One connection per player in the whole cluster: every operation of a login
    (the kick of the old Gate included), reconnect, logout, lost connection,
    request, push, expiry, stopped Gate or new token keeps the invariant of
    [ClusterSpec], however the handlers interleave, when the logins in progress
    are of different players and an authentic reconnect only comes from a
    player that Logic holds no session for; and the run of a reconnect, without
    that condition, that leaves a player two connections. *)

From stdpp Require Import functions.
From S2P Require Import Prelude Effects Rely Routing Proto LogicAdmission LogicRuntime LogicPlayer LogicHandlers LogicOnline.
From S2P Require Import OnlineCache GateSession GateSessions GateSessionsSpec GateGateway GateGatewaySpec Cluster ClusterSpec.

Section cluster.
Context {Conn Payload Bytes Body : Type}.
Context `{!Xnet Conn} `{!CsCodec S2C Payload} `{!Xproto} `{!PacketDecoder Bytes Body} `{!TokenCoder}.
Context `{!Decode Body AckNtf, !Decode Body PingReq, !Decode Body LoginReq, !Decode Body ReconnectReq, !Decode Body LogoutReq,
  !Decode Body PlayerInfoReq, !Decode Body UseItemReq, !Decode Body MailListReq, !Decode Body MailReadReq,
  !Decode Body MailDeleteReq, !Decode Body MailClaimReq}.
Context `{!UnstableSort Item Item_item_id} `{!EncodedLen LogicLoginReq} `{!MapIter Z nat}.
Variable config : SessionConfig.
Variable env : Z → Env.
#[local] Abbreviation Cluster := (Cluster (Conn := Conn) (Payload := Payload)).
#[local] Abbreviation task := (prog (GateEff Conn Payload)).
#[local] Abbreviation stable := (stable (S := Cluster) sound step compat).
#[local] Abbreviation local i := (handle_local env i).
Implicit Types (c : Cluster) (frame : NetFrame Conn Bytes) (w : Party).

(** A handler of Gate [i], and one of Logic [l], on behalf of party [w]. *)
Definition gate_safe {A} (i : Z) w (Q : A → Cluster → Prop) (p : task A) c : Prop :=
  safe (handle_op env) sound step compat w Q (expanded config i p) c.
Definition logic_safe {A} (l : Z) w (Q : A → Cluster → Prop) (p : prog LogicEff A) c : Prop :=
  safe (handle_op env) sound step compat w Q (in_logic config l p) c.
#[local] Abbreviation ok := (λ _ _, True).

Lemma compat_sym w w' : compat w w' = compat w' w.
Proof.
  destruct w as [|i s|i|[] g i s|g], w' as [|i' s'|i'|[] g' i' s'|g']; simpl; try done; by rewrite ?(Z.eqb_sym g), ?(Z.eqb_sym i), ?(Z.eqb_sym s).
Qed.

Lemma compat_calm w : compat w Calm = true.
Proof. by destruct w as [| | |[]|]. Qed.

Lemma stable_calm w P c c' : stable w P → step Calm c c' → sound c → P c → P c'.
Proof. intros HP Hs Hc. apply (HP Calm); [apply compat_calm|done|by eapply calm_sound|done]. Qed.

(** ** Rules *)

Lemma gate_ret {A} i w (Q : A → Cluster → Prop) a c : sound c → Q a c → gate_safe i w Q (Ret a) c.
Proof. by split. Qed.

Lemma gate_bind {A B} i w (Q : A → Cluster → Prop) (R : B → Cluster → Prop) (p : task A) (k : A → task B) c :
  gate_safe i w Q p c → (∀ a c, sound c → Q a c → gate_safe i w R (k a) c) → gate_safe i w R (p ≫= k) c.
Proof.
  intros Hp Hk. revert c Hp. induction p as [a|X e f IH]; intros c Hp; [by apply Hk; apply Hp|].
  unfold gate_safe in *. cbn [expanded] in *. eapply safe_then; [exact Hp|]. intros x c' Hx. by apply IH.
Qed.

Lemma logic_bind {A B} l w (Q : A → Cluster → Prop) (R : B → Cluster → Prop) (p : prog LogicEff A) (k : A → prog LogicEff B) c :
  logic_safe l w Q p c → (∀ a c, sound c → Q a c → logic_safe l w R (k a) c) → logic_safe l w R (p ≫= k) c.
Proof.
  intros Hp Hk. revert c Hp. induction p as [a|X e f IH]; intros c Hp; [by apply Hk; apply Hp|].
  unfold logic_safe in *. cbn [in_logic] in *. eapply safe_then; [exact Hp|]. intros x c' Hx. by apply IH.
Qed.

(** One operation of the Gate, from a stable assertion. *)
Lemma gate_op {A X} i w P (Q : A → Cluster → Prop) (e : GateEff Conn Payload X) (k : X → task A) c : is_local e = true →
  stable w P → P c →
  (∀ c1, sound c1 → P c1 → step w c1 (local i X e c1).2 ∧ sound (local i X e c1).2
     ∧ gate_safe i w Q (k (local i X e c1).1) (local i X e c1).2) →
  gate_safe i w Q (await e ≫= k) c.
Proof.
  intros He HP Hc Hk. unfold gate_safe. cbn [await mbind prog_mbind prog_bind expanded].
  assert (expand config i X e = await (AtGate i e)) as -> by (by destruct e).
  eapply safe_act; [exact HP|done|]. intros c1 Hs1 Hc1. by apply Hk.
Qed.

(** The operations of Logic that are no calls with a preload. *)
Definition is_plain {X} (e : LogicEff X) : bool := match e with TryUsePreloaded _ _ _ _ => false | _ => true end.

Lemma logic_op {A X} l w P (Q : A → Cluster → Prop) (e : LogicEff X) (k : X → prog LogicEff A) c : is_plain e = true →
  stable w P → P c →
  (∀ c1, sound c1 → P c1 → step w c1 (handle_logic_call l X e c1).2 ∧ sound (handle_logic_call l X e c1).2
     ∧ logic_safe l w Q (k (handle_logic_call l X e c1).1) (handle_logic_call l X e c1).2) →
  logic_safe l w Q (await e ≫= k) c.
Proof.
  intros He HP Hc Hk. unfold logic_safe. cbn [await mbind prog_mbind prog_bind in_logic].
  assert (expand_logic config l X e = await (AtLogic l e)) as -> by (by destruct e).
  eapply safe_act; [exact HP|done|]. intros c1 Hs1 Hc1. by apply Hk.
Qed.

(** Calm operations keep what is stable. *)
Lemma gate_calm {A} i w P (p : task A) c : all_acts calm_op p → stable w P → sound c → P c → gate_safe i w (λ _, P) p c.
Proof.
  intros Hp HP. revert c. induction Hp as [a|X e k He _ IH]; intros c Hs Hc; [by apply gate_ret|].
  change (Act e k) with (await e ≫= k). apply (gate_op i w P); [apply He|done..|]. intros c1 Hs1 Hc1.
  pose proof (local_calm env i e c1 He) as Hstep. pose proof (calm_sound _ _ Hstep Hs1) as Hs2.
  split_and!; [by apply calm_any|done|]. apply IH; [done|]. by eapply stable_calm.
Qed.

Lemma gate_then {A B} i w P (Q : B → Cluster → Prop) (p : task A) (k : A → task B) c : stable w P → all_acts calm_op p →
  (∀ a c, sound c → P c → gate_safe i w Q (k a) c) → sound c → P c → gate_safe i w Q (p ≫= k) c.
Proof. intros HP Hp Hk Hs Hc. eapply gate_bind; [by apply gate_calm|]. exact Hk. Qed.

Lemma gate_done {A} i w (p : task A) c : all_acts calm_op p → sound c → gate_safe i w ok p c.
Proof. intros Hp Hs. apply (gate_calm i w (λ _ : Cluster, True)); [done| |done..]. by intros ????????. Qed.

Lemma stable_true w : stable w (λ _ : Cluster, True).
Proof. by intros ????????. Qed.

(** Calls of Logic and notifications run the handlers of Logic. *)
Lemma gate_call {A} i w l route r (Q : LogicLoginRsp → Cluster → Prop) (R : A → Cluster → Prop) (k : Result string LogicLoginRsp → task A) c :
  logic_safe l w Q (LogicHandlers.handle_login l (mkRpcHead (route_key route) (route_session route)) r) c →
  (∀ rsp c, sound c → Q rsp c → gate_safe i w R (k (Ok rsp)) c) → gate_safe i w R (await (CallLogicLogin l route r) ≫= k) c.
Proof.
  intros Hl Hk. eapply gate_bind; [|intros a c' Hs Hgo; exact (Hgo Hs)]. unfold gate_safe, await. cbn [expanded expand].
  eapply safe_bind; [eapply safe_bind; [exact Hl|]|].
  - intros rsp c1 Hs1 Hq. split; [exact Hs1|]. exact (λ Hs, Hk rsp c1 Hs Hq).
  - intros x c1 Hs1 Hx. by split.
Qed.

Lemma gate_notify {A} i w l ntf (R : A → Cluster → Prop) (k : Result string unit → task A) P c :
  logic_safe l w (λ _, P) (handle_disconnect ntf) c →
  (∀ c, sound c → P c → gate_safe i w R (k (Ok tt)) c) → gate_safe i w R (await (NotifyLogic l ntf) ≫= k) c.
Proof.
  intros Hl Hk. eapply gate_bind; [|intros a c' Hs Hgo; exact (Hgo Hs)]. unfold gate_safe, await. cbn [expanded expand].
  eapply safe_bind; [eapply safe_bind; [exact Hl|]|].
  - intros rsp c1 Hs1 Hq. split; [exact Hs1|]. exact (λ Hs, Hk c1 Hs Hq).
  - intros x c1 Hs1 Hx. by split.
Qed.

(** ** Assertions that the others keep *)

Definition unbound (i sid : Z) c : Prop := users (gates c i) !! sid = None.
Definition bound (i sid gid : Z) c : Prop := users (gates c i) !! sid = Some gid.
(** The record of the player, if he has one, names a Logic that holds no
    session for him. *)
Definition away (gid : Z) c : Prop := ∀ l, named c gid = Some l → l ≠ 0 ∧ session_at c l gid = None.
(** The record names Logic [l], which holds the session. *)
Definition held (l gid i sid : Z) c : Prop := named c gid = Some l ∧ session_at c l gid = Some (mkPlayerSession i sid).
Definition gone (gid : Z) c : Prop := no_connection c gid.
Definition only_where (G : Z → Z → Prop) (gid : Z) c : Prop := ∀ j s, connected c j gid s → G j s.
Definition ended (i gid sid : Z) c : Prop := ¬ connected c i gid sid.
(** The session is in the cell [a], or has ended; the cell is the player's. *)
Definition only_at (a : nat) (i gid sid : Z) c : Prop := connected c i gid sid → address (store (gates c i)) gid = Some a.
Definition owned (a : nat) (i gid : Z) c : Prop :=
  (a < length (cells (sessions (store (gates c i)))))%nat ∧ ∀ g, address (store (gates c i)) g = Some a → g = gid.

Lemma compat_entering b gid i sid w : compat (Entering b gid i sid) w = true →
  ¬ moves w gid ∧ ¬ binds w i sid ∧ ¬ leaves w i sid ∧ (b = true → ¬ issues w gid).
Proof.
  intros Hw. split_and!.
  - intros (b' & j & s & ->). destruct b; simpl in Hw; by rewrite Z.eqb_refl in Hw.
  - intros (b' & g & ->). destruct b; simpl in Hw; by rewrite !Z.eqb_refl, andb_false_r in Hw.
  - intros [->| ->]; destruct b; simpl in Hw; by rewrite !Z.eqb_refl in Hw.
  - intros -> ->. simpl in Hw. by rewrite Z.eqb_refl in Hw.
Qed.

Section entering.
Context (b : bool) (gid i sid : Z).
#[local] Abbreviation me := (Entering b gid i sid).

Lemma unbound_stable : stable me (unbound i sid).
Proof.
  intros w c c' (_ & Hb & _)%compat_entering _ _ Hstep Hu. unfold unbound in *. by destruct (step_users _ _ _ Hstep i sid) as [->|[? _]].
Qed.

Lemma bound_stable gid' : stable me (bound i sid gid').
Proof.
  intros w c c' (_ & Hb & _)%compat_entering _ _ Hstep Hu. unfold bound in *. by destruct (step_users _ _ _ Hstep i sid) as [->|[? _]].
Qed.

Lemma named_stable n : stable me (λ c, named c gid = Some n).
Proof.
  intros w c c' (Hm & _)%compat_entering _ _ Hstep Hn. destruct (step_named _ _ _ Hstep gid) as [->|[?|(_ & ? & _)]]; [done..|congruence].
Qed.

Lemma held_stable l : stable me (held l gid i sid).
Proof.
  intros w c c' (Hm & _ & Hl & _)%compat_entering _ _ Hstep [Hn Hs]. unfold held. split.
  - destruct (step_named _ _ _ Hstep gid) as [->|[?|(_ & ? & _)]]; [done..|congruence].
  - destruct (step_session _ _ _ Hstep l gid) as [->|[?|(j & t & Hjt & Hs' & _)]]; [done..|]. rewrite Hs in Hs'. by injection Hs' as <- <-.
Qed.

Lemma session_stable l : stable me (λ c, session_at c l gid = Some (mkPlayerSession i sid)).
Proof.
  intros w c c' (Hm & _ & Hl & _)%compat_entering _ _ Hstep Hs.
  destruct (step_session _ _ _ Hstep l gid) as [->|[?|(j & t & Hjt & Hs' & _)]]; [done..|]. rewrite Hs in Hs'. by injection Hs' as <- <-.
Qed.

Lemma gone_stable : stable me (gone gid).
Proof.
  intros w c c' (Hm & _)%compat_entering _ _ Hstep Hno j s Hc. destruct (step_connected _ _ _ _ _ _ Hstep Hc) as [[b' ->]|Hc']; [|by eapply Hno].
  apply Hm. by exists b', j, s.
Qed.

(** Where the connections of the player may be, while he logs in. *)
Lemma only_where_stable G : stable me (only_where G gid).
Proof.
  intros w c c' (Hm & _)%compat_entering _ _ Hstep Hno j s Hc. destruct (step_connected _ _ _ _ _ _ Hstep Hc) as [[b' ->]|Hc']; [|by eapply Hno].
  destruct Hm. by exists b', j, s.
Qed.

Lemma kicked_stable j s : stable me (ended j gid s).
Proof.
  intros w c c' (Hm & _)%compat_entering _ _ Hstep Hno Hc. destruct (step_connected _ _ _ _ _ _ Hstep Hc) as [[b' ->]|Hc']; [|done].
  apply Hm. by exists b', j, s.
Qed.

Lemma kicked_at_stable a j s : stable me (only_at a j gid s).
Proof.
  intros w c c' (Hm & _)%compat_entering _ _ Hstep Hat Hc. destruct (step_store _ _ _ Hstep j) as (_ & Hcur & _).
  destruct (Hcur _ _ Hc) as [[b' ->]|[Hc' ->]]; [|by apply Hat]. destruct Hm. by exists b', j, s.
Qed.

Lemma owned_stable a : stable me (owned a i gid).
Proof.
  intros w c c' _ _ _ Hstep [Ha Ho]. destruct (step_store _ _ _ Hstep i) as (_ & _ & Hlen & Haddr). split; [lia|].
  intros g [Hg|Hg]%Haddr; [by apply Ho|lia].
Qed.
End entering.

Lemma away_stable gid i sid : stable (Entering true gid i sid) (away gid).
Proof.
  intros w c c' Hw Hs Hs' Hstep Ha. destruct (compat_entering _ _ _ _ _ Hw) as (Hm & _ & _ & Hi). specialize (Hi eq_refl).
  intros l. destruct (step_named _ _ _ Hstep gid) as [->|[?|[? _]]]; [|done..].
  intros [Hl Hses]%Ha. split; [done|]. by destruct (step_session _ _ _ Hstep l gid) as [->|[?|(? & ? & _ & _ & ? & _)]].
Qed.

(** When the record has the credentials of the reconnect, the player is away. *)
Definition authentic_away (request : ReconnectReq) c : Prop :=
  let gid := ReconnectReq_gid request in
  simple_token_decode (ReconnectReq_token request) (ReconnectReq_device_id request) = Some gid →
  credential c gid = Some (gid, ReconnectReq_token request) → away gid c.

Lemma authentic_away_stable request i sid : stable (Entering true (ReconnectReq_gid request) i sid) (authentic_away request).
Proof.
  intros w c c' Hw Hs Hs' Hstep Ha Hd Hk. pose proof (compat_entering _ _ _ _ _ Hw) as (Hm & _ & _ & Hi). specialize (Hi eq_refl).
  eapply (away_stable _ i sid w c c'); [done..|]. apply Ha; [done|].
  by destruct (step_credential _ _ _ Hstep (ReconnectReq_gid request)) as [<-|[?|?]].
Qed.


Lemma compat_leaves w w' i gid sid : leaves w i sid → compat w w' = true → ¬ opens w' i gid sid.
Proof. intros Hw Hc [b ->]. rewrite compat_sym in Hc. by destruct (compat_entering _ _ _ _ _ Hc) as (_ & _ & ? & _). Qed.

Lemma ended_stable w i gid sid : leaves w i sid → stable w (ended i gid sid).
Proof.
  intros Hw w' c c' Hc _ _ Hstep Hno Hcon. destruct (step_connected _ _ _ _ _ _ Hstep Hcon) as [Ho|?]; [|done]. by eapply compat_leaves.
Qed.

Lemma only_at_stable w a i gid sid : leaves w i sid → stable w (only_at a i gid sid).
Proof.
  intros Hw w' c c' Hc _ _ Hstep Hat Hcon. destruct (step_store _ _ _ Hstep i) as (_ & Hcur & _).
  destruct (Hcur _ _ Hcon) as [Ho|[Hcon' ->]]; [exfalso; by eapply compat_leaves|by apply Hat].
Qed.
#[local] Hint Resolve unbound_stable bound_stable named_stable away_stable authentic_away_stable held_stable session_stable gone_stable owned_stable ended_stable only_at_stable
  stable_true stable_and : cluster.

(** ** The handlers of Logic *)

Lemma logic_ret {A} l w (Q : A → Cluster → Prop) a c : sound c → Q a c → logic_safe l w Q (Ret a) c.
Proof. by split. Qed.

Lemma online_safe l w P f c : stable w P → sound c → P c → logic_safe l w (λ _, P) (await (LogicHandlers.Online f)) c.
Proof.
  intros HP Hs Hc. change (await (LogicHandlers.Online f)) with (await (LogicHandlers.Online f) ≫= λ u, Ret (Eff := LogicEff) u).
  apply (logic_op l w P); [done..|]. intros c1 Hs1 Hc1. pose proof (online_step l f c1) as Hstep.
  pose proof (calm_sound _ _ Hstep Hs1) as Hs2. split_and!; [by apply calm_any|done|]. apply logic_ret; [done|]. by eapply stable_calm.
Qed.

(** Logic answers with the status [OK]. *)
Definition consents (rsp : LogicLoginRsp) : bool :=
  match LogicLoginRsp_status rsp with Some status => Status_code status =? code.OK | None => false end.

Lemma consents_default message rsp :
  (Status_code (default (error_status code.INTERNAL message) (LogicLoginRsp_status rsp)) =? code.OK) = consents rsp.
Proof. unfold consents. by destruct (LogicLoginRsp_status rsp). Qed.

(** A disconnect that is told to Logic: of a session that has ended. *)
Lemma handle_disconnect_safe l w ntf (P : Cluster → Prop) c (i := LogicDisconnectNtf_gate_id ntf) (sid := LogicDisconnectNtf_player_session ntf) :
  leaves w i sid → stable w P → (∀ c, P c → ended i (LogicDisconnectNtf_gid ntf) sid c) → (∀ c c', gates c' = gates c → P c → P c') →
  sound c → P c → logic_safe l w (λ _, P) (handle_disconnect ntf) c.
Proof.
  intros Hw HP Hend Hgates Hs Hc. unfold handle_disconnect. case_if; [by apply logic_ret|].
  apply (logic_op l w P); [done..|]. intros c1 Hs1 Hc1.
  destruct (disconnect_step w l (LogicDisconnectNtf_gid ntf) i sid c1) as (Hstep & Hg & _); [right; split; [done|by apply Hend]|].
  fold i sid. destruct (handle_logic_call l _ _ c1) as [r c2]. cbn [fst snd] in *.
  assert (sound c2) as Hs2.
  { apply (step_sound _ _ _ Hstep Hs1). intros gid (? & ? & ? & ->). by destruct Hw. }
  pose proof (Hgates _ _ Hg Hc1) as Hc2.
  split_and!; [done..|]. destruct r; [|by apply logic_ret]. destruct (await_logic _) as [[]|]; [by apply online_safe|by apply logic_ret..].
Qed.

(** The undo of a login whose owner record failed. *)
Lemma undo_safe b l gid i sid (u i' : Z) failed c (P := λ c, unbound u i' c ∧ gone gid c) : stable (Entering b gid i sid) P → consents failed = false →
  sound c → P c → logic_safe l (Entering b gid i sid) (λ rsp c, P c ∧ consents rsp = false)
    (undo ← await (TryUse gid 1 (logic (LogicPlayer.disconnect i sid)));
     _ ← (match undo with
          | Ok _ => match await_logic undo with Ok true => await (LogicHandlers.Online LogicPlayer.decrement_online) | _ => Ret tt end
          | Err _ => Ret tt
          end);
     Ret failed) c.
Proof.
  intros HP Hf Hs Hc. apply (logic_op l _ P); [done..|]. intros c1 Hs1 [Hu1 Hno1].
  destruct (disconnect_step (Entering b gid i sid) l gid i sid c1) as (Hstep & Hg & _ & Hok); [left; by exists b, i, sid|].
  destruct (handle_logic_call l _ _ c1) as [r c2]. cbn [fst snd] in *.
  assert (P c2) as Hc2 by (split; [unfold unbound; by rewrite Hg|intros j s; unfold connected; rewrite Hg; apply Hno1]).
  assert (sound c2) as Hs2.
  { apply (step_sound _ _ _ Hstep Hs1). intros g (? & ? & ? & [= _ <- _ _]). split; [by apply no_connection_sound, Hc2|]. apply Hok. intros. apply Hs1. }
  split_and!; [done..|]. eapply (logic_bind l _ (λ _, P)); [|intros; by apply logic_ret].
  destruct r; [|by apply logic_ret]. destruct (await_logic _) as [[]|]; [by apply online_safe|by apply logic_ret..].
Qed.

(** ** The kick of a login *)

Lemma store_op {X} i w (e : SessionsEff Conn Payload X) c : let sw' := handle_sessions X e (store (gates c i)) in
  let c' := (local i X (Store e) c).2 in
  (local i X (Store e) c).1 = sw'.1 ∧ store (gates c' i) = sw'.2 ∧ (∀ j, users (gates c' j) = users (gates c j))
  ∧ redis c' = redis c ∧ logics c' = logics c ∧ (store_step (opens w i) (store (gates c i)) sw'.2 → step w c c').
Proof.
  cbv zeta. unfold handle_local. split_and!.
  - unfold at_gate. simpl. by destruct (handle_sessions X e (store (gates c i))).
  - rewrite at_gate_store. simpl. by destruct (handle_sessions X e (store (gates c i))).
  - intros j. unfold at_gate. simpl. destruct (handle_sessions X e (store (gates c i))). simpl.
    destruct (decide (i = j)) as [->|]; by rewrite ?fn_lookup_insert, ?fn_lookup_insert_ne.
  - unfold at_gate. simpl. by destruct (handle_sessions X e (store (gates c i))).
  - unfold at_gate. simpl. by destruct (handle_sessions X e (store (gates c i))).
  - intros Hst. apply at_gate_step; simpl; destruct (handle_sessions X e (store (gates c i))); simpl in *; [done|by left|done|by left].
Qed.

(** The operations of a Gate, when it makes no calls. *)
Lemma lift_safe {A} j w (Q : A → Cluster → Prop) (p : task A) c : all_acts calm_op p → gate_safe j w Q p c →
  safe (handle_op env) sound step compat w Q (lift (λ X e, AtGate j e) p) c.
Proof.
  intros Hp. revert c. induction Hp as [a|X e k [He _] _ IH]; intros c Hsafe; [exact Hsafe|].
  unfold gate_safe in *. cbn [expanded] in Hsafe. assert (expand config j X e = await (AtGate j e)) as Heq by (by destruct e).
  rewrite Heq in Hsafe. cbn [lift]. intros c1 Hoth Hc1. destruct (Hsafe c1 Hoth Hc1) as (? & ? & Hk). split_and!; [done..|]. by apply IH.
Qed.

Section kick.
Context (b : bool) (gid i sid : Z).
#[local] Abbreviation me := (Entering b gid i sid).

(** The kick finds no session in the table, or ends it in its cell. *)
Lemma kick_store_safe P j s code reason c : stable me P → sound c → P c →
  gate_safe j me (λ _ c, P c ∧ ended j gid s c) (kick_store config gid s code reason) c.
Proof.
  intros HP Hs Hc. unfold kick_store, kick.
  set (rest := λ a, in_store (match a with
    | None => Ret None
    | Some a => taken ← await (LockSession (Conn := Conn) (Payload := Payload) a None (kick_section config SKick s code reason));
                match taken with None => Ret None | Some cn => await (LockPlayers (kick_remove gid a cn)) end
    end) : task (option bool)).
  change (gate_safe j me (λ _ c, P c ∧ ended j gid s c) (await (Store (GetSession (Conn := Conn) (Payload := Payload) gid)) ≫= rest) c).
  apply (gate_op j me P); [done..|]. intros c1 Hs1 Hc1. destruct (store_op j Calm (GetSession gid) c1) as (Hr & Hst & _ & _ & _ & Hcalm).
  assert (step Calm c1 (local j _ (Store (GetSession gid)) c1).2) as Hstep1 by (apply Hcalm, store_step_refl).
  pose proof (calm_sound _ _ Hstep1 Hs1) as Hs2. pose proof (stable_calm me P _ _ HP Hstep1 Hs1 Hc1) as Hc2. rewrite Hr.
  destruct (local j _ _ c1) as [r c2]. simpl in Hr, Hst, Hstep1, Hs2, Hc2. simpl. split_and!; [by apply calm_any|done|].
  destruct (players (sessions (store (gates c1 j))) !! gid) as [a|] eqn:Ha; unfold rest.
  2:{ apply gate_ret; [done|]. split; [done|]. intros (t & (b' & Hb & _)%attached_address & _). rewrite Hst in Hb. congruence. }
  set (last := λ taken, in_store (match taken with None => Ret None | Some cn => await (LockPlayers (kick_remove gid a cn)) end) : task (option bool)).
  change (gate_safe j me (λ _ c, P c ∧ ended j gid s c) (await (Store (LockSession (Conn := Conn) (Payload := Payload) a None
    (kick_section config SKick s code reason))) ≫= last) c2).
  apply (gate_op j me (λ c, P c ∧ only_at a j gid s c)); [done|apply stable_and; [done|apply kicked_at_stable]| |].
  { split; [done|]. intros _. unfold address. by rewrite Hst. }
  intros c3 Hs3 [Hc3 Hat]. match goal with |- context [local j _ (Store ?e') c3] => set (e := e') end.
  destruct (store_op j Calm e c3) as (_ & Hst3 & _ & _ & _ & Hstep3).
  assert (step Calm c3 (local j _ (Store e) c3).2) as Hstep4.
  { apply Hstep3. eapply store_step_weaken; [|apply (kick_section_calm config a s code reason)]. by intros ? ? []. }
  pose proof (calm_sound _ _ Hstep4 Hs3) as Hs4. split_and!; [by apply calm_any|done|].
  apply gate_calm; [|apply stable_and; [done|apply kicked_stable]|done|split; [by eapply stable_calm|]].
  - unfold last. apply calm_in_store. destruct (local j _ _ c3).1 as [cn|]; [apply all_acts_await, kick_remove_calm|constructor].
  - intros Hcon. destruct (step_connected _ _ _ _ _ _ Hstep4 Hcon) as [[]%calm_opens|Hcon3]. unfold connected in Hcon. rewrite Hst3 in Hcon.
    by eapply (kick_section_ends config a gid s code reason), Hcon; apply Hat.
Qed.

Lemma kick_session_safe P j kick c : stable me P → KickSessionReq_gid kick = gid → 0 < gid → 0 < KickSessionReq_player_session kick → sound c → P c →
  gate_safe j me (λ _ c, P c ∧ ended j gid (KickSessionReq_player_session kick) c) (kick_session config kick) c.
Proof.
  intros HP Hk Hg Hsid Hs Hc. unfold kick_session. rewrite Hk. destruct (_ || _) eqn:E; [lia|].
  eapply gate_bind; [by apply kick_store_safe|]. intros result c1 Hs1 Hc1.
  apply gate_calm; [|apply stable_and; [done|apply kicked_stable]|done..].
  destruct result as [[]|]; repeat first [apply all_acts_bind; [|intros ?]|solve [eauto with cluster]].
Qed.

(** After the preload of a login the player is not connected any more: where he
    may be connected, the session of the player that the preload was given
    says so, and is kicked. *)
Lemma preload_safe P reconnect player c : stable me P → 0 < gid → session_ok player → sound c → P c →
  only_where (λ j s, reconnect = false ∧ LogicPlayer.session player = Some (mkPlayerSession j s) ∧ (j, s) ≠ (i, sid)) gid c →
  safe (handle_op env) sound step compat me (λ r c, P c ∧ gone gid c ∧ r = Some (Ok (LogicPlayer.session player)))
    (in_preload config (login_preload gid i sid reconnect player)) c.
Proof using UnstableSort0 EncodedLen0.
  intros HP Hg Hok Hs Hc Hwhere. unfold login_preload. unfold session_ok in Hok.
  destruct (LogicPlayer.session player) as [[j s]|] eqn:Hp.
  2:{ split_and!; [done..| |done]. intros j s Hcon. by destruct (Hwhere j s Hcon) as (_ & ? & _). }
  specialize (Hok _ eq_refl). cbn [LogicPlayer.gate_id LogicPlayer.session_id] in *. destruct (_ && _) eqn:Hkick.
  2:{ split_and!; [done..| |done]. intros j' s' Hcon. destruct (Hwhere j' s' Hcon) as (-> & [= <- <-] & Hne). apply Hne. simpl in Hkick. f_equal; lia. }
  destruct (from_signed gid s) as [route|] eqn:Hroute.
  2:{ by rewrite (proj2 (from_signed_Some gid s (mkRouteIdentity gid s))) in Hroute. }
  cbn [await mbind prog_mbind prog_bind in_preload expand_kick].
  set (kick := {| KickSessionReq_gid := gid; KickSessionReq_player_session := s;
                  KickSessionReq_code := code.SESSION_REPLACED; KickSessionReq_reason := "session replaced" |}).
  set (P' := λ c, P c ∧ only_where (λ j' s', (j', s') = (j, s)) gid c).
  assert (stable me P') as HP' by (apply stable_and; [done|apply only_where_stable]).
  assert (P' c) as Hc' by (split; [done|]; intros j' s' Hcon; by destruct (Hwhere j' s' Hcon) as (_ & [= <- <-] & _)).
  apply (safe_bind _ _ _ _ _ (λ _ c, P' c ∧ ended j gid s c)).
  { eapply safe_bind; [apply lift_safe; [apply kick_session_calm|by apply (kick_session_safe P' j kick)]|].
    intros rsp c1 Hs1 Hq. split; [exact Hs1|exact Hq]. }
  intros x c1 Hs1 [[Hc1 Hw1] Hend]. split_and!; [done..| |done]. intros j' s' Hcon.
  pose proof (Hw1 j' s' Hcon) as Heq. simpl in Heq. injection Heq as -> ->. by apply Hend.
Qed.
End kick.

(** The call of a login: it is refused, or the player has no connection any
    more and Logic holds the new session. *)
Lemma login_call_safe b l gid i sid reconnect kib P c (w := Entering b gid i sid) : 0 < gid → 0 < sid → stable w P →
  (∀ c, sound c → P c → may_login c l gid i sid reconnect) → sound c → P c → unbound i sid c →
  logic_safe l w (λ r c, unbound i sid c ∧ match await_logic r with
      | Ok _ => gone gid c ∧ session_at c l gid = Some (mkPlayerSession i sid)
      | Err status => Status_code status ≠ code.OK
      end)
    (await (TryUsePreloaded gid kib (login_preload gid i sid reconnect) (login_logic l i sid))) c.
Proof using EncodedLen0.
  intros Hg Hsid HP Hmay Hs Hc Hu. unfold logic_safe, await. cbn [in_logic expand_logic].
  set (U := λ c, unbound i sid c).
  eapply safe_bind; [|intros a c1 Hs1 Ha; split; [exact Hs1|exact Ha]].
  cbn [await mbind prog_mbind prog_bind]. eapply (safe_act _ _ _ _ _ (λ c, P c ∧ U c)); [unfold U, w; auto with cluster|done|].
  intros c1 Hs1 [Hc1 Hu1]. cbn [handle_op begin_call fst snd]. split_and!; [apply step_refl|done|].
  destruct (LogicHandlers.refuses (logics c1 l) gid) as [reason|].
  { split; [done|]. split; [done|by destruct reason]. }
  eapply safe_bind.
  { apply (preload_safe b gid i sid U); [unfold U, w; auto with cluster|done|by apply (proj2 (proj1 Hs1))|done|done|].
    pose proof (Hmay c1 Hs1 Hc1) as Hm. intros j s Hcon. unfold may_login in Hm. destruct reconnect; [by destruct (Hm j s)|].
    destruct Hm as [Hno Hat]. split_and!; [done|by apply Hat|]. intros [= -> ->]. done. }
  intros r c2 Hs2 (Hu2 & Hno2 & ->). cbn [await].
  eapply (safe_act _ _ _ _ _ (λ c, U c ∧ gone gid c)); [unfold U, w; auto with cluster|done|].
  intros c3 Hs3 [Hu3 Hno3]. cbn [handle_op].
  pose proof (finish_login b l gid i sid (LogicPlayer.session (player_of (logics c1 l) gid)) c3 Hs3 Hsid Hno3) as Hfinish.
  destruct (finish_call l gid _ c3) as [r c4]. cbn [fst snd]. destruct Hfinish as (Hstep & Hs4 & Hg4 & Hr).
  assert (unbound i sid c4) as Hu4 by (unfold unbound; by rewrite Hg4).
  split_and!; [done..|]. split; [done|]. split; [done|]. destruct (await_logic r); [|done].
  split; [|done]. intros j s. unfold connected. rewrite Hg4. apply Hno3.
Qed.

(** A login RPC that Logic consents to: the player has no connection, Logic
    holds the new session and the record names Logic. *)
Lemma logic_login_safe b l head request P c : let gid := LogicLoginReq_gid request in let i := LogicLoginReq_gate_id request in
  let sid := LogicLoginReq_player_session request in let w := Entering b gid i sid in
  stable w P → (∀ c, sound c → P c → may_login c l gid i sid (LogicLoginReq_reconnect request)) →
  sound c → P c → unbound i sid c →
  logic_safe l w (λ rsp c, unbound i sid c ∧ (consents rsp = true → gone gid c ∧ held l gid i sid c))
    (LogicHandlers.handle_login l head request) c.
Proof.
  intros gid i sid w HP Hmay Hs Hc Hu. unfold LogicHandlers.handle_login. fold gid i sid. destruct (_ || _) eqn:E; [by apply logic_ret|].
  assert (0 < gid ∧ 0 < sid) as [Hg Hsid] by lia.
  eapply logic_bind; [by apply (login_call_safe b l gid i sid _ _ P)|]. intros r c2 Hs2 [Hu2 Hr].
  destruct (await_logic r) as [result|status].
  2:{ apply logic_ret; [done|]. split; [done|]. unfold consents. simpl. intros. lia. }
  set (G := λ c, (unbound i sid c ∧ gone gid c) ∧ session_at c l gid = Some (mkPlayerSession i sid)).
  assert (stable w G) as HG by (unfold G, w; auto with cluster).
  destruct Hr as [Hno2 Hses2]. assert (G c2) as HG2 by done. apply (logic_bind l w (λ _, G)).
  { destruct (LogicPlayer.became_online result); [by apply online_safe|by apply logic_ret]. }
  clear c2 Hs2 Hu2 Hno2 Hses2 HG2. intros [] c2 Hs2 Hc2. apply (logic_op l w G); [done..|].
  intros c3 Hs3 [[Hu3 Hno3] Hses3]. pose proof (owner_step b l gid i sid c3 Hs3 Hno3) as Howner.
  destruct (handle_logic_call l _ _ c3) as [saved c4]. cbn [fst snd]. destruct Howner as (Hstep & Hs4 & Hg4 & Hses & Hn).
  assert (unbound i sid c4 ∧ gone gid c4) as [Hu4 Hno4].
  { split; [unfold unbound; by rewrite Hg4|]. intros j s. unfold connected. rewrite Hg4. apply Hno3. }
  split_and!; [done..|]. destruct saved.
  - apply logic_ret; [done|]. unfold held. by rewrite Hses.
  - eapply (safe_wand _ _ _ _ _ (λ rsp c, (unbound i sid c ∧ gone gid c) ∧ consents rsp = false)).
    2:{ apply undo_safe; unfold w; auto with cluster. }
    intros rsp c5 _ [[? ?] Hno]. split; [done|]. rewrite Hno. done.
Qed.

(** ** Calls of the session store *)

(** [locked]: the address of the cell is read, and then the cell is locked. *)
Lemma locked_safe {R} i w P P' gid (missing : R) f (Q : R → Cluster → Prop) c : stable w P → (∀ a, stable w (P' a)) → P c →
  (∀ c1, sound c1 → P c1 → Q missing c1) →
  (∀ a c1, sound c1 → P c1 → address (store (gates c1 i)) gid = Some a → P' a c1) →
  (∀ a c1, sound c1 → P' a c1 → let o := local i _ (Store (LockSession a missing f)) c1 in step w c1 o.2 ∧ sound o.2 ∧ Q o.1 o.2) →
  gate_safe i w Q (in_store (locked gid missing f)) c.
Proof.
  intros HP HP' Hc Hmissing Hget Hlock.
  change (in_store (locked gid missing f)) with (await (Store (GetSession (Conn := Conn) (Payload := Payload) gid)) ≫= λ session,
    in_store (match session with None => Ret missing | Some a => await (LockSession a missing f) end)).
  apply (gate_op i w P); [done..|]. intros c1 Hs1 Hc1. destruct (store_op i w (GetSession gid) c1) as (Hr & Hst & Hu & Hred & Hlog & Hstep).
  pose proof (store_op i Calm (GetSession gid) c1) as (_ & _ & _ & _ & _ & Hcalm).
  assert (step Calm c1 (local i _ (Store (GetSession gid)) c1).2) as Hstep1 by (apply Hcalm, store_step_refl).
  pose proof (calm_sound _ _ Hstep1 Hs1) as Hs2. pose proof (stable_calm w P _ _ HP Hstep1 Hs1 Hc1) as Hc2. rewrite Hr.
  destruct (local i _ _ c1) as [r c2]. simpl in *. split_and!; [by apply calm_any|done|].
  destruct (players (sessions (store (gates c1 i))) !! gid) as [a|] eqn:Ha; [|apply gate_ret; auto].
  change (in_store (await (LockSession a missing f))) with (await (Store (LockSession a missing f)) ≫= λ r : R, Ret (Eff := GateEff Conn Payload) r).
  apply (gate_op i w (P' a)); [done|done| |].
  - apply Hget; [done|done|]. by rewrite Hst.
  - intros c3 Hs3 Hc3. destruct (Hlock a c3 Hs3 Hc3) as (? & ? & ?). split_and!; [done..|]. by apply gate_ret.
Qed.

(** ** Logouts, lost connections, stopped Gates *)

Lemma after_leave {A} i l gid sid w (k : task A) c : leaves w i sid → all_acts calm_op k → sound c → ended i gid sid c →
  gate_safe i w ok (_ ← GateGateway.decrement_online; _ ← await (NotifyLogic l (mkLogicDisconnectNtf gid i sid)); k) c.
Proof.
  intros Hw Hk Hs Hc. apply (gate_then i w (ended i gid sid)); [by apply ended_stable|apply decrement_online_calm| |done..].
  intros [] c1 Hs1 Hc1. eapply gate_notify.
  { apply (handle_disconnect_safe l w (mkLogicDisconnectNtf gid i sid) (ended i gid sid)); [done|by apply ended_stable|done| |done..].
    intros c2 c3 Hg. unfold ended, connected. by rewrite Hg. }
  intros c2 Hs2 _. by apply gate_done.
Qed.

Lemma clear_calm gid sid (k : task unit) : all_acts calm_op k →
  all_acts calm_op (now ← await GateGateway.UnixSeconds; _ ← await (ClearGate gid sid now); k).
Proof. intros Hk. apply all_acts_bind; [eauto with cluster|]. intros now. apply all_acts_bind; [eauto with cluster|done]. Qed.

Lemma disconnect_safe i w gid sid now c : leaves w i sid → sound c →
  gate_safe i w (λ left c, is_Some left → ended i gid sid c) (in_store (GateSessions.disconnect gid sid now)) c.
Proof.
  intros Hw Hs. apply (locked_safe i w (λ _, True) (λ a, only_at a i gid sid)); [apply stable_true|intros; by apply only_at_stable|done| | |].
  - intros c1 _ _ [? [=]].
  - by intros a c1 _ _ Ha _.
  - intros a c1 Hs1 Hat. destruct (store_op i Calm (LockSession a (@None Routes) (pure_section (disconnect_session sid now))) c1)
      as (_ & Hst & _ & _ & _ & Hstep).
    assert (calm_store _ (LockSession (Conn := Conn) (Payload := Payload) a (@None Routes) (pure_section (disconnect_session sid now)))) as Hcalm.
    { apply lock_calm. intros s sw. unfold pure_section, disconnect_session. by case_if. }
    specialize (Hcalm (store (gates c1 i))). assert (step Calm c1 (local i _ (Store (LockSession a (@None Routes) (pure_section (disconnect_session sid now)))) c1).2) as Hstep1.
    { apply Hstep. eapply store_step_weaken; [|exact Hcalm]. by intros ? ? []. }
    split_and!; [by apply calm_any|by eapply calm_sound|]. intros _ Hcon.
    destruct (step_connected _ _ _ _ _ _ Hstep1 Hcon) as [[]%calm_opens|Hcon1]. unfold connected in Hcon. rewrite Hst in Hcon.
    by eapply disconnect_ends, Hcon; apply Hat.
Qed.

Lemma connection_lost_safe i conn c : sound c → gate_safe i (Leaving i (conn_session_id conn)) ok (connection_lost i conn) c.
Proof.
  intros Hs. set (w := Leaving i (conn_session_id conn)). assert (leaves w i (conn_session_id conn)) as Hw by (by left). unfold connection_lost.
  apply (gate_then i w (λ _, True)); [apply stable_true|eauto with cluster| |done..]. intros [gid|] c1 Hs1 _; [|by apply gate_ret].
  apply (gate_then i w (λ _, True)); [apply stable_true|eauto with cluster| |done..]. intros now c2 Hs2 _.
  eapply gate_bind; [by apply disconnect_safe|]. intros [rts|] c3 Hs3 Hend; [|by apply gate_ret].
  apply after_leave; [done| |done|by apply Hend]. apply clear_calm. eauto with cluster.
Qed.

Lemma invalidate_safe i w gid sid c : leaves w i sid → sound c →
  gate_safe i w (λ _, ended i gid sid) (in_store (invalidate gid sid)) c.
Proof.
  intros Hw Hs. unfold invalidate. cbn [in_store await]. match goal with |- gate_safe _ _ _ (Act (Store ?e') _) _ => set (e := e') end.
  change (Act (Store e) (λ x, Ret x)) with (await (Store e) ≫= λ x : bool, Ret (Eff := GateEff Conn Payload) x).
  apply (gate_op i w (λ _, True)); [done|apply stable_true|done|]. intros c1 Hs1 _.
  destruct (store_op i Calm e c1) as (_ & Hst & _ & _ & _ & Hstep).
  pose proof (invalidate_calm (Conn := Conn) (Payload := Payload) gid sid) as Hcalm. apply all_acts_inv in Hcalm as [Hcalm _].
  assert (step Calm c1 (local i _ (Store e) c1).2) as Hstep1.
  { apply Hstep. eapply store_step_weaken; [|exact (Hcalm _)]. by intros ? ? []. }
  pose proof (calm_sound _ _ Hstep1 Hs1) as Hs2. split_and!; [by apply calm_any|done|]. apply gate_ret; [done|].
  intros Hcon. unfold connected in Hcon. rewrite Hst in Hcon. apply (invalidate_ends gid sid (store (gates c1 i))).
  unfold invalidate. by rewrite run_await.
Qed.

Lemma handle_logout_safe i frame head body c : sound c →
  gate_safe i (Leaving i (frame_session_id frame)) ok (handle_logout config i frame head body) c.
Proof.
  intros Hs. set (w := Leaving i (frame_session_id frame)). assert (leaves w i (frame_session_id frame)) as Hw by (by left). unfold handle_logout.
  apply (gate_then i w (λ _, True)); [apply stable_true|eauto with cluster| |done..]. intros [request|] c1 Hs1 _; [|by apply gate_ret].
  apply (gate_then i w (λ _, True)); [apply stable_true|eauto with cluster| |done..]. intros [gid|] c2 Hs2 _; [|apply gate_done; eauto with cluster].
  apply (gate_then i w (λ _, True)); [apply stable_true|eauto with cluster| |done..]. intros now c3 Hs3 _.
  apply (gate_then i w (λ _, True)); [apply stable_true|eauto with cluster| |done..]. intros [rts|error] c4 Hs4 _.
  2:{ apply gate_done; [|done]. destruct error; eauto with cluster. }
  apply (gate_then i w (λ _, True)); [apply stable_true|eauto with cluster| |done..]. intros [] c5 Hs5 _.
  eapply gate_bind; [by apply (invalidate_safe i w gid (frame_session_id frame))|]. intros gone c6 Hs6 Hend.
  apply after_leave; [done| |done..]. apply clear_calm. eauto with cluster.
Qed.

(** No session of the Gate has a connection. *)
Definition silent (i : Z) c : Prop := ∀ gid sid, ended i gid sid c.

Lemma silent_stable i : stable (Stopping i) (silent i).
Proof. intros w c c' Hc Hs Hs' Hstep Hno gid sid. by eapply (ended_stable (Stopping i) i gid sid (or_intror eq_refl) w c). Qed.

Lemma drain_safe i c : sound c → gate_safe i (Stopping i) (λ _, silent i) (in_store drain) c.
Proof.
  intros Hs. unfold drain. cbn [in_store await]. match goal with |- gate_safe _ _ _ (Act (Store ?e') _) _ => set (e := e') end.
  change (Act (Store e) (λ x, Ret x)) with (await (Store e) ≫= λ x : list ClosingSession, Ret (Eff := GateEff Conn Payload) x).
  apply (gate_op i _ (λ _, True)); [done|apply stable_true|done|]. intros c1 Hs1 _.
  destruct (store_op i Calm e c1) as (_ & Hst & _ & _ & _ & Hstep).
  pose proof (drain_calm (Conn := Conn) (Payload := Payload)) as Hcalm. apply all_acts_inv in Hcalm as [Hcalm _].
  assert (step Calm c1 (local i _ (Store e) c1).2) as Hstep1.
  { apply Hstep. eapply store_step_weaken; [|exact (Hcalm _)]. by intros ? ? []. }
  pose proof (calm_sound _ _ Hstep1 Hs1) as Hs2. split_and!; [by apply calm_any|done|]. apply gate_ret; [done|].
  intros gid sid Hcon. unfold connected in Hcon. rewrite Hst in Hcon. apply (drain_ends (store (gates c1 i)) gid sid).
  unfold drain. by rewrite run_await.
Qed.

Lemma cleanup_safe i s c : sound c → silent i c → gate_safe i (Stopping i) (λ _, silent i) (cleanup_shutdown_session i s) c.
Proof.
  intros Hs Hc. unfold cleanup_shutdown_session. assert (leaves (Stopping i) i (closing_session_id s)) as Hw by (by right).
  eapply (gate_notify i _ _ _ _ _ (silent i)).
  { apply handle_disconnect_safe; [done|apply silent_stable|intros c1 Hc1; apply Hc1| |done..].
    intros c1 c2 Hg Hc1 gid sid. unfold ended, connected. rewrite Hg. apply Hc1. }
  intros c1 Hs1 Hc1. apply gate_calm; [apply clear_calm; eauto with cluster|apply silent_stable|done..].
Qed.

(** The cleanups run together. *)
Lemma stop_safe i workers schedule c : sound c →
  safe (handle_op env) sound step compat (Stopping i) ok (stop_prog (Bytes := Bytes) config i workers schedule) c.
Proof.
  intros Hs. unfold stop_prog. apply (safe_bind _ _ _ _ _ (λ _, silent i)).
  - change (gate_safe i (Stopping i) (λ _, silent i) (drain_sessions (Bytes := Bytes) workers) c). unfold drain_sessions.
    apply (gate_then i _ (λ _, True)); [apply stable_true|eauto with cluster| |done..]. intros [] c1 Hs1 _.
    eapply gate_bind; [by apply drain_safe|]. intros closing c2 Hs2 Hc2.
    apply (gate_then i _ (silent i)); [apply silent_stable|eauto with cluster| |done..]. intros [] c3 Hs3 Hc3. by apply gate_ret.
  - intros closing c1 Hs1 Hc1. apply concurrent_safe; [done|done|]. cbn [app].
    induction closing as [|s closing IH]; intros p Hp; [done|]. destruct Hp as [<-|Hp]; [|by apply IH].
    eapply safe_wand; [|by apply (cleanup_safe i s)]. done.
Qed.

(** ** What a login reads *)

(** Discovery finds the instance it is asked for, and every instance has an
    id. *)
Definition discovery_ok : Prop :=
  (∀ i id inst, env_instance (env i) service_type.LOGIC id = Some inst → instance_id inst = id)
  ∧ ∀ i id, env_pick (env i) service_type.LOGIC = Some id → id ≠ 0.

Lemma gate_read {A X} i w P (Q : A → Cluster → Prop) (e : GateEff Conn Payload X) (k : X → task A) c : calm_op X e →
  stable w P → P c →
  (∀ c1, sound c1 → P c1 → let o := local i X e c1 in step Calm c1 o.2 → sound o.2 → P o.2 → gate_safe i w Q (k o.1) o.2) →
  gate_safe i w Q (await e ≫= k) c.
Proof.
  intros He HP Hc Hk. apply (gate_op i w P); [apply He|done..|]. intros c1 Hs1 Hc1.
  pose proof (local_calm env i e c1 He) as Hstep. pose proof (calm_sound _ _ Hstep Hs1) as Hs2.
  split_and!; [by apply calm_any|done|]. apply Hk; [done..|]. by eapply stable_calm.
Qed.

Section login.
Context (b : bool) (gid i sid : Z).
#[local] Abbreviation me := (Entering b gid i sid).

Lemma user_safe conn P c : conn_session_id conn = sid → stable me P → sound c → P c →
  gate_safe i me (λ user c, P c ∧ (user = None → unbound i sid c)) (await (UserId conn)) c.
Proof.
  intros Hsid HP Hs Hc. change (await (UserId conn)) with (await (UserId conn) ≫= λ x, Ret (Eff := GateEff Conn Payload) x).
  apply (gate_read i me P); [by apply is_calm_op|done..|]. intros c1 Hs1 Hc1 o Hstep Hs2 Hc2. apply gate_ret; [done|]. split; [done|].
  intros Hnone. unfold unbound. destruct (calm_same _ _ Hstep) as (-> & _). rewrite <- Hsid. exact Hnone.
Qed.

Lemma verify_safe tok device P c : stable me P → sound c → P c →
  gate_safe i me (λ v c, P c ∧ ∀ d, v = Some d → named c gid = Some (OnlineCache.logic_id d) ∧ OnlineCache.gid d = gid
      ∧ credential c gid = Some (gid, tok) ∧ simple_token_decode tok device = Some gid) (verify_online gid tok device) c.
Proof.
  intros HP Hs Hc. unfold verify_online. destruct (simple_token_decode tok device) as [g|] eqn:Hd; [|by apply gate_ret].
  destruct (Z.eqb_spec g gid) as [->|]; [|by apply gate_ret]. cbn [negb]. apply (gate_read i me P); [by apply is_calm_op|done..|]. intros c1 Hs1 Hc1 o Hstep Hs2 Hc2.
  destruct (calm_same _ _ Hstep) as (_ & Hn & Hk & _).
  assert (∀ d, o.1 = Ok (Some d) → redis c1 !! gid = Some d) as Hread.
  { intros d. unfold o, handle_local, at_gate. simpl. unfold redis_answer. destruct (env_redis (env i)); simpl; [done|by intros [= ->]]. }
  destruct o as [[[d|]|error] c2]; cbn [fst snd] in *; apply gate_ret; try done. split; [done|].
  destruct (_ && _) eqn:E; [|done]. intros d' [= <-]. rewrite Hn, Hk. unfold named, credential. rewrite (Hread d eq_refl). simpl.
  apply andb_prop in E as [Hg Ht]. apply Z.eqb_eq in Hg. apply bool_decide_eq_true in Ht. by rewrite Hg, Ht.
Qed.

Lemma select_safe d P c : discovery_ok → stable me P → sound c → P c →
  gate_safe i me (λ s c, P c ∧ ∀ l, s = Some l → l ≠ 0 ∧ (OnlineCache.logic_id d ≠ 0 → l = OnlineCache.logic_id d)) (select_logic d) c.
Proof.
  intros [Hfound Hpicked] HP Hs Hc. unfold select_logic. destruct (Z.eqb_spec (OnlineCache.logic_id d) 0) as [Hz|Hz].
  - match goal with |- gate_safe _ _ _ (await ?e) _ => change (await e) with (await e ≫= λ x, Ret (Eff := GateEff Conn Payload) x) end.
    apply (gate_read i me P); [by apply is_calm_op|done..|]. intros c1 Hs1 Hc1 o Hstep Hs2 Hc2. apply gate_ret; [done|]. split; [done|].
    intros l Hl. split; [exact (Hpicked i l Hl)|done].
  - apply (gate_read i me P); [by apply is_calm_op|done..|]. intros c1 Hs1 Hc1 o Hstep Hs2 Hc2.
    assert (∀ inst, o.1 = Some inst → instance_id inst = OnlineCache.logic_id d) as Hinst by (intros inst; apply Hfound).
    destruct o as [[inst|] c2]; cbn [fst snd] in *; apply gate_ret; try done. split; [done|].
    case_if; [|done]. intros l [= <-]. rewrite (Hinst inst eq_refl). by split.
Qed.

(** ** The new session *)

(** What Logic consented to, once the connection is bound. *)
Definition granted (l : Z) c : Prop := gone gid c ∧ held l gid i sid c ∧ bound i sid gid c.

Lemma granted_stable l : stable me (granted l).
Proof. unfold granted. auto with cluster. Qed.

(** A step of the login after which every connection of the player is the one
    of Gate [i]. *)
Lemma opened_sound l c c' : sound c → l ≠ 0 → granted l c → step me c c' → (∀ j, users (gates c' j) = users (gates c j)) →
  redis c' = redis c → logics c' = logics c → sound c' ∧ held l gid i sid c'.
Proof.
  intros Hs Hl (Hno & [Hn Hses] & Hb) Hstep Hu Hr Hlog.
  assert (held l gid i sid c') as [Hn' Hses'] by (unfold held, named, session_at; by rewrite Hr, Hlog).
  split; [|by split]. apply (step_sound _ _ _ Hstep Hs). intros g (? & ? & ? & [= _ <- _ _]). split; [|rewrite Hlog; intros; apply Hs].
  intros j s Hcon. destruct (step_connected _ _ _ _ _ _ Hstep Hcon) as [[? [= _ <- <-]]|Hcon']; [|by apply Hno in Hcon'].
  split; [by rewrite Hu|]. by exists l.
Qed.

Lemma bind_safe conn l c : conn_session_id conn = sid → sound c → unbound i sid c → gone gid c → held l gid i sid c →
  gate_safe i me (λ b c, b = true → granted l c) (await (BindUser conn gid)) c.
Proof.
  intros Hsid Hs Hu Hno Hh. change (await (BindUser conn gid)) with (await (BindUser conn gid) ≫= λ x, Ret (Eff := GateEff Conn Payload) x).
  apply (gate_op i me (λ c, (unbound i sid c ∧ gone gid c) ∧ held l gid i sid c)); [done|auto with cluster|done|].
  intros c1 Hs1 [[Hu1 Hno1] [Hn1 Hh1]]. set (o := local i _ (BindUser conn gid) c1).
  assert (step me c1 o.2 ∧ (∀ j, store (gates o.2 j) = store (gates c1 j)) ∧ named o.2 gid = named c1 gid ∧ logics o.2 = logics c1
    ∧ (o.1 = true → bound i sid gid o.2)) as (Hstep & Hst & Hn & Hlog & Hb).
  { unfold o, handle_local. split_and!.
    - apply at_gate_step; simpl; rewrite Hsid; destruct (env_binds (env i) sid); simpl; try (by left); try apply store_step_refl; try done.
      intros s. destruct (decide (s = sid)) as [->|Hne]; [|left; by rewrite lookup_insert_ne]. right. split; [by exists b, gid|exact Hu1].
    - intros j. unfold at_gate. simpl. destruct (env_binds _ _); simpl;
        (destruct (decide (i = j)) as [->|]; [by rewrite fn_lookup_insert|by rewrite fn_lookup_insert_ne]).
    - unfold at_gate, named. simpl. by destruct (env_binds _ _).
    - unfold at_gate. simpl. by destruct (env_binds _ _).
    - unfold at_gate, bound. simpl. rewrite Hsid. destruct (env_binds _ _); simpl; [|done]. intros _. rewrite fn_lookup_insert. simpl. apply lookup_insert_eq. }
  assert (gone gid o.2) as Hno2 by (intros j s; unfold connected; rewrite Hst; apply Hno1).
  assert (sound o.2) as Hs2.
  { apply (step_sound _ _ _ Hstep Hs1). intros g (? & ? & ? & [= _ <- _ _]). split; [by apply no_connection_sound|]. rewrite Hlog. intros. apply Hs1. }
  split_and!; [done..|]. apply gate_ret; [done|]. intros Hb'. split_and!; [done| |by apply Hb]. split; [by rewrite Hn|].
  unfold session_at. by rewrite Hlog.
Qed.

Lemma install_safe conn rts seq l c : conn_session_id conn = sid → l ≠ 0 → sound c → granted l c →
  gate_safe i me (λ _, held l gid i sid) (in_store (install_login gid conn rts seq)) c.
Proof.
  intros Hsid Hl Hs Hc. unfold install_login. cbn [in_store await]. match goal with |- gate_safe _ _ _ (Act (Store ?e') _) _ => set (e := e') end.
  change (Act (Store e) (λ x, Ret x)) with (await (Store e) ≫= λ x : bool, Ret (Eff := GateEff Conn Payload) x).
  apply (gate_op i me (granted l)); [done|apply granted_stable|done|]. intros c1 Hs1 Hc1.
  destruct (store_op i me e c1) as (_ & Hst & Hus & Hred & Hlog & Hstep).
  assert (step me c1 (local i _ (Store e) c1).2) as Hstep1.
  { apply Hstep. pose proof (install_step (Conn := Conn) (Payload := Payload) (opens me i) gid conn rts seq (store (gates c1 i)) (proj1 (proj1 Hs1) i)) as H1.
    unfold install_login in H1. rewrite run_await in H1. apply H1. rewrite Hsid. by exists b. }
  destruct (opened_sound l _ _ Hs1 Hl Hc1 Hstep1 Hus Hred Hlog) as [Hs2 Hh]. split_and!; [done..|]. by apply gate_ret.
Qed.

Lemma reconnect_safe conn previous seq ack now l c : conn_session_id conn = sid → l ≠ 0 → sound c → granted l c →
  gate_safe i me (λ _, held l gid i sid) (in_store (sessions_complete_reconnect config gid previous conn seq ack now)) c.
Proof.
  intros Hsid Hl Hs Hc.
  apply (locked_safe i me (granted l) (λ a c, granted l c ∧ owned a i gid c)); [apply granted_stable| |done| | |].
  - intros a. apply stable_and; [apply granted_stable|auto with cluster].
  - by intros c1 _ (_ & ? & _).
  - intros a c1 Hs1 Hc1 Ha. split; [done|]. destruct (proj1 (proj1 Hs1) i) as [Hlen Hinj]. split; [by eapply Hlen|].
    intros g Hg. by eapply Hinj.
  - intros a c1 Hs1 [Hc1 [_ Ho]] o. match goal with o := local i _ (Store ?e') c1 |- _ => set (e := e') in * end.
    destruct (store_op i me e c1) as (_ & Hst & Hus & Hred & Hlog & Hstep).
    assert (step me c1 o.2) as Hstep1.
    { apply Hstep, reconnect_step. intros g ->%Ho. rewrite Hsid. by exists b. }
    destruct (opened_sound l _ _ Hs1 Hl Hc1 Hstep1 Hus Hred Hlog) as [Hs2 Hh]. by split_and!.
Qed.

(** The record that is saved names the Logic that it named. *)
Lemma save_safe d l c : OnlineCache.gid d = gid → OnlineCache.logic_id d = l → sound c → held l gid i sid c →
  gate_safe i me ok (await (SaveOnline d)) c.
Proof.
  intros Hg Hl Hs Hc. change (await (SaveOnline d)) with (await (SaveOnline d) ≫= λ x, Ret (Eff := GateEff Conn Payload) x).
  apply (gate_op i me (held l gid i sid)); [done|auto with cluster|done|]. intros c1 Hs1 [Hn _].
  set (c2 := (local i _ (SaveOnline d) c1).2).
  assert ((∀ g, named c2 g = named c1 g) ∧ step me c1 c2) as [Hn2 Hstep].
  { assert (∀ g, OnlineCache.logic_id <$> (<[OnlineCache.gid d := d]> (redis c1)) !! g = named c1 g) as Hsame.
    { intros g. unfold named in *. destruct (decide (g = gid)) as [->|Hne]; [by rewrite Hg, lookup_insert_eq, Hn, <- Hl|].
      by rewrite lookup_insert_ne by congruence. }
    split.
    - intros g. unfold c2, handle_local, at_gate. simpl. unfold redis_answer. destruct (env_redis (env i)); simpl; [done|apply Hsame].
    - apply at_gate_step; simpl; unfold redis_answer; destruct (env_redis (env i)); simpl; try (by left); try apply store_step_refl; try done.
      intros g. destruct (decide (g = gid)) as [->|Hne]; [right; by exists b, i, sid|left]. unfold credential.
      by rewrite lookup_insert_ne by congruence. }
  assert (∀ j, store (gates c2 j) = store (gates c1 j) ∧ users (gates c2 j) = users (gates c1 j)) as Hgates.
  { intros j. unfold c2, handle_local, at_gate. simpl. unfold redis_answer.
    destruct (env_redis (env i)); simpl; (destruct (decide (i = j)) as [->|]; by rewrite ?fn_lookup_insert, ?fn_lookup_insert_ne). }
  assert (logics c2 = logics c1) as Hlog by (unfold c2, handle_local, at_gate; simpl; unfold redis_answer; by destruct (env_redis (env i))).
  assert (sound c2) as Hs2.
  { apply (step_sound _ _ _ Hstep Hs1). intros g _. rewrite Hlog. split; [|intros; apply Hs1].
    intros j s. unfold connected. destruct (Hgates j) as [-> ->]. rewrite Hn2. unfold session_at. rewrite Hlog. apply (proj2 Hs1 g). }
  split_and!; [done..|by apply gate_ret].
Qed.

(** The counter and the record, after the session is in place. *)
Lemma complete_safe l d public became (k : Result string unit → task unit) c : OnlineCache.gid d = gid → sound c → held l gid i sid c →
  (∀ saved, all_acts calm_op (k saved)) →
  gate_safe i me ok (_ ← (if became : bool then await (Online (λ n, wrap_i32 (n + 1))) else Ret tt);
                     now ← await GateGateway.UnixSeconds;
                     saved ← await (SaveOnline (owned_by i d sid now public l)); k saved) c.
Proof.
  intros Hg Hs Hc Hk. apply (gate_then i me (held l gid i sid)); [auto with cluster|destruct became; eauto with cluster| |done..].
  intros [] c1 Hs1 Hc1. apply (gate_then i me (held l gid i sid)); [auto with cluster|eauto with cluster| |done..].
  intros now c2 Hs2 Hc2. eapply gate_bind; [by apply (save_safe _ l)|]. intros saved c3 Hs3 _. by apply gate_done.
Qed.
End login.

(** ** Logins and reconnects *)

Lemma decode_safe {M} `{!Decode Body M} i w (P : Cluster → Prop) frame body m c : decode_body body = Some m → sound c → P c →
  gate_safe i w (λ v c, v = Some m ∧ P c) (decode (M := M) frame body) c.
Proof. intros Hm Hs Hc. unfold decode. rewrite Hm. by apply gate_ret. Qed.

(** The connection is bound and still open, or it is closed. *)
Lemma bind_then b gid i sid l conn (k : task unit) c : conn_session_id conn = sid → sound c → unbound i sid c → gone gid c → held l gid i sid c →
  (∀ c, sound c → granted gid i sid l c → gate_safe i (Entering b gid i sid) ok k c) →
  gate_safe i (Entering b gid i sid) ok
    (bound ← await (BindUser conn gid); closed ← (if bound : bool then await (IsClosed conn) else Ret true);
     if closed : bool then await (ConnClose conn) else k) c.
Proof.
  intros Hsid Hs Hu Hno Hh Hk. eapply gate_bind; [by apply (bind_safe b gid i sid conn l)|]. intros bound c1 Hs1 Hb.
  eapply (gate_bind i _ (λ closed c, closed = false → granted gid i sid l c)).
  - destruct bound; [|by apply gate_ret]. specialize (Hb eq_refl).
    eapply safe_wand; [|apply (gate_calm i _ (granted gid i sid l)); [eauto with cluster|apply granted_stable|done..]]. auto.
  - intros [] c2 Hs2 Hc2; [apply gate_done; eauto with cluster|]. by apply Hk, Hc2.
Qed.

(** Logic consents or not; [P] is what the login may rely on. *)
Lemma consent_safe {B} b gid i sid l route r P (R : B → Cluster → Prop) (k : Result string LogicLoginRsp → task B) c :
  LogicLoginReq_gid r = gid → LogicLoginReq_gate_id r = i → LogicLoginReq_player_session r = sid → stable (Entering b gid i sid) P →
  (∀ c, sound c → P c → may_login c l gid i sid (LogicLoginReq_reconnect r)) → sound c → P c → unbound i sid c →
  (∀ rsp c, sound c → unbound i sid c → (consents rsp = true → gone gid c ∧ held l gid i sid c) → gate_safe i (Entering b gid i sid) R (k (Ok rsp)) c) →
  gate_safe i (Entering b gid i sid) R (await (CallLogicLogin l route r) ≫= k) c.
Proof.
  intros <- <- <- HP Hmay Hs Hc Hu Hk. eapply gate_call; [by apply (logic_login_safe b l _ r P)|]. intros rsp c1 Hs1 [Hu1 Hc1]. by apply Hk.
Qed.

(** A connection without a player and the Logic that the record names: the
    player may log in there. *)
Lemma unbound_may_login c l gid i sid d : sound c → unbound i sid c → named c gid = Some (OnlineCache.logic_id d) →
  (OnlineCache.logic_id d ≠ 0 → l = OnlineCache.logic_id d) → may_login c l gid i sid false.
Proof.
  intros [_ Hs] Hu Hn Hl. split.
  - intros Hcon. destruct (Hs gid i sid Hcon) as [Hb _]. unfold unbound in Hu. congruence.
  - intros j s Hcon. destruct (Hs gid j s Hcon) as (_ & n & Hn' & Hne & Hses). rewrite Hn in Hn'. injection Hn' as <-. by rewrite Hl.
Qed.

Lemma away_may_login c l gid i sid : sound c → away gid c → may_login c l gid i sid true.
Proof.
  intros [_ Hs] Ha j s Hcon. destruct (Hs gid j s Hcon) as (_ & n & Hn & _ & Hses). destruct (Ha n Hn) as [_ Hnone]. congruence.
Qed.

Lemma login_accepted_safe i frame head request d l public answer c (gid := LoginReq_gid request) (sid := frame_session_id frame) :
  conn_session_id (frame_conn frame) = sid → OnlineCache.gid d = gid → l ≠ 0 → sound c → unbound i sid c → gone gid c → held l gid i sid c →
  gate_safe i (Entering false gid i sid) ok (login_accepted config i frame head request d l public answer) c.
Proof.
  intros Hsid Hg Hl Hs Hu Hno Hh. unfold login_accepted. apply (bind_then false gid i sid l); [done..|]. intros c1 Hs1 Hc1.
  eapply gate_bind; [by apply (install_safe false gid i sid _ _ _ l)|]. intros became c2 Hs2 Hc2.
  apply (complete_safe false gid i sid l); [done..|]. intros [|]; eauto with cluster.
Qed.

Lemma handle_login_safe i frame head body request c : discovery_ok → conn_session_id (frame_conn frame) = frame_session_id frame →
  decode_body body = Some request → sound c →
  gate_safe i (Entering false (LoginReq_gid request) i (frame_session_id frame)) ok (GateGateway.handle_login config i frame head body) c.
Proof.
  intros Hdisc Hsid Hm Hs. set (gid := LoginReq_gid request). set (sid := frame_session_id frame) in *. set (w := Entering false gid i sid).
  unfold GateGateway.handle_login. eapply (gate_bind i w); [by apply (decode_safe i w (λ _, True) frame body request)|]. intros v c1 Hs1 [-> _].
  fold gid sid. eapply (gate_bind i w); [apply (user_safe false gid i sid _ (λ _, True)); [done|apply stable_true|done..]|]. intros user c2 Hs2 [_ Hu2].
  destruct (GateGateway.invalid_login user head request) eqn:E; [apply gate_done; eauto with cluster|].
  destruct user; [unfold GateGateway.invalid_login in E; rewrite bool_decide_eq_true_2 in E by done; discriminate|]. specialize (Hu2 eq_refl).
  eapply (gate_bind i w); [apply (verify_safe false gid i sid _ _ (unbound i sid)); [auto with cluster|done..]|].
  intros [d|] c3 Hs3 [Hu3 Hver]; [|apply gate_done; eauto with cluster]. destruct (Hver d eq_refl) as (Hn3 & Hg & _). clear Hver.
  set (P := λ c, unbound i sid c ∧ named c gid = Some (OnlineCache.logic_id d)). assert (stable w P) as HP by (unfold P, w; auto with cluster).
  eapply (gate_bind i w); [by apply (select_safe false gid i sid d P)|].
  intros [l|] c4 Hs4 [Hc4 Hsel]; [|apply gate_done; eauto with cluster]. destruct (Hsel l eq_refl) as [Hl0 Hl]. clear Hsel.
  apply (gate_then i w P); [done|eauto with cluster| |done..]. intros [public|] c5 Hs5 Hc5; [|apply gate_done; eauto with cluster].
  destruct (from_signed gid _) as [route|]; [|apply gate_done; eauto with cluster].
  apply (consent_safe false gid i sid l route _ P); [done..| |done|done|apply Hc5|].
  { intros c6 Hs6 [Hu6 Hn6]. by eapply unbound_may_login. }
  intros rsp c6 Hs6 Hu6 Hc6. rewrite consents_default. destruct (consents rsp); simpl; [|apply gate_done; eauto with cluster].
  destruct (Hc6 eq_refl). by apply login_accepted_safe.
Qed.

Lemma reconnect_accepted_safe i frame head request d rts c (gid := ReconnectReq_gid request) (sid := frame_session_id frame) (l := OnlineCache.logic_id d) :
  conn_session_id (frame_conn frame) = sid → OnlineCache.gid d = gid → l ≠ 0 → sound c → unbound i sid c → gone gid c → held l gid i sid c →
  gate_safe i (Entering true gid i sid) ok (reconnect_accepted config i frame head request d rts) c.
Proof.
  intros Hsid Hg Hl Hs Hu Hno Hh. unfold reconnect_accepted. apply (bind_then true gid i sid l); [done..|]. intros c1 Hs1 Hc1.
  apply (gate_then i _ (granted gid i sid l)); [apply granted_stable|eauto with cluster| |done..]. intros now c2 Hs2 Hc2.
  eapply gate_bind; [by apply (reconnect_safe true gid i sid _ _ _ _ _ l)|]. intros [r|error] c3 Hs3 Hc3; [|apply gate_done; eauto with cluster].
  apply (complete_safe true gid i sid l); [done..|]. intros [[]|error']; [|eauto with cluster]. apply all_acts_bind; [eauto with cluster|].
  intros []; eauto with cluster.
Qed.

Lemma handle_reconnect_safe i frame head body request c : conn_session_id (frame_conn frame) = frame_session_id frame →
  decode_body body = Some request → authentic_away request c → sound c →
  gate_safe i (Entering true (ReconnectReq_gid request) i (frame_session_id frame)) ok (handle_reconnect config i frame head body) c.
Proof.
  intros Hsid Hm Ha Hs. set (gid := ReconnectReq_gid request) in *. set (sid := frame_session_id frame) in *. set (w := Entering true gid i sid).
  unfold handle_reconnect. eapply (gate_bind i w); [by apply (decode_safe i w (authentic_away request) frame body request)|]. intros v c1 Hs1 [-> Ha1].
  fold gid sid. eapply (gate_bind i w); [apply (user_safe true gid i sid _ (authentic_away request)); [done|apply authentic_away_stable|done..]|]. intros user c2 Hs2 [Ha2 Hu2].
  destruct (invalid_reconnect user head request) eqn:E; [apply gate_done; eauto with cluster|].
  destruct user; [unfold invalid_reconnect in E; rewrite bool_decide_eq_true_2 in E by done; discriminate|]. specialize (Hu2 eq_refl).
  eapply (gate_bind i w); [apply (verify_safe true gid i sid _ _ (λ c, authentic_away request c ∧ unbound i sid c)); [apply stable_and; [apply authentic_away_stable|auto with cluster]|done..]|].
  intros [d|] c3 Hs3 [Hc3 Hver]; [|apply gate_done; eauto with cluster]. destruct (Hver d eq_refl) as (Hn3 & Hg & Hk3 & Hd). clear Hver.
  destruct Hc3 as [Ha3 Hu3]. pose proof (Ha3 Hd Hk3 : away gid c3) as Haway3.
  set (P := λ c, (away gid c ∧ unbound i sid c) ∧ named c gid = Some (OnlineCache.logic_id d)).
  assert (stable w P) as HP by (unfold P, w; auto with cluster).
  apply (gate_then i w P); [done|eauto with cluster| |done..]. intros now c4 Hs4 Hc4.
  apply (gate_then i w P); [done|eauto with cluster| |done..]. intros [rts|error] c5 Hs5 [[Ha5 Hu5] Hn5]; [|apply gate_done; eauto with cluster].
  destruct (Z.eqb_spec (OnlineCache.logic_id d) (logic_id rts)) as [Hl|]; simpl negb; cbv iota; [|apply gate_done; eauto with cluster].
  destruct (from_signed _ _) as [route|]; [|apply gate_done; eauto with cluster]. rewrite <- Hl. destruct (Ha5 _ Hn5) as [Hl0 _].
  apply (consent_safe true gid i sid _ route _ P); [done..| |done|done|done|].
  { intros c6 Hs6 [[Ha6 _] _]. by apply away_may_login. }
  intros rsp c6 Hs6 Hu6 Hc6. rewrite consents_default. destruct (consents rsp); simpl; [|apply gate_done; eauto with cluster].
  destruct (Hc6 eq_refl). by apply reconnect_accepted_safe.
Qed.

(** ** Every event *)

#[local] Abbreviation event := (event (Conn := Conn) (Bytes := Bytes)).

(** The frames of a connection carry its session id, and a reconnect with the
    credentials of a player comes from one without a session in the Logic his
    record names. *)
Definition event_ok (e : event) c : Prop :=
  match e with
  | Packet _ frame => conn_session_id (frame_conn frame) = frame_session_id frame
      ∧ match decode_packet (frame_payload frame) with
        | Some (head, body) => from_u16 (head_msgid head) = Some MsgId.ReconnectReq →
            ∀ request, decode_body body = Some request → authentic_away request c
        | None => True
        end
  | _ => True
  end.

Lemma decode_none_calm {M} `{!Decode Body M} frame body (k : option M → task unit) : decode_body (M := M) body = None →
  k None = Ret tt → all_acts calm_op (decode frame body ≫= k).
Proof.
  intros Hm Hk. unfold decode. rewrite Hm. constructor; [by apply is_calm_op|]. intros []. simpl. rewrite Hk. constructor.
Qed.

Lemma event_safe e c : discovery_ok → event_ok e c → sound c →
  safe (handle_op env) sound step compat (party e) ok (event_prog config e) c.
Proof.
  intros Hdisc He Hs.
  destruct e as [i frame|i conn|i ntf|i now|i workers schedule|gid account token]; cbn [event_prog party event_ok] in *.
  6:{ apply (safe_act _ _ _ _ _ (λ _, True)); [apply stable_true|done|]. intros c1 Hs1 _. pose proof (token_step env gid account token c1) as Hstep.
      assert (sound (handle_op env unit (SetToken gid account token) c1).2) as Hs2 by (apply (step_sound _ _ _ Hstep Hs1); by intros g (? & ? & ? & [=])).
      by split_and!. }
  5: { by apply stop_safe. }
  all: match goal with |- safe _ _ _ _ ?w _ (expanded _ ?i ?p) _ => change (gate_safe i w ok p c) end.
  - destruct He as [Hframe Hre]. unfold handle_packet. destruct (decode_packet _) as [[head body]|]; [|apply gate_done; eauto with cluster].
    destruct (from_u16 (head_msgid head)) as [msgid|]; [|apply gate_done; eauto with cluster].
    destruct msgid; lazymatch goal with
      | |- context [GateGateway.handle_login] => destruct (decode_body (M := LoginReq) body) as [request|] eqn:Hm;
          [by apply (handle_login_safe i frame head body request)|by apply gate_done; [apply decode_none_calm|]]
      | |- context [handle_reconnect] => destruct (decode_body (M := ReconnectReq) body) as [request|] eqn:Hm;
          [apply (handle_reconnect_safe i frame head body request); [done|done|by apply Hre|done]|by apply gate_done; [apply decode_none_calm|]]
      | |- context [handle_logout] => by apply handle_logout_safe
      | _ => apply gate_done; eauto with cluster
      end.
  - by apply connection_lost_safe.
  - apply gate_done; eauto with cluster.
  - apply gate_done; [|done]. apply all_acts_bind; [apply calm_in_store, prune_calm|eauto with cluster].
Qed.

(** A run of the cluster: events start, and their handlers take turns or are
    dropped. *)
Definition run_labels (ls : list (label (E := event))) c : Cluster :=
  (exec_labels (handle_op env) party (event_prog config) ls ([], c)).2.

Definition run_ok (ls : list (label (E := event))) c : Prop :=
  labels_ok (handle_op env) compat party (event_prog config) event_ok ls ([], c).

End cluster.
(** ** Two Gates, one player *)

Module cluster_example.
#[export] Existing Instances gate_example.conn_id gate_example.codec gate_example.proto gate_example.packets gate_example.tokens
  gate_example.login_body gate_example.reconnect_body gate_example.use_item_body
  online_example.item_sort online_example.login_len.
#[export] Existing Instance gate_example.no_body | 100.

(** What the other parties answer to either Gate; Logic is part of the
    cluster. *)
Definition env : Z → Env := λ _, gate_example.env.
Definition idle : LogicHandlers.World :=
  {| LogicHandlers.players := ∅; LogicHandlers.online_count := 0; owners := ∅; kicks := []; LogicHandlers.refuses := λ _, None;
     saver_fails := λ _, None; redis_down := λ _, false |}.
Definition start : Cluster (Conn := Z) (Payload := CsHead * S2C) :=
  mkCluster (λ _, gate_example.start) (λ _, idle) {[ 7 := gate_example.alice ]}.

#[local] Abbreviation frame := gate_example.frame.
Definition login (c : Z) : NetFrame Z (CsHead * gate_example.Body) :=
  frame c (MsgId.as_u16 MsgId.LoginReq) 1 0 (gate_example.BLogin (mkLoginReq 7 "t0k" "device-1")).
Definition reconnect (c previous : Z) : NetFrame Z (CsHead * gate_example.Body) :=
  frame c (MsgId.as_u16 MsgId.ReconnectReq) 3 0 (gate_example.BReconnect (mkReconnectReq 7 "t0k" "device-1" previous 0)).

Definition run_events := handle_events HARD_LIMITS env.
(** The connection of the player at a Gate. *)
Definition connection (c : Cluster) (i : Z) : option Z :=
  s ← attached (Conn := Z) (Payload := CsHead * S2C) (sessions (store (gates c i))) 7; if active s then Some (session_id s) else None.

#[local] Abbreviation event := (event (Conn := Z) (Bytes := CsHead * gate_example.Body)).

(** The player logs in at Gate 1, changes his network and logs in at Gate 2,
    while Gate 1 handles the loss of the first connection: the handlers take
    turns.  A third login is dropped, and Auth issues a new
    token. *)
Definition alone (n : nat) : list (label (E := event)) := replicate 40 (Advance n).
Definition move : list (label (E := event)) :=
  [Start (Packet 1 (login 1))] ++ alone 0 ++ [Start (Lost 1 1); Advance 1; Start (Packet 2 (login 2))]
  ++ concat (replicate 5 [Advance 2; Advance 1; Advance 2]) ++ [Start (Prune 1 0); Advance 3] ++ alone 2 ++ alone 1
  ++ [Start (Packet 3 (login 3)); Advance 4; Advance 4; Cancel 4; Start (Token 7 "alice" "t1k"); Advance 5].
End cluster_example.
Import cluster_example.

Lemma start_empty : well_formed start ∧ ∀ gid, no_connection start gid.
Proof.
  split; [split|].
  - intros i. split; intros; simplify_eq.
  - intros l gid o. unfold player_of, start. simpl. by rewrite lookup_empty.
  - intros gid i sid (s & Hs & _). unfold attached in Hs. simpl in Hs. by rewrite lookup_empty in Hs.
Qed.

Lemma login_ok i conn (c : Cluster (Conn := Z) (Payload := CsHead * S2C)) : event_ok (Packet i (login conn)) c.
Proof. split; [done|]. intros [=]. Qed.

Lemma move_ok : run_ok HARD_LIMITS env move start.
Proof.
  apply labels_fit_ok; [|vm_compute; reflexivity]. apply Forall_forall. intros l Hl e c ->.
  repeat (apply elem_of_app in Hl as [Hl|Hl]); repeat (apply elem_of_cons in Hl as [Hl|Hl]);
    try injection Hl as ->; try discriminate Hl; try (by apply elem_of_nil in Hl); try apply login_ok; try done.
Qed.


(** A reconnect does not ask who holds the player now: the retained stream of
    the first Gate is resumed although the player has since logged in at the
    second one, and both connections stay. *)
Lemma reconnect_leaves_two_connections :
  let c := run_events [Packet 1 (login 1); Lost 1 1; Packet 2 (login 2); Packet 1 (reconnect 3 1)] start in
  connection c 1 = Some 3 ∧ connection c 2 = Some 2.
Proof. vm_compute. by split. Qed.
