(* ===== verification/ClusterRaces.v ===== *)
(** What the handlers of a cluster do to each other when they interleave: the
    login RPC of a Gate and the installation of its session are separate steps
    (src/service/gate/src/gateway.rs, [handle_login]), so the kick of a newer
    login can arrive at a Gate that has not installed the session yet.  The
    runs below are schedules of the programs of [Cluster.event_prog]. *)

From S2P Require Import Prelude Effects Routing Proto LogicAdmission LogicRuntime LogicPlayer LogicHandlers.
From S2P Require Import OnlineCache GateSession GateSessions GateGateway GateGatewaySpec Cluster ClusterLogin.

Module race_example.
Import cluster_example.
#[local] Abbreviation Eff := (ClusterEff (Conn := Z) (Payload := CsHead * S2C)).

Definition handler (e : event (Conn := Z) (Bytes := CsHead * gate_example.Body)) : prog Eff unit := event_prog HARD_LIMITS e.
Definition operate : ∀ X, Eff X → Cluster → X * Cluster := handle_op env.

(** The player logs in at Gate 1; after [n] operations of that handler he logs
    in at Gate 2, and then the first handler goes on. *)
Definition overlap (n : nat) : Cluster :=
  (interleave operate (replicate n 0%nat ++ replicate 40 1%nat ++ replicate 40 0%nat)
     ([handler (Packet 1 (login 1)); handler (Packet 2 (login 2))], start)).2.

(** Who is connected at the two Gates, the session Logic holds, and the Gate
    of the owner record. *)
Definition view (c : Cluster) : option Z * option Z * option PlayerSession * option Z :=
  (connection c 1, connection c 2, LogicPlayer.session (player_of (logics c 5) 7), OnlineCache.gate_id <$> redis c !! 7).

(** One after the other, the newer login replaces the older one. *)
Example overlap_none : view (overlap 40) = (None, Some 2, Some (mkPlayerSession 2 2), Some 2).
Proof. vm_compute. reflexivity. Qed.

(** Auth issues a new token after [n] operations of the login at Gate 1. *)
Definition reissued (n : nat) : Cluster :=
  (interleave operate (replicate n 0%nat ++ [1%nat] ++ replicate 40 0%nat)
     ([handler (Packet 1 (login 1)); handler (Token 7 "alice" "t1k")], start)).2.
Definition active_token (c : Cluster (Conn := Z) (Payload := CsHead * S2C)) : option string := OnlineCache.token <$> redis c !! 7.

(** Once the login is over, the new token is the active one. *)
Example reissued_after : active_token (reissued 40) = Some "t1k".
Proof. vm_compute. reflexivity. Qed.
End race_example.
Import race_example.

(** Logic consents to the login at Gate 1, then to the one at Gate 2: the kick
    it sends to Gate 1 finds no session there, since that Gate installs the
    session after the answer.  Both connections stay, Logic holds the second
    session and the record names the first Gate. *)
Lemma concurrent_logins_leave_two_connections :
  view (overlap 8) = (Some 1, Some 2, Some (mkPlayerSession 2 2), Some 1).
Proof. vm_compute. reflexivity. Qed.

(** A later login at another Gate does not end it: Logic only knows the second
    session, so the connection at Gate 1 survives. *)
Lemma later_login_leaves_stale_connection :
  let c := handle_event HARD_LIMITS cluster_example.env (Packet 3 (cluster_example.login 3)) (overlap 8) in
  view c = (Some 1, None, Some (mkPlayerSession 3 3), Some 3) ∧ cluster_example.connection c 3 = Some 3.
Proof. vm_compute. by split. Qed.

(** The session at Gate 1 was replaced before that Gate saved the record: the
    save is unconditional, so the record names Gate 1 although the player is
    connected to Gate 2. *)
Lemma replaced_login_overwrites_record :
  view (overlap 11) = (None, Some 2, Some (mkPlayerSession 2 2), Some 1).
Proof. vm_compute. reflexivity. Qed.

(** The record that a login saves is the one it has read, with its token: a
    token that Auth issued meanwhile is lost, the player is refused with it, and
    the older one stays active. *)
Lemma login_overwrites_newer_token : active_token (reissued 2) = Some "t0k" ∧ cluster_example.connection (reissued 2) 1 = Some 1.
Proof. vm_compute. by split. Qed.
