(* ===== verification/QueryApi.v ===== *)
(** The Query service (src/service/query/src/query.rs): the profiles of the
    requested players. *)

From S2P Require Import Prelude Effects Proto Mongo Documents.

#[local] Open Scope string_scope.
#[local] Open Scope list_scope.
#[local] Open Scope Z_scope.

Definition MAX_GAMER_IDS : Z := 100.
Definition MAX_INFLIGHT_REQUESTS : Z := 1024.

Definition valid_gamer_ids (gamer_ids : list Z) : option (list Z) :=
  if bool_decide (gamer_ids = []) || (MAX_GAMER_IDS <? len gamer_ids) then None
  else if all_new ∅ gamer_ids then Some gamer_ids else None.

Section query.
Context {E : Type} `{!Xmongo E, !MapIter Z Z}.

Inductive QueryEff : Type → Type :=
| TryAcquire : QueryEff bool
| DropPermit : QueryEff unit
| OnMongo {X : Type} (e : MongoEff E X) : QueryEff X.

Definition mongo {A} : prog (MongoEff E) A → prog QueryEff A := lift (λ X, @OnMongo X).

Definition gamer_info_status (status : Status) : GamerInfoRsp := mkGamerInfoRsp (Some status) [].
Definition gamer_info_error (error_code : Z) (message : string) : GamerInfoRsp := gamer_info_status (error_status error_code message).

Definition gamer_info (d : Database) (request : GamerInfoReq) : prog QueryEff GamerInfoRsp :=
  with_permit TryAcquire DropPermit (gamer_info_error code.OVERLOADED "Query request capacity exhausted")
    match valid_gamer_ids (GamerInfoReq_gamer_ids request) with
    | None => Ret (gamer_info_error code.INVALID_ARGUMENT "invalid gamer ids")
    | Some gamer_ids =>
        loaded ← mongo (load_profiles d gamer_ids);
        Ret match loaded with
            | Err _ => gamer_info_error code.INTERNAL "player load failed"
            | Ok players => mkGamerInfoRsp (Some ok_status) players
            end
    end.
End query.
#[global] Arguments QueryEff E {_} _.
