(* ===== verification/QuerySpec.v ===== *)
(** What the Query service promises: the stored profiles of the requested
    players, in the order of the request, under a bounded number of requests. *)

From S2P Require Import Prelude Effects Redis Proto Mongo Documents DocumentsSpec QueryApi.

#[local] Open Scope string_scope.
#[local] Open Scope list_scope.
#[local] Open Scope Z_scope.

Lemma valid_gamer_ids_spec ids r :
  valid_gamer_ids ids = Some r ↔ r = ids ∧ 0 < len ids <= MAX_GAMER_IDS ∧ Forall (λ id, 0 < id) ids ∧ NoDup ids.
Proof. apply valid_ids_spec. Qed.

Section query.
Context {E : Type} `{!Xmongo E, !MapIter Z Z} {SM : Type} `{!Mongo E SM}.

(** ** A world to run it in *)

Record QueryWorld := mkQueryWorld { permits : Z; mongo_store : SM }.

Definition handle_query (net : Network E) (X : Type) (e : QueryEff E X) : QueryWorld → X * QueryWorld :=
  match e in QueryEff _ X return QueryWorld → X * QueryWorld with
  | TryAcquire => λ w, if 0 <? permits w then (true, mkQueryWorld (permits w - 1) (mongo_store w)) else (false, w)
  | DropPermit => λ w, (tt, mkQueryWorld (permits w + 1) (mongo_store w))
  | OnMongo e => λ w, let '(x, s) := handle_mongo net _ e (mongo_store w) in (x, mkQueryWorld (permits w) s)
  end.

Lemma run_mongo {A} net (p : prog (MongoEff E) A) w :
  run (handle_query net) (mongo p) w = let '(a, s) := run (handle_mongo net) p (mongo_store w) in (a, mkQueryWorld (permits w) s).
Proof.
  revert w. induction p as [a|X e k IH]; intros w; [by destruct w|]. simpl.
  destruct (handle_mongo net X e (mongo_store w)) as [x s]. exact (IH x (mkQueryWorld (permits w) s)).
Qed.

Variable d : Database.
Implicit Types (s : SM).

Definition player_document s (gid : Z) : option Document := document (players d) (Int64 gid) s.
Definition player_of (document : Document) : option PlayerData :=
  match from_bson_player_data (BsonDocument document) with Ok p => Some p | Err _ => None end.

(** Every player is stored under his own id, as [save_player] does. *)
Definition well_stored s : Prop :=
  ∀ gid document, player_document s gid = Some document → ∃ p, player_of document = Some p ∧ PlayerData_gid p = gid.

(** The stored profile of a player. *)
Definition profile_of s (gid : Z) : option PlayerInfo := (player_document s gid ≫= player_of) ≫= PlayerData_profile.

Lemma collect_profiles_spec s docs acc : (∀ doc, doc ∈ docs → ∃ p, player_of doc = Some p ∧ player_document s (PlayerData_gid p) = Some doc) →
  (∀ g pr, acc !! g = Some pr → profile_of s g = Some pr) →
  ∃ m, collect_profiles (Ok <$> docs) acc = Ok m
    ∧ (∀ g pr, m !! g = Some pr → profile_of s g = Some pr)
    ∧ (∀ g pr, acc !! g = Some pr → m !! g = Some pr)
    ∧ ∀ doc p pr, doc ∈ docs → player_of doc = Some p → PlayerData_profile p = Some pr → m !! PlayerData_gid p = Some pr.
Proof.
  revert acc. induction docs as [|doc docs IH]; intros acc Hdocs Hacc.
  { exists acc. split_and!; [done..|]. by intros doc p pr ?%not_elem_of_nil. }
  destruct (Hdocs doc) as (p & Hp & Hdoc); [by left|]. rewrite fmap_cons. cbn [collect_profiles].
  assert (from_bson_player_data (BsonDocument doc) = Ok p) as Hok.
  { unfold player_of in Hp. destruct (from_bson_player_data _); by simplify_eq. }
  simpl. rewrite Hok. simpl.
  assert (profile_of s (PlayerData_gid p) = PlayerData_profile p) as Hprof by (unfold profile_of; rewrite Hdoc; simpl; by rewrite Hp).
  destruct (IH (match PlayerData_profile p with Some profile => <[PlayerData_gid p := profile]> acc | None => acc end)) as (m & Hm & Hagree & Hmono & Hall).
  { intros doc' Hin. apply Hdocs. by right. }
  { intros g pr. destruct (PlayerData_profile p) as [profile|] eqn:Hpr; [|apply Hacc].
    intros [[<- <-]|[_ Hg]]%lookup_insert_Some; [done|by apply Hacc]. }
  exists m. split_and!; [done|done| |].
  - intros g pr Hg. destruct (PlayerData_profile p) as [profile|] eqn:Hpr; [|by apply Hmono].
    apply Hmono. apply lookup_insert_Some. destruct (decide (PlayerData_gid p = g)) as [<-|]; [left|by right].
    split; [done|]. specialize (Hacc _ _ Hg). congruence.
  - intros doc' p' pr [->|Hin]%elem_of_cons Hp' Hpr'; [|by eapply Hall].
    assert (p' = p) as -> by congruence. apply Hmono. rewrite Hpr'. by rewrite lookup_insert_eq.
Qed.

Lemma take_profiles_spec ids m : NoDup ids → take_profiles ids m = omap (λ g, m !! g) ids.
Proof.
  intros Hnd. revert m. induction Hnd as [|g ids Hg Hnd IH]; intros m; simpl; [done|].
  destruct (m !! g) as [pr|]; rewrite IH; [|done]. f_equal. clear -Hg. induction ids as [|g' ids IH]; [done|].
  apply not_elem_of_cons in Hg as [Hne Hg]. simpl. rewrite lookup_delete_ne by done.
  destruct (m !! g'); [f_equal|]; by apply IH.
Qed.

Lemma omap_profiles s (m : gmap Z PlayerInfo) (ids : list Z) :
  (∀ g pr, m !! g = Some pr → profile_of s g = Some pr) → (∀ g pr, g ∈ ids → profile_of s g = Some pr → m !! g = Some pr) →
  omap (λ g, m !! g) ids = omap (profile_of s) ids.
Proof.
  intros Hagree Hall. induction ids as [|g ids IH]; [done|]. simpl.
  assert (m !! g = profile_of s g) as ->.
  { destruct (profile_of s g) as [pr|] eqn:Hp; [apply Hall; [by left|done]|]. destruct (m !! g) as [pr|] eqn:Hm; [|done].
    apply Hagree in Hm. congruence. }
  assert (omap (λ g, m !! g) ids = omap (profile_of s) ids) as Hrest by (apply IH; intros g' pr Hin; apply Hall; by right).
  destruct (profile_of s g); [f_equal|]; exact Hrest.
Qed.

(** On a reachable server the profiles of the players are those that are
    stored. *)
Lemma load_profiles_run s ids : NoDup ids → well_stored s →
  run (handle_mongo Up) (load_profiles d ids) s = (Ok (omap (profile_of s) ids), s).
Proof.
  intros Hnd Hs. unfold load_profiles. case_bool_decide as Hne; [by subst|]. simpl.
  assert (NoDup (Int64 <$> ids)) as Hids by (apply NoDup_fmap_2; [exact Int64_inj|done]).
  pose proof (find_in_documents (players d) (Int64 <$> ids) s Hids) as Hperm.
  assert (∀ doc, doc ∈ find_in (players d) (Int64 <$> ids) s ↔ ∃ g, g ∈ ids ∧ player_document s g = Some doc) as Hdocs.
  { intros doc. rewrite Hperm, list_elem_of_omap. split.
    - intros (id & (g & -> & Hg)%list_elem_of_fmap & Hdoc). by exists g.
    - intros (g & Hg & Hdoc). exists (Int64 g). split; [by apply list_elem_of_fmap_2|done]. }
  destruct (collect_profiles_spec s (find_in (players d) (Int64 <$> ids) s) ∅) as (m & -> & Hagree & _ & Hall).
  - intros doc (g & Hg & Hdoc)%Hdocs. destruct (Hs g doc Hdoc) as (p & Hp & <-). by exists p.
  - intros g pr. by rewrite lookup_empty.
  - simpl. rewrite take_profiles_spec by done. rewrite (omap_profiles s m ids); [done|done|].
    intros g pr Hg Hpr. unfold profile_of in Hpr. destruct (player_document s g) as [doc|] eqn:Hdoc; [|done]. simpl in Hpr.
    destruct (Hs g doc Hdoc) as (p & Hp & Hgid). rewrite Hp in Hpr. simpl in Hpr. rewrite <- Hgid. apply (Hall doc); [|done..].
    apply Hdocs. by exists g.
Qed.

(** C31: a query answers the stored profiles of the requested players in the
    order of the request, leaving out those it does not have.  Every other
    outcome is an error status without players: no permit, ids that are not
    positive, distinct and at most a hundred, or a server that does not
    answer.  The permit is given back and nothing is written. *)
Theorem query_answers_in_request_order net ids w : well_stored (mongo_store w) →
  run (handle_query net) (gamer_info d (mkGamerInfoReq ids)) w
  = (if negb (0 <? permits w) then gamer_info_error code.OVERLOADED "Query request capacity exhausted"
     else if negb (bool_decide (0 < len ids <= MAX_GAMER_IDS ∧ Forall (λ id, 0 < id) ids ∧ NoDup ids))
     then gamer_info_error code.INVALID_ARGUMENT "invalid gamer ids"
     else match net with
          | Up => mkGamerInfoRsp (Some ok_status) (omap (profile_of (mongo_store w)) ids)
          | _ => gamer_info_error code.INTERNAL "player load failed"
          end, w).
Proof.
  intros Hs. unfold gamer_info, with_permit. rewrite run_bind, run_await. cbn [handle_query].
  destruct (Z.ltb_spec 0 (permits w)); cbn [negb]; [|done]. rewrite run_bind. cbn [GamerInfoReq_gamer_ids].
  assert (mkQueryWorld (permits w - 1 + 1) (mongo_store w) = w) as Hback by (destruct w; simpl; f_equal; lia).
  case_bool_decide as Hvalid; cbn [negb].
  - rewrite (proj2 (valid_gamer_ids_spec ids ids)) by done. rewrite run_bind, run_mongo. destruct Hvalid as (Hlen & _ & Hnd).
    assert (ids ≠ []) as Hne by (intros ->; by destruct Hlen).
    destruct net as [|error|error].
    + cbn [mongo_store]. rewrite (load_profiles_run _ _ Hnd Hs). simpl. by rewrite Hback.
    + unfold load_profiles. rewrite bool_decide_eq_false_2 by done. simpl. by rewrite Hback.
    + unfold load_profiles. rewrite bool_decide_eq_false_2 by done. simpl. by rewrite Hback.
  - destruct (valid_gamer_ids ids) as [r|] eqn:Hv; [apply valid_gamer_ids_spec in Hv; tauto|]. simpl. by rewrite Hback.
Qed.
End query.

Module query_example.
Definition stored : MongoStore :=
  (run (handle_mongo Up) (save_player documents_example.catalog documents_example.player) ([] : MongoStore)).2.

Lemma well_stored_stored : well_stored documents_example.catalog stored.
Proof.
  intros gid document Hd. unfold player_document in Hd.
  change (Mongo.document (players documents_example.catalog) (Int64 gid) stored)
    with (stored_document (players documents_example.catalog) (bson_Int64 gid) stored) in Hd.
  let s := eval vm_compute in stored in change stored with s in Hd.
  cbn [stored_document] in Hd. case_decide as Heq; [|done]. injection Heq as ->. injection Hd as <-.
  eexists. split; vm_compute; reflexivity.
Qed.
End query_example.

Lemma query_answers_in_request_order_witness :
  (run (handle_query Up) (gamer_info documents_example.catalog (mkGamerInfoReq [9; 7])) (mkQueryWorld 1 query_example.stored)).1
  = mkGamerInfoRsp (Some ok_status) [mkPlayerInfo 7 "Player7" 1 0 5].
Proof.
  rewrite (query_answers_in_request_order documents_example.catalog Up [9; 7] (mkQueryWorld 1 query_example.stored)).
  - vm_compute. reflexivity.
  - exact query_example.well_stored_stored.
Defined.
