(* ===== verification/Config.v ===== *)
(** The configuration of the services (src/config/src): what a role, the
    common file and the version document hold, how a service composes and
    validates its configuration, and how it is loaded from the directory of
    the role file.  The decoders of YAML and JSON are the classes [FromYaml]
    and [FromJson]; a file system is asked through [FileEff]. *)

From stdpp Require Import pretty.
From S2P Require Import Prelude Effects Decimal.

#[local] Open Scope string_scope.
#[local] Open Scope list_scope.
#[local] Open Scope Z_scope.

(** ** Errors and decoders *)

(** A path as its components, which is what equality of Rust's paths compares. *)
Record Path := mkPath { absolute : bool; components : list string }.

(** [Path::parent]: the root and the empty path have none. *)
Definition parent (p : Path) : option Path :=
  match components p with
  | [] => None
  | _ => Some (mkPath (absolute p) (removelast (components p)))
  end.
(** [Path::join] with a plain file name. *)
Definition join (p : Path) (name : string) : Path := mkPath (absolute p) (components p ++ [name]).
Definition relative (name : string) : Path := mkPath false [name].

(** The errors of the system and of the decoders. *)
Class ConfigErrors := { IoError : Type; YamlError : Type; JsonError : Type }.

Inductive ConfigError `{!ConfigErrors} :=
| Usage (service : string)
| Read (path : Path) (source : IoError)
| Decode (path : Path) (source : YamlError)
| DecodeVersion (path : Path) (source : JsonError)
| Invalid (service message : string).

(** What [serde_yaml] makes of a document of type [T]: every decoded value
    satisfies [typed], the ranges of its integer fields. *)
Class FromYaml `{!ConfigErrors} (T : Type) (typed : T → Prop) := {
  from_yaml : string → Result YamlError T;
  from_yaml_typed text value : from_yaml text = Ok value → typed value
}.

Record VersionDocument := mkVersionDocument { conf_version : Z }.
Class FromJson `{!ConfigErrors} := { from_json : string → Result JsonError VersionDocument }.

Definition invalid `{!ConfigErrors} (service message : string) : ConfigError := Invalid service message.

(** [Err(invalid(service, message))] when the condition holds. *)
Definition reject_if `{!ConfigErrors} (condition : bool) (service message : string) : Result ConfigError unit :=
  if condition then Err (invalid service message) else Ok tt.

(** [is_empty] of a string. *)
Definition is_empty (s : string) : bool := bool_decide (s = "").

(** ** Program and configuration version *)

Record ServiceVersion := mkServiceVersion { program : Z; conf : Z }.

(** The build script: it ends the build ([None]) unless the variable holds a
    non-negative [i32], and hands its decimal form to the compiler. *)
Definition build_version (variable : option string) : option string :=
  version ← i32_from_str (default "0" variable);
  if 0 <=? version then Some (pretty version) else None.

Section version.
Context `{!ConfigErrors, !FromJson}.

(** [pro_version] is the text the build script handed over; the [expect] of a
    text that is no number is [None]. *)
Definition decode_version (pro_version : string) (json : string) (path : Path) : option (Result ConfigError ServiceVersion) :=
  match from_json json with
  | Err source => Some (Err (DecodeVersion path source))
  | Ok document =>
      if conf_version document <? 0 then Some (Err (invalid "version" "conf_version must be non-negative"))
      else
        program ← i32_from_str pro_version;
        Some (Ok (mkServiceVersion program (conf_version document)))
  end.
End version.

(** ** Log settings *)

Inductive LogLevel := Trace | Debug | Info | Warn | Error.
Inductive LogRotation := Daily | Hourly.

Record LogSettings := mkLogSettings {
  level : LogLevel;
  stdout : bool;
  file : option Path;
  async_queue_capacity : Z;
  rotation : LogRotation
}.

Record LogOverride := mkLogOverride {
  override_level : option LogLevel;
  override_stdout : option bool;
  override_file : option Path;
  override_async_queue_capacity : option Z;
  override_rotation : option LogRotation
}.

(** The overrides of a role file without a [log] section. *)
Definition LogOverride_default : LogOverride := mkLogOverride None None None None None.

Definition apply (self : LogSettings) (overrides : LogOverride) : LogSettings :=
  mkLogSettings
    (default (level self) (override_level overrides))
    (default (stdout self) (override_stdout overrides))
    (match override_file overrides with Some file => Some file | None => file self end)
    (default (async_queue_capacity self) (override_async_queue_capacity overrides))
    (default (rotation self) (override_rotation overrides)).

(** The fields of [xlog::Options] that are set; the formats are always
    [Console], the levels and rotations those of the same name. *)
Record LogOptions := mkLogOptions {
  options_level : LogLevel;
  options_stdout : bool;
  options_file : bool;
  options_file_path : Path;
  options_async_queue_capacity : Z;
  options_rotation : LogRotation
}.

Definition options (self : LogSettings) (default_file : Path) : LogOptions :=
  mkLogOptions (level self) (stdout self) (bool_decide (is_Some (file self))) (default default_file (file self))
    (async_queue_capacity self) (rotation self).

(** ** Shared parts *)

Record Infrastructure := mkInfrastructure { etcd_dsn : string; mongo_dsn : string; redis_dsn : string }.
Record Security := mkSecurity { token_secret : string; token_expire_seconds : Z }.

Record CommonConfig := mkCommonConfig {
  cluster : string;
  infrastructure : Infrastructure;
  security : Security;
  log : LogSettings
}.

Section validation.
Context `{!ConfigErrors}.

Definition log_validate (self : LogSettings) (service : string) : Result ConfigError unit :=
  reject_if (async_queue_capacity self =? 0) service "log.async_queue_capacity must be positive".

Definition infrastructure_validate (self : Infrastructure) (service : string) : Result ConfigError unit :=
  reject_if (is_empty (etcd_dsn self) || is_empty (mongo_dsn self) || is_empty (redis_dsn self)) service
    "infrastructure DSNs must not be empty".

Definition security_validate (self : Security) (service : string) : Result ConfigError unit :=
  reject_if (is_empty (token_secret self) || (token_expire_seconds self <=? 0)) service "security token settings are invalid".

Definition common_validate (self : CommonConfig) (service : string) : Result ConfigError unit :=
  _ ← reject_if (is_empty (cluster self)) service "cluster must not be empty";
  _ ← infrastructure_validate (infrastructure self) service;
  _ ← security_validate (security self) service;
  log_validate (log self) service.

Definition validate_node (service cluster : string) (instance_id : Z) (advertise_host listen_host : string) : Result ConfigError unit :=
  _ ← reject_if (is_empty cluster || is_empty advertise_host || is_empty listen_host) service "node names and hosts must not be empty";
  reject_if (instance_id <=? 0) service "node.instance_id must be positive".
End validation.

(** ** Nodes *)

Module HttpNode.
Record t := mk { cluster : string; instance_id : Z; advertise_host : string; listen_host : string; http_port : Z }.
Record Config := mkConfig {
  config_instance_id : Z; config_advertise_host : string; config_listen_host : string; config_http_port : Z }.

Definition compose (self : Config) (cluster : string) : t :=
  mk cluster (config_instance_id self) (config_advertise_host self) (config_listen_host self) (config_http_port self).

Definition validate `{!ConfigErrors} (self : t) (service : string) : Result ConfigError unit :=
  _ ← validate_node service (cluster self) (instance_id self) (advertise_host self) (listen_host self);
  reject_if (http_port self =? 0) service "node.http_port must be positive".
End HttpNode.

Module ServiceNode.
Record t := mk { cluster : string; instance_id : Z; advertise_host : string; listen_host : string; service_port : Z }.
Record Config := mkConfig {
  config_instance_id : Z; config_advertise_host : string; config_listen_host : string; config_service_port : Z }.

Definition compose (self : Config) (cluster : string) : t :=
  mk cluster (config_instance_id self) (config_advertise_host self) (config_listen_host self) (config_service_port self).

Definition validate `{!ConfigErrors} (self : t) (service : string) : Result ConfigError unit :=
  _ ← validate_node service (cluster self) (instance_id self) (advertise_host self) (listen_host self);
  reject_if (service_port self =? 0) service "node.service_port must be positive".
End ServiceNode.

Module GateNode.
Record t := mk { cluster : string; instance_id : Z; advertise_host : string; listen_host : string }.
Record Config := mkConfig { config_instance_id : Z; config_advertise_host : string; config_listen_host : string }.

Definition compose (self : Config) (cluster : string) : t :=
  mk cluster (config_instance_id self) (config_advertise_host self) (config_listen_host self).

Definition validate `{!ConfigErrors} (self : t) (service : string) : Result ConfigError unit :=
  validate_node service (cluster self) (instance_id self) (advertise_host self) (listen_host self).
End GateNode.

(** ** Roles *)

Module AuthConfig.
Definition SERVICE : string := "Auth".

Record t := mk {
  node : HttpNode.t; infrastructure : Infrastructure; security : Security; log : LogSettings; version : ServiceVersion }.
Record Role := mkRole { role_node : HttpNode.Config; role_log : LogOverride }.

Definition validate `{!ConfigErrors} (self : t) : Result ConfigError unit :=
  _ ← HttpNode.validate (node self) SERVICE;
  _ ← infrastructure_validate (infrastructure self) SERVICE;
  _ ← security_validate (security self) SERVICE;
  log_validate (log self) SERVICE.

Definition compose `{!ConfigErrors} (common : CommonConfig) (role : Role) (version : ServiceVersion) : Result ConfigError t :=
  _ ← common_validate common SERVICE;
  let config :=
    mk (HttpNode.compose (role_node role) (cluster common)) (Config.infrastructure common) (Config.security common)
      (apply (Config.log common) (role_log role)) version in
  _ ← validate config;
  Ok config.
End AuthConfig.

Module QueryConfig.
Definition SERVICE : string := "Query".

Record t := mk { node : HttpNode.t; infrastructure : Infrastructure; log : LogSettings; version : ServiceVersion }.
Record Role := mkRole { role_node : HttpNode.Config; role_log : LogOverride }.

Definition validate `{!ConfigErrors} (self : t) : Result ConfigError unit :=
  _ ← HttpNode.validate (node self) SERVICE;
  _ ← infrastructure_validate (infrastructure self) SERVICE;
  log_validate (log self) SERVICE.

Definition compose `{!ConfigErrors} (common : CommonConfig) (role : Role) (version : ServiceVersion) : Result ConfigError t :=
  _ ← common_validate common SERVICE;
  let config :=
    mk (HttpNode.compose (role_node role) (cluster common)) (Config.infrastructure common)
      (apply (Config.log common) (role_log role)) version in
  _ ← validate config;
  Ok config.
End QueryConfig.

Module LogicConfig.
Definition SERVICE : string := "Logic".

Record t := mk { node : ServiceNode.t; infrastructure : Infrastructure; log : LogSettings; version : ServiceVersion }.
Record Role := mkRole { role_node : ServiceNode.Config; role_log : LogOverride }.

Definition validate `{!ConfigErrors} (self : t) : Result ConfigError unit :=
  _ ← ServiceNode.validate (node self) SERVICE;
  _ ← infrastructure_validate (infrastructure self) SERVICE;
  log_validate (log self) SERVICE.

Definition compose `{!ConfigErrors} (common : CommonConfig) (role : Role) (version : ServiceVersion) : Result ConfigError t :=
  _ ← common_validate common SERVICE;
  let config :=
    mk (ServiceNode.compose (role_node role) (cluster common)) (Config.infrastructure common)
      (apply (Config.log common) (role_log role)) version in
  _ ← validate config;
  Ok config.
End LogicConfig.

Module PublicConfig.
Definition SERVICE : string := "Public".

Record t := mk { node : ServiceNode.t; infrastructure : Infrastructure; log : LogSettings; version : ServiceVersion }.
Record Role := mkRole { role_node : ServiceNode.Config; role_log : LogOverride }.

Definition validate `{!ConfigErrors} (self : t) : Result ConfigError unit :=
  _ ← ServiceNode.validate (node self) SERVICE;
  _ ← infrastructure_validate (infrastructure self) SERVICE;
  log_validate (log self) SERVICE.

Definition compose `{!ConfigErrors} (common : CommonConfig) (role : Role) (version : ServiceVersion) : Result ConfigError t :=
  _ ← common_validate common SERVICE;
  let config :=
    mk (ServiceNode.compose (role_node role) (cluster common)) (Config.infrastructure common)
      (apply (Config.log common) (role_log role)) version in
  _ ← validate config;
  Ok config.
End PublicConfig.

(** *** The Gate *)

Inductive GateTransport := Tcp | Kcp | Websocket.
#[export] Instance GateTransport_eq_dec : EqDecision GateTransport.
Proof. solve_decision. Defined.

Definition as_str (self : GateTransport) : string :=
  match self with Tcp => "tcp" | Kcp => "kcp" | Websocket => "websocket" end.

Module GateListeners.
Record t := mk {
  tcp_port : option Z;
  kcp_port : option Z;
  websocket_port : option Z;
  websocket_path : string;
  primary_transport : GateTransport
}.

Definition SERVICE : string := "Gate".

Definition primary_port (self : t) : option Z :=
  match primary_transport self with
  | Tcp => tcp_port self
  | Kcp => kcp_port self
  | Websocket => websocket_port self
  end.

Definition validate `{!ConfigErrors} (self : t) : Result ConfigError unit :=
  _ ← reject_if (bool_decide (primary_port self = None)) SERVICE "listeners.primary_transport must be enabled";
  _ ← reject_if (existsb (λ port, port =? 0) (omap id [tcp_port self; kcp_port self; websocket_port self])) SERVICE
        "listener ports must be positive";
  _ ← reject_if (bool_decide (is_Some (tcp_port self)) && bool_decide (tcp_port self = websocket_port self)) SERVICE
        "TCP and WebSocket cannot share one TCP port";
  reject_if (negb (String.prefix "/" (websocket_path self))) SERVICE "listeners.websocket_path must start with '/'".
End GateListeners.

Module GateConfig.
Definition SERVICE : string := "Gate".

Record t := mk {
  node : GateNode.t; infrastructure : Infrastructure; listeners : GateListeners.t; security : Security;
  log : LogSettings; version : ServiceVersion }.
Record Role := mkRole { role_node : GateNode.Config; role_listeners : GateListeners.t; role_log : LogOverride }.

Definition validate `{!ConfigErrors} (self : t) : Result ConfigError unit :=
  _ ← GateNode.validate (node self) SERVICE;
  _ ← infrastructure_validate (infrastructure self) SERVICE;
  _ ← GateListeners.validate (listeners self);
  _ ← security_validate (security self) SERVICE;
  log_validate (log self) SERVICE.

Definition compose `{!ConfigErrors} (common : CommonConfig) (role : Role) (version : ServiceVersion) : Result ConfigError t :=
  _ ← common_validate common SERVICE;
  let config :=
    mk (GateNode.compose (role_node role) (cluster common)) (Config.infrastructure common) (role_listeners role)
      (Config.security common) (apply (Config.log common) (role_log role)) version in
  _ ← validate config;
  Ok config.
End GateConfig.

(** *** The robot client *)

Module RobotTransport.
Inductive t := Tcp | Kcp | Websocket.
#[global] Instance eq_dec : EqDecision t.
Proof. solve_decision. Defined.

Definition as_str (self : t) : string :=
  match self with Tcp => "tcp" | Kcp => "kcp" | Websocket => "websocket" end.
End RobotTransport.

Module RobotConfig.
Definition SERVICE : string := "xkk-robot".

Record t := mk {
  auth_url : string;
  account : string;
  credential : string;
  device_id : string;
  platform : string;
  client_version : string;
  transport : RobotTransport.t;
  timeout_seconds : Z
}.

Definition validate `{!ConfigErrors} (self : t) : Result ConfigError unit :=
  _ ← reject_if (negb (String.prefix "http://" (auth_url self))) SERVICE "auth_url must start with http://";
  _ ← reject_if (is_empty (account self) || (64 <? Z.of_nat (String.length (account self)))) SERVICE "account length must be 1..=64";
  _ ← reject_if (is_empty (credential self) || (256 <? Z.of_nat (String.length (credential self)))) SERVICE
        "credential length must be 1..=256";
  _ ← reject_if (Z.of_nat (String.length (device_id self)) <? 8) SERVICE "device_id must contain at least 8 bytes";
  _ ← reject_if (is_empty (platform self) || is_empty (client_version self)) SERVICE
        "platform and client_version must not be empty";
  reject_if (timeout_seconds self =? 0) SERVICE "timeout_seconds must be positive".
End RobotConfig.

(** ** Loading *)

(** The arguments after the program's name. *)
Definition config_path `{!ConfigErrors} (service : string) (args : list string) : Result ConfigError string :=
  match args with
  | [flag; path] => if bool_decide (flag = "--config") then Ok path else Err (Usage service)
  | _ => Err (Usage service)
  end.

Inductive FileEff `{!ConfigErrors} : Type → Type :=
| ReadToString (path : Path) : FileEff (Result IoError string).

Section loading.
Context `{!ConfigErrors, !FromJson} {common_typed : CommonConfig → Prop} `{!FromYaml CommonConfig common_typed}.
Variable pro_version : string.

Definition decode {T} {typed : T → Prop} `{!FromYaml T typed} (yaml : string) (path : Path) : Result ConfigError T :=
  match from_yaml yaml with Ok value => Ok value | Err source => Err (Decode path source) end.

Definition read (path : Path) : prog FileEff (Result ConfigError string) :=
  text ← await (ReadToString path);
  Ret match text with Ok text => Ok text | Err source => Err (Read path source) end.

Definition load {T} {typed : T → Prop} `{!FromYaml T typed} (path : Path) : prog FileEff (Result ConfigError T) :=
  yaml ← read path;
  Ret (yaml ← yaml; decode yaml path).

Definition parse {T} {typed : T → Prop} `{!FromYaml T typed} (yaml : string) : Result ConfigError T := decode yaml (relative "<inline>").

(** A service's [load] and [parse], with its [compose]. *)
Context {Role C : Type} {typed : Role → Prop} `{!FromYaml Role typed}.
Variable compose : CommonConfig → Role → ServiceVersion → Result ConfigError C.

Definition load_service (role_path : Path) : prog FileEff (option (Result ConfigError (CommonConfig * Role * ServiceVersion))) :=
  let directory := default (relative ".") (parent role_path) in
  common ← load (join directory "common.yaml");
  match common with
  | Err e => Ret (Some (Err e))
  | Ok common =>
      role ← load role_path;
      match role with
      | Err e => Ret (Some (Err e))
      | Ok role =>
          let version_path := join directory "version.json" in
          json ← read version_path;
          Ret match json with
              | Err e => Some (Err e)
              | Ok json => version ← decode_version pro_version json version_path; Some (version ← version; Ok (common, role, version))
              end
      end
  end.

Definition parse_service (common_yaml role_yaml version_json : string)
    : option (Result ConfigError (CommonConfig * Role * ServiceVersion)) :=
  match parse common_yaml with
  | Err e => Some (Err e)
  | Ok common =>
      match parse role_yaml with
      | Err e => Some (Err e)
      | Ok role =>
          version ← decode_version pro_version version_json (relative "<inline-version>");
          Some (version ← version; Ok (common, role, version))
      end
  end.

Definition service_load (path : Path) : prog FileEff (option (Result ConfigError C)) :=
  loaded ← load_service path;
  Ret (loaded ← loaded; Some ('(common, role, version) ← loaded; compose common role version)).

Definition service_parse (common_yaml role_yaml version_json : string) : option (Result ConfigError C) :=
  loaded ← parse_service common_yaml role_yaml version_json;
  Some ('(common, role, version) ← loaded; compose common role version).
End loading.

Section robot.
Context `{!ConfigErrors} {typed : RobotConfig.t → Prop} `{!FromYaml RobotConfig.t typed}.

Definition robot_load (path : Path) : prog FileEff (Result ConfigError RobotConfig.t) :=
  config ← load path;
  Ret (config ← config; _ ← RobotConfig.validate config; Ok config).

Definition robot_parse (yaml : string) : Result ConfigError RobotConfig.t :=
  config ← parse yaml;
  _ ← RobotConfig.validate config;
  Ok config.
End robot.
