(* ===== verification/ConfigSpec.v ===== *)
(** What loading a configuration promises: exactly when a service starts with
    a configuration, that the configuration is then well formed, and which
    error it answers otherwise. *)

From stdpp Require Import pretty.
From S2P Require Import Prelude Effects Decimal Config.

#[local] Open Scope string_scope.
#[local] Open Scope list_scope.
#[local] Open Scope Z_scope.

(** ** Validation *)

Section checks.
Context `{!ConfigErrors}.

Lemma reject_if_ok c service message : reject_if c service message = Ok tt ↔ c = false.
Proof. unfold reject_if. by destruct c. Qed.

Lemma and_then_ok {E A} (r : Result E unit) (k : Result E A) a : (_ ← r; k) = Ok a ↔ r = Ok tt ∧ k = Ok a.
Proof. destruct r as [[]|e]; simpl; intuition congruence. Qed.

Lemma is_empty_false s : is_empty s = false ↔ s ≠ "".
Proof. apply bool_decide_eq_false. Qed.

(** An error of a validation is an [Invalid] of the service. *)
Definition rejects (service : string) (r : Result ConfigError unit) : Prop :=
  match r with Ok _ => True | Err e => ∃ message, e = Invalid service message end.

Lemma reject_if_rejects c service message : rejects service (reject_if c service message).
Proof. unfold reject_if. destruct c; simpl; [by eexists|done]. Qed.

Lemma and_then_rejects service r k : rejects service r → rejects service k → rejects service (_ ← r; k).
Proof. by destruct r. Qed.
End checks.

Ltac solve_rejects := repeat first [apply and_then_rejects | apply reject_if_rejects].

Create HintDb config.
#[export] Hint Rewrite @and_then_ok @reject_if_ok @orb_false_iff @andb_false_iff @is_empty_false
  Z.leb_gt Z.eqb_neq Z.ltb_ge negb_false_iff : config.

(** ** Well-formed configurations *)

Definition infrastructure_ok (i : Infrastructure) : Prop := etcd_dsn i ≠ "" ∧ mongo_dsn i ≠ "" ∧ redis_dsn i ≠ "".
Definition security_ok (s : Security) : Prop := token_secret s ≠ "" ∧ 0 < token_expire_seconds s.
Definition log_ok (l : LogSettings) : Prop := async_queue_capacity l ≠ 0.
Definition node_ok (cluster : string) (instance_id : Z) (advertise_host listen_host : string) : Prop :=
  cluster ≠ "" ∧ advertise_host ≠ "" ∧ listen_host ≠ "" ∧ 0 < instance_id.
Definition common_ok (c : CommonConfig) : Prop :=
  cluster c ≠ "" ∧ infrastructure_ok (infrastructure c) ∧ security_ok (security c) ∧ log_ok (log c).

(** The primary listener is enabled, no port is zero, TCP and WebSocket have
    ports of their own, and the path of WebSocket is absolute. *)
Definition listeners_ok (l : GateListeners.t) : Prop :=
  (∃ port, GateListeners.primary_port l = Some port)
  ∧ Forall (λ port, port ≠ 0) (omap id [GateListeners.tcp_port l; GateListeners.kcp_port l; GateListeners.websocket_port l])
  ∧ (∀ port, GateListeners.tcp_port l = Some port → GateListeners.websocket_port l ≠ Some port)
  ∧ String.prefix "/" (GateListeners.websocket_path l) = true.

Section valid.
Context `{!ConfigErrors}.

Lemma log_validate_ok l service : log_validate l service = Ok tt ↔ log_ok l.
Proof. unfold log_validate, log_ok. by autorewrite with config. Qed.

Lemma infrastructure_validate_ok i service : infrastructure_validate i service = Ok tt ↔ infrastructure_ok i.
Proof. unfold infrastructure_validate, infrastructure_ok. autorewrite with config. tauto. Qed.

Lemma security_validate_ok s service : security_validate s service = Ok tt ↔ security_ok s.
Proof. unfold security_validate, security_ok. by autorewrite with config. Qed.

Lemma common_validate_ok c service : common_validate c service = Ok tt ↔ common_ok c.
Proof.
  unfold common_validate, common_ok. autorewrite with config.
  by rewrite infrastructure_validate_ok, security_validate_ok, log_validate_ok.
Qed.

Lemma validate_node_ok service cluster id advertise listen :
  validate_node service cluster id advertise listen = Ok tt ↔ node_ok cluster id advertise listen.
Proof. unfold validate_node, node_ok. autorewrite with config. tauto. Qed.

Lemma existsb_zero_false l : existsb (λ port, port =? 0) l = false ↔ Forall (λ port, port ≠ 0) l.
Proof.
  induction l as [|p l IH]; simpl; [by split|]. rewrite orb_false_iff, Forall_cons, IH, Z.eqb_neq. done.
Qed.

Lemma listeners_validate_ok l : GateListeners.validate l = Ok tt ↔ listeners_ok l.
Proof.
  unfold GateListeners.validate, listeners_ok. autorewrite with config.
  rewrite existsb_zero_false, !bool_decide_eq_false.
  assert (GateListeners.primary_port l ≠ None ↔ ∃ port, GateListeners.primary_port l = Some port) as ->
    by (destruct (GateListeners.primary_port l); naive_solver).
  assert ((¬ is_Some (GateListeners.tcp_port l) ∨ GateListeners.tcp_port l ≠ GateListeners.websocket_port l)
          ↔ ∀ port, GateListeners.tcp_port l = Some port → GateListeners.websocket_port l ≠ Some port) as ->; [|tauto].
  destruct (GateListeners.tcp_port l) as [p|]; split.
  - intros [[]|Hne] port [= ->]; [by eexists|congruence].
  - intros Hne. right. specialize (Hne p eq_refl). congruence.
  - done.
  - intros _. left. by intros [? ?].
Qed.
End valid.

(** ** The roles

    The five services compose and validate alike: what differs is the
    configuration they assemble and when it is well formed. *)
Class ServiceRole (Role C : Type) := {
  service : string;
  compose `{!ConfigErrors} : CommonConfig → Role → ServiceVersion → Result ConfigError C;
  validate `{!ConfigErrors} : C → Result ConfigError unit;
  assemble : CommonConfig → Role → ServiceVersion → C;
  config_ok : C → Prop;
  compose_eq `{!ConfigErrors} common role version :
    compose common role version
    = (_ ← common_validate common service; _ ← validate (assemble common role version); Ok (assemble common role version));
  validate_ok `{!ConfigErrors} c : validate c = Ok tt ↔ config_ok c;
  validate_rejects `{!ConfigErrors} c : rejects service (validate c)
}.
#[global] Arguments service : clear implicits.
#[global] Arguments service _ _ {_}.

Definition http_node_ok (n : HttpNode.t) : Prop :=
  node_ok (HttpNode.cluster n) (HttpNode.instance_id n) (HttpNode.advertise_host n) (HttpNode.listen_host n) ∧ HttpNode.http_port n ≠ 0.
Definition service_node_ok (n : ServiceNode.t) : Prop :=
  node_ok (ServiceNode.cluster n) (ServiceNode.instance_id n) (ServiceNode.advertise_host n) (ServiceNode.listen_host n)
  ∧ ServiceNode.service_port n ≠ 0.
Definition gate_node_ok (n : GateNode.t) : Prop :=
  node_ok (GateNode.cluster n) (GateNode.instance_id n) (GateNode.advertise_host n) (GateNode.listen_host n).

Lemma http_validate_ok `{!ConfigErrors} n service : HttpNode.validate n service = Ok tt ↔ http_node_ok n.
Proof. unfold HttpNode.validate, http_node_ok. autorewrite with config. by rewrite validate_node_ok. Qed.
Lemma service_validate_ok `{!ConfigErrors} n service : ServiceNode.validate n service = Ok tt ↔ service_node_ok n.
Proof. unfold ServiceNode.validate, service_node_ok. autorewrite with config. by rewrite validate_node_ok. Qed.
Lemma gate_validate_ok `{!ConfigErrors} n service : GateNode.validate n service = Ok tt ↔ gate_node_ok n.
Proof. apply validate_node_ok. Qed.

Ltac role_valid :=
  autorewrite with config;
  rewrite ?http_validate_ok, ?service_validate_ok, ?gate_validate_ok, ?infrastructure_validate_ok, ?listeners_validate_ok,
    ?security_validate_ok, ?log_validate_ok.

#[export] Instance auth_role : ServiceRole AuthConfig.Role AuthConfig.t.
Proof.
  refine {| service := AuthConfig.SERVICE; compose := @AuthConfig.compose; validate := @AuthConfig.validate;
            assemble common role version :=
              AuthConfig.mk (HttpNode.compose (AuthConfig.role_node role) (cluster common)) (infrastructure common) (security common)
                (apply (log common) (AuthConfig.role_log role)) version;
            config_ok c := http_node_ok (AuthConfig.node c) ∧ infrastructure_ok (AuthConfig.infrastructure c)
              ∧ security_ok (AuthConfig.security c) ∧ log_ok (AuthConfig.log c) |}; intros.
  - done.
  - unfold AuthConfig.validate. by role_valid.
  - unfold AuthConfig.validate, HttpNode.validate, validate_node. solve_rejects.
Defined.

#[export] Instance query_role : ServiceRole QueryConfig.Role QueryConfig.t.
Proof.
  refine {| service := QueryConfig.SERVICE; compose := @QueryConfig.compose; validate := @QueryConfig.validate;
            assemble common role version :=
              QueryConfig.mk (HttpNode.compose (QueryConfig.role_node role) (cluster common)) (infrastructure common)
                (apply (log common) (QueryConfig.role_log role)) version;
            config_ok c := http_node_ok (QueryConfig.node c) ∧ infrastructure_ok (QueryConfig.infrastructure c)
              ∧ log_ok (QueryConfig.log c) |}; intros.
  - done.
  - unfold QueryConfig.validate. by role_valid.
  - unfold QueryConfig.validate, HttpNode.validate, validate_node. solve_rejects.
Defined.

#[export] Instance logic_role : ServiceRole LogicConfig.Role LogicConfig.t.
Proof.
  refine {| service := LogicConfig.SERVICE; compose := @LogicConfig.compose; validate := @LogicConfig.validate;
            assemble common role version :=
              LogicConfig.mk (ServiceNode.compose (LogicConfig.role_node role) (cluster common)) (infrastructure common)
                (apply (log common) (LogicConfig.role_log role)) version;
            config_ok c := service_node_ok (LogicConfig.node c) ∧ infrastructure_ok (LogicConfig.infrastructure c)
              ∧ log_ok (LogicConfig.log c) |}; intros.
  - done.
  - unfold LogicConfig.validate. by role_valid.
  - unfold LogicConfig.validate, ServiceNode.validate, validate_node. solve_rejects.
Defined.

#[export] Instance public_role : ServiceRole PublicConfig.Role PublicConfig.t.
Proof.
  refine {| service := PublicConfig.SERVICE; compose := @PublicConfig.compose; validate := @PublicConfig.validate;
            assemble common role version :=
              PublicConfig.mk (ServiceNode.compose (PublicConfig.role_node role) (cluster common)) (infrastructure common)
                (apply (log common) (PublicConfig.role_log role)) version;
            config_ok c := service_node_ok (PublicConfig.node c) ∧ infrastructure_ok (PublicConfig.infrastructure c)
              ∧ log_ok (PublicConfig.log c) |}; intros.
  - done.
  - unfold PublicConfig.validate. by role_valid.
  - unfold PublicConfig.validate, ServiceNode.validate, validate_node. solve_rejects.
Defined.

#[export] Instance gate_role : ServiceRole GateConfig.Role GateConfig.t.
Proof.
  refine {| service := GateConfig.SERVICE; compose := @GateConfig.compose; validate := @GateConfig.validate;
            assemble common role version :=
              GateConfig.mk (GateNode.compose (GateConfig.role_node role) (cluster common)) (infrastructure common)
                (GateConfig.role_listeners role) (security common) (apply (log common) (GateConfig.role_log role)) version;
            config_ok c := gate_node_ok (GateConfig.node c) ∧ infrastructure_ok (GateConfig.infrastructure c)
              ∧ listeners_ok (GateConfig.listeners c) ∧ security_ok (GateConfig.security c) ∧ log_ok (GateConfig.log c) |}; intros.
  - done.
  - unfold GateConfig.validate. by role_valid.
  - unfold GateConfig.validate, GateNode.validate, validate_node, GateListeners.validate. solve_rejects.
Defined.

(** ** Loading *)

(** The number the build script hands over is the one the program reads. *)
Lemma build_version_parses variable text : build_version variable = Some text → ∃ v, i32_from_str text = Some v ∧ 0 <= v.
Proof.
  unfold build_version. destruct (i32_from_str _) as [v|] eqn:Hv; [|done]. simpl. destruct (Z.leb_spec 0 v); [|done].
  intros [= <-]. exists v. split; [|done]. apply i32_from_str_pretty.
  unfold i32_from_str, parse_int in Hv. destruct (parse_Z _) as [z|]; [|done]. simpl in Hv.
  destruct (_ && _) eqn:Hb; [|done]. apply andb_true_iff in Hb as [?%Z.leb_le ?%Z.ltb_lt]. simplify_eq. unfold is_i32. lia.
Qed.

Section loading.
Context `{!ConfigErrors, !FromJson} {common_typed : CommonConfig → Prop} `{!FromYaml CommonConfig common_typed}.
Context {Role C : Type} {typed : Role → Prop} `{!ServiceRole Role C, !FromYaml Role typed}.

(** The files of the directory, none of which changes while it is read. *)
Definition handle_files (files : Path → Result IoError string) (X : Type) (e : FileEff X) : unit → X * unit :=
  match e in FileEff X return unit → X * unit with ReadToString path => λ u, (files path, u) end.

Definition load_config (files : Path → Result IoError string) (pro_version : string) (path : Path) : option (Result ConfigError C) :=
  (run (handle_files files) (service_load pro_version compose path) tt).1.

Definition beside (path : Path) (name : string) : Path := join (default (relative ".") (parent path)) name.

(** A file that holds a value of the type, with the error it has otherwise. *)
Definition holds {T} {P : T → Prop} `{!FromYaml T P} (files : Path → Result IoError string) (path : Path) (value : T) : Prop :=
  ∃ text, files path = Ok text ∧ from_yaml text = Ok value.
Definition undecodable T {P : T → Prop} `{!FromYaml T P} (files : Path → Result IoError string) (path : Path) source : Prop :=
  ∃ text, files path = Ok text ∧ from_yaml (T := T) text = Err source.
Definition version_document (files : Path → Result IoError string) (path : Path) (r : Result JsonError VersionDocument) : Prop :=
  ∃ text, files path = Ok text ∧ from_json text = r.

(** The files of a service, decoded. *)
Definition decoded files (path : Path) (common : CommonConfig) (role : Role) (document : VersionDocument) : Prop :=
  holds files (beside path "common.yaml") common ∧ holds files path role
  ∧ version_document files (beside path "version.json") (Ok document).

(** What the answer of a load says about the files. *)
Definition load_outcome files (path : Path) (program : Z) (r : Result ConfigError C) : Prop :=
  match r with
  | Ok c => ∃ common role document, decoded files path common role document ∧ 0 <= conf_version document
      ∧ common_ok common ∧ config_ok c ∧ c = assemble common role (mkServiceVersion program (conf_version document))
  | Err (Read p source) => files p = Err source ∧ p ∈ [beside path "common.yaml"; path; beside path "version.json"]
  | Err (Decode p source) =>
      (p = beside path "common.yaml" ∧ undecodable CommonConfig files p source) ∨ (p = path ∧ undecodable Role files p source)
  | Err (DecodeVersion p source) => p = beside path "version.json" ∧ version_document files p (Err source)
  | Err (Invalid name _) => ∃ common role document, decoded files path common role document
      ∧ ((name = "version" ∧ conf_version document < 0)
         ∨ (name = service Role C
            ∧ ¬ (common_ok common ∧ config_ok (assemble common role (mkServiceVersion program (conf_version document))))))
  | Err (Usage _) => False
  end.

Lemma common_rejects common name : rejects name (common_validate common name).
Proof. unfold common_validate, infrastructure_validate, security_validate, log_validate. solve_rejects. Qed.

Lemma compose_outcome common role version :
  match compose common role version with
  | Ok c => common_ok common ∧ config_ok c ∧ c = assemble common role version
  | Err e => (∃ message, e = Invalid (service Role C) message) ∧ ¬ (common_ok common ∧ config_ok (assemble common role version))
  end.
Proof.
  rewrite compose_eq. pose proof (common_rejects common (service Role C)) as Hc. pose proof (validate_rejects (assemble common role version)) as Hv.
  destruct (common_validate common _) as [[]|e] eqn:Hcommon; simpl.
  - apply common_validate_ok in Hcommon. destruct (validate _) as [[]|e] eqn:Hvalid; simpl.
    + by apply validate_ok in Hvalid.
    + split; [done|]. intros [_ Hok%validate_ok]. congruence.
  - split; [done|]. intros [Hok%(common_validate_ok common (service Role C)) _]. congruence.
Qed.

Ltac answer := eexists; split_and!; [done..|]; simpl; unfold undecodable, version_document; rewrite ?elem_of_cons; naive_solver.

(** C34: a service started with a version the build script accepted always
    answers, and starts exactly when its directory allows it: the common file,
    the role file and the version document are there and decode, the version
    is not negative, and the common and the composed configuration are well
    formed.  Otherwise the error names the file that is missing or does not
    decode, or the service whose configuration is invalid. *)
Theorem config_load_outcome variable pro_version files path : build_version variable = Some pro_version →
  ∃ program r, i32_from_str pro_version = Some program ∧ 0 <= program
    ∧ load_config files pro_version path = Some r ∧ load_outcome files path program r.
Proof.
  intros Hbuild. destruct (build_version_parses _ _ Hbuild) as (program & Hpro & Hpos). exists program.
  unfold load_config, service_load, load_service, load, read, decode. fold (beside path "common.yaml") (beside path "version.json").
  simpl. destruct (files (beside path "common.yaml")) as [common_text|source] eqn:Hcf; simpl; [|answer].
  destruct (from_yaml common_text) as [common|source] eqn:Hcommon; simpl; [|answer].
  destruct (files path) as [role_text|source] eqn:Hrf; simpl; [|answer].
  destruct (from_yaml role_text) as [role|source] eqn:Hrole; simpl; [|answer].
  destruct (files (beside path "version.json")) as [json|source] eqn:Hvf; simpl; [|answer].
  unfold decode_version. destruct (from_json json) as [document|source] eqn:Hjson; simpl; [|answer].
  assert (decoded files path common role document) as Hdec by (split_and!; eexists; done).
  destruct (Z.ltb_spec (conf_version document) 0); [answer|]. rewrite Hpro. simpl.
  eexists. split_and!; [done..|].
  pose proof (compose_outcome common role (mkServiceVersion program (conf_version document))) as Hout.
  destruct (compose _ _ _) as [c|e]; [naive_solver|]. destruct Hout as [[message ->] Hnot]. simpl. naive_solver.
Qed.
End loading.

(** ** An example: the directory of the repository *)

Module config_example.
Definition errors : ConfigErrors := {| IoError := string; YamlError := string; JsonError := string |}.
#[local] Existing Instance errors.

Definition common : CommonConfig :=
  mkCommonConfig "local" (mkInfrastructure "etcd://127.0.0.1:2379" "mongodb://127.0.0.1:27017/xkk" "redis://127.0.0.1:6379")
    (mkSecurity "local-xkk-token-secret" 604800) (mkLogSettings Info true None 8192 Daily).
Definition listeners : GateListeners.t := GateListeners.mk (Some 3201) (Some 3202) (Some 3203) "/ws" Tcp.
Definition gate : GateConfig.Role :=
  GateConfig.mkRole (GateNode.mkConfig 1 "127.0.0.1" "0.0.0.0") listeners
    (mkLogOverride None None (Some (mkPath false ["logs"; "gate.log"])) None None).

(** A decoder that knows one document. *)
Definition knows {T} (name : string) (value : T) (text : string) : Result YamlError T :=
  if decide (text = name) then Ok value else Err "unknown document".

#[local] Instance common_yaml : FromYaml CommonConfig (λ c, c = common).
Proof. refine {| from_yaml := knows "common" common |}. unfold knows. intros text value. case_decide; congruence. Defined.
#[local] Instance gate_yaml : FromYaml GateConfig.Role (λ r, r = gate).
Proof. refine {| from_yaml := knows "gate" gate |}. unfold knows. intros text value. case_decide; congruence. Defined.
#[local] Instance version_json : FromJson :=
  {| from_json text := match i32_from_str text with Some v => Ok (mkVersionDocument v) | None => Err "not a version" end |}.

Definition files (path : Path) : Result IoError string :=
  match components path with
  | ["config"; "common.yaml"] => Ok "common"
  | ["config"; "gate_0.yaml"] => Ok "gate"
  | ["config"; "version.json"] => Ok "7"
  | _ => Err "no such file"
  end.
Definition path : Path := mkPath false ["config"; "gate_0.yaml"].
End config_example.

#[local] Existing Instances config_example.errors config_example.common_yaml config_example.gate_yaml config_example.version_json.

Lemma config_load_outcome_witness :
  let load := load_config (Role := GateConfig.Role) (C := GateConfig.t) config_example.files "3" in
  (∃ c, load config_example.path = Some (Ok c) ∧ GateConfig.version c = mkServiceVersion 3 7 ∧ file (GateConfig.log c) = Some (mkPath false ["logs"; "gate.log"]))
  ∧ ∃ program r, i32_from_str "3" = Some program ∧ 0 <= program ∧ load config_example.path = Some r
      ∧ load_outcome (Role := GateConfig.Role) config_example.files config_example.path program r.
Proof.
  split; [eexists; split; [vm_compute; reflexivity|done]|].
  apply (config_load_outcome (Some "3")). vm_compute. reflexivity.
Defined.
