(* ===== verification/ProtoBuild.v ===== *)
(** The build script of the protocol crate (src/protocol/build.rs): it runs
    the compilers of the messages, writes their output to the build directory,
    and compares it with the checked-in files, or replaces those.  The
    compilers (protoc and prost, xproto, the xmongo generator) are a class; the
    file system and the environment are a world.  A failed [expect], [unwrap]
    or [assert!] ends the build and is [None]. *)

From S2P Require Import Prelude Effects.

#[local] Open Scope string_scope.
#[local] Open Scope list_scope.
#[local] Open Scope Z_scope.

(** ** Texts as bytes *)

Definition bytes := list Z.
Definition of_string (s : string) : bytes := (λ c, Z.of_nat (Ascii.nat_of_ascii c)) <$> String.list_ascii_of_string s.

(** [String::from_utf8_lossy]: every maximal part that is not UTF-8 becomes
    U+FFFD. *)
Definition REPLACEMENT : bytes := [239; 191; 189].
Definition between (lo hi b : Z) : bool := (lo <=? b) && (b <=? hi).
Definition continues : Z → bool := between 128 191.

(** The length of the sequence that a first byte announces; zero for none. *)
Definition utf8_width (b : Z) : Z :=
  if b <? 128 then 1 else if between 194 223 b then 2 else if between 224 239 b then 3 else if between 240 244 b then 4 else 0.

(** Whether the second byte of a longer sequence may follow the first. *)
Definition second_ok (b0 b1 : Z) : bool :=
  if b0 =? 224 then between 160 191 b1
  else if b0 =? 237 then between 128 159 b1
  else if b0 =? 240 then between 144 191 b1
  else if b0 =? 244 then between 128 143 b1
  else continues b1.

Fixpoint from_utf8_lossy (l : bytes) : bytes :=
  match l with
  | [] => []
  | b0 :: l1 =>
      if utf8_width b0 =? 1 then b0 :: from_utf8_lossy l1
      else if utf8_width b0 =? 0 then REPLACEMENT ++ from_utf8_lossy l1
      else
        match l1 with
        | [] => REPLACEMENT
        | b1 :: l2 =>
            if negb (second_ok b0 b1) then REPLACEMENT ++ from_utf8_lossy l1
            else if utf8_width b0 =? 2 then b0 :: b1 :: from_utf8_lossy l2
            else
              match l2 with
              | [] => REPLACEMENT
              | b2 :: l3 =>
                  if negb (continues b2) then REPLACEMENT ++ from_utf8_lossy l2
                  else if utf8_width b0 =? 3 then b0 :: b1 :: b2 :: from_utf8_lossy l3
                  else
                    match l3 with
                    | [] => REPLACEMENT
                    | b3 :: l4 =>
                        if negb (continues b3) then REPLACEMENT ++ from_utf8_lossy l3
                        else b0 :: b1 :: b2 :: b3 :: from_utf8_lossy l4
                    end
              end
        end
  end.

(** [fs::read_to_string] accepts UTF-8 only. *)
Definition is_utf8 (l : bytes) : bool := bool_decide (from_utf8_lossy l = l).

Fixpoint starts_with (p l : bytes) : bool :=
  match p, l with
  | [], _ => true
  | b :: p, c :: l => (b =? c) && starts_with p l
  | _ :: _, [] => false
  end.

(** [str::replace] of a pattern that is not empty; [skip] bytes of the match
    are still to be dropped. *)
Fixpoint replace_from (skip : nat) (p by_ l : bytes) : bytes :=
  match l with
  | [] => []
  | b :: l' =>
      match skip with
      | S skip => replace_from skip p by_ l'
      | O => if starts_with p l then by_ ++ replace_from (length p - 1) p by_ l' else b :: replace_from 0 p by_ l'
      end
  end.
Definition replace (p by_ l : bytes) : bytes := replace_from 0 p by_ l.

(** [str::trim_end]: the white space of Unicode, on the reversed bytes. *)
Fixpoint skip_space (l : bytes) : bytes :=
  match l with
  | [] => []
  | b :: l1 =>
      if between 9 13 b || (b =? 32) then skip_space l1
      else
        match l1 with
        | [] => l
        | c :: l2 =>
            if ((b =? 133) || (b =? 160)) && (c =? 194) then skip_space l2
            else
              match l2 with
              | [] => l
              | d :: l3 =>
                  if ((b =? 128) && (c =? 154) && (d =? 225))
                     || ((between 128 138 b || (b =? 168) || (b =? 169) || (b =? 175)) && (c =? 128) && (d =? 226))
                     || ((b =? 159) && (c =? 129) && (d =? 226))
                     || ((b =? 128) && (c =? 128) && (d =? 227))
                  then skip_space l3 else l
              end
        end
  end.
Definition trim_end (l : bytes) : bytes := reverse (skip_space (reverse l)).

Example replace_test : replace (of_string "ab") (of_string "c") (of_string "aabab") = of_string "acc".
Proof. reflexivity. Qed.
Example lossy_test : from_utf8_lossy [104; 226; 130; 255; 195; 169] = [104] ++ REPLACEMENT ++ REPLACEMENT ++ [195; 169].
Proof. reflexivity. Qed.
Example trim_test : trim_end (of_string "a b" ++ [226; 128; 131; 10]) = of_string "a b".
Proof. reflexivity. Qed.

(** ** The compilers *)

(** [CodeGeneratorResponse] of protobuf. *)
Record GeneratedFile := mkGeneratedFile { name : option string; content : option bytes }.
Record CodeGeneratorResponse := mkCodeGeneratorResponse { error : option string; file : list GeneratedFile }.

(** What prost, xproto and the xmongo generator make of the two sources and of
    the descriptor set. *)
Class ProtoTools := {
  compile_protos : list (option bytes) → Result string (bytes * bytes);
  decode_descriptor : bytes → Result string unit;
  generate_traits : bytes → CodeGeneratorResponse;
  xproto_registry : bytes → Result string bytes
}.

(** ** Operations *)

Inductive BuildEff : Type → Type :=
| Var (key : string) : BuildEff (option string)
| IsFile (path : string) : BuildEff bool
| SetProtoc (path : string) : BuildEff unit
| ReadFile (path : string) : BuildEff (Result string bytes)
| WriteFile (path : string) (content : bytes) : BuildEff (Result string unit)
| CreateDirAll (path : string) : BuildEff (Result string unit)
(** The compiler of prost writes the messages and the descriptor set. *)
| CompileProtos (protos : list string) (messages descriptor : string) : BuildEff (Result string unit).

(** A build step: [None] has panicked. *)
#[local] Abbreviation step A := (prog BuildEff (option A)).
Definition try {A B} (p : step A) (k : A → step B) : step B :=
  r ← p; match r with Some a => k a | None => Ret None end.

Definition expect {A} (e : BuildEff (Result string A)) : step A := r ← await e; Ret (match r with Ok a => Some a | Err _ => None end).
Definition unwrap {A} (e : BuildEff (option A)) : step A := await e.
Definition required {A} (o : option A) : step A := Ret o.

#[local] Notation "x <~ p ; q" := (try p (λ x, q)) (at level 100, p at next level, q at level 200, right associativity).

(** ** The script *)

Definition GENERATED_FILES : list string :=
  ["xkk.v1.rs"; "xkk.xmongo.rs"; "model.xmongo.rs"; "xkk.registry.rs"; "xkk.descriptor.bin"].

(** [Path::join] of a directory and a file name. *)
Definition join (dir file : string) : string := (dir ++ "/" ++ file)%string.

Definition normalized (source : bytes) : bytes := replace (of_string "bson:" ++ [34; 92] ++ of_string "_id" ++ [34])
                                                          (of_string "bson:" ++ [34] ++ of_string "_id" ++ [34]) source.

(** [read_to_string]. *)
Definition read_to_string (path : string) : step bytes :=
  source <~ expect (ReadFile path); Ret (if is_utf8 source then Some source else None).

Definition normalize_generated_comments (path : string) : step unit :=
  source <~ read_to_string path;
  if bool_decide (normalized source = source) then Ret (Some tt) else expect (WriteFile path (normalized source)).

Fixpoint write_files (out_dir : string) (files : list GeneratedFile) : step unit :=
  match files with
  | [] => Ret (Some tt)
  | f :: files =>
      n <~ required (name f);
      c <~ required (content f);
      _ <~ expect (WriteFile (join out_dir n) (trim_end c ++ [10]));
      write_files out_dir files
  end.

Definition same_text (left right : bytes) : bool :=
  bool_decide (replace [13; 10] [10] (from_utf8_lossy left) = replace [13; 10] [10] (from_utf8_lossy right)).

(** [file.ends_with(".bin")] *)
Definition is_binary (file : string) : bool := starts_with (reverse (of_string ".bin")) (reverse (of_string file)).

(** Whether the checked-in artifact is accepted for the generated one. *)
Definition current (file : string) (checked_in generated : bytes) : bool :=
  if is_binary file then bool_decide (checked_in = generated) else same_text checked_in generated.

Definition sync_file (update : bool) (out_dir checked_in_dir file : string) : step unit :=
  generated <~ expect (ReadFile (join out_dir file));
  if update then
    checked_in ← await (ReadFile (join checked_in_dir file));
    if bool_decide (checked_in = Ok generated) then Ret (Some tt)
    else expect (WriteFile (join checked_in_dir file) generated)
  else
    checked_in <~ expect (ReadFile (join checked_in_dir file));
    Ret (if current file checked_in generated then Some tt else None).

Fixpoint sync_files (update : bool) (out_dir checked_in_dir : string) (files : list string) : step unit :=
  match files with
  | [] => Ret (Some tt)
  | file :: files => _ <~ sync_file update out_dir checked_in_dir file; sync_files update out_dir checked_in_dir files
  end.

Definition sync_checked_in_generated (out_dir checked_in_dir : string) : step unit :=
  variable ← await (Var "XKK_PROTO_UPDATE");
  let update := bool_decide (is_Some variable) in
  _ <~ (if update then expect (CreateDirAll checked_in_dir) else Ret (Some tt));
  sync_files update out_dir checked_in_dir GENERATED_FILES.

Section script.
Context {tools : ProtoTools}.

Definition generate_registry (descriptor_path output_path : string) : step unit :=
  descriptor <~ expect (ReadFile descriptor_path);
  match xproto_registry descriptor with
  | Ok source => expect (WriteFile output_path source)
  | Err _ => Ret None
  end.

Definition generate_xmongo_traits (descriptor_path out_dir : string) : step unit :=
  descriptor <~ expect (ReadFile descriptor_path);
  match decode_descriptor descriptor with
  | Err _ => Ret None
  | Ok _ =>
      let response := generate_traits descriptor in
      match error response with
      | Some _ => Ret None
      | None => write_files out_dir (file response)
      end
  end.

(** [protoc] is where the vendored compiler is, when it was found. *)
Definition main (protoc : option string) : step unit :=
  manifest <~ unwrap (Var "CARGO_MANIFEST_DIR");
  let proto_dir := join manifest "../proto" in
  protoc <~ required protoc;
  out_dir <~ unwrap (Var "OUT_DIR");
  is_file ← await (IsFile protoc);
  if negb is_file then Ret None
  else
    let checked_in_dir := join manifest "generated" in
    _ ← await (SetProtoc protoc);
    let descriptor_path := join out_dir "xkk.descriptor.bin" in
    _ <~ expect (CompileProtos [join proto_dir "xkk.proto"; join proto_dir "model.proto"] (join out_dir "xkk.v1.rs") descriptor_path);
    _ <~ normalize_generated_comments (join out_dir "xkk.v1.rs");
    _ <~ generate_xmongo_traits descriptor_path out_dir;
    _ <~ generate_registry descriptor_path (join out_dir "xkk.registry.rs");
    sync_checked_in_generated out_dir checked_in_dir.

(** ** A world to run it in *)

(** The files, the variables, and which paths cannot be written or created. *)
Record World := mkWorld {
  files : gmap string bytes;
  env : string → option string;
  read_only : string → bool
}.

Definition with_file (path : string) (c : bytes) (w : World) : World := mkWorld (<[path := c]> (files w)) (env w) (read_only w).

Definition handle (X : Type) (e : BuildEff X) : World → X * World :=
  match e in BuildEff X return World → X * World with
  | Var key => λ w, (env w key, w)
  | IsFile path => λ w, (bool_decide (is_Some (files w !! path)), w)
  | SetProtoc path => λ w, (tt, mkWorld (files w) (λ key, if decide (key = "PROTOC") then Some path else env w key) (read_only w))
  | ReadFile path => λ w, (match files w !! path with Some c => Ok c | None => Err path end, w)
  | WriteFile path c => λ w, if read_only w path then (Err path, w) else (Ok tt, with_file path c w)
  | CreateDirAll path => λ w, (if read_only w path then Err path else Ok tt, w)
  | CompileProtos protos messages descriptor => λ w,
      match compile_protos ((λ path, files w !! path) <$> protos) with
      | Err reason => (Err reason, w)
      | Ok (m, d) =>
          if read_only w messages || read_only w descriptor then (Err messages, w)
          else (Ok tt, with_file descriptor d (with_file messages m w))
      end
  end.

Abbreviation exec p w := (run handle p w).
End script.

(** ** A build that succeeds leaves no stale artifact *)

Section proofs.
Context {tools : ProtoTools}.

Definition accepted (w : World) (out_dir checked_in_dir file : string) : Prop :=
  ∃ g c, files w !! join out_dir file = Some g ∧ files w !! join checked_in_dir file = Some c ∧ current file c g = true.

Definition disjoint (out_dir checked_in_dir : string) : Prop := ∀ f g, join out_dir f ≠ join checked_in_dir g.

Lemma run_try {A B} (p : step A) (k : A → step B) w b w' :
  run handle (try p k) w = (Some b, w') ↔ ∃ a w1, run handle p w = (Some a, w1) ∧ run handle (k a) w1 = (Some b, w').
Proof.
  unfold try. rewrite run_bind. destruct (run handle p w) as [[a|] w1]; simpl; split.
  - intros H. by exists a, w1.
  - intros (a' & w1' & ? & H). by simplify_eq.
  - done.
  - by intros (a & w2 & ? & _).
Qed.

Lemma run_expect {A} (e : BuildEff (Result string A)) w a w' :
  run handle (expect e) w = (Some a, w') ↔ handle _ e w = (Ok a, w').
Proof. unfold expect. rewrite run_bind, run_await. destruct (handle _ e w) as [[?|?] ?]; simpl; split; intros; by simplify_eq. Qed.

Lemma run_read path w c w' : run handle (expect (ReadFile path)) w = (Some c, w') ↔ files w !! path = Some c ∧ w' = w.
Proof. rewrite run_expect. simpl. destruct (files w !! path); split; [intros; by simplify_eq|intros [? ->]; by simplify_eq|done|by intros [? _]]. Qed.

Lemma current_refl file c : current file c c = true.
Proof. unfold current, same_text. destruct (is_binary file); by apply bool_decide_eq_true. Qed.

Lemma join_inj dir f g : join dir f = join dir g → f = g.
Proof. unfold join. induction dir as [|c dir IH]; simpl; intros [=]; auto. Qed.

(** Without the variable nothing is written, and the build goes on exactly
    when every artifact is accepted. *)
Lemma check_accepts out_dir checked_in_dir fs w w' :
  run handle (sync_files false out_dir checked_in_dir fs) w = (Some tt, w')
  ↔ Forall (accepted w out_dir checked_in_dir) fs ∧ w' = w.
Proof.
  induction fs as [|f fs IH]; cbn [sync_files].
  { split; [intros [= <-]; by split|by intros [_ ->]]. }
  rewrite run_try, Forall_cons. unfold sync_file. setoid_rewrite run_try. setoid_rewrite run_try. setoid_rewrite run_read. split.
  - intros ([] & w1 & (g & w2 & [Hg ->] & c & w3 & [Hc ->] & H) & Hrest).
    destruct (current f c g) eqn:Hcur; simplify_eq/=. apply IH in Hrest as [Hall ->]. split; [|done]. split; [|done]. by exists g, c.
  - intros [[(g & c & Hg & Hc & Hcur) Hall] ->]. exists tt, w. split.
    + exists g, w. split; [done|]. exists c, w. split; [done|]. by rewrite Hcur.
    + by apply IH.
Qed.

Lemma sync_file_update out_dir checked_in_dir f w w' :
  run handle (sync_file true out_dir checked_in_dir f) w = (Some tt, w') →
  ∃ g, files w !! join out_dir f = Some g ∧ files w' = <[join checked_in_dir f := g]> (files w).
Proof.
  unfold sync_file. rewrite run_try. intros (g & w1 & [Hg ->]%run_read & H). exists g. split; [done|].
  rewrite run_bind, run_await in H. simpl in H. case_bool_decide as Heq.
  - simplify_eq/=. destruct (files w' !! join checked_in_dir f) as [c|] eqn:Hc; [|done]. simplify_eq. by rewrite insert_id.
  - apply run_expect in H. simpl in H. destruct (read_only w _); by simplify_eq.
Qed.

Lemma update_copies out_dir checked_in_dir fs w w' : disjoint out_dir checked_in_dir →
  run handle (sync_files true out_dir checked_in_dir fs) w = (Some tt, w') →
  (∀ f, files w' !! join out_dir f = files w !! join out_dir f)
  ∧ ∀ f, (f ∈ fs → is_Some (files w !! join out_dir f) ∧ files w' !! join checked_in_dir f = files w !! join out_dir f)
       ∧ (f ∉ fs → files w' !! join checked_in_dir f = files w !! join checked_in_dir f).
Proof.
  intros Hdis. revert w. induction fs as [|f fs IH]; intros w; cbn [sync_files].
  { intros [= <-]. split; [done|]. intros f. split; [by intros ?%not_elem_of_nil|done]. }
  intros ([] & w1 & (g & Hg & Hw1)%sync_file_update & Hrest)%run_try. destruct (IH w1 Hrest) as [Hout Hin].
  assert (∀ h, files w1 !! join out_dir h = files w !! join out_dir h) as Hout1.
  { intros h. rewrite Hw1, lookup_insert_ne; [done|]. intros Heq. by apply (Hdis h f). }
  split; [intros h; by rewrite Hout|]. intros h. destruct (Hin h) as [Hyes Hno]. rewrite Hout1 in Hyes. split.
  - intros [->|Hh]%elem_of_cons; [|by apply Hyes]. destruct (decide (f ∈ fs)) as [Hf|Hf]; [by apply Hyes|].
    rewrite (Hno Hf), Hw1, lookup_insert_eq, Hg. by split.
  - intros [Hne Hh]%not_elem_of_cons. rewrite (Hno Hh), Hw1, lookup_insert_ne; [done|]. intros Heq%join_inj. done.
Qed.

(** An update leaves the checked-in artifacts accepted, and so a later check of
    the same output succeeds. *)
Lemma update_accepted out_dir checked_in_dir fs w w' : disjoint out_dir checked_in_dir →
  run handle (sync_files true out_dir checked_in_dir fs) w = (Some tt, w') →
  Forall (accepted w' out_dir checked_in_dir) fs.
Proof.
  intros Hdis H. destruct (update_copies _ _ _ _ _ Hdis H) as [Hout Hin]. apply Forall_forall. intros f Hf.
  destruct (Hin f) as [Hyes _]. destruct (Hyes Hf) as [[g Hg] Hc]. exists g, g. rewrite Hout, Hc. split_and!; [done..|apply current_refl].
Qed.

Lemma sync_accepted out_dir checked_in_dir w w' : disjoint out_dir checked_in_dir →
  run handle (sync_checked_in_generated out_dir checked_in_dir) w = (Some tt, w') →
  Forall (accepted w' out_dir checked_in_dir) GENERATED_FILES.
Proof.
  intros Hdis. unfold sync_checked_in_generated. rewrite run_bind, run_await. cbn [handle].
  intros ([] & w1 & _ & H)%run_try. case_bool_decide; [by eapply update_accepted|].
  apply check_accepts in H as [H ->]. done.
Qed.

(** In either mode: a build that succeeds leaves every checked-in artifact as
    the compilers made it, texts up to their line ends. *)
Theorem build_leaves_current protoc manifest out_dir w w' :
  env w "CARGO_MANIFEST_DIR" = Some manifest → env w "OUT_DIR" = Some out_dir → disjoint out_dir (join manifest "generated") →
  run handle (main protoc) w = (Some tt, w') →
  Forall (accepted w' out_dir (join manifest "generated")) GENERATED_FILES.
Proof.
  intros Hmanifest Hout Hdis. unfold main, unwrap. intros (m & w1 & Hm & H)%run_try. rewrite run_await in Hm. simpl in Hm. simplify_eq.
  apply run_try in H as (compiler & w2 & Hc & H). simpl in Hc. simplify_eq.
  apply run_try in H as (o & w3 & Ho & H). rewrite run_await in Ho. simpl in Ho. simplify_eq.
  rewrite run_bind, run_await in H. cbn [handle] in H. destruct (negb _); [by simplify_eq/=|]. rewrite run_bind, run_await in H. cbn [handle] in H.
  do 4 (apply run_try in H as (? & ? & _ & H)). exact (sync_accepted _ _ _ _ Hdis H).
Qed.
End proofs.

Module build_example.
(** Compilers that write one line per artifact. *)
#[local] Instance tools : ProtoTools := {|
  compile_protos sources := if decide (None ∈ sources) then Err "missing source" else Ok (of_string "messages", of_string "descriptor");
  decode_descriptor _ := Ok tt;
  generate_traits _ := mkCodeGeneratorResponse None
    [mkGeneratedFile (Some "xkk.xmongo.rs") (Some (of_string "traits ")); mkGeneratedFile (Some "model.xmongo.rs") (Some (of_string "models"))];
  xproto_registry _ := Ok (of_string "registry") |}.

Definition variables (update : bool) (key : string) : option string :=
  if decide (key = "CARGO_MANIFEST_DIR") then Some "protocol" else if decide (key = "OUT_DIR") then Some "out"
  else if decide (key = "XKK_PROTO_UPDATE") then (if update then Some "1" else None) else None.

Definition sources : gmap string bytes :=
  {[ "/protoc" := []; "protocol/../proto/xkk.proto" := []; "protocol/../proto/model.proto" := [] ]}.
Definition build (update : bool) (fs : gmap string bytes) := run handle (main (Some "/protoc")) (mkWorld fs (variables update) (λ _, false)).

(** A checkout without artifacts does not build; an update makes them, and
    then it does, also when a text was checked out with other line ends; a
    stale artifact stops the build. *)
Example first_build_fails : (build false sources).1 = None.
Proof. vm_compute. reflexivity. Qed.
Example update_then_build :
  let updated := files (build true sources).2 in
  let edited (c : bytes) := <["protocol/generated/xkk.xmongo.rs" := c]> updated in
  (build true sources).1 = Some tt ∧ (build false updated).1 = Some tt
  ∧ (build false (edited (of_string "traits" ++ [13; 10]))).1 = Some tt ∧ (build false (edited (of_string "traitz" ++ [10]))).1 = None.
Proof. vm_compute. repeat split; reflexivity. Qed.

Example update_leaves_current :
  Forall (accepted (build true sources).2 "out" "protocol/generated") GENERATED_FILES.
Proof.
  apply (build_leaves_current (Some "/protoc") "protocol" "out" (mkWorld sources (variables true) (λ _, false))); [reflexivity..|intros f g [=]|].
  apply injective_projections; [vm_compute|]; reflexivity.
Qed.
End build_example.
