(* ===== verification/Registry.v ===== *)
(** The message registry (src/protocol/generated/xkk.registry.rs and
    src/protocol/src/registry.rs): the wire id of every message, which response
    answers which request, and what a process registers before it admits
    network traffic.  The traits of [xproto] are classes over the message
    types; the registry itself is [xproto]'s, asked through [RegistryEff]. *)

From S2P Require Import Prelude Effects Proto.

#[local] Open Scope string_scope.
#[local] Open Scope list_scope.
#[local] Open Scope Z_scope.

(** ** The traits *)

Class WireMessage (T : Type) := { ID : Z }.
#[global] Arguments ID T {_}.
Class RequestMessage (Req Rsp : Type) := {}.
Class ResponseMessage (Rsp Req : Type) := {}.
Class NotificationMessage (T : Type) := {}.

#[export] Instance PlayerInfoReq_wire : WireMessage PlayerInfoReq := {| ID := 100 |}.
#[export] Instance PlayerInfoRsp_wire : WireMessage PlayerInfoRsp := {| ID := 101 |}.
#[export] Instance UseItemReq_wire : WireMessage UseItemReq := {| ID := 102 |}.
#[export] Instance UseItemRsp_wire : WireMessage UseItemRsp := {| ID := 103 |}.
#[export] Instance MailListReq_wire : WireMessage MailListReq := {| ID := 110 |}.
#[export] Instance MailListRsp_wire : WireMessage MailListRsp := {| ID := 111 |}.
#[export] Instance MailReadReq_wire : WireMessage MailReadReq := {| ID := 112 |}.
#[export] Instance MailReadRsp_wire : WireMessage MailReadRsp := {| ID := 113 |}.
#[export] Instance MailDeleteReq_wire : WireMessage MailDeleteReq := {| ID := 114 |}.
#[export] Instance MailDeleteRsp_wire : WireMessage MailDeleteRsp := {| ID := 115 |}.
#[export] Instance MailClaimReq_wire : WireMessage MailClaimReq := {| ID := 116 |}.
#[export] Instance MailClaimRsp_wire : WireMessage MailClaimRsp := {| ID := 117 |}.
#[export] Instance MailInfoNtf_wire : WireMessage MailInfoNtf := {| ID := 118 |}.
#[export] Instance AddItemsReq_wire : WireMessage AddItemsReq := {| ID := 1000 |}.
#[export] Instance AddItemsRsp_wire : WireMessage AddItemsRsp := {| ID := 1001 |}.
#[export] Instance RemoveItemsReq_wire : WireMessage RemoveItemsReq := {| ID := 1002 |}.
#[export] Instance RemoveItemsRsp_wire : WireMessage RemoveItemsRsp := {| ID := 1003 |}.
#[export] Instance CheckItemsReq_wire : WireMessage CheckItemsReq := {| ID := 1004 |}.
#[export] Instance CheckItemsRsp_wire : WireMessage CheckItemsRsp := {| ID := 1005 |}.
#[export] Instance SendMailReq_wire : WireMessage SendMailReq := {| ID := 1010 |}.
#[export] Instance SendMailRsp_wire : WireMessage SendMailRsp := {| ID := 1011 |}.
#[export] Instance MailPushNtf_wire : WireMessage MailPushNtf := {| ID := 1012 |}.
#[export] Instance AuthLoginReq_wire : WireMessage AuthLoginReq := {| ID := 2000 |}.
#[export] Instance AuthLoginRsp_wire : WireMessage AuthLoginRsp := {| ID := 2001 |}.
#[export] Instance AuthUseRoleReq_wire : WireMessage AuthUseRoleReq := {| ID := 2002 |}.
#[export] Instance AuthUseRoleRsp_wire : WireMessage AuthUseRoleRsp := {| ID := 2003 |}.
#[export] Instance GamerInfoReq_wire : WireMessage GamerInfoReq := {| ID := 2100 |}.
#[export] Instance GamerInfoRsp_wire : WireMessage GamerInfoRsp := {| ID := 2101 |}.
#[export] Instance AckNtf_wire : WireMessage AckNtf := {| ID := 3000 |}.
#[export] Instance PingReq_wire : WireMessage PingReq := {| ID := 3001 |}.
#[export] Instance PingRsp_wire : WireMessage PingRsp := {| ID := 3002 |}.
#[export] Instance LoginReq_wire : WireMessage LoginReq := {| ID := 3003 |}.
#[export] Instance LoginRsp_wire : WireMessage LoginRsp := {| ID := 3004 |}.
#[export] Instance ReconnectReq_wire : WireMessage ReconnectReq := {| ID := 3005 |}.
#[export] Instance ReconnectRsp_wire : WireMessage ReconnectRsp := {| ID := 3006 |}.
#[export] Instance LogoutReq_wire : WireMessage LogoutReq := {| ID := 3007 |}.
#[export] Instance LogoutRsp_wire : WireMessage LogoutRsp := {| ID := 3008 |}.
#[export] Instance KickNtf_wire : WireMessage KickNtf := {| ID := 3009 |}.
#[export] Instance LogicLoginReq_wire : WireMessage LogicLoginReq := {| ID := 3010 |}.
#[export] Instance LogicLoginRsp_wire : WireMessage LogicLoginRsp := {| ID := 3011 |}.
#[export] Instance LogicDisconnectNtf_wire : WireMessage LogicDisconnectNtf := {| ID := 3012 |}.
#[export] Instance KickSessionReq_wire : WireMessage KickSessionReq := {| ID := 3013 |}.
#[export] Instance KickSessionRsp_wire : WireMessage KickSessionRsp := {| ID := 3014 |}.

#[export] Instance PlayerInfoReq_request : RequestMessage PlayerInfoReq PlayerInfoRsp := {}.
#[export] Instance PlayerInfoRsp_response : ResponseMessage PlayerInfoRsp PlayerInfoReq := {}.
#[export] Instance UseItemReq_request : RequestMessage UseItemReq UseItemRsp := {}.
#[export] Instance UseItemRsp_response : ResponseMessage UseItemRsp UseItemReq := {}.
#[export] Instance MailListReq_request : RequestMessage MailListReq MailListRsp := {}.
#[export] Instance MailListRsp_response : ResponseMessage MailListRsp MailListReq := {}.
#[export] Instance MailReadReq_request : RequestMessage MailReadReq MailReadRsp := {}.
#[export] Instance MailReadRsp_response : ResponseMessage MailReadRsp MailReadReq := {}.
#[export] Instance MailDeleteReq_request : RequestMessage MailDeleteReq MailDeleteRsp := {}.
#[export] Instance MailDeleteRsp_response : ResponseMessage MailDeleteRsp MailDeleteReq := {}.
#[export] Instance MailClaimReq_request : RequestMessage MailClaimReq MailClaimRsp := {}.
#[export] Instance MailClaimRsp_response : ResponseMessage MailClaimRsp MailClaimReq := {}.
#[export] Instance MailInfoNtf_notification : NotificationMessage MailInfoNtf := {}.
#[export] Instance AddItemsReq_request : RequestMessage AddItemsReq AddItemsRsp := {}.
#[export] Instance AddItemsRsp_response : ResponseMessage AddItemsRsp AddItemsReq := {}.
#[export] Instance RemoveItemsReq_request : RequestMessage RemoveItemsReq RemoveItemsRsp := {}.
#[export] Instance RemoveItemsRsp_response : ResponseMessage RemoveItemsRsp RemoveItemsReq := {}.
#[export] Instance CheckItemsReq_request : RequestMessage CheckItemsReq CheckItemsRsp := {}.
#[export] Instance CheckItemsRsp_response : ResponseMessage CheckItemsRsp CheckItemsReq := {}.
#[export] Instance SendMailReq_request : RequestMessage SendMailReq SendMailRsp := {}.
#[export] Instance SendMailRsp_response : ResponseMessage SendMailRsp SendMailReq := {}.
#[export] Instance MailPushNtf_notification : NotificationMessage MailPushNtf := {}.
#[export] Instance AuthLoginReq_request : RequestMessage AuthLoginReq AuthLoginRsp := {}.
#[export] Instance AuthLoginRsp_response : ResponseMessage AuthLoginRsp AuthLoginReq := {}.
#[export] Instance AuthUseRoleReq_request : RequestMessage AuthUseRoleReq AuthUseRoleRsp := {}.
#[export] Instance AuthUseRoleRsp_response : ResponseMessage AuthUseRoleRsp AuthUseRoleReq := {}.
#[export] Instance GamerInfoReq_request : RequestMessage GamerInfoReq GamerInfoRsp := {}.
#[export] Instance GamerInfoRsp_response : ResponseMessage GamerInfoRsp GamerInfoReq := {}.
#[export] Instance AckNtf_notification : NotificationMessage AckNtf := {}.
#[export] Instance PingReq_request : RequestMessage PingReq PingRsp := {}.
#[export] Instance PingRsp_response : ResponseMessage PingRsp PingReq := {}.
#[export] Instance LoginReq_request : RequestMessage LoginReq LoginRsp := {}.
#[export] Instance LoginRsp_response : ResponseMessage LoginRsp LoginReq := {}.
#[export] Instance ReconnectReq_request : RequestMessage ReconnectReq ReconnectRsp := {}.
#[export] Instance ReconnectRsp_response : ResponseMessage ReconnectRsp ReconnectReq := {}.
#[export] Instance LogoutReq_request : RequestMessage LogoutReq LogoutRsp := {}.
#[export] Instance LogoutRsp_response : ResponseMessage LogoutRsp LogoutReq := {}.
#[export] Instance KickNtf_notification : NotificationMessage KickNtf := {}.
#[export] Instance LogicLoginReq_request : RequestMessage LogicLoginReq LogicLoginRsp := {}.
#[export] Instance LogicLoginRsp_response : ResponseMessage LogicLoginRsp LogicLoginReq := {}.
#[export] Instance LogicDisconnectNtf_notification : NotificationMessage LogicDisconnectNtf := {}.
#[export] Instance KickSessionReq_request : RequestMessage KickSessionReq KickSessionRsp := {}.
#[export] Instance KickSessionRsp_response : ResponseMessage KickSessionRsp KickSessionReq := {}.

(** ** Registration *)

(** The calls on a [MessageRegistry].  A call is made for a message type; what
    the registry sees of it are the ids of its traits. *)
Inductive RegistryCall :=
| FromDescriptorSets
| RegisterControlMessages
| RegisterApplicationMessage (id : Z) (name : string)
| RegisterRequestResponse (request response : Z)
| RegisterNotification (id : Z)
| InitGlobalRegistry.
#[export] Instance RegistryCall_eq_dec : EqDecision RegistryCall.
Proof. solve_decision. Defined.

Inductive RegistryEff (E : Type) : Type → Type :=
| Call (call : RegistryCall) : RegistryEff E (Result E unit).
#[global] Arguments Call {E}.

Definition register_application_message (T : Type) `{!WireMessage T} (name : string) : RegistryCall :=
  RegisterApplicationMessage (ID T) name.
Definition register_request_response (Req Rsp : Type)
    `{!WireMessage Req, !WireMessage Rsp, !RequestMessage Req Rsp, !ResponseMessage Rsp Req} : RegistryCall :=
  RegisterRequestResponse (ID Req) (ID Rsp).
Definition register_notification (T : Type) `{!WireMessage T, !NotificationMessage T} : RegistryCall :=
  RegisterNotification (ID T).

(** Calls in order, each with its [?]. *)
Fixpoint in_order {E} (calls : list RegistryCall) : prog (RegistryEff E) (Result E unit) :=
  match calls with
  | [] => Ret (Ok tt)
  | call :: calls =>
      r ← await (Call call);
      match r with Err e => Ret (Err e) | Ok _ => in_order calls end
  end.

Definition registrations : list RegistryCall := [
  register_application_message PlayerInfoReq "xkk.v1.PlayerInfoReq";
  register_application_message PlayerInfoRsp "xkk.v1.PlayerInfoRsp";
  register_application_message UseItemReq "xkk.v1.UseItemReq";
  register_application_message UseItemRsp "xkk.v1.UseItemRsp";
  register_application_message MailListReq "xkk.v1.MailListReq";
  register_application_message MailListRsp "xkk.v1.MailListRsp";
  register_application_message MailReadReq "xkk.v1.MailReadReq";
  register_application_message MailReadRsp "xkk.v1.MailReadRsp";
  register_application_message MailDeleteReq "xkk.v1.MailDeleteReq";
  register_application_message MailDeleteRsp "xkk.v1.MailDeleteRsp";
  register_application_message MailClaimReq "xkk.v1.MailClaimReq";
  register_application_message MailClaimRsp "xkk.v1.MailClaimRsp";
  register_application_message MailInfoNtf "xkk.v1.MailInfoNtf";
  register_application_message AddItemsReq "xkk.v1.AddItemsReq";
  register_application_message AddItemsRsp "xkk.v1.AddItemsRsp";
  register_application_message RemoveItemsReq "xkk.v1.RemoveItemsReq";
  register_application_message RemoveItemsRsp "xkk.v1.RemoveItemsRsp";
  register_application_message CheckItemsReq "xkk.v1.CheckItemsReq";
  register_application_message CheckItemsRsp "xkk.v1.CheckItemsRsp";
  register_application_message SendMailReq "xkk.v1.SendMailReq";
  register_application_message SendMailRsp "xkk.v1.SendMailRsp";
  register_application_message MailPushNtf "xkk.v1.MailPushNtf";
  register_application_message AuthLoginReq "xkk.v1.AuthLoginReq";
  register_application_message AuthLoginRsp "xkk.v1.AuthLoginRsp";
  register_application_message AuthUseRoleReq "xkk.v1.AuthUseRoleReq";
  register_application_message AuthUseRoleRsp "xkk.v1.AuthUseRoleRsp";
  register_application_message GamerInfoReq "xkk.v1.GamerInfoReq";
  register_application_message GamerInfoRsp "xkk.v1.GamerInfoRsp";
  register_application_message AckNtf "xkk.v1.AckNtf";
  register_application_message PingReq "xkk.v1.PingReq";
  register_application_message PingRsp "xkk.v1.PingRsp";
  register_application_message LoginReq "xkk.v1.LoginReq";
  register_application_message LoginRsp "xkk.v1.LoginRsp";
  register_application_message ReconnectReq "xkk.v1.ReconnectReq";
  register_application_message ReconnectRsp "xkk.v1.ReconnectRsp";
  register_application_message LogoutReq "xkk.v1.LogoutReq";
  register_application_message LogoutRsp "xkk.v1.LogoutRsp";
  register_application_message KickNtf "xkk.v1.KickNtf";
  register_application_message LogicLoginReq "xkk.v1.LogicLoginReq";
  register_application_message LogicLoginRsp "xkk.v1.LogicLoginRsp";
  register_application_message LogicDisconnectNtf "xkk.v1.LogicDisconnectNtf";
  register_application_message KickSessionReq "xkk.v1.KickSessionReq";
  register_application_message KickSessionRsp "xkk.v1.KickSessionRsp";
  register_request_response PlayerInfoReq PlayerInfoRsp;
  register_request_response UseItemReq UseItemRsp;
  register_request_response MailListReq MailListRsp;
  register_request_response MailReadReq MailReadRsp;
  register_request_response MailDeleteReq MailDeleteRsp;
  register_request_response MailClaimReq MailClaimRsp;
  register_notification MailInfoNtf;
  register_request_response AddItemsReq AddItemsRsp;
  register_request_response RemoveItemsReq RemoveItemsRsp;
  register_request_response CheckItemsReq CheckItemsRsp;
  register_request_response SendMailReq SendMailRsp;
  register_notification MailPushNtf;
  register_request_response AuthLoginReq AuthLoginRsp;
  register_request_response AuthUseRoleReq AuthUseRoleRsp;
  register_request_response GamerInfoReq GamerInfoRsp;
  register_notification AckNtf;
  register_request_response PingReq PingRsp;
  register_request_response LoginReq LoginRsp;
  register_request_response ReconnectReq ReconnectRsp;
  register_request_response LogoutReq LogoutRsp;
  register_notification KickNtf;
  register_request_response LogicLoginReq LogicLoginRsp;
  register_notification LogicDisconnectNtf;
  register_request_response KickSessionReq KickSessionRsp
].

Definition register_all_messages {E} : prog (RegistryEff E) (Result E unit) := in_order registrations.

Definition message_registry {E} : prog (RegistryEff E) (Result E unit) :=
  opened ← await (Call FromDescriptorSets);
  match opened with
  | Err e => Ret (Err e)
  | Ok _ =>
      control ← await (Call RegisterControlMessages);
      match control with
      | Err e => Ret (Err e)
      | Ok _ => register_all_messages
      end
  end.

Definition init_global_registry {E} : prog (RegistryEff E) (Result E unit) :=
  registry ← message_registry;
  match registry with
  | Err e => Ret (Err e)
  | Ok _ =>
      published ← await (Call InitGlobalRegistry);
      match published with Err e => Ret (Err e) | Ok _ => Ret (Ok tt) end
  end.
