(* ===== verification/RegistrySpec.v ===== *)
(** What the registry promises: it agrees with the message ids, every request
    has one response of its own, and nothing is published unless every
    registration was accepted. *)

From S2P Require Import Prelude Effects Proto Registry.

#[local] Open Scope string_scope.
#[local] Open Scope list_scope.
#[local] Open Scope Z_scope.

(** The type name of a message in the form of the names of the ids:
    [PlayerInfoReq] is [PLAYER_INFO_REQ]. *)
Fixpoint upper_snake (first : bool) (s : string) : string :=
  match s with
  | EmptyString => EmptyString
  | String a s =>
      let n := Ascii.nat_of_ascii a in
      if ((65 <=? n) && (n <=? 90))%nat then (if first then "" else "_") +:+ String a (upper_snake false s)
      else String (if ((97 <=? n) && (n <=? 122))%nat then Ascii.ascii_of_nat (n - 32) else a) (upper_snake false s)
  end.

Definition message_of (call : RegistryCall) : option (Z * string) :=
  match call with RegisterApplicationMessage id name => Some (id, name) | _ => None end.
Definition pair_of (call : RegistryCall) : option (Z * Z) :=
  match call with RegisterRequestResponse request response => Some (request, response) | _ => None end.
Definition notification_of (call : RegistryCall) : option Z :=
  match call with RegisterNotification id => Some id | _ => None end.

(** The response the registry answers for a request. *)
Definition response_id (request : Z) : option Z :=
  snd <$> List.find (λ p, p.1 =? request) (omap pair_of registrations).

(** The message ids in use. *)
Definition message_ids : list MsgId.t := filter (λ m, m ≠ MsgId.Unspecified) MsgId.all.
Definition of_kind (k : MessageKind) : list MsgId.t := filter (λ m, kind m = Some k) message_ids.

(** A registry that answers [answer] and remembers the calls. *)
Section run.
Context {E : Type} (answer : RegistryCall → Result E unit).

Definition handle_registry (X : Type) (e : RegistryEff E X) : list RegistryCall → X * list RegistryCall :=
  match e in RegistryEff _ X return list RegistryCall → X * list RegistryCall with
  | Call call => λ calls, (answer call, calls ++ [call])
  end.

Definition accepted (call : RegistryCall) : Prop := answer call = Ok tt.

(** The calls are made up to the first one that is refused. *)
Definition made (calls before : list RegistryCall) (r : Result E unit * list RegistryCall) : Prop :=
  match r.1 with
  | Ok _ => r.2 = before ++ calls ∧ Forall accepted calls
  | Err e => ∃ prefix call rest, calls = prefix ++ call :: rest ∧ r.2 = before ++ prefix ++ [call] ∧ Forall accepted prefix ∧ answer call = Err e
  end.

Lemma in_order_made calls before : made calls before (run handle_registry (in_order calls) before).
Proof.
  revert before. induction calls as [|call calls IH]; intros before; [unfold made; simpl; by rewrite app_nil_r|].
  simpl. destruct (answer call) as [[]|e] eqn:Hcall; simpl.
  - specialize (IH (before ++ [call])). unfold made in *. destruct (run _ _ _) as [[[]|e] calls']; simpl in *.
    + destruct IH as [-> Hall]. rewrite <- app_assoc. split; [done|by constructor].
    + destruct IH as (prefix & c & rest & -> & -> & Hall & He). exists (call :: prefix), c, rest.
      rewrite <- !app_assoc. split_and!; [done..|by constructor|done].
  - exists [], call, calls. split_and!; [done..|constructor|done].
Qed.

Lemma run_in_order_app calls calls' before :
  run handle_registry (r ← in_order calls; match r with Err e => Ret (Err e) | Ok _ => in_order calls' end) before
  = run handle_registry (in_order (calls ++ calls')) before.
Proof.
  revert before. induction calls as [|call calls IH]; intros before; [done|]. simpl. destruct (answer call) as [[]|e]; [apply IH|done].
Qed.

Lemma not_in_prefix {A} (l : list A) x prefix y rest : l ++ [x] = prefix ++ y :: rest → x ∉ l → x ∉ prefix.
Proof.
  revert prefix. induction l as [|z l IH]; intros [|p prefix] Heq Hx; simplify_eq/=; try apply not_elem_of_nil.
  - by destruct prefix.
  - apply not_elem_of_cons in Hx as [Hne Hx]. apply not_elem_of_cons. split; [done|by apply (IH prefix)].
Qed.

Lemma init_made :
  made (FromDescriptorSets :: RegisterControlMessages :: registrations ++ [InitGlobalRegistry]) []
    (run handle_registry init_global_registry []).
Proof.
  pose proof (in_order_made (FromDescriptorSets :: RegisterControlMessages :: registrations ++ [InitGlobalRegistry]) []) as H.
  cbn [in_order] in H. unfold init_global_registry, message_registry, register_all_messages.
  rewrite !run_bind, run_await in *. cbn [handle_registry] in *. destruct (answer FromDescriptorSets) as [[]|e]; [|exact H].
  rewrite !run_bind, run_await in *. cbn [handle_registry] in *. destruct (answer RegisterControlMessages) as [[]|e]; [|exact H].
  rewrite <- run_in_order_app, run_bind in H. exact H.
Qed.
End run.

(** The type name without its package. *)
Definition short_name (name : string) : string := String.substring 7 (String.length name - 7) name.

Definition named_after_id (message : Z * string) : bool :=
  match from_u16 message.1 with
  | Some m => bool_decide (message.2 = "xkk.v1." +:+ short_name message.2)
              && bool_decide (upper_snake true (short_name message.2) = MsgId.as_str_name m)
  | None => false
  end.

Lemma messages_named_after_ids : forallb named_after_id (omap message_of registrations) = true.
Proof. vm_compute. reflexivity. Qed.

(** A name that ends in [_REQ], with the end replaced. *)
Definition stem_of (name : string) : string := String.substring 0 (String.length name - 4) name.

Definition named_pair (m : MsgId.t) : bool :=
  match response_for response_id m with
  | Some m' =>
      let stem := stem_of (MsgId.as_str_name m) in
      bool_decide (kind m' = Some Rsp ∧ MsgId.as_str_name m = stem +:+ "_REQ" ∧ MsgId.as_str_name m' = stem +:+ "_RSP")
  | None => false
  end.

Lemma paired_by_name m : kind m = Some Req → ∃ m' stem, response_for response_id m = Some m' ∧ kind m' = Some Rsp
  ∧ MsgId.as_str_name m = stem +:+ "_REQ" ∧ MsgId.as_str_name m' = stem +:+ "_RSP".
Proof.
  intros Hk. assert (named_pair m = true) as H by (destruct m; vm_compute in Hk |- *; done). unfold named_pair in H.
  destruct (response_for response_id m) as [m'|]; [|done]. apply bool_decide_eq_true in H. by eexists m', _.
Qed.

(** C38: the registry and the message ids agree: the messages that are
    registered are exactly those of the ids in use, each once and under the
    name of its id; every request [X_REQ] is registered with one response,
    which is of kind [Rsp], is [X_RSP] by name and answers no other request,
    and all responses are given out;
    the notifications are the ids of kind [Ntf].  A process that starts has
    made every registration, all accepted, before it publishes the registry;
    otherwise it stopped at the first refusal and published nothing. *)
Theorem registry_matches_ids {E : Type} (answer : RegistryCall → Result E unit) :
  fst <$> omap message_of registrations ≡ₚ MsgId.as_u16 <$> message_ids
  ∧ (∀ id name, (id, name) ∈ omap message_of registrations →
       ∃ m short, from_u16 id = Some m ∧ name = "xkk.v1." +:+ short ∧ upper_snake true short = MsgId.as_str_name m)
  ∧ (∀ m, kind m = Some Req → ∃ m' stem, response_for response_id m = Some m' ∧ kind m' = Some Rsp
       ∧ MsgId.as_str_name m = stem +:+ "_REQ" ∧ MsgId.as_str_name m' = stem +:+ "_RSP")
  ∧ omap (response_for response_id) (of_kind Req) ≡ₚ of_kind Rsp
  ∧ omap notification_of registrations ≡ₚ MsgId.as_u16 <$> of_kind Ntf
  ∧ let calls := (run (handle_registry answer) init_global_registry []).2 in
    match (run (handle_registry answer) init_global_registry []).1 with
    | Ok _ => calls = FromDescriptorSets :: RegisterControlMessages :: registrations ++ [InitGlobalRegistry] ∧ Forall (accepted answer) calls
    | Err e => ∃ before call, calls = before ++ [call] ∧ answer call = Err e ∧ InitGlobalRegistry ∉ before
    end.
Proof.
  split_and!.
  - apply (bool_decide_unpack _). vm_compute. exact I.
  - intros id name Hin. pose proof messages_named_after_ids as H. rewrite forallb_forall in H.
    specialize (H (id, name) (proj1 (list_elem_of_In _ _) Hin)). unfold named_after_id in H. simpl in H.
    destruct (from_u16 id) as [m|]; [|done]. apply andb_true_iff in H as [Hname%bool_decide_eq_true Hm%bool_decide_eq_true].
    by exists m, (short_name name).
  - apply paired_by_name.
  - apply (bool_decide_unpack _). vm_compute. exact I.
  - apply (bool_decide_unpack _). vm_compute. exact I.
  - pose proof (init_made answer) as H. unfold made in H. simpl. destruct (run _ _ _) as [[[]|e] calls]; simpl in *.
    + destruct H as [-> Hall]. done.
    + destruct H as (prefix & call & rest & Hcalls & -> & _ & He). exists prefix, call. split_and!; [done..|].
      apply (not_in_prefix (FromDescriptorSets :: RegisterControlMessages :: registrations) _ _ call rest Hcalls).
      apply (bool_decide_unpack _). vm_compute. exact I.
Qed.
