(* ===== verification/Process.v ===== *)
(** The process of a service (src/app/src/process.rs): the log worker, the
    message registry and the two database clients are opened, the service
    runs, and everything is closed in reverse order; what each of the calls
    promises is proved at the end. *)

From S2P Require Import Prelude Effects Config.

#[local] Open Scope list_scope.
#[local] Open Scope Z_scope.

(** The libraries the process opens. *)
Class Libraries := {
  LogError : Type; LogCloseError : Type; ProtocolError : Type; MongoError : Type; RedisError : Type;
  RedisConfig : Type; MongoConfig : Type; RedisClient : Type; MongoClient : Type
}.

Inductive AppError `{!Libraries} :=
| Log (e : LogError)
| LogClose (e : LogCloseError)
| Protocol (e : ProtocolError)
| Mongo (e : MongoError)
| Redis (e : RedisError).

Record Resources `{!Libraries} := mkResources { mongo : MongoClient; redis : RedisClient }.

(** The calls of the process; [F] are the operations of the service. *)
Inductive ProcessEff `{!Libraries} (F : Type → Type) : Type → Type :=
| InitLog (log : LogOptions) : ProcessEff F (Result LogError unit)
| CloseLog : ProcessEff F (Result LogCloseError unit)
| InitServiceTypes : ProcessEff F unit
| InitRegistry : ProcessEff F (Result ProtocolError unit)
| RedisConfigNew (dsn : string) : ProcessEff F (Result RedisError RedisConfig)
| MongoConfigNew (dsn : string) : ProcessEff F (Result MongoError MongoConfig)
| ConnectRedis (config : RedisConfig) : ProcessEff F (Result RedisError RedisClient)
| ConnectMongo (config : MongoConfig) : ProcessEff F (Result MongoError MongoClient)
| CloseRedis (client : RedisClient) : ProcessEff F unit
| ShutdownMongo (client : MongoClient) : ProcessEff F unit
| OnService {X : Type} (e : F X) : ProcessEff F X.
#[global] Arguments InitLog {_ F}.
#[global] Arguments CloseLog {_ F}.
#[global] Arguments InitServiceTypes {_ F}.
#[global] Arguments InitRegistry {_ F}.
#[global] Arguments RedisConfigNew {_ F}.
#[global] Arguments MongoConfigNew {_ F}.
#[global] Arguments ConnectRedis {_ F}.
#[global] Arguments ConnectMongo {_ F}.
#[global] Arguments CloseRedis {_ F}.
#[global] Arguments ShutdownMongo {_ F}.
#[global] Arguments OnService {_ F X}.

Section process.
Context `{!Libraries} {F : Type → Type}.

(** Both configurations are checked before a connection is opened. *)
Definition connect (config : Infrastructure) : prog (ProcessEff F) (Result AppError Resources) :=
  redis_config ← await (RedisConfigNew (redis_dsn config));
  match redis_config with
  | Err e => Ret (Err (Redis e))
  | Ok redis_config =>
      mongo_config ← await (MongoConfigNew (mongo_dsn config));
      match mongo_config with
      | Err e => Ret (Err (Mongo e))
      | Ok mongo_config =>
          redis ← await (ConnectRedis redis_config);
          match redis with
          | Err e => Ret (Err (Redis e))
          | Ok redis =>
              mongo ← await (ConnectMongo mongo_config);
              match mongo with
              | Err e => _ ← await (CloseRedis redis); Ret (Err (Mongo e))
              | Ok mongo => Ret (Ok (mkResources _ mongo redis))
              end
          end
      end
  end.

Definition close (self : Resources) : prog (ProcessEff F) unit :=
  _ ← await (ShutdownMongo (mongo self));
  await (CloseRedis (redis self)).

Context {E : Type}.
Variable from : AppError → E.
Variable service : Resources → prog F (Result E unit).

Definition run_service (infrastructure : Infrastructure) : prog (ProcessEff F) (Result E unit) :=
  _ ← await InitServiceTypes;
  registry ← await InitRegistry;
  match registry with
  | Err e => Ret (Err (from (Protocol e)))
  | Ok _ =>
      resources ← connect infrastructure;
      match resources with
      | Err e => Ret (Err (from e))
      | Ok resources =>
          result ← lift (λ X, @OnService _ F X) (service resources);
          _ ← close resources;
          Ret result
      end
  end.

Definition run_process (log : LogOptions) (infrastructure : Infrastructure) : prog (ProcessEff F) (Result E unit) :=
  log_guard ← await (InitLog log);
  match log_guard with
  | Err e => Ret (Err (from (Log e)))
  | Ok _ =>
      result ← run_service infrastructure;
      log_close ← await CloseLog;
      Ret match result with
          | Err e => Err e
          | Ok _ => match log_close with Err e => Err (from (LogClose e)) | Ok _ => Ok tt end
          end
  end.

(** ** What it promises *)

(** How the libraries answer. *)
Record Environment := mkEnvironment {
  log_opens : Result LogError unit;
  log_closes : Result LogCloseError unit;
  registry_opens : Result ProtocolError unit;
  redis_config_of : string → Result RedisError RedisConfig;
  mongo_config_of : string → Result MongoError MongoConfig;
  redis_connects : RedisConfig → Result RedisError RedisClient;
  mongo_connects : MongoConfig → Result MongoError MongoClient
}.

(** A world: the state of the service, and the resources that are open, the
    last one first.  It is [None] once the order was violated: a resource was
    closed that was not the last one opened, or the service ran before all of
    them were open. *)
Inductive Resource := LogWorker | RedisConnection | MongoConnection.
#[local] Instance Resource_eq_dec : EqDecision Resource.
Proof. solve_decision. Defined.

Context {S : Type} (handle_service : ∀ X, F X → S → X * S).
#[local] Abbreviation World := (S * option (list Resource))%type.

Definition opening {A B} (r : Resource) (answer : Result A B) (w : World) : Result A B * World :=
  (answer, match answer with Ok _ => (w.1, cons r <$> w.2) | Err _ => w end).

Definition closing (r : Resource) (w : World) : World :=
  (w.1, opened ← w.2; match opened with r' :: opened => if decide (r = r') then Some opened else None | [] => None end).

Definition all_open : option (list Resource) := Some [MongoConnection; RedisConnection; LogWorker].

Definition handle_process (env : Environment) (X : Type) (e : ProcessEff F X) : World → X * World :=
  match e in ProcessEff _ X return World → X * World with
  | InitLog _ => opening LogWorker (log_opens env)
  | CloseLog => λ w, (log_closes env, closing LogWorker w)
  | InitServiceTypes => λ w, (tt, w)
  | InitRegistry => λ w, (registry_opens env, w)
  | RedisConfigNew dsn => λ w, (redis_config_of env dsn, w)
  | MongoConfigNew dsn => λ w, (mongo_config_of env dsn, w)
  | ConnectRedis config => opening RedisConnection (redis_connects env config)
  | ConnectMongo config => opening MongoConnection (mongo_connects env config)
  | CloseRedis _ => λ w, (tt, closing RedisConnection w)
  | ShutdownMongo _ => λ w, (tt, closing MongoConnection w)
  | OnService e => λ w,
      let '(x, s) := handle_service _ e w.1 in (x, (s, if decide (w.2 = all_open) then w.2 else None))
  end.

(** The resources of an environment, or the first error of opening them. *)
Definition opened (env : Environment) (infrastructure : Infrastructure) : Result AppError Resources :=
  _ ← match log_opens env with Ok _ => Ok tt | Err e => Err (Log e) end;
  _ ← match registry_opens env with Ok _ => Ok tt | Err e => Err (Protocol e) end;
  redis_config ← match redis_config_of env (redis_dsn infrastructure) with Ok c => Ok c | Err e => Err (Redis e) end;
  mongo_config ← match mongo_config_of env (mongo_dsn infrastructure) with Ok c => Ok c | Err e => Err (Mongo e) end;
  redis ← match redis_connects env redis_config with Ok c => Ok c | Err e => Err (Redis e) end;
  mongo ← match mongo_connects env mongo_config with Ok c => Ok c | Err e => Err (Mongo e) end;
  Ok (mkResources _ mongo redis).

(** The answer of the process to the answer of its service. *)
Definition process_answer (env : Environment) (result : Result E unit) : Result E unit :=
  match result, log_closes env with
  | Err e, _ => Err e
  | Ok _, Err e => Err (from (LogClose e))
  | Ok _, Ok _ => Ok tt
  end.

Lemma run_on_service env {A} (p : prog F A) s :
  run (handle_process env) (lift (λ X, @OnService _ F X) p) (s, all_open)
  = let '(a, s') := run handle_service p s in (a, (s', all_open)).
Proof.
  revert s. induction p as [a|X e k IH]; intros s; [done|]. simpl. destruct (handle_service X e s) as [x s']. apply IH.
Qed.

(** C36: every process closes what it opened, once each and in reverse order,
    and its service runs only while all of it is open.  It runs its service
    exactly when everything could be opened, and then answers what the service
    answered, or the error of closing the log worker; otherwise it answers
    the first error, and the service has done nothing. *)
Theorem process_releases_resources env log infrastructure s :
  run (handle_process env) (run_process log infrastructure) (s, Some [])
  = match opened env infrastructure with
    | Err e => (Err (from e), (s, Some []))
    | Ok resources => let '(result, s') := run handle_service (service resources) s in (process_answer env result, (s', Some []))
    end.
Proof.
  unfold run_process, run_service, connect, opened, process_answer. destruct env as [log_opens log_closes registry rc mc rconn mconn].
  destruct log_opens as [[]|e]; [|done]. simpl.
  destruct registry as [[]|e]; [|done]. simpl.
  destruct (rc _) as [redis_config|e]; [|done]. simpl.
  destruct (mc _) as [mongo_config|e]; [|done]. simpl.
  destruct (rconn _) as [redis|e]; [|done]. simpl.
  destruct (mconn _) as [mongo|e]; [|done]. simpl.
  match goal with |- context [prog_mbind _ _ ?f ?p] => change (prog_mbind _ _ f p) with (p ≫= f) end.
  rewrite !run_bind. change (Some [_; _; _]) with all_open. rewrite run_on_service.
  destruct (run handle_service (service _) s) as [result s']. simpl. by destruct result.
Qed.
End process.
