(* ===== verification/Services.v ===== *)
(** How the five services are put together (src/service/*/src/service.rs):
    what each announces to the service discovery, the listeners it opens, and
    its [run], from the validated configuration to the shutdown signal.  The
    framework [xframe] is the class [Xframe]. *)

From stdpp Require Import pretty.
From S2P Require Import GateStats GateGateway.
From S2P Require Import Prelude Effects Decimal Routing Proto Mongo Documents AuthApi QueryApi GateSession LogicAdmission Config Process.

#[local] Open Scope string_scope.
#[local] Open Scope list_scope.
#[local] Open Scope Z_scope.

(** ** The framework *)

(** A node as it is registered, and the instance the other services discover:
    the host, the id and the metadata the node was given. *)
Class Xframe := {
  FrameError : Type; RpcError : Type; HttpError : Type;
  NodeConfig : Type; DiscoveryConfig : Type;
  node_new (cluster : string) (service_type instance_id : Z) (host : string) (port : Z) : Result FrameError NodeConfig;
  with_versions : Z → Z → NodeConfig → NodeConfig;
  with_meta_data : gmap string string → NodeConfig → NodeConfig;
  discovery_new (dsn : string) : Result FrameError DiscoveryConfig;
  announced : NodeConfig → ServiceInstance;
  announced_new cluster ty id h port n program conf meta : node_new cluster ty id h port = Ok n →
    let i := announced (with_meta_data meta (with_versions program conf n)) in
    instance_id i = id ∧ host i = h ∧ meta_data i = meta
}.

Record ListenEndpoint := mkListenEndpoint { endpoint_transport : string; endpoint_address : string; external : bool }.

(** The listeners of a server; the limits are [None] where the default of the
    library is kept. *)
Record ServerConfig := mkServerConfig {
  listeners : list ListenEndpoint;
  client_role : bool;
  write_queue_capacity : option Z;
  write_queue_byte_capacity : option Z;
  server_websocket_path : option string;
  admission : option (Z * Z)
}.

(** A server for the other services. *)
Definition with_listener (endpoint : ListenEndpoint) : ServerConfig := mkServerConfig [endpoint] false None None None None.

Record ServiceConfig `{!Xframe} := mkServiceConfig {
  service_node : NodeConfig;
  service_discovery : DiscoveryConfig;
  service_server : option ServerConfig;
  rpc_pending_capacity : Z
}.

Inductive ServiceError `{!ConfigErrors, !Libraries, !Xframe} (PersistError : Type) :=
| AppFailed (e : AppError)
| ConfigFailed (e : ConfigError)
| FrameFailed (e : FrameError)
| PersistFailed (e : PersistError)
| RpcFailed (e : RpcError)
| HttpFailed (e : HttpError).
#[global] Arguments AppFailed {_ _ _ _}.
#[global] Arguments ConfigFailed {_ _ _ _}.
#[global] Arguments FrameFailed {_ _ _ _}.
#[global] Arguments PersistFailed {_ _ _ _}.
#[global] Arguments RpcFailed {_ _ _ _}.
#[global] Arguments HttpFailed {_ _ _ _}.

(** [format!("{host}:{port}")]. *)
Definition address (host : string) (port : Z) : string := host +:+ ":" +:+ pretty port.

Section services.
Context `{!ConfigErrors, !Libraries, !Xframe} {PE : Type}.
#[local] Abbreviation Error := (ServiceError PE).

(** [NodeConfig::new(..)?] with its versions and metadata, then
    [DiscoveryConfig::new(..)?]. *)
Definition node_and_discovery (cluster : string) (ty id : Z) (host : string) (port : Z) (version : ServiceVersion)
    (metadata : gmap string string) (etcd_dsn : string) : Result Error (NodeConfig * DiscoveryConfig) :=
  match node_new cluster ty id host port with
  | Err e => Err (FrameFailed e)
  | Ok node =>
      match discovery_new etcd_dsn with
      | Err e => Err (FrameFailed e)
      | Ok discovery => Ok (with_meta_data metadata (with_versions (program version) (conf version) node), discovery)
      end
  end.

(** ** Gate *)

Definition MAX_EXTERNAL_HANDSHAKES : Z := 256.
Definition MAX_EXTERNAL_CONNECTIONS : Z := 65536.
Definition EXTERNAL_WRITE_QUEUE_CAPACITY : Z := 128.
Definition EXTERNAL_WRITE_QUEUE_BYTES : Z := 4 * 1024 * 1024.
Definition GATE_RPC_PENDING_CAPACITY : Z := 100000.

(** An external listener on an enabled port. *)
Definition external_listener (transport host : string) (port : option Z) : list ListenEndpoint :=
  match port with Some port => [mkListenEndpoint transport (address host port) true] | None => [] end.

Definition network_server (config : GateConfig.t) : ServerConfig :=
  let l := GateConfig.listeners config in
  let host := GateNode.listen_host (GateConfig.node config) in
  mkServerConfig
    (external_listener "tcp" host (GateListeners.tcp_port l) ++ external_listener "kcp" host (GateListeners.kcp_port l)
     ++ external_listener "websocket" host (GateListeners.websocket_port l))
    true (Some EXTERNAL_WRITE_QUEUE_CAPACITY) (Some EXTERNAL_WRITE_QUEUE_BYTES) (Some (GateListeners.websocket_path l))
    (Some (MAX_EXTERNAL_HANDSHAKES, MAX_EXTERNAL_CONNECTIONS)).

(** An insertion for an enabled port. *)
Definition insert_port (port : option Z) (insert : Z → gmap string string → gmap string string) (m : gmap string string)
    : gmap string string :=
  match port with Some port => insert port m | None => m end.

Definition gate_metadata (l : GateListeners.t) : gmap string string :=
  insert_port (GateListeners.websocket_port l)
    (λ port m, <["websocket_path" := GateListeners.websocket_path l]> (<["websocket_port" := pretty port]> m))
  (insert_port (GateListeners.kcp_port l) (λ port m, <["kcp_port" := pretty port]> m)
  (insert_port (GateListeners.tcp_port l) (λ port m, <["tcp_port" := pretty port]> m)
     {[ "protocol" := "client"; "primary_transport" := as_str (GateListeners.primary_transport l) ]})).

(** The [expect] of the primary port is [None]. *)
Definition gate_service_config (config : GateConfig.t) : option (Result Error ServiceConfig) :=
  primary_port ← GateListeners.primary_port (GateConfig.listeners config);
  let node := GateConfig.node config in
  Some (
    '(node, discovery) ←
      node_and_discovery (GateNode.cluster node) service_type.GATE (GateNode.instance_id node) (GateNode.advertise_host node)
        primary_port (GateConfig.version config) (gate_metadata (GateConfig.listeners config))
        (etcd_dsn (GateConfig.infrastructure config));
    Ok (mkServiceConfig _ node discovery None GATE_RPC_PENDING_CAPACITY)).

Record GatewaySettings := mkGatewaySettings { gate_id : Z; settings_token_secret : string; settings_token_expire_seconds : Z }.

Definition gateway_settings (config : GateConfig.t) : GatewaySettings :=
  mkGatewaySettings (GateNode.instance_id (GateConfig.node config)) (token_secret (GateConfig.security config))
    (token_expire_seconds (GateConfig.security config)).

(** The state of a Gate apart from the framework, Redis and the sessions. *)
Record Gateway := mkGateway {
  gateway_id : Z;
  gateway_token : string * Z;
  gateway_rpc_timeout : Z;
  gateway_online_count : Z;
  gateway_login_metrics : GateLogin.LoginMetrics;
  gateway_draining : bool;
  gateway_workers : gset Z
}.

(** [Gateway::new]; [None] is the failed assertion. *)
Definition gateway_new (settings : GatewaySettings) : option Gateway :=
  if settings_token_expire_seconds settings <=? 0 then None
  else
    Some (mkGateway (gate_id settings) (settings_token_secret settings, settings_token_expire_seconds settings)
            GateGateway.RPC_CALL_TIMEOUT 0 GateLogin.default false ∅).

(** ** Logic and Public *)

Definition LOGIC_RPC_PENDING_CAPACITY : Z := 100000.
Definition PUBLIC_RPC_PENDING_CAPACITY : Z := 100000.

(** A service for the other services: one listener, and no paths. *)
Definition internal_service_config (ty pending : Z) (node : ServiceNode.t) (version : ServiceVersion) (etcd_dsn : string)
    : Result Error ServiceConfig :=
  '(config, discovery) ←
    node_and_discovery (ServiceNode.cluster node) ty (ServiceNode.instance_id node) (ServiceNode.advertise_host node)
      (ServiceNode.service_port node) version {[ "protocol" := "ss" ]} etcd_dsn;
  Ok (mkServiceConfig _ config discovery
        (Some (with_listener (mkListenEndpoint "tcp" (address (ServiceNode.listen_host node) (ServiceNode.service_port node)) false)))
        pending).

Definition logic_service_config (config : LogicConfig.t) : Result Error ServiceConfig :=
  internal_service_config service_type.LOGIC LOGIC_RPC_PENDING_CAPACITY (LogicConfig.node config) (LogicConfig.version config)
    (etcd_dsn (LogicConfig.infrastructure config)).

Definition public_service_config (config : PublicConfig.t) : Result Error ServiceConfig :=
  internal_service_config service_type.PUBLIC PUBLIC_RPC_PENDING_CAPACITY (PublicConfig.node config) (PublicConfig.version config)
    (etcd_dsn (PublicConfig.infrastructure config)).

Definition logic_config : LogicAdmission.LogicConfig.t := LogicAdmission.LogicConfig.HARD_LIMITS.

(** ** Auth and Query *)

Definition AUTH_RPC_PENDING_CAPACITY : Z := 1024.
Definition QUERY_RPC_PENDING_CAPACITY : Z := 100000.
Definition AUTH_HTTP_MAX_BODY_BYTES : Z := 4096.
Definition QUERY_HTTP_MAX_BODY_BYTES : Z := 8192.

(** A service over HTTP. *)
Definition http_service_config (ty pending : Z) (metadata : gmap string string) (node : HttpNode.t) (version : ServiceVersion)
    (etcd_dsn : string) : Result Error ServiceConfig :=
  '(config, discovery) ←
    node_and_discovery (HttpNode.cluster node) ty (HttpNode.instance_id node) (HttpNode.advertise_host node)
      (HttpNode.http_port node) version metadata etcd_dsn;
  Ok (mkServiceConfig _ config discovery None pending).

Definition auth_service_config (config : AuthConfig.t) : Result Error ServiceConfig :=
  http_service_config service_type.AUTH AUTH_RPC_PENDING_CAPACITY
    {[ "protocol" := "http"; "login_path" := LOGIN_PATH; "use_role_path" := USE_ROLE_PATH ]}
    (AuthConfig.node config) (AuthConfig.version config) (etcd_dsn (AuthConfig.infrastructure config)).

Definition query_service_config (config : QueryConfig.t) : Result Error ServiceConfig :=
  http_service_config service_type.QUERY QUERY_RPC_PENDING_CAPACITY
    {[ "protocol" := "http"; "health_path" := "/healthz"; "ready_path" := "/readyz" ]}
    (QueryConfig.node config) (QueryConfig.version config) (etcd_dsn (QueryConfig.infrastructure config)).
End services.

(** ** Running *)

(** The calls on the framework, in the order a service makes them; an error is
    the [ServiceError] its [?] makes of it. *)
Inductive FrameEff `{!ConfigErrors, !Libraries, !Xframe} (PE : Type) : Type → Type :=
| Prepare (config : ServiceConfig) : FrameEff PE (Result (ServiceError PE) unit)
| RegisterRpc : FrameEff PE (Result (ServiceError PE) unit)
| AddServer (config : ServerConfig) : FrameEff PE unit
| Route (path : string) : FrameEff PE (Result (ServiceError PE) unit)
| Get (path : string) : FrameEff PE (Result (ServiceError PE) unit)
| SetHttpApp (address : string) (max_body_bytes : Z) : FrameEff PE (Result (ServiceError PE) unit)
| Start : FrameEff PE (Result (ServiceError PE) unit)
| RunUntilShutdownSignal : FrameEff PE (Result (ServiceError PE) unit).
#[global] Arguments Prepare {_ _ _ PE}.
#[global] Arguments RegisterRpc {_ _ _ PE}.
#[global] Arguments AddServer {_ _ _ PE}.
#[global] Arguments Route {_ _ _ PE}.
#[global] Arguments Get {_ _ _ PE}.
#[global] Arguments SetHttpApp {_ _ _ PE}.
#[global] Arguments Start {_ _ _ PE}.
#[global] Arguments RunUntilShutdownSignal {_ _ _ PE}.

(** The handler of [/readyz]. *)
Definition ready_status (running : bool) : Z := if running then 200 else 503.
(** The handler of [/healthz]. *)
Definition health_status : Z := 200.

Section running.
Context `{!ConfigErrors, !Libraries, !Xframe} {E : Type} `{!Xmongo E}.
#[local] Abbreviation Error := (ServiceError (PersistError E)).
#[local] Abbreviation Eff := (FrameEff (PersistError E)).

(** The database the DSN of the client names. *)
Variable default_database : MongoClient → option string.

(** [e?; k] *)
Definition and_then (e : Eff (Result Error unit)) (k : prog Eff (Result Error unit)) : prog Eff (Result Error unit) :=
  r ← await e;
  match r with Err e => Ret (Err e) | Ok _ => k end.

Definition with_database (resources : Resources) (k : prog Eff (Result Error unit)) : prog Eff (Result Error unit) :=
  match open_database (E := E) (default_database (mongo resources)) with
  | Err e => Ret (Err (PersistFailed e))
  | Ok _ => k
  end.

Definition start_and_wait : prog Eff (Result Error unit) := and_then Start (and_then RunUntilShutdownSignal (Ret (Ok tt))).

(** [config.validate()?], the service configuration, and the process. *)
Definition run_validated (valid : Result ConfigError unit) (config : option (Result Error ServiceConfig)) (log : LogOptions)
    (infrastructure : Infrastructure) (service : ServiceConfig → Resources → prog Eff (Result Error unit))
    : prog (ProcessEff Eff) (option (Result Error unit)) :=
  match valid with
  | Err e => Ret (Some (Err (ConfigFailed e)))
  | Ok _ =>
      match config with
      | None => Ret None
      | Some (Err e) => Ret (Some (Err e))
      | Some (Ok config) =>
          r ← run_process AppFailed (service config) log infrastructure;
          Ret (Some r)
      end
  end.

(** The sessions, the runtime, the handlers and the application that a service
    builds in between are values of their own files; the assertions of
    [ClientSessions::new] and [LogicRuntime::new] hold for the hard limits
    ([ServicesSpec.hard_limits_valid]), that of [Gateway::new] for a validated
    configuration ([ServicesSpec.validated_gateway]). *)
Definition gate_run (config : GateConfig.t) : prog (ProcessEff Eff) (option (Result Error unit)) :=
  run_validated (GateConfig.validate config) (gate_service_config config)
    (options (GateConfig.log config) (mkPath false ["logs"; "gate.log"])) (GateConfig.infrastructure config)
    (λ service_config resources,
       and_then (Prepare service_config)
         (with_database resources
            (and_then RegisterRpc
               (_ ← await (AddServer (network_server config)); start_and_wait)))).

Definition logic_run (config : LogicConfig.t) : prog (ProcessEff Eff) (option (Result Error unit)) :=
  run_validated (LogicConfig.validate config) (Some (logic_service_config config))
    (options (LogicConfig.log config) (mkPath false ["logs"; "logic.log"])) (LogicConfig.infrastructure config)
    (λ service_config resources,
       and_then (Prepare service_config) (with_database resources (and_then RegisterRpc start_and_wait))).

Definition public_run (config : PublicConfig.t) : prog (ProcessEff Eff) (option (Result Error unit)) :=
  run_validated (PublicConfig.validate config) (Some (public_service_config config))
    (options (PublicConfig.log config) (mkPath false ["logs"; "public.log"])) (PublicConfig.infrastructure config)
    (λ service_config resources,
       and_then (Prepare service_config) (with_database resources (and_then RegisterRpc start_and_wait))).

Definition auth_run (config : AuthConfig.t) : prog (ProcessEff Eff) (option (Result Error unit)) :=
  run_validated (AuthConfig.validate config) (Some (auth_service_config config))
    (options (AuthConfig.log config) (mkPath false ["logs"; "auth.log"])) (AuthConfig.infrastructure config)
    (λ service_config resources,
       and_then (Prepare service_config)
         (with_database resources
            (and_then (Route LOGIN_PATH) (and_then (Route USE_ROLE_PATH) (and_then (Get "/healthz") (and_then (Get "/readyz")
               (and_then
                  (SetHttpApp (address (HttpNode.listen_host (AuthConfig.node config)) (HttpNode.http_port (AuthConfig.node config)))
                     AUTH_HTTP_MAX_BODY_BYTES)
                  start_and_wait))))))).

Definition query_run (config : QueryConfig.t) : prog (ProcessEff Eff) (option (Result Error unit)) :=
  run_validated (QueryConfig.validate config) (Some (query_service_config config))
    (options (QueryConfig.log config) (mkPath false ["logs"; "query.log"])) (QueryConfig.infrastructure config)
    (λ service_config resources,
       and_then (Prepare service_config)
         (with_database resources
            (and_then (Route "/v1/query/gamers") (and_then (Get "/healthz") (and_then (Get "/readyz")
               (and_then
                  (SetHttpApp (address (HttpNode.listen_host (QueryConfig.node config)) (HttpNode.http_port (QueryConfig.node config)))
                     QUERY_HTTP_MAX_BODY_BYTES)
                  start_and_wait)))))).
End running.
