(* ===== verification/ServicesSpec.v ===== *)
(** What the composition of the services promises: a validated Gate can always
    be announced, and the endpoints Auth reads from its announcement are the
    ones it listens on. *)

From stdpp Require Import pretty.
From S2P Require Import Prelude Effects Decimal Routing Proto AuthApi Config ConfigSpec Process Services.

#[local] Open Scope string_scope.
#[local] Open Scope list_scope.
#[local] Open Scope Z_scope.

(** The limits a process is started with pass the assertions on them. *)
Lemma hard_limits_valid : LogicAdmission.LogicConfig.validate logic_config = true ∧ GateSession.validate GateSession.HARD_LIMITS = true.
Proof. done. Qed.

(** A Gate that starts has a validated configuration, so the assertion of
    [Gateway::new] holds. *)
Lemma validated_gateway `{!ConfigErrors} (config : GateConfig.t) :
  GateConfig.validate config = Ok tt → is_Some (gateway_new (gateway_settings config)).
Proof.
  unfold GateConfig.validate. intros Hvalid.
  destruct (GateNode.validate _ _); [|done]. destruct (infrastructure_validate _ _); [|done].
  destruct (GateListeners.validate _); [|done]. simpl in Hvalid.
  destruct (security_validate (GateConfig.security config) GateConfig.SERVICE) as [[]|e] eqn:Hs; [|done].
  apply security_validate_ok in Hs as [_ Hs]. unfold gateway_new, gateway_settings. simpl.
  destruct (Z.leb_spec (token_expire_seconds (GateConfig.security config)) 0); [lia|]. by eexists.
Qed.

Lemma u32_from_str_pretty z : is_u32 z → u32_from_str (pretty z) = Some z.
Proof.
  intros Hz. unfold is_u32 in Hz. assert (pretty z = pretty (Z.to_N z)) as Hp.
  { unfold pretty at 1. unfold pretty_Z. destruct z; [done|done|lia]. }
  destruct (pretty_N_head (Z.to_N z)) as (a & s & Hhead & Hminus & _).
  unfold u32_from_str. rewrite Hp, Hhead, decide_False by done. rewrite <- Hhead, <- Hp.
  unfold parse_int. rewrite parse_Z_pretty. simpl.
  destruct (Z.leb_spec 0 z); [|lia]. destruct (Z.ltb_spec z (2 ^ 32)); [done|lia].
Qed.

(** The enabled listeners of a Gate, as a client addresses them. *)
Definition endpoint_of (transport host path : string) (port : option Z) : list Endpoint :=
  match port with Some port => [mkEndpoint transport host port path] | None => [] end.

Definition enabled_endpoints (c : GateConfig.t) : list Endpoint :=
  let l := GateConfig.listeners c in
  let host := GateNode.advertise_host (GateConfig.node c) in
  endpoint_of "tcp" host "" (GateListeners.tcp_port l) ++ endpoint_of "kcp" host "" (GateListeners.kcp_port l)
  ++ endpoint_of "websocket" host (GateListeners.websocket_path l) (GateListeners.websocket_port l).

(** The ports of a decoded role fit in [u16]. *)
Definition gate_ports_typed (l : GateListeners.t) : Prop :=
  Forall is_u16 (omap id [GateListeners.tcp_port l; GateListeners.kcp_port l; GateListeners.websocket_port l]).

Lemma gate_metadata_endpoints c meta h i e hl n : gate_ports_typed (GateConfig.listeners c) →
  meta = gate_metadata (GateConfig.listeners c) → h = GateNode.advertise_host (GateConfig.node c) →
  gate_endpoints (mkServiceInstance i e hl n h meta) = enabled_endpoints c.
Proof.
  intros Htyped -> ->. unfold gate_endpoints, enabled_endpoints, gate_metadata, gate_ports_typed in *. cbn [meta_data host].
  destruct (GateConfig.listeners c) as [tcp kcp ws path primary]. cbn [GateListeners.tcp_port GateListeners.kcp_port
    GateListeners.websocket_port GateListeners.websocket_path GateListeners.primary_transport] in *.
  assert (∀ p, is_u16 p → u32_from_str (pretty p) = Some p) as Hparse
    by (intros p Hp; apply u32_from_str_pretty; unfold is_u16, is_u32 in *; lia).
  destruct tcp as [tcp|], kcp as [kcp|], ws as [ws|]; simpl in *; decompose_Forall_hyps;
    repeat (rewrite lookup_insert_eq || rewrite lookup_insert_ne by done || rewrite lookup_singleton_ne by done);
    simpl; rewrite ?Hparse by done; done.
Qed.

Section gate.
Context `{!ConfigErrors, !Libraries, !Xframe} {PE : Type}.

(** What the Gate listens on for a client who was given an endpoint. *)
Definition listener_of (c : GateConfig.t) (e : Endpoint) : ListenEndpoint :=
  mkListenEndpoint (Endpoint_transport e) (address (GateNode.listen_host (GateConfig.node c)) (Endpoint_port e)) true.

Lemma network_server_listeners c : listeners (network_server c) = listener_of c <$> enabled_endpoints c.
Proof.
  unfold network_server, enabled_endpoints. destruct (GateConfig.listeners c) as [[?|] [?|] [?|] ? ?]; reflexivity.
Qed.

(** C35: a Gate with a validated configuration is always announced (or the
    framework refuses its node): the endpoints Auth reads from the
    announcement are exactly the listeners the configuration enables, at least
    one, with the advertised host and the path of the WebSocket; each is one
    the Gate listens on, and no two of them share a TCP port. *)
Theorem gate_announces_listeners c : config_ok c → gate_ports_typed (GateConfig.listeners c) →
  ∃ r, gate_service_config (PE := PE) c = Some r
  ∧ match r with
    | Err e => ∃ refusal, e = FrameFailed refusal
    | Ok sc => gate_endpoints (announced (service_node sc)) = enabled_endpoints c
    end
  ∧ enabled_endpoints c ≠ []
  ∧ listeners (network_server c) = listener_of c <$> enabled_endpoints c
  ∧ NoDup (Endpoint_port <$> filter (λ e, Endpoint_transport e ≠ "kcp") (enabled_endpoints c)).
Proof.
  intros (Hnode & _ & ((port & Hport) & Hpos & Hdistinct & Hpath) & _) Htyped.
  unfold gate_service_config. rewrite Hport. simpl. eexists. split; [done|]. split; [|split_and!].
  - unfold node_and_discovery. destruct (node_new _ _ _ _ _) as [node|e] eqn:Hnew; [|by eexists].
    destruct (discovery_new _) as [discovery|e]; [|by eexists]. simpl.
    destruct (announced_new _ _ _ _ _ _ (program (GateConfig.version c)) (conf (GateConfig.version c))
                (gate_metadata (GateConfig.listeners c)) Hnew) as (_ & Hhost & Hmeta).
    destruct (announced _) as [i en he on h meta]. simpl in *. by apply gate_metadata_endpoints.
  - unfold enabled_endpoints, GateListeners.primary_port in *.
    destruct (GateConfig.listeners c) as [tcp kcp ws path []]; simpl in *; subst; [done| |]; destruct tcp; try done; by destruct kcp.
  - apply network_server_listeners.
  - unfold enabled_endpoints. destruct (GateConfig.listeners c) as [[tcp|] [kcp|] [ws|] path primary]; simpl in *;
      repeat (rewrite filter_cons_True by done || rewrite filter_cons_False by naive_solver); rewrite ?filter_nil; simpl;
      repeat constructor; rewrite ?list_elem_of_singleton; try apply not_elem_of_nil; intros ->; by eapply Hdistinct.
Qed.
End gate.

Module gate_example.
Definition libraries : Libraries :=
  {| LogError := unit; LogCloseError := unit; ProtocolError := unit; MongoError := unit; RedisError := unit;
     RedisConfig := unit; MongoConfig := unit; RedisClient := unit; MongoClient := unit |}.

(** A framework that keeps what it is given. *)
Definition xframe : Xframe.
Proof.
  refine {| FrameError := unit; RpcError := unit; HttpError := unit; NodeConfig := ServiceInstance; DiscoveryConfig := string;
            node_new _ _ id h _ := Ok (mkServiceInstance id true true 0 h ∅); with_versions _ _ n := n;
            with_meta_data meta n := mkServiceInstance (instance_id n) (enable n) (healthy n) (online_count n) (host n) meta;
            discovery_new dsn := Ok dsn; announced n := n |}.
  intros cluster ty id h port n program conf meta [= <-]. done.
Defined.

Definition gate : GateConfig.t :=
  assemble (Role := GateConfig.Role) config_example.common config_example.gate (mkServiceVersion 3 7).
End gate_example.
#[local] Existing Instances gate_example.libraries gate_example.xframe config_example.errors.

Lemma gate_announces_listeners_witness :
  enabled_endpoints gate_example.gate
  = [mkEndpoint "tcp" "127.0.0.1" 3201 ""; mkEndpoint "kcp" "127.0.0.1" 3202 ""; mkEndpoint "websocket" "127.0.0.1" 3203 "/ws"]
  ∧ ∃ r, gate_service_config (PE := unit) gate_example.gate = Some r
    ∧ match r with
      | Err e => ∃ refusal, e = FrameFailed refusal
      | Ok sc => gate_endpoints (announced (service_node sc)) = enabled_endpoints gate_example.gate
      end.
Proof.
  split; [reflexivity|].
  destruct (gate_announces_listeners (PE := unit) gate_example.gate) as (r & Hr & Hmatch & _).
  - apply (validate_ok (C := GateConfig.t)). vm_compute. reflexivity.
  - apply (bool_decide_unpack _). vm_compute. exact I.
  - by exists r.
Defined.
