(* ===== verification/Lifecycle.v ===== *)
(** The life of a service between start and shutdown (the [Application] of
    src/service/*/src/service.rs): the background tasks a service spawns, what
    each of them does at a tick, and how [shutdown] ends them.  The service's
    own program and its tasks interleave at the operations they await. *)

From S2P Require Import Prelude Effects Routing Redis OnlineCache.

#[local] Open Scope list_scope.
#[local] Open Scope Z_scope.

Definition SERVICE_LOAD_PUBLISH_INTERVAL : Z := secs 3.
Definition LOGIC_LOAD_REFRESH_INTERVAL : Z := secs 3.
Definition GATE_LOAD_REFRESH_INTERVAL : Z := secs 3.
Definition METRICS_REPORT_INTERVAL : Z := secs 10.
Definition PLAYER_SAVE_INTERVAL : Z := secs (2 * 60).

(** ** Operations *)

(** The background tasks, with what they were spawned with. *)
Inductive Task :=
| PublishOnline (cluster : string) (service_type instance_id interval : Z)
| RefreshOnline (cluster : string) (service_type interval : Z)
| ReportMetrics
| SavePlayers.
#[export] Instance Task_eq_dec : EqDecision Task.
Proof. solve_decision. Defined.

(** The place of a task among the tasks of the process. *)
#[local] Abbreviation JoinHandle := nat.

Inductive AppEff (E : Type) : Type → Type :=
| Watch (service_type : Z) : AppEff E (Result E unit)
| WatchAndConnect (service_type : Z) : AppEff E (Result E unit)
| ServiceInstanceIds (service_type : Z) : AppEff E (Result E (list Z))
| UpdateOnlineCounts (service_type : Z) (counts : list (Z * Z)) : AppEff E (Result E unit)
| OnlineCount : AppEff E Z
| OnRedis {X : Type} (e : RedisEff E X) : AppEff E X
| Report : AppEff E unit
| FlushDirty : AppEff E (Result E Z)
| ShutdownInner : AppEff E (Result E unit)
| Spawn (task : Task) : AppEff E JoinHandle
| AbortAndJoin (task : JoinHandle) : AppEff E unit
| SendStop (task : JoinHandle) : AppEff E unit
| Join (task : JoinHandle) : AppEff E unit.
#[global] Arguments Watch {E}.
#[global] Arguments WatchAndConnect {E}.
#[global] Arguments ServiceInstanceIds {E}.
#[global] Arguments UpdateOnlineCounts {E}.
#[global] Arguments OnlineCount {E}.
#[global] Arguments OnRedis {E X}.
#[global] Arguments Report {E}.
#[global] Arguments FlushDirty {E}.
#[global] Arguments ShutdownInner {E}.
#[global] Arguments Spawn {E}.
#[global] Arguments AbortAndJoin {E}.
#[global] Arguments SendStop {E}.
#[global] Arguments Join {E}.

Section lifecycle.
Context {E : Type}.
(** The error of a reply that holds no number. *)
Variable conversion : E.

Definition redis {A} : prog (RedisEff E) A → prog (AppEff E) A := lift (λ X, @OnRedis E X).

(** ** Ticks *)

Definition refresh_service_online (cluster : string) (service_type : Z) : prog (AppEff E) (option (Result E unit)) :=
  instance_ids ← await (ServiceInstanceIds service_type);
  match instance_ids with
  | Err e => Ret (Some (Err e))
  | Ok instance_ids =>
      counts ← redis (load_service_online_counts conversion cluster service_type instance_ids);
      match counts with
      | None => Ret None
      | Some (Err e) => Ret (Some (Err e))
      | Some (Ok counts) =>
          updated ← await (UpdateOnlineCounts service_type ((λ count, (instance_id count, online_count count)) <$> counts));
          Ret (Some updated)
      end
  end.

(** What a task does at a tick; [None] when it panics, which ends it.  The
    reports of a tick are those of [Metrics]; their result is only logged,
    like every error of a tick. *)
Definition publish_tick (cluster : string) (service_type id interval : Z) : prog (AppEff E) (option unit) :=
  match service_online_ttl interval with
  | None => Ret None
  | Some ttl =>
      online_count ← await OnlineCount;
      published ← redis (publish_service_online cluster service_type id online_count ttl);
      Ret (published ← published; Some tt)
  end.

Definition refresh_tick (cluster : string) (service_type : Z) : prog (AppEff E) (option unit) :=
  refreshed ← refresh_service_online cluster service_type;
  Ret (refreshed ← refreshed; Some tt).

Definition save_tick : prog (AppEff E) (option unit) := _ ← await FlushDirty; Ret (Some tt).

Definition tick (task : Task) : prog (AppEff E) (option unit) :=
  match task with
  | PublishOnline cluster service_type id interval => publish_tick cluster service_type id interval
  | RefreshOnline cluster service_type _ => refresh_tick cluster service_type
  | ReportMetrics => _ ← await Report; Ret (Some tt)
  | SavePlayers => save_tick
  end.

(** [spawn_metrics]: no task for a zero interval. *)
Definition spawn_metrics (interval : Z) : prog (AppEff E) (option JoinHandle) :=
  if interval =? 0 then Ret None
  else task ← await (Spawn ReportMetrics); Ret (Some task).

(** [stop_task]; how the task ended is only logged. *)
Definition stop_task (task : option JoinHandle) : prog (AppEff E) unit :=
  match task with
  | None => Ret tt
  | Some task => await (AbortAndJoin task)
  end.

(** [e.await?; k] *)
Definition and_then {A B} (e : AppEff E (Result E A)) (k : A → prog (AppEff E) (option (Result E unit) * B)) (failed : B)
    : prog (AppEff E) (option (Result E unit) * B) :=
  r ← await e;
  match r with Err e => Ret (Some (Err e), failed) | Ok a => k a end.

(** ** Gate *)

Record GateApplication := mkGateApplication {
  gate_cluster : string;
  gate_instance_id : Z;
  gate_publish_interval : Z;
  gate_refresh_interval : Z;
  gate_metrics_interval : Z;
  gate_publish_task : option JoinHandle;
  gate_refresh_task : option JoinHandle;
  gate_metrics_task : option JoinHandle
}.

(** [GateApplication::new] *)
Definition gate_new (cluster : string) (instance_id publish_interval refresh_interval metrics_interval : Z) : GateApplication :=
  mkGateApplication cluster instance_id publish_interval refresh_interval metrics_interval None None None.

(** The application that [run] starts. *)
Definition gate_application (cluster : string) (instance_id : Z) : GateApplication :=
  gate_new cluster instance_id SERVICE_LOAD_PUBLISH_INTERVAL LOGIC_LOAD_REFRESH_INTERVAL METRICS_REPORT_INTERVAL.

(** The first count; [None] when it panics. *)
Definition publish_first (cluster : string) (service_type id interval : Z) : prog (AppEff E) (option (Result E unit)) :=
  online_count ← await OnlineCount;
  match service_online_ttl interval with
  | None => Ret None
  | Some ttl => redis (publish_service_online cluster service_type id online_count ttl)
  end.

Definition gate_start (self : GateApplication) : prog (AppEff E) (option (Result E unit) * GateApplication) :=
  and_then (WatchAndConnect service_type.LOGIC) (λ _,
  and_then (WatchAndConnect service_type.PUBLIC) (λ _,
    published ← publish_first (gate_cluster self) service_type.GATE (gate_instance_id self) (gate_publish_interval self);
    match published with
    | None => Ret (None, self)
    | Some (Err e) => Ret (Some (Err e), self)
    | Some (Ok _) =>
        refreshed ← refresh_service_online (gate_cluster self) service_type.LOGIC;
        match refreshed with
        | None => Ret (None, self)
        | Some (Err e) => Ret (Some (Err e), self)
        | Some (Ok _) =>
            publish ← await (Spawn (PublishOnline (gate_cluster self) service_type.GATE (gate_instance_id self) (gate_publish_interval self)));
            refresh ← await (Spawn (RefreshOnline (gate_cluster self) service_type.LOGIC (gate_refresh_interval self)));
            metrics ← spawn_metrics (gate_metrics_interval self);
            Ret (Some (Ok tt),
                 mkGateApplication (gate_cluster self) (gate_instance_id self) (gate_publish_interval self) (gate_refresh_interval self)
                   (gate_metrics_interval self) (Some publish) (Some refresh) metrics)
        end
    end) self) self.

(** A panic of the key or of the command is [None]. *)
Definition gate_shutdown (self : GateApplication) : prog (AppEff E) (option (Result E unit)) :=
  _ ← stop_task (gate_publish_task self);
  _ ← stop_task (gate_refresh_task self);
  _ ← stop_task (gate_metrics_task self);
  deleted ← redis (delete_service_online (gate_cluster self) service_type.GATE (gate_instance_id self));
  match deleted with
  | None => Ret None
  | Some _ => _ ← await ShutdownInner; Ret (Some (Ok tt))
  end.

(** ** Logic *)

Record LogicApplication := mkLogicApplication {
  logic_cluster : string;
  logic_instance_id : Z;
  logic_publish_interval : Z;
  logic_metrics_interval : Z;
  logic_publish_task : option JoinHandle;
  logic_metrics_task : option JoinHandle
}.

(** The application that [run] starts. *)
Definition logic_application (cluster : string) (instance_id : Z) : LogicApplication :=
  mkLogicApplication cluster instance_id SERVICE_LOAD_PUBLISH_INTERVAL METRICS_REPORT_INTERVAL None None.

Definition logic_start (self : LogicApplication) : prog (AppEff E) (option (Result E unit) * LogicApplication) :=
  and_then (Watch service_type.GATE) (λ _,
  and_then (WatchAndConnect service_type.PUBLIC) (λ _,
    published ← publish_first (logic_cluster self) service_type.LOGIC (logic_instance_id self) (logic_publish_interval self);
    match published with
    | None => Ret (None, self)
    | Some (Err e) => Ret (Some (Err e), self)
    | Some (Ok _) =>
        publish ← await (Spawn (PublishOnline (logic_cluster self) service_type.LOGIC (logic_instance_id self) (logic_publish_interval self)));
        metrics ← spawn_metrics (logic_metrics_interval self);
        Ret (Some (Ok tt),
             mkLogicApplication (logic_cluster self) (logic_instance_id self) (logic_publish_interval self) (logic_metrics_interval self)
               (Some publish) metrics)
    end) self) self.

Definition logic_shutdown (self : LogicApplication) : prog (AppEff E) (option (Result E unit)) :=
  _ ← stop_task (logic_publish_task self);
  deleted ← redis (delete_service_online (logic_cluster self) service_type.LOGIC (logic_instance_id self));
  match deleted with
  | None => Ret None
  | Some _ =>
      _ ← stop_task (logic_metrics_task self);
      drained ← await ShutdownInner;
      Ret (Some drained)
  end.

(** ** Auth *)

Record AuthApplication := mkAuthApplication {
  auth_cluster : string;
  auth_refresh_interval : Z;
  auth_metrics_interval : Z;
  auth_refresh_task : option JoinHandle;
  auth_metrics_task : option JoinHandle
}.

Definition auth_new (cluster : string) (refresh_interval metrics_interval : Z) : AuthApplication :=
  mkAuthApplication cluster refresh_interval metrics_interval None None.

Definition auth_application (cluster : string) : AuthApplication :=
  auth_new cluster GATE_LOAD_REFRESH_INTERVAL METRICS_REPORT_INTERVAL.

Definition auth_start (self : AuthApplication) : prog (AppEff E) (option (Result E unit) * AuthApplication) :=
  and_then (Watch service_type.GATE) (λ _,
    refreshed ← refresh_service_online (auth_cluster self) service_type.GATE;
    match refreshed with
    | None => Ret (None, self)
    | Some (Err e) => Ret (Some (Err e), self)
    | Some (Ok _) =>
        refresh ← await (Spawn (RefreshOnline (auth_cluster self) service_type.GATE (auth_refresh_interval self)));
        metrics ← spawn_metrics (auth_metrics_interval self);
        Ret (Some (Ok tt), mkAuthApplication (auth_cluster self) (auth_refresh_interval self) (auth_metrics_interval self) (Some refresh) metrics)
    end) self.

Definition auth_shutdown (self : AuthApplication) : prog (AppEff E) (option (Result E unit)) :=
  _ ← stop_task (auth_refresh_task self);
  _ ← stop_task (auth_metrics_task self);
  Ret (Some (Ok tt)).

(** ** Public *)

Record PublicApplication := mkPublicApplication {
  public_metrics_interval : Z;
  public_save_task : option JoinHandle;
  public_metrics_task : option JoinHandle
}.

Definition public_new (metrics_interval : Z) : PublicApplication := mkPublicApplication metrics_interval None None.

Definition public_start (self : PublicApplication) : prog (AppEff E) (option (Result E unit) * PublicApplication) :=
  and_then (Watch service_type.GATE) (λ _,
  and_then (Watch service_type.LOGIC) (λ _,
    save ← await (Spawn SavePlayers);
    metrics ← spawn_metrics (public_metrics_interval self);
    Ret (Some (Ok tt), mkPublicApplication (public_metrics_interval self) (Some save) metrics)) self) self.

Definition public_shutdown (self : PublicApplication) : prog (AppEff E) (option (Result E unit)) :=
  _ ← match public_save_task self with
      | None => Ret tt
      | Some task => _ ← await (SendStop task); await (Join task)
      end;
  _ ← await FlushDirty;
  _ ← stop_task (public_metrics_task self);
  Ret (Some (Ok tt)).

(** ** Query *)

Record QueryApplication := mkQueryApplication { query_metrics_interval : Z; query_metrics_task : option JoinHandle }.

Definition query_new (metrics_interval : Z) : QueryApplication := mkQueryApplication metrics_interval None.

Definition query_start (self : QueryApplication) : prog (AppEff E) (option (Result E unit) * QueryApplication) :=
  metrics ← spawn_metrics (query_metrics_interval self);
  Ret (Some (Ok tt), mkQueryApplication (query_metrics_interval self) metrics).

Definition query_shutdown (self : QueryApplication) : prog (AppEff E) (option (Result E unit)) :=
  _ ← stop_task (query_metrics_task self);
  Ret (Some (Ok tt)).

(** The framework starts the application, and shuts it down after the signal
    when it was started. *)
Definition life {A} (start : A → prog (AppEff E) (option (Result E unit) * A)) (shutdown : A → prog (AppEff E) (option (Result E unit)))
    (self : A) : prog (AppEff E) (option (Result E unit)) :=
  '(started, self) ← start self;
  match started with Some (Ok _) => shutdown self | _ => Ret started end.

(** ** The process while it runs *)

(** How the framework and the service answer, by the number of operations
    there were before.  A request to Redis is one step: one that an aborted
    task has already sent is executed before the requests that are sent
    after it on the same connection. *)
Record AppEnv := mkAppEnv {
  watch_answer : nat → Result E unit;
  instances_answer : nat → Result E (list Z);
  update_answer : nat → Result E unit;
  online_answer : nat → Z;
  flush_answer : nat → Result E Z;
  inner_answer : nat → Result E unit;
  network : nat → Network E
}.

(** A task between its ticks, or the rest of its tick; [None] once it ended. *)
Inductive TaskState := Waiting | Ticking (rest : prog (AppEff E) (option unit)).

Context {SR : Type} `{!Redis SR}.
Variables (env : AppEnv) (script_error : E).

Record AppWorld := mkAppWorld {
  operations : nat;
  tasks : list (option (Task * TaskState));
  stopping : list JoinHandle;
  redis_store : SR;
  flushes : nat
}.

Definition eta_AppWorld (w : AppWorld) : AppWorld :=
  mkAppWorld (operations w) (tasks w) (stopping w) (redis_store w) (flushes w).
Definition on_operations : (nat → nat) → AppWorld → AppWorld := ltac:(derive_update eta_AppWorld operations).
Definition on_tasks : (list (option (Task * TaskState)) → list (option (Task * TaskState))) → AppWorld → AppWorld :=
  ltac:(derive_update eta_AppWorld tasks).
Definition on_stopping : (list JoinHandle → list JoinHandle) → AppWorld → AppWorld := ltac:(derive_update eta_AppWorld stopping).
Definition on_redis_store : (SR → SR) → AppWorld → AppWorld := ltac:(derive_update eta_AppWorld redis_store).
Definition on_flushes : (nat → nat) → AppWorld → AppWorld := ltac:(derive_update eta_AppWorld flushes).

Definition running (task : JoinHandle) (w : AppWorld) : bool :=
  match tasks w !! task with Some (Some _) => true | _ => false end.

Definition answer_app (n : nat) (X : Type) (e : AppEff E X) : AppWorld → X * AppWorld :=
  match e in AppEff _ X return AppWorld → X * AppWorld with
  | Watch _ | WatchAndConnect _ => λ w, (watch_answer env n, w)
  | ServiceInstanceIds _ => λ w, (instances_answer env n, w)
  | UpdateOnlineCounts _ _ => λ w, (update_answer env n, w)
  | OnlineCount => λ w, (online_answer env n, w)
  | OnRedis e => λ w,
      let '(x, s) := handle_redis script_error (network env n) _ e (redis_store w) in (x, on_redis_store (λ _, s) w)
  | Report => λ w, (tt, w)
  | FlushDirty => λ w, (flush_answer env n, on_flushes S w)
  | ShutdownInner => λ w, (inner_answer env n, w)
  | Spawn task => λ w, (length (tasks w), on_tasks (λ l, l ++ [Some (task, Waiting)]) w)
  | AbortAndJoin task => λ w, (tt, on_tasks (λ l, <[task := None]> l) w)
  | SendStop task => λ w, (tt, on_stopping (cons task) w)
  | Join _ => λ w, (tt, w)
  end.

Definition handle_app (X : Type) (e : AppEff E X) (w : AppWorld) : X * AppWorld :=
  answer_app (operations w) X e (on_operations S w).

(** A join waits until the task has ended. *)
Definition blocked (X : Type) (e : AppEff E X) (w : AppWorld) : bool :=
  match e with Join task => running task w | _ => false end.

(** The stop signal is seen between the ticks of the task that saves. *)
Definition stops (i : JoinHandle) (task : Task) (w : AppWorld) : bool :=
  bool_decide (task = SavePlayers) && bool_decide (i ∈ stopping w).

Definition advance_task (i : JoinHandle) (w : AppWorld) : AppWorld :=
  match tasks w !! i with
  | Some (Some (task, Waiting)) =>
      on_tasks (λ l, <[i := if stops i task w then None else Some (task, Ticking (tick task))]> l) w
  | Some (Some (task, Ticking (Ret r))) =>
      on_tasks (λ l, <[i := match r with Some _ => Some (task, Waiting) | None => None end]> l) w
  | Some (Some (task, Ticking (Act e k))) =>
      if blocked _ e w then w
      else let '(x, w) := handle_app _ e w in on_tasks (λ l, <[i := Some (task, Ticking (k x))]> l) w
  | _ => w
  end.

Inductive Turn := Main | Background (i : JoinHandle).

Definition take_turn {A} (turn : Turn) (s : prog (AppEff E) A * AppWorld) : prog (AppEff E) A * AppWorld :=
  match turn with
  | Background i => (s.1, advance_task i s.2)
  | Main =>
      match s.1 with
      | Ret a => s
      | Act e k => if blocked _ e s.2 then s else let '(x, w) := handle_app _ e s.2 in (k x, w)
      end
  end.

Definition take_turns {A} (turns : list Turn) (s : prog (AppEff E) A * AppWorld) : prog (AppEff E) A * AppWorld :=
  foldl (λ s turn, take_turn turn s) s turns.
End lifecycle.
