(* ===== verification/LifecycleSpec.v ===== *)
(** What the life of a service promises: after its shutdown none of its tasks
    runs any more, and a stopped instance is not counted. *)

From stdpp Require Import pretty.
From S2P Require Import Prelude Effects Routing Redis OnlineCache OnlineSpec Lifecycle.

#[local] Open Scope string_scope.
#[local] Open Scope list_scope.
#[local] Open Scope Z_scope.

Section spec.
Context {E SR : Type} `{!Redis SR} (conversion script_error : E) (env : AppEnv (E := E)).
#[local] Abbreviation Prog := (prog (AppEff E)).
#[local] Abbreviation World := (AppWorld (E := E) (SR := SR)).
#[local] Abbreviation handle := (handle_app env script_error).
#[local] Abbreviation advance_task := (advance_task conversion env script_error).
#[local] Abbreviation take_turns := (take_turns conversion env script_error).
#[local] Abbreviation tick := (tick conversion).

(** ** Proof outlines

    An outline of a program gives an assertion for each of its points, stable
    under the background tasks; it holds of the world whenever the program is
    there, whatever turns were taken. *)
Definition stable (P : World → Prop) : Prop := ∀ i w, P w → P (advance_task i w).

Inductive outline {A} (Post : A → World → Prop) : (World → Prop) → Prog A → Prop :=
| outline_ret (P : World → Prop) a : stable P → (∀ w, P w → Post a w) → outline Post P (Ret a)
| outline_act (P : World → Prop) X (e : AppEff E X) k (Q : X → World → Prop) : stable P →
    (∀ w, P w → blocked _ e w = false → Q (handle _ e w).1 (handle _ e w).2) →
    (∀ x, outline Post (Q x) (k x)) → outline Post P (Act e k).

Lemma outline_turns {A} (Post : A → World → Prop) turns P (p : Prog A) w : outline Post P p → P w →
  ∃ P', outline Post P' (take_turns turns (p, w)).1 ∧ P' (take_turns turns (p, w)).2.
Proof.
  revert P p w. induction turns as [|turn turns IH]; intros P p w Ho Hw; [by exists P|].
  simpl. destruct turn as [|i].
  - destruct Ho as [P a Hs Hpost|P X e k Q Hs Hstep Hk]; simpl.
    + apply (IH P); [by constructor|done].
    + destruct (blocked X e w) eqn:Hb; [apply (IH P); [by econstructor|done]|].
      specialize (Hstep w Hw Hb). destruct (handle X e w) as [x w']. by apply (IH (Q x)).
  - apply (IH P); [done|]. destruct Ho; auto.
Qed.

Lemma outline_done {A} (Post : A → World → Prop) turns P (p : Prog A) w a w' : outline Post P p → P w →
  take_turns turns (p, w) = (Ret a, w') → Post a w'.
Proof.
  intros Ho Hw Hrun. destruct (outline_turns Post turns P p w Ho Hw) as (P' & Ho' & HP'). rewrite Hrun in *. simpl in *.
  inversion Ho'; subst. auto.
Qed.

(** An outline for every world there is an outline for. *)
Definition outlined {A} (Post : A → World → Prop) (p : Prog A) (w : World) : Prop := ∃ P, outline Post P p ∧ P w.

Lemma outline_inv {A} (Post : A → World → Prop) P p : outline Post P p →
  stable P ∧ match p with
             | Ret a => ∀ w, P w → Post a w
             | Act e k => ∀ w, P w → blocked _ e w = false → outlined Post (k (handle _ e w).1) (handle _ e w).2
             end.
Proof. intros []; split; try done. intros w Hw Hb. eexists. split; [eauto|]. by eauto. Qed.

Lemma outline_some {A} (Post : A → World → Prop) p : outline Post (outlined Post p) p.
Proof.
  assert (∀ p, stable (outlined Post p)) as Hstable.
  { intros q i w (P & Ho & Hw). exists P. split; [done|]. destruct (outline_inv _ _ _ Ho) as [Hs _]. by apply Hs. }
  induction p as [a|X e k IH].
  - apply outline_ret; [done|]. intros w (P & Ho & Hw). destruct (outline_inv _ _ _ Ho) as [_ Hpost]. auto.
  - apply (outline_act _ _ _ _ _ (λ x, outlined Post (k x))); [done| |done].
    intros w (P & Ho & Hw). destruct (outline_inv _ _ _ Ho) as [_ Hstep]. auto.
Qed.

Lemma outline_weaken {A} (Post : A → World → Prop) P P' p : outline Post P p → stable P' → (∀ w, P' w → P w) → outline Post P' p.
Proof. intros Ho Hs Hw. destruct Ho as [P a HP Hpost|P X e k Q HP Hstep Hk]; [constructor; auto|apply (outline_act _ _ _ _ _ Q); auto]. Qed.

Lemma outline_bind {A B} (Mid : A → World → Prop) (Post : B → World → Prop) P (p : Prog A) (f : A → Prog B) :
  outline Mid P p → (∀ a w, Mid a w → outlined Post (f a) w) → outline Post P (p ≫= f).
Proof.
  intros Ho Hf. induction Ho as [P a Hs Hpost|P X e k Q Hs Hstep Hk IH].
  - apply (outline_weaken _ (outlined Post (f a))); [apply outline_some|done|]. intros w Hw. by apply Hf, Hpost.
  - change (Act e k ≫= f) with (Act e (λ x, k x ≫= f)). by econstructor.
Qed.

(** ** What tasks do *)

Variables (key field : string).
Definition no_count (w : World) : Prop := hash key (redis_store w) !! field = None.

(** Operations of tasks: they do not manage tasks. *)
Definition local (X : Type) (e : AppEff E X) : Prop :=
  match e with Spawn _ | AbortAndJoin _ | SendStop _ | Join _ => False | _ => True end.

(** Operations that leave the count alone. *)
Definition harmless (X : Type) (e : AppEff E X) : Prop :=
  match e with
  | OnRedis e => ∀ net s, hash key s !! field = None → hash key (handle_redis script_error net _ e s).2 !! field = None
  | _ => True
  end.

Definition is_publisher (task : Task) : Prop := match task with PublishOnline _ _ _ _ => True | _ => False end.

Definition behaves (task : Task) (p : Prog (option unit)) : Prop :=
  all_acts local p ∧ (¬ is_publisher task → all_acts harmless p).

Definition entry_fits (known : option Task) (entry : option (Task * TaskState (E := E))) : Prop :=
  match entry with
  | None => True
  | Some (task, state) => known = Some task ∧ match state with Waiting => True | Ticking p => behaves task p end
  end.

(** The tasks of the process are known, those marked [None] have ended; once
    the count was deleted ([deleted]) it stays so, and no publisher is left. *)
Definition holds (known : list (option Task)) (deleted : bool) (w : World) : Prop :=
  Forall2 entry_fits known (tasks w) ∧ (deleted = true → no_count w).
Definition no_publisher (known : list (option Task)) : Prop := Forall (λ o, from_option (λ task, ¬ is_publisher task) True o) known.
Definition fine (known : list (option Task)) (deleted : bool) : Prop := deleted = true → no_publisher known.

Lemma lift_acts {A} (P : ∀ X, AppEff E X → Prop) (p : prog (RedisEff E) A) :
  all_acts (λ X e, P X (OnRedis e)) p → all_acts P (redis p).
Proof. intros Hp. induction Hp as [a|X e k He Hk IH]; [constructor|by constructor]. Qed.

Lemma redis_local {A} (p : prog (RedisEff E) A) : all_acts local (redis p).
Proof. apply lift_acts. induction p; by constructor. Qed.

(** Reading the counts changes nothing. *)
Lemma load_counts_harmless cluster ty ids : all_acts harmless (redis (load_service_online_counts conversion cluster ty ids)).
Proof.
  apply lift_acts. unfold load_service_online_counts. destruct ids as [|id ids]; [constructor|].
  destruct (service_online_key _ _) as [k|]; [|constructor]. constructor; [|intros x; constructor].
  intros net s Hs. unfold handle_redis. destruct net; [|done|].
  - simpl. rewrite call_HMGET. done.
  - simpl. by rewrite call_HMGET.
Qed.

Lemma refresh_acts (P : ∀ X, AppEff E X → Prop) cluster ty : P _ (ServiceInstanceIds ty) → (∀ counts, P _ (UpdateOnlineCounts ty counts)) →
  (∀ ids, all_acts P (redis (load_service_online_counts conversion cluster ty ids))) →
  all_acts P (refresh_service_online conversion cluster ty).
Proof.
  intros Hids Hupdate Hload. unfold refresh_service_online. apply all_acts_bind; [by apply all_acts_await|].
  intros [ids|e]; [|constructor]. apply all_acts_bind; [apply Hload|]. intros [[counts|e]|]; [|constructor..].
  apply all_acts_bind; [by apply all_acts_await|]. intros r. constructor.
Qed.

Lemma refresh_local cluster ty : all_acts local (refresh_service_online conversion cluster ty).
Proof. apply refresh_acts; [done..|]. intros ids. apply redis_local. Qed.

Lemma tick_behaves task : behaves task (tick task).
Proof.
  split.
  - destruct task; cbn [Lifecycle.tick]; unfold publish_tick, refresh_tick, save_tick.
    + destruct (service_online_ttl _); [|constructor]. apply all_acts_bind; [by apply all_acts_await|]. intros n.
      apply all_acts_bind; [apply redis_local|]. intros r. constructor.
    + apply all_acts_bind; [apply refresh_local|]. intros r. constructor.
    + apply all_acts_bind; [by apply all_acts_await|]. intros r. constructor.
    + apply all_acts_bind; [by apply all_acts_await|]. intros r. constructor.
  - intros Hquiet. destruct task; cbn [Lifecycle.tick]; unfold publish_tick, refresh_tick, save_tick.
    + by destruct Hquiet.
    + apply all_acts_bind; [|intros r; constructor]. apply refresh_acts; [done..|]. intros ids. apply load_counts_harmless.
    + apply all_acts_bind; [by apply all_acts_await|]. intros r. constructor.
    + apply all_acts_bind; [by apply all_acts_await|]. intros r. constructor.
Qed.

Lemma local_tasks X (e : AppEff E X) w : local X e → tasks (handle X e w).2 = tasks w.
Proof. destruct w. destruct e; try done. intros _. unfold handle_app. simpl. by destruct (handle_redis _ _ _ _ _). Qed.

Lemma harmless_count X (e : AppEff E X) w : harmless X e → no_count w → no_count (handle X e w).2.
Proof.
  destruct w as [n ts stop s f]. unfold no_count. destruct e; simpl; try done. intros He Hs. unfold handle_app. simpl.
  specialize (He (network env n) s Hs). by destruct (handle_redis _ _ _ _ _).
Qed.

Lemma holds_insert known deleted w i entry : holds known deleted w → (∀ o, known !! i = Some o → entry_fits o entry) →
  holds known deleted (on_tasks (λ l, <[i := entry]> l) w).
Proof.
  intros [Hall Hdel] Hfit. split; [|by destruct w]. destruct w as [n ts stop s f]. simpl in *.
  clear Hdel. revert i Hfit. induction Hall as [|o e' known ts Ho Hall IH]; intros [|i] Hfit; constructor; auto.
Qed.

Lemma fits_ended known ts h : Forall2 entry_fits known ts → Forall2 entry_fits (<[h := None]> known) (<[h := None]> ts).
Proof. intros Hall. revert h. induction Hall; intros [|h]; constructor; auto. done. Qed.

Lemma fits_spawned known ts task : Forall2 entry_fits known ts → Forall2 entry_fits (known ++ [Some task]) (ts ++ [Some (task, Waiting)]).
Proof. intros Hall. induction Hall; repeat constructor; auto. Qed.

Lemma holds_lookup known deleted w i task state : holds known deleted w → tasks w !! i = Some (Some (task, state)) →
  known !! i = Some (Some task) ∧ match state with Waiting => True | Ticking p => behaves task p end.
Proof.
  intros [Hall _]. revert i. induction Hall as [|o e' known' ts Ho Hall IH]; intros [|i] Hi; simplify_eq/=; [|by apply IH].
  destruct Ho as [-> Hst]. done.
Qed.

Lemma stable_holds known deleted : fine known deleted → stable (holds known deleted).
Proof.
  intros Hfine i w Hw. unfold Lifecycle.advance_task. destruct (tasks w !! i) as [[[task state]|]|] eqn:Hi; [|done..].
  destruct (holds_lookup _ _ _ _ _ _ Hw Hi) as [Hknown Hst]. destruct state as [|[r|X e k]].
  - apply holds_insert; [done|]. intros o Ho. assert (o = Some task) as -> by congruence. destruct (stops _ _ _); simpl; [done|].
    split; [done|]. apply tick_behaves.
  - apply holds_insert; [done|]. intros o Ho. assert (o = Some task) as -> by congruence. by destruct r.
  - destruct (blocked X e w); [done|]. destruct Hst as [Hlocal Hquiet].
    apply all_acts_inv in Hlocal as [He Hk].
    pose proof (local_tasks X e w He) as Htasks.
    assert (holds known deleted (handle X e w).2) as Hnext.
    { destruct Hw as [Hall Hdel]. split; [by rewrite Htasks|]. intros ->. apply harmless_count; [|by apply Hdel].
      assert (¬ is_publisher task) as Hq.
      { specialize (Hfine eq_refl). unfold no_publisher in Hfine. rewrite Forall_lookup in Hfine. exact (Hfine _ _ Hknown). }
      by apply all_acts_inv in Hquiet as [? _]. }
    destruct (handle X e w) as [x w']. apply holds_insert; [done|]. intros o Ho. assert (o = Some task) as -> by congruence.
    simpl. split; [done|]. split; [done|]. intros Hq. by apply Hquiet, all_acts_inv in Hq as [_ ?].
Qed.

(** ** Outlines of programs *)

Section rules.
Context {A : Type} (Post : A → World → Prop).

Lemma o_ret known deleted a : fine known deleted → (∀ w, holds known deleted w → Post a w) → outline Post (holds known deleted) (Ret a).
Proof. intros Hf Hp. constructor; [by apply stable_holds|done]. Qed.

Lemma o_local known deleted X (e : AppEff E X) k : fine known deleted → local X e → (deleted = true → harmless X e) →
  (∀ x, outline Post (holds known deleted) (k x)) → outline Post (holds known deleted) (Act e k).
Proof.
  intros Hf He Hh Hk. apply (outline_act _ _ _ _ _ (λ _, holds known deleted)); [by apply stable_holds| |done].
  intros w [Hall Hdel] _. split; [by rewrite local_tasks|]. intros Hd. apply harmless_count; auto.
Qed.

Lemma o_acts {B} known deleted (p : Prog B) f : fine known deleted → all_acts local p → (deleted = true → all_acts harmless p) →
  (∀ b, outline Post (holds known deleted) (f b)) → outline Post (holds known deleted) (p ≫= f).
Proof.
  intros Hf Hl Hh Hk. induction p as [b|X e k IH]; [apply Hk|]. change (Act e k ≫= f) with (Act e (λ x, k x ≫= f)).
  apply all_acts_inv in Hl as [He Hl]. apply o_local; [done..| |].
  - by intros Hd%Hh%all_acts_inv%proj1.
  - intros x. apply IH; [apply Hl|]. by intros Hd%Hh%all_acts_inv%proj2.
Qed.

Lemma o_spawn known task k : outline Post (holds (known ++ [Some task]) false) (k (length known)) →
  outline Post (holds known false) (Act (Spawn task) k).
Proof.
  intros Hk. apply (outline_act _ _ _ _ _ (λ h w, h = length known ∧ holds (known ++ [Some task]) false w)).
  - by apply stable_holds.
  - intros w [Hall _] _. destruct w as [n ts stop s fl]. simpl in *. split.
    + clear -Hall. induction Hall; simpl; congruence.
    + split; [|done]. by apply fits_spawned.
  - intros h. apply (outline_weaken _ (outlined Post (k h))); [apply outline_some| |].
    + intros i w [Hh Hw]. split; [done|]. by apply stable_holds.
    + intros w [-> Hw]. by eexists.
Qed.

Lemma fine_insert known deleted h : fine known deleted → fine (<[h := None]> known) deleted.
Proof. intros Hf Hd. apply Forall_insert; [by apply Hf|done]. Qed.

Lemma o_abort known deleted h k : fine known deleted →
  outline Post (holds (<[h := None]> known) deleted) (k tt) → outline Post (holds known deleted) (Act (AbortAndJoin h) k).
Proof.
  intros Hf Hk. apply (outline_act _ _ _ _ _ (λ _, holds (<[h := None]> known) deleted)); [by apply stable_holds| |by intros []].
  intros w [Hall Hdel] _. destruct w as [n ts stop s fl]. split; [|done]. unfold handle_app. simpl. by apply fits_ended.
Qed.

Lemma o_send known deleted h k : fine known deleted →
  outline Post (holds known deleted) (k tt) → outline Post (holds known deleted) (Act (SendStop h) k).
Proof.
  intros Hf Hk. apply (outline_act _ _ _ _ _ (λ _, holds known deleted)); [by apply stable_holds| |by intros []].
  intros w [Hall Hdel] _. by destruct w.
Qed.

Lemma o_join known deleted h k : fine known deleted →
  outline Post (holds (<[h := None]> known) deleted) (k tt) → outline Post (holds known deleted) (Act (Join h) k).
Proof.
  intros Hf Hk. apply (outline_act _ _ _ _ _ (λ _, holds (<[h := None]> known) deleted)); [by apply stable_holds| |by intros []].
  intros w [Hall Hdel] Hb. destruct w as [n ts stop s fl]. split; [|done]. unfold handle_app. simpl in *. unfold running in Hb. simpl in Hb.
  clear Hdel Hf Hk. revert h Hb. induction Hall as [|o entry known ts Ho Hall IH]; intros [|h] Hb; simpl; constructor; auto.
  by destruct entry.
Qed.

Lemma o_delete known deleted k : no_publisher known → (∀ n e, network env n ≠ Down e) →
  (∀ x, outline Post (holds known true) (k x)) →
  outline Post (holds known deleted) (Act (OnRedis (Atomically (x ← await (HDEL key field); Ret (Some x)))) k).
Proof.
  intros Hquiet Hup Hk. apply (outline_act _ _ _ _ _ (λ _, holds known true)); [by apply stable_holds; intros _| |done].
  intros w [Hall _] _. destruct w as [n ts stop s fl]. simpl in *. unfold handle_app. simpl. specialize (Hup n).
  assert (∀ o, hash key (call _ (HDEL key field) s).2 !! field = o → o = None) as Hdel.
  { intros o <-. rewrite hash_HDEL, decide_True by done. apply lookup_delete_eq. }
  destruct (network env n) as [|error|error]; [|by destruct (Hup error)|].
  - destruct (call _ (HDEL key field) s) as [[] s'] eqn:Hcall. simpl in *. split; [done|]. intros _. by apply Hdel.
  - destruct (call _ (HDEL key field) s) as [[] s'] eqn:Hcall. simpl in *. split; [done|]. intros _. by apply Hdel.
Qed.
End rules.

(** ** The services *)

Definition idle (w : World) : Prop := ∀ i entry, tasks w !! i ≠ Some (Some entry).

Lemma holds_idle known deleted w : holds known deleted w → Forall (λ o, o = None) known → idle w.
Proof.
  intros Hw Hall i [task state] Hi. destruct (holds_lookup _ _ _ _ _ _ Hw Hi) as [Hknown _].
  rewrite Forall_lookup in Hall. by specialize (Hall _ _ Hknown).
Qed.
End spec.

Section services.
Context {E SR : Type} `{!Redis SR} (conversion script_error : E) (env : AppEnv (E := E)).
#[local] Abbreviation Prog := (prog (AppEff E)).
#[local] Abbreviation World := (AppWorld (E := E) (SR := SR)).
#[local] Abbreviation outline := (outline conversion script_error env).
#[local] Abbreviation holds := (holds (SR := SR) script_error).
#[local] Abbreviation take_turns := (take_turns conversion env script_error).
#[local] Abbreviation no_count := (no_count (E := E) (SR := SR)).

(** The end of a life: no task runs, and after a good shutdown the instance is
    not counted. *)
Definition ended (key field : string) (r : option (Result E unit)) (w : World) : Prop :=
  idle w ∧ (r = Some (Ok tt) → no_count key field w).
Definition quiet (r : option (Result E unit)) (w : World) : Prop := idle w.

Ltac never_deleted := by intros ?.
Ltac calm := try intros _; repeat (apply Forall_cons; split; [by simpl; auto|]); by apply Forall_nil.
Ltac ends := apply o_ret; [never_deleted|].

Lemma publish_first_local cluster ty id interval : all_acts (@local E) (publish_first cluster ty id interval).
Proof.
  unfold publish_first. apply all_acts_bind; [by apply all_acts_await|]. intros n. destruct (service_online_ttl interval); [|constructor].
  apply redis_local.
Qed.

(** How far a start came: the tasks it spawned. *)
Definition started {A} (key field : string) (known : list (option Task)) (app : A) (r : option (Result E unit) * A) (w : World) : Prop :=
  match r.1 with
  | Some (Ok _) => r.2 = app ∧ holds key field known false w
  | _ => holds key field [] false w
  end.

Lemma gate_start_outline key field cluster id :
  let app := gate_application cluster id in
  outline (started key field [Some (PublishOnline cluster service_type.GATE id SERVICE_LOAD_PUBLISH_INTERVAL);
                              Some (RefreshOnline cluster service_type.LOGIC LOGIC_LOAD_REFRESH_INTERVAL); Some ReportMetrics]
             (mkGateApplication cluster id SERVICE_LOAD_PUBLISH_INTERVAL LOGIC_LOAD_REFRESH_INTERVAL METRICS_REPORT_INTERVAL (Some 0%nat) (Some 1%nat) (Some 2%nat)))
    (holds key field [] false) (gate_start conversion app).
Proof.
  intros app. unfold gate_start, and_then.
  apply o_acts; [never_deleted|by apply all_acts_await|done|]. intros [[]|e]; [|by ends].
  apply o_acts; [never_deleted|by apply all_acts_await|done|]. intros [[]|e]; [|by ends].
  apply o_acts; [never_deleted|apply publish_first_local|done|]. intros [[[]|e]|]; [|by ends..].
  apply o_acts; [never_deleted|apply refresh_local|done|]. intros [[[]|e]|]; [|by ends..].
  apply o_spawn. apply o_spawn. apply o_spawn. by ends.
Qed.

(** A life, from the outlines of its parts. *)
Lemma life_outline {A} key field known (app app' : A) start shutdown (Post : option (Result E unit) → World → Prop) :
  outline (started key field known app') (holds key field [] false) (start app) →
  outline Post (holds key field known false) (shutdown app') →
  (∀ r w, r ≠ Some (Ok tt) → idle w → Post r w) →
  outline Post (holds key field [] false) (life start shutdown app).
Proof.
  intros Hstart Hshutdown Hfail. unfold life. eapply outline_bind; [exact Hstart|].
  assert (∀ r w, r ≠ Some (Ok tt) → holds key field [] false w → outlined conversion script_error env Post (Ret r) w) as Hret.
  { intros r w Hr Hw. exists (holds key field [] false). split; [|done]. apply o_ret; [never_deleted|]. intros w' Hw'.
    apply Hfail; [done|]. by apply (holds_idle _ _ _ _ _ _ Hw'). }
  intros [[[[]|e]|] self] w Hw; simpl in *.
  - destruct Hw as [Happ Hw]. simpl in Happ. subst self. by eexists.
  - by apply Hret.
  - by apply Hret.
Qed.

Lemma delete_some cluster ty id key : 0 < id → service_online_key cluster ty = Some key →
  delete_service_online (E := E) cluster ty id = (reply ← command (HDEL key (pretty id)); Ret (Some reply)).
Proof. intros Hid Hkey. unfold delete_service_online. rewrite Hkey. by destruct (Z.ltb_spec 0 id); [|lia]. Qed.

Definition no_loss : Prop := ∀ n e, network env n ≠ Down e.

Lemma gate_shutdown_outline key cluster id : 0 < id → service_online_key cluster service_type.GATE = Some key → no_loss →
  outline (ended key (pretty id))
    (holds key (pretty id) [Some (PublishOnline cluster service_type.GATE id SERVICE_LOAD_PUBLISH_INTERVAL);
                            Some (RefreshOnline cluster service_type.LOGIC LOGIC_LOAD_REFRESH_INTERVAL); Some ReportMetrics] false)
    (gate_shutdown (mkGateApplication cluster id SERVICE_LOAD_PUBLISH_INTERVAL LOGIC_LOAD_REFRESH_INTERVAL METRICS_REPORT_INTERVAL (Some 0%nat) (Some 1%nat) (Some 2%nat))).
Proof.
  intros Hid Hkey Hup. unfold gate_shutdown. cbn [gate_publish_task gate_refresh_task gate_metrics_task gate_cluster gate_instance_id].
  rewrite (delete_some _ _ _ _ Hid Hkey).
  apply o_abort; [never_deleted|]. apply o_abort; [never_deleted|]. apply o_abort; [never_deleted|]. cbn [insert list_insert].
  apply o_delete; [calm|done|]. intros x.
  apply o_local; [calm|done..|]. intros y.
  apply o_ret; [calm|]. intros w Hw. split; [by apply (holds_idle _ _ _ _ _ _ Hw); repeat constructor|].
  intros _. by apply Hw.
Qed.

Lemma logic_start_outline key field cluster id :
  outline (started key field [Some (PublishOnline cluster service_type.LOGIC id SERVICE_LOAD_PUBLISH_INTERVAL); Some ReportMetrics]
             (mkLogicApplication cluster id SERVICE_LOAD_PUBLISH_INTERVAL METRICS_REPORT_INTERVAL (Some 0%nat) (Some 1%nat)))
    (holds key field [] false) (logic_start (logic_application cluster id)).
Proof.
  unfold logic_start, and_then.
  apply o_acts; [never_deleted|by apply all_acts_await|done|]. intros [[]|e]; [|by ends].
  apply o_acts; [never_deleted|by apply all_acts_await|done|]. intros [[]|e]; [|by ends].
  apply o_acts; [never_deleted|apply publish_first_local|done|]. intros [[[]|e]|]; [|by ends..].
  apply o_spawn. apply o_spawn. by ends.
Qed.

Lemma logic_shutdown_outline key cluster id : 0 < id → service_online_key cluster service_type.LOGIC = Some key → no_loss →
  outline (ended key (pretty id))
    (holds key (pretty id) [Some (PublishOnline cluster service_type.LOGIC id SERVICE_LOAD_PUBLISH_INTERVAL); Some ReportMetrics] false)
    (logic_shutdown (mkLogicApplication cluster id SERVICE_LOAD_PUBLISH_INTERVAL METRICS_REPORT_INTERVAL (Some 0%nat) (Some 1%nat))).
Proof.
  intros Hid Hkey Hup. unfold logic_shutdown. cbn [logic_publish_task logic_metrics_task logic_cluster logic_instance_id].
  rewrite (delete_some _ _ _ _ Hid Hkey).
  apply o_abort; [never_deleted|]. cbn [insert list_insert]. apply o_delete; [calm|done|]. intros x.
  apply o_abort; [calm|]. cbn [insert list_insert].
  apply o_local; [calm|done..|]. intros y.
  apply o_ret; [calm|]. intros w Hw. split; [by apply (holds_idle _ _ _ _ _ _ Hw); repeat constructor|].
  intros _. by apply Hw.
Qed.

Ltac quiet_end := apply o_ret; [never_deleted|]; intros w Hw; by apply (holds_idle _ _ _ _ _ _ Hw); repeat constructor.

(** Whatever becomes of the deletion, no task is left. *)
Lemma delete_local cluster ty id : all_acts (@local E) (redis (delete_service_online cluster ty id)).
Proof. apply redis_local. Qed.

Lemma gate_shutdown_quiet key field cluster id :
  outline quiet
    (holds key field [Some (PublishOnline cluster service_type.GATE id SERVICE_LOAD_PUBLISH_INTERVAL);
                      Some (RefreshOnline cluster service_type.LOGIC LOGIC_LOAD_REFRESH_INTERVAL); Some ReportMetrics] false)
    (gate_shutdown (mkGateApplication cluster id SERVICE_LOAD_PUBLISH_INTERVAL LOGIC_LOAD_REFRESH_INTERVAL METRICS_REPORT_INTERVAL (Some 0%nat) (Some 1%nat) (Some 2%nat))).
Proof.
  unfold gate_shutdown. cbn [gate_publish_task gate_refresh_task gate_metrics_task gate_cluster gate_instance_id].
  apply o_abort; [never_deleted|]. apply o_abort; [never_deleted|]. apply o_abort; [never_deleted|].
  apply o_acts; [never_deleted|apply delete_local|done|]. intros x. destruct x; [|quiet_end].
  apply o_local; [never_deleted|done..|]. intros y. quiet_end.
Qed.

Lemma logic_shutdown_quiet key cluster id : 0 < id → service_online_key cluster service_type.LOGIC = Some key →
  outline quiet
    (holds key (pretty id) [Some (PublishOnline cluster service_type.LOGIC id SERVICE_LOAD_PUBLISH_INTERVAL); Some ReportMetrics] false)
    (logic_shutdown (mkLogicApplication cluster id SERVICE_LOAD_PUBLISH_INTERVAL METRICS_REPORT_INTERVAL (Some 0%nat) (Some 1%nat))).
Proof.
  intros Hid Hkey. unfold logic_shutdown. cbn [logic_publish_task logic_metrics_task logic_cluster logic_instance_id].
  rewrite (delete_some _ _ _ _ Hid Hkey). apply o_abort; [never_deleted|]. apply o_local; [never_deleted|done..|]. intros x.
  apply o_abort; [never_deleted|]. apply o_local; [never_deleted|done..|]. intros y. quiet_end.
Qed.

Lemma auth_start_outline key field cluster :
  outline (started key field [Some (RefreshOnline cluster service_type.GATE GATE_LOAD_REFRESH_INTERVAL); Some ReportMetrics]
             (mkAuthApplication cluster GATE_LOAD_REFRESH_INTERVAL METRICS_REPORT_INTERVAL (Some 0%nat) (Some 1%nat)))
    (holds key field [] false) (auth_start conversion (auth_application cluster)).
Proof.
  unfold auth_start, and_then.
  apply o_acts; [never_deleted|by apply all_acts_await|done|]. intros [[]|e]; [|by ends].
  apply o_acts; [never_deleted|apply refresh_local|done|]. intros [[[]|e]|]; [|by ends..].
  apply o_spawn. apply o_spawn. by ends.
Qed.

Lemma auth_shutdown_outline key field cluster :
  outline quiet (holds key field [Some (RefreshOnline cluster service_type.GATE GATE_LOAD_REFRESH_INTERVAL); Some ReportMetrics] false)
    (auth_shutdown (mkAuthApplication cluster GATE_LOAD_REFRESH_INTERVAL METRICS_REPORT_INTERVAL (Some 0%nat) (Some 1%nat))).
Proof. apply o_abort; [never_deleted|]. apply o_abort; [never_deleted|]. quiet_end. Qed.

Lemma public_start_outline key field :
  outline (started key field [Some SavePlayers; Some ReportMetrics] (mkPublicApplication METRICS_REPORT_INTERVAL (Some 0%nat) (Some 1%nat)))
    (holds key field [] false) (public_start (public_new METRICS_REPORT_INTERVAL)).
Proof.
  unfold public_start, and_then.
  apply o_acts; [never_deleted|by apply all_acts_await|done|]. intros [[]|e]; [|by ends].
  apply o_acts; [never_deleted|by apply all_acts_await|done|]. intros [[]|e]; [|by ends].
  apply o_spawn. apply o_spawn. by ends.
Qed.

Lemma public_shutdown_outline key field :
  outline quiet (holds key field [Some SavePlayers; Some ReportMetrics] false)
    (public_shutdown (mkPublicApplication METRICS_REPORT_INTERVAL (Some 0%nat) (Some 1%nat))).
Proof.
  apply o_send; [never_deleted|]. apply o_join; [never_deleted|]. apply o_local; [never_deleted|done..|]. intros x.
  apply o_abort; [never_deleted|]. quiet_end.
Qed.

Lemma query_start_outline key field :
  outline (started key field [Some ReportMetrics] (mkQueryApplication METRICS_REPORT_INTERVAL (Some 0%nat)))
    (holds key field [] false) (query_start (query_new METRICS_REPORT_INTERVAL)).
Proof. apply o_spawn. by ends. Qed.

Lemma query_shutdown_outline key field :
  outline quiet (holds key field [Some ReportMetrics] false) (query_shutdown (mkQueryApplication METRICS_REPORT_INTERVAL (Some 0%nat))).
Proof. apply o_abort; [never_deleted|]. quiet_end. Qed.

(** The instance has no count that others would read. *)
Definition not_counted (cluster : string) (ty id : Z) (w : World) : Prop :=
  ∀ key, service_online_key cluster ty = Some key → hash key (redis_store w) !! pretty id = None.

Lemma service_key cluster ty : cluster ≠ "" → 0 < ty → ∃ key, service_online_key cluster ty = Some key.
Proof.
  intros Hc Hty. unfold service_online_key. rewrite decide_False by done. destruct (Z.ltb_spec 0 ty); [|lia]. by eexists.
Qed.

Lemma outline_life (Post : option (Result E unit) → World → Prop) key field p turns w r w' :
  outline Post (holds key field [] false) p → tasks w = [] → take_turns turns (p, w) = (Ret r, w') → Post r w'.
Proof.
  intros Ho Hw. apply (outline_done _ _ _ _ _ _ _ _ _ _ Ho). split; [rewrite Hw; constructor|done].
Qed.

(** C32: a stopped service is quiet.  However its tasks interleave with its
    start, its run and its shutdown, when the life of a service is over none of
    its tasks runs, whether it was started or the start failed.  And after a
    good shutdown of a Gate or a Logic instance its player count is gone and is
    not published again, provided Redis can be reached (an error after the
    command ran is harmless): the code only warns when the deletion fails, and
    then the count stays until it expires. *)
Theorem stopped_service_is_quiet cluster id turns w : cluster ≠ "" → 0 < id → tasks w = [] →
  (∀ r w', take_turns turns (life (gate_start conversion) gate_shutdown (gate_application cluster id), w) = (Ret r, w') →
     idle w' ∧ (no_loss → r = Some (Ok tt) → not_counted cluster service_type.GATE id w'))
  ∧ (∀ r w', take_turns turns (life logic_start logic_shutdown (logic_application cluster id), w) = (Ret r, w') →
       idle w' ∧ (no_loss → r = Some (Ok tt) → not_counted cluster service_type.LOGIC id w'))
  ∧ (∀ r w', take_turns turns (life (auth_start conversion) auth_shutdown (auth_application cluster), w) = (Ret r, w') → idle w')
  ∧ (∀ r w', take_turns turns (life public_start public_shutdown (public_new METRICS_REPORT_INTERVAL), w) = (Ret r, w') → idle w')
  ∧ (∀ r w', take_turns turns (life query_start query_shutdown (query_new METRICS_REPORT_INTERVAL), w) = (Ret r, w') → idle w').
Proof.
  intros Hc Hid Hw.
  destruct (service_key cluster service_type.GATE Hc ltac:(done)) as [gate_key Hgate].
  destruct (service_key cluster service_type.LOGIC Hc ltac:(done)) as [logic_key Hlogic].
  split_and!; intros r w' Hrun.
  - split; [exact (outline_life quiet "" "" _ _ _ _ _
      (life_outline _ _ _ _ _ _ _ _ (gate_start_outline _ _ _ _) (gate_shutdown_quiet _ _ _ _) (λ r w _ Hi, Hi)) Hw Hrun)|].
    intros Hup Hr key Hkey. assert (key = gate_key) as -> by congruence.
    by apply (outline_life (ended gate_key (pretty id)) gate_key (pretty id) _ _ _ _ _
      (life_outline _ _ _ _ _ _ _ _ (gate_start_outline _ _ _ _) (gate_shutdown_outline _ _ _ Hid Hgate Hup)
         (λ r w Hr Hi, conj Hi (λ Heq, False_ind _ (Hr Heq)))) Hw Hrun).
  - split; [exact (outline_life quiet logic_key (pretty id) _ _ _ _ _
      (life_outline _ _ _ _ _ _ _ _ (logic_start_outline _ _ _ _) (logic_shutdown_quiet _ _ _ Hid Hlogic) (λ r w _ Hi, Hi)) Hw Hrun)|].
    intros Hup Hr key Hkey. assert (key = logic_key) as -> by congruence.
    by apply (outline_life (ended logic_key (pretty id)) logic_key (pretty id) _ _ _ _ _
      (life_outline _ _ _ _ _ _ _ _ (logic_start_outline _ _ _ _) (logic_shutdown_outline _ _ _ Hid Hlogic Hup)
         (λ r w Hr Hi, conj Hi (λ Heq, False_ind _ (Hr Heq)))) Hw Hrun).
  - exact (outline_life quiet "" "" _ _ _ _ _
      (life_outline _ _ _ _ _ _ _ _ (auth_start_outline _ _ _) (auth_shutdown_outline _ _ _) (λ r w _ Hi, Hi)) Hw Hrun).
  - exact (outline_life quiet "" "" _ _ _ _ _
      (life_outline _ _ _ _ _ _ _ _ (public_start_outline _ _) (public_shutdown_outline _ _) (λ r w _ Hi, Hi)) Hw Hrun).
  - exact (outline_life quiet "" "" _ _ _ _ _
      (life_outline _ _ _ _ _ _ _ _ (query_start_outline _ _) (query_shutdown_outline _ _) (λ r w _ Hi, Hi)) Hw Hrun).
Qed.
End services.

Module life_example.
Definition env : AppEnv (E := unit) :=
  mkAppEnv (λ _, Ok tt) (λ _, Ok [1; 2]) (λ _, Ok tt) (λ n, Z.of_nat n) (λ _, Ok 0) (λ _, Ok tt) (λ _, Up).
Definition world : AppWorld (E := unit) (SR := RedisStore) := mkAppWorld 0 [] [] empty_store 0.
(** The start, some ticks of the publisher and the refresher, and the shutdown
    with a publisher in the middle of its tick. *)
Definition running_turns : list Turn := replicate 10 Main ++ replicate 5 (Background 0) ++ replicate 5 (Background 1).
Definition stopping_turns : list Turn := replicate 2 (Background 0) ++ replicate 6 Main ++ replicate 5 (Background 0).
End life_example.

Lemma stopped_service_is_quiet_witness :
  let run turns :=
    take_turns tt life_example.env tt turns (life (gate_start tt) gate_shutdown (gate_application "local" 1), life_example.world) in
  hash "xkk:service:online:local:3" (redis_store (run life_example.running_turns).2) !! "1" = Some "10"
  ∧ idle (run (life_example.running_turns ++ life_example.stopping_turns)).2
  ∧ not_counted "local" service_type.GATE 1 (run (life_example.running_turns ++ life_example.stopping_turns)).2.
Proof.
  intros run. split; [vm_compute; reflexivity|].
  destruct (stopped_service_is_quiet tt tt life_example.env "local" 1 (life_example.running_turns ++ life_example.stopping_turns)
              life_example.world ltac:(done) ltac:(done) eq_refl) as [Hgate _].
  destruct (Hgate (Some (Ok tt)) (run (life_example.running_turns ++ life_example.stopping_turns)).2) as [Hidle Hcount].
  - vm_compute. reflexivity.
  - split; [exact Hidle|]. apply Hcount; [by intros n e|reflexivity].
Defined.
