(* ===== verification/Robot.v ===== *)
(** The robot client (src/robot/src): it logs in at Auth over HTTP, waits in
    the login queue, connects to the Gate it was sent to and logs in there,
    all before one deadline.  The HTTP and the network client are operations;
    JSON and the packet format are the class [RobotFormats]. *)

From stdpp Require Import pretty.
From S2P Require Import Prelude Effects Decimal Proto GateSession Config.

#[local] Open Scope string_scope.
#[local] Open Scope list_scope.
#[local] Open Scope Z_scope.

(** [RobotError]: a message. *)
Definition RobotError : Type := string.
Definition failure {A} (message : string) : Result RobotError A := Err message.

Definition LOGIN_PATH : string := "/v1/auth/login".
Definition USE_ROLE_PATH : string := "/v1/auth/use-role".
Definition EVENT_CAPACITY : Z := 8.
Definition LOGIN_SEQUENCE : Z := 1.
Definition STATUS_OK : Z := 200.

(** A request to Auth, with the type of its response. *)
Inductive AuthCall : Type → Type :=
| LoginCall (request : AuthLoginReq) : AuthCall AuthLoginRsp
| UseRoleCall (request : AuthUseRoleReq) : AuthCall AuthUseRoleRsp.

Definition path_of {R} (call : AuthCall R) : string :=
  match call with LoginCall _ => LOGIN_PATH | UseRoleCall _ => USE_ROLE_PATH end.
Definition operation_of {R} (call : AuthCall R) : string :=
  match call with LoginCall _ => "Auth login" | UseRoleCall _ => "Auth use-role" end.

(** The network library's events. *)
Inductive Event (Conn Payload : Type) := Connected (c : Conn) | Packet (p : Payload) | Disconnected (session_id : Z).
#[global] Arguments Connected {Conn Payload}.
#[global] Arguments Packet {Conn Payload}.
#[global] Arguments Disconnected {Conn Payload}.

(** [EventHandler::emit]: the queue is bounded; the [expect] of a full one is
    [None]. *)
Definition emit {Conn Payload} (events : list (Event Conn Payload)) (event : Event Conn Payload) : option (list (Event Conn Payload)) :=
  if len events <? EVENT_CAPACITY then Some (events ++ [event]) else None.

Class RobotFormats (Payload Body : Type) := {
  show_status : Z → string;
  body_text : string → string;
  auth_login_rsp_from_json : string → Result string AuthLoginRsp;
  auth_use_role_rsp_from_json : string → Result string AuthUseRoleRsp;
  encode_login_req : CsHead → LoginReq → Result string Payload;
  decode_cs_packet : Payload → Result string (CsHead * Body);
  decode_login_rsp : Body → Result string LoginRsp
}.

(** What the robot awaits.  An operation under a time limit answers [None]
    when the limit is reached first. *)
Inductive RobotEff (Conn Payload Addr : Type) : Type → Type :=
| Now : RobotEff Conn Payload Addr Z
| UnixSeconds : RobotEff Conn Payload Addr (Result string Z)
| Sleep (wait : Z) : RobotEff Conn Payload Addr unit
| BuildRequest {R} (url : string) (call : AuthCall R) : RobotEff Conn Payload Addr (Result string unit)
| SendRequest {R} (limit : Z) (url : string) (call : AuthCall R) : RobotEff Conn Payload Addr (option (Result string Z))
| CollectBody (limit : Z) : RobotEff Conn Payload Addr (option (Result string string))
| LookupHost (limit : Z) (host : string) (port : Z) : RobotEff Conn Payload Addr (option (Result string (list Addr)))
| Connect (transport : string) (addr : Addr) (websocket_path : option string) : RobotEff Conn Payload Addr (Result string unit)
| RecvEvent (limit : Z) : RobotEff Conn Payload Addr (option (option (Event Conn Payload)))
| Send (c : Conn) (p : Payload) : RobotEff Conn Payload Addr (Result string unit)
| ConnSessionId (c : Conn) : RobotEff Conn Payload Addr Z
| ClientShutdown : RobotEff Conn Payload Addr unit.
#[global] Arguments Now {Conn Payload Addr}.
#[global] Arguments UnixSeconds {Conn Payload Addr}.
#[global] Arguments Sleep {Conn Payload Addr}.
#[global] Arguments BuildRequest {Conn Payload Addr R}.
#[global] Arguments SendRequest {Conn Payload Addr R}.
#[global] Arguments CollectBody {Conn Payload Addr}.
#[global] Arguments LookupHost {Conn Payload Addr}.
#[global] Arguments Connect {Conn Payload Addr}.
#[global] Arguments RecvEvent {Conn Payload Addr}.
#[global] Arguments Send {Conn Payload Addr}.
#[global] Arguments ConnSessionId {Conn Payload Addr}.
#[global] Arguments ClientShutdown {Conn Payload Addr}.

Record LoginResult := mkLoginResult {
  result_gid : Z;
  result_session_id : Z;
  result_logic_id : Z;
  result_public_id : Z;
  result_transport : RobotTransport.t;
  result_host : string;
  result_port : Z
}.

(** ** Checks *)

Definition require_ok (status : option Status) (operation : string) : Result RobotError unit :=
  match status with
  | Some status =>
      if Status_code status =? code.OK then Ok tt
      else failure (operation +:+ " failed: code=" +:+ pretty (Status_code status) +:+ " message=" +:+ Status_message status)
  | None => failure (operation +:+ " returned no status")
  end.

Definition validate_auth_login (account : string) (response : AuthLoginRsp) : Result RobotError (Z * string) :=
  _ ← require_ok (AuthLoginRsp_status response) "Auth login";
  if negb (bool_decide (AuthLoginRsp_account response = account))
  then failure ("Auth login returned account " +:+ AuthLoginRsp_account response +:+ ", expected " +:+ account)
  else
    match AuthLoginRsp_roles response with
    | [] => failure "Auth login returned no role"
    | role :: _ =>
        if Role_gid role <=? 0 then failure "Auth login returned invalid gid"
        else if is_empty (AuthLoginRsp_token response) then failure "Auth login returned an empty token"
        else Ok (Role_gid role, AuthLoginRsp_token response)
    end.

Definition select_endpoint (endpoints : list Endpoint) (transport : RobotTransport.t) : Result RobotError Endpoint :=
  match List.find (λ endpoint, bool_decide (Endpoint_transport endpoint = RobotTransport.as_str transport)) endpoints with
  | None => failure ("Auth use-role returned no " +:+ RobotTransport.as_str transport +:+ " endpoint")
  | Some endpoint =>
      if is_empty (Endpoint_host endpoint) || (Endpoint_port endpoint =? 0) || (2 ^ 16 - 1 <? Endpoint_port endpoint)
      then failure ("Auth use-role returned invalid " +:+ RobotTransport.as_str transport +:+ " endpoint")
      else if bool_decide (transport = RobotTransport.Websocket) && negb (String.prefix "/" (Endpoint_path endpoint))
      then failure "Auth use-role returned invalid WebSocket endpoint path"
      else Ok endpoint
  end.

Definition validate_login_rsp (gid : Z) (head : CsHead) (response : LoginRsp) : Result RobotError unit :=
  _ ← require_ok (LoginRsp_status response) "Gate login";
  if negb (head_ack head =? LOGIN_SEQUENCE) || (head_seq head =? 0)
  then failure ("Gate login returned invalid sequence: seq=" +:+ pretty (head_seq head) +:+ " ack=" +:+ pretty (head_ack head))
  else if negb (LoginRsp_gid response =? gid) || (LoginRsp_session_id response <=? 0) || (LoginRsp_logic_id response <=? 0)
          || (LoginRsp_public_id response <=? 0) || negb (bool_decide (PlayerInfo_gid <$> LoginRsp_player response = Some gid))
  then failure "Gate login returned invalid player state"
  else Ok tt.

(** [str::trim_end_matches('/')] *)
Fixpoint trim_end_slashes (s : string) : string :=
  match s with
  | EmptyString => EmptyString
  | String a s =>
      let rest := trim_end_slashes s in
      if bool_decide (rest = "") && bool_decide (String a "" = "/") then "" else String a rest
  end.

Section robot.
Context {Conn Payload Body Addr : Type} `{!RobotFormats Payload Body}.
#[local] Abbreviation Eff := (RobotEff Conn Payload Addr).

(** ** Deadlines *)

Definition remaining (deadline : Z) (operation : string) : prog Eff (Result RobotError Z) :=
  now ← await Now;
  Ret (if now <? deadline then Ok (deadline - now) else failure (operation +:+ " timed out")).

(** An operation under what remains until the deadline. *)
Definition before_deadline {X} (deadline : Z) (operation : string) (future : Z → Eff (option X)) : prog Eff (Result RobotError X) :=
  limit ← remaining deadline operation;
  match limit with
  | Err e => Ret (Err e)
  | Ok limit =>
      answer ← await (future limit);
      Ret match answer with Some x => Ok x | None => failure (operation +:+ " timed out") end
  end.

(** ** Auth *)

Definition decode_rsp {R} (call : AuthCall R) : string → Result string R :=
  match call with
  | LoginCall _ => auth_login_rsp_from_json
  | UseRoleCall _ => auth_use_role_rsp_from_json
  end.

Definition post_json {R} (base_url : string) (call : AuthCall R) (deadline : Z) : prog Eff (Result RobotError R) :=
  let operation := operation_of call in
  let url := trim_end_slashes base_url +:+ path_of call in
  built ← await (BuildRequest url call);
  match built with
  | Err e => Ret (failure e)
  | Ok _ =>
      sent ← before_deadline deadline operation (λ limit, SendRequest limit url call);
      match sent with
      | Err e => Ret (Err e)
      | Ok (Err e) => Ret (failure ("send " +:+ operation +:+ " request: " +:+ e))
      | Ok (Ok status) =>
          collected ← before_deadline deadline operation CollectBody;
          match collected with
          | Err e => Ret (Err e)
          | Ok (Err e) => Ret (failure ("read " +:+ operation +:+ " response: " +:+ e))
          | Ok (Ok body) =>
              Ret (if negb (status =? STATUS_OK)
                   then failure (operation +:+ " returned HTTP " +:+ show_status status +:+ ": " +:+ body_text body)
                   else match decode_rsp call body with
                        | Ok response => Ok response
                        | Err e => failure ("decode " +:+ operation +:+ " response: " +:+ e)
                        end)
          end
      end
  end.

Definition wait_for_queue (queue : LoginQueue) (deadline : Z) : prog Eff (Result RobotError unit) :=
  if (LoginQueue_position queue <=? 0) || (LoginQueue_next_request_time queue <=? 0)
  then Ret (failure "Auth use-role returned invalid queue state")
  else
    now ← await UnixSeconds;
    match now with
    | Err e => Ret (failure ("read system clock: " +:+ e))
    | Ok now =>
        let wait := secs (Z.max 0 (LoginQueue_next_request_time queue - now)) in
        available ← remaining deadline "Auth use-role queue";
        match available with
        | Err e => Ret (Err e)
        | Ok available =>
            if available <=? wait then Ret (failure "Auth use-role queue timed out")
            else _ ← await (Sleep wait); Ret (Ok tt)
        end
    end.

(** What the robot makes of an answer: the endpoints, or the queue to wait in. *)
Definition admission_of (gid : Z) (response : AuthUseRoleRsp) : Result RobotError (list Endpoint + LoginQueue) :=
  _ ← require_ok (AuthUseRoleRsp_status response) "Auth use-role";
  if negb (AuthUseRoleRsp_gid response =? gid)
  then failure ("Auth use-role returned gid " +:+ pretty (AuthUseRoleRsp_gid response) +:+ ", expected " +:+ pretty gid)
  else
    match AuthUseRoleRsp_queue response with
    | None =>
        if bool_decide (AuthUseRoleRsp_endpoints response = []) then failure "Auth use-role returned no Gate endpoints"
        else Ok (inl (AuthUseRoleRsp_endpoints response))
    | Some queue =>
        if negb (bool_decide (AuthUseRoleRsp_endpoints response = []))
        then failure "Auth use-role returned both queue state and Gate endpoints"
        else Ok (inr queue)
    end.

(** The loop, for at most [fuel] requests; [None] when they are used up. *)
Fixpoint admit_loop (fuel : nat) (auth_url : string) (request : AuthUseRoleReq) (deadline : Z)
    : prog Eff (option (Result RobotError (list Endpoint))) :=
  match fuel with
  | O => Ret None
  | S fuel =>
      response ← post_json auth_url (UseRoleCall request) deadline;
      match response ≫= admission_of (AuthUseRoleReq_gid request) with
      | Err e => Ret (Some (Err e))
      | Ok (inl endpoints) => Ret (Some (Ok endpoints))
      | Ok (inr queue) =>
          waited ← wait_for_queue queue deadline;
          match waited with
          | Err e => Ret (Some (Err e))
          | Ok _ => admit_loop fuel auth_url request deadline
          end
      end
  end.

(** ** Gate *)

Definition resolve_endpoint (endpoint : Endpoint) (deadline : Z) : prog Eff (Result RobotError Addr) :=
  addresses ← before_deadline deadline "Gate endpoint resolution"
                (λ limit, LookupHost limit (Endpoint_host endpoint) (Endpoint_port endpoint));
  let name := Endpoint_host endpoint +:+ ":" +:+ pretty (Endpoint_port endpoint) in
  Ret match addresses with
      | Err e => Err e
      | Ok (Err e) => failure ("resolve Gate endpoint " +:+ name +:+ ": " +:+ e)
      | Ok (Ok (address :: _)) => Ok address
      | Ok (Ok []) => failure ("Gate endpoint " +:+ name +:+ " resolved no address")
      end.

Definition connect_gate (endpoint : Endpoint) (addr : Addr) (deadline : Z) : prog Eff (Result RobotError unit) :=
  available ← remaining deadline "Gate connection";
  match available with
  | Err e => Ret (Err e)
  | Ok _ =>
      let transport := Endpoint_transport endpoint in
      if negb (bool_decide (transport ∈ ["tcp"; "kcp"; "websocket"])) then Ret (failure "unsupported Gate transport")
      else
        connected ← await (Connect transport addr (if bool_decide (transport = "websocket") then Some (Endpoint_path endpoint) else None));
        Ret match connected with Ok _ => Ok tt | Err e => failure ("start Gate connection: " +:+ e) end
  end.

Definition receive_connection (deadline : Z) : prog Eff (Result RobotError Conn) :=
  event ← before_deadline deadline "Gate connection" RecvEvent;
  Ret match event with
      | Err e => Err e
      | Ok (Some (Connected c)) => Ok c
      | Ok (Some (Packet _)) => failure "received Gate packet before connection event"
      | Ok (Some (Disconnected session_id)) => failure ("Gate disconnected session " +:+ pretty session_id +:+ " while connecting")
      | Ok None => failure "Gate event stream closed while connecting"
      end.

(** [send] of the login request. *)
Definition send_login (c : Conn) (request : LoginReq) : prog Eff (Result RobotError unit) :=
  match encode_login_req (mkCsHead (MsgId.as_u16 MsgId.LoginReq) LOGIN_SEQUENCE 0) request with
  | Err e => Ret (failure ("encode LoginReq: " +:+ e))
  | Ok payload =>
      sent ← await (Send c payload);
      Ret match sent with Ok _ => Ok tt | Err e => failure ("Gate send rejected for LoginReq: " +:+ e) end
  end.

Definition receive_login (deadline : Z) : prog Eff (Result RobotError (CsHead * LoginRsp)) :=
  event ← before_deadline deadline "Gate login response" RecvEvent;
  match event with
  | Err e => Ret (Err e)
  | Ok (Some (Disconnected session_id)) => Ret (failure ("Gate disconnected session " +:+ pretty session_id +:+ " before LoginRsp"))
  | Ok (Some (Connected c)) =>
      session_id ← await (ConnSessionId c);
      Ret (failure ("unexpected Gate connection " +:+ pretty session_id +:+ " before LoginRsp"))
  | Ok None => Ret (failure "Gate event stream closed during login")
  | Ok (Some (Packet payload)) =>
      Ret match decode_cs_packet payload with
          | Err e => failure ("decode Gate packet: " +:+ e)
          | Ok (head, body) =>
              if negb (head_msgid head =? MsgId.as_u16 MsgId.LoginRsp)
              then failure ("expected LoginRsp, got message " +:+ pretty (head_msgid head))
              else match decode_login_rsp body with
                   | Err e => failure ("decode LoginRsp: " +:+ e)
                   | Ok response => Ok (head, response)
                   end
          end
  end.

Definition login_gate (config : RobotConfig.t) (gid : Z) (token : string) (endpoint : Endpoint) (deadline : Z)
    : prog Eff (Result RobotError LoginResult) :=
  result ←
    (connection ← receive_connection deadline;
     match connection with
     | Err e => Ret (Err e)
     | Ok connection =>
         sent ← send_login connection (mkLoginReq gid token (RobotConfig.device_id config));
         match sent with
         | Err e => Ret (Err e)
         | Ok _ =>
             received ← receive_login deadline;
             Ret ('(head, response) ← received;
                  _ ← validate_login_rsp gid head response;
                  Ok (mkLoginResult gid (LoginRsp_session_id response) (LoginRsp_logic_id response) (LoginRsp_public_id response)
                        (RobotConfig.transport config) (Endpoint_host endpoint) (Endpoint_port endpoint)))
         end
     end);
  _ ← await ClientShutdown;
  Ret result.

(** ** Login *)

(** How a login ends: with a result, with the panic of a deadline that is no
    [Instant], or without its fuel. *)
Inductive Outcome := Done (r : Result RobotError LoginResult) | Panicked | OutOfFuel.

Definition login_request (config : RobotConfig.t) : AuthLoginReq :=
  mkAuthLoginReq (RobotConfig.account config) (RobotConfig.credential config)
    (Some (mkDeviceInfo (RobotConfig.device_id config) (RobotConfig.platform config) (RobotConfig.client_version config))).

(** After the endpoints are known. *)
Definition enter_gate (config : RobotConfig.t) (gid : Z) (token : string) (endpoints : list Endpoint) (deadline : Z)
    : prog Eff (Result RobotError LoginResult) :=
  match select_endpoint endpoints (RobotConfig.transport config) with
  | Err e => Ret (Err e)
  | Ok endpoint =>
      addr ← resolve_endpoint endpoint deadline;
      match addr with
      | Err e => Ret (Err e)
      | Ok addr =>
          connected ← connect_gate endpoint addr deadline;
          match connected with
          | Err e => Ret (Err e)
          | Ok _ => login_gate config gid token endpoint deadline
          end
      end
  end.

Definition login_before (fuel : nat) (config : RobotConfig.t) (deadline : Z) : prog Eff (option (Result RobotError LoginResult)) :=
  auth ← post_json (RobotConfig.auth_url config) (LoginCall (login_request config)) deadline;
  match auth ≫= validate_auth_login (RobotConfig.account config) with
  | Err e => Ret (Some (Err e))
  | Ok (gid, token) =>
      admitted ← admit_loop fuel (RobotConfig.auth_url config) (mkAuthUseRoleReq gid token (RobotConfig.device_id config)) deadline;
      match admitted with
      | None => Ret None
      | Some (Err e) => Ret (Some (Err e))
      | Some (Ok endpoints) => result ← enter_gate config gid token endpoints deadline; Ret (Some result)
      end
  end.

(** [max_instant] is the last [Instant] of the platform. *)
Definition login (max_instant : Z) (fuel : nat) (config : RobotConfig.t) : prog Eff Outcome :=
  now ← await Now;
  let deadline := now + secs (RobotConfig.timeout_seconds config) in
  if max_instant <? deadline then Ret Panicked
  else
    result ← login_before fuel config deadline;
    Ret match result with Some r => Done r | None => OutOfFuel end.
End robot.
