(* ===== verification/RobotSpec.v ===== *)
(** What the robot client promises of itself: it ends, at the latest when its
    timeout and the shutdown of its network client are over, and it reaches
    the listener of the Gate it asked for.  What it makes of the answers of
    Auth is in RobotAuthSpec.v. *)

From stdpp Require Import pretty.
From S2P Require Import Prelude Effects Decimal Proto GateSession Redis Mongo AuthApi AuthSpec Config ConfigSpec Process Services ServicesSpec Robot.

#[local] Open Scope string_scope.
#[local] Open Scope list_scope.
#[local] Open Scope Z_scope.

(** ** Time *)

Section time.
Context {Conn Payload Body Addr : Type} `{!RobotFormats Payload Body}.
#[local] Abbreviation Eff := (RobotEff Conn Payload Addr).

(** How the world answers, by the number of operations before, and how long
    each operation under a limit takes to answer. *)
Record RobotEnv := mkRobotEnv {
  takes : nat → Z;
  shutdown_takes : Z;
  unix_answer : nat → Result string Z;
  build_answer : nat → Result string unit;
  request_answer : nat → Result string Z;
  body_answer : nat → Result string string;
  lookup_answer : nat → Result string (list Addr);
  connect_answer : nat → Result string unit;
  event_answer : nat → option (Event Conn Payload);
  send_answer : nat → Result string unit;
  session_id_of : Conn → Z
}.

Record RobotWorld := mkRobotWorld { clock : Z; operations : nat }.

Variable env : RobotEnv.

(** An operation under a limit ends when it answers or at the limit. *)
Definition timed {X} (limit : Z) (answer : nat → X) (w : RobotWorld) : option X * RobotWorld :=
  let n := operations w in
  if takes env n <=? limit then (Some (answer n), mkRobotWorld (clock w + takes env n) (S n))
  else (None, mkRobotWorld (clock w + limit) (S n)).

Definition at_once {X} (answer : nat → X) (w : RobotWorld) : X * RobotWorld :=
  (answer (operations w), mkRobotWorld (clock w) (S (operations w))).

Definition handle_robot (X : Type) (e : Eff X) : RobotWorld → X * RobotWorld :=
  match e in RobotEff _ _ _ X return RobotWorld → X * RobotWorld with
  | Now => λ w, (clock w, w)
  | UnixSeconds => at_once (unix_answer env)
  | Sleep wait => λ w, (tt, mkRobotWorld (clock w + wait) (S (operations w)))
  | BuildRequest _ _ => at_once (build_answer env)
  | SendRequest limit _ _ => timed limit (request_answer env)
  | CollectBody limit => timed limit (body_answer env)
  | LookupHost limit _ _ => timed limit (lookup_answer env)
  | Connect _ _ _ => at_once (connect_answer env)
  | RecvEvent limit => timed limit (event_answer env)
  | Send _ _ => at_once (send_answer env)
  | ConnSessionId c => at_once (λ _, session_id_of env c)
  | ClientShutdown => λ w, (tt, mkRobotWorld (clock w + shutdown_takes env) (S (operations w)))
  end.

#[local] Abbreviation run := (run handle_robot).

(** A program that started before the deadline ends by it. *)
Definition in_time {A} (deadline : Z) (p : prog Eff A) : Prop :=
  ∀ w, clock w <= deadline → clock w <= clock (run p w).2 <= deadline.

Variable step : Z.
Hypothesis takes_time : 0 < step ∧ ∀ n, step <= takes env n.
Section deadline.
Variable deadline : Z.

Lemma in_time_ret {A} (a : A) : in_time deadline (Ret a).
Proof. intros w Hw. simpl. lia. Qed.

Lemma in_time_bind {A B} (p : prog Eff A) (f : A → prog Eff B) :
  in_time deadline p → (∀ a, in_time deadline (f a)) → in_time deadline (p ≫= f).
Proof.
  intros Hp Hf w Hw. rewrite run_bind. specialize (Hp w Hw). destruct (run p w) as [a w']. simpl in *.
  specialize (Hf a w'). lia.
Qed.

(** Operations that answer at once. *)
Definition instant {X} (e : Eff X) : Prop :=
  match e with
  | Now | UnixSeconds | BuildRequest _ _ | Connect _ _ _ | Send _ _ | ConnSessionId _ => True
  | _ => False
  end.

Lemma in_time_instant {X} (e : Eff X) : instant e → in_time deadline (await e).
Proof. intros He w Hw. rewrite run_await. destruct e; try done; simpl; lia. Qed.

(** Operations whose limit is respected. *)
Definition limited {X} (future : Z → Eff (option X)) : Prop :=
  ∃ answer, ∀ limit, handle_robot _ (future limit) = timed limit answer.

(** An answer took time. *)
Definition takes_while {A} (p : prog Eff (Result RobotError A)) : Prop :=
  ∀ w a, clock w <= deadline → (run p w).1 = Ok a → clock w + step <= clock (run p w).2.

Lemma before_deadline_run {X} operation (future : Z → Eff (option X)) w : limited future → clock w <= deadline →
  clock w <= clock (run (before_deadline deadline operation future) w).2 <= deadline
  ∧ ∀ x, (run (before_deadline deadline operation future) w).1 = Ok x → clock w + step <= clock (run (before_deadline deadline operation future) w).2.
Proof using takes_time.
  destruct takes_time as [Hstep _]. intros [answer Hf] Hw. unfold before_deadline, remaining. rewrite !run_bind, run_await. cbn [handle_robot].
  destruct (Z.ltb_spec (clock w) deadline); [|simpl; split; [lia|done]].
  simpl. rewrite Hf. unfold timed. pose proof (proj2 takes_time (operations w)).
  destruct (Z.leb_spec (takes env (operations w)) (deadline - clock w)); simpl; (split; [lia|]); [lia|done].
Qed.

Lemma in_time_before {X} operation (future : Z → Eff (option X)) : limited future → in_time deadline (before_deadline deadline operation future).
Proof using takes_time. intros Hf w Hw. by apply before_deadline_run. Qed.

Lemma in_time_remaining operation : in_time deadline (remaining deadline operation).
Proof. apply in_time_bind; [by apply in_time_instant|]. intros now. apply in_time_ret. Qed.

Ltac timely :=
  repeat first
    [ apply in_time_ret
    | apply in_time_remaining
    | apply in_time_before; by eexists
    | apply in_time_instant; exact I
    | apply in_time_bind; [|intros ?]
    | match goal with |- in_time _ (match ?x with _ => _ end) => destruct x end
    | match goal with |- in_time _ (if ?x then _ else _) => destruct x end ].

Lemma in_time_post {R} base_url (call : AuthCall R) : in_time deadline (post_json base_url call deadline).
Proof using takes_time. unfold post_json. timely. Qed.

Lemma post_takes_while {R} base_url (call : AuthCall R) : takes_while (post_json base_url call deadline).
Proof using takes_time.
  intros w a Hw. unfold post_json. rewrite run_bind, run_await. cbn [handle_robot at_once]. unfold at_once.
  set (w1 := mkRobotWorld (clock w) (S (operations w))). destruct (build_answer env (operations w)); [|done].
  rewrite run_bind. destruct (before_deadline_run (operation_of call) (λ limit, SendRequest limit (trim_end_slashes base_url +:+ path_of call) call) w1)
    as [Hin Htook]; [by eexists|done|].
  destruct (run _ w1) as [[sent|e] w2]; [|done]. simpl in Hin, Htook. specialize (Htook sent eq_refl).
  match goal with |- context [run ?q w2] => assert (in_time deadline q) as Hq by timely end.
  specialize (Hq w2 ltac:(lia)). intros _. lia.
Qed.

Lemma in_time_wait queue : in_time deadline (wait_for_queue queue deadline).
Proof.
  unfold wait_for_queue, remaining. destruct (_ || _); [apply in_time_ret|]. apply in_time_bind; [by apply in_time_instant|].
  intros [now|e]; [|apply in_time_ret]. intros w Hw. rewrite !run_bind, run_await. cbn [handle_robot Effects.run].
  destruct (Z.ltb_spec (clock w) deadline); [|simpl; lia].
  destruct (Z.leb_spec (deadline - clock w) (secs (Z.max 0 (LoginQueue_next_request_time queue - now)))); [simpl; lia|].
  simpl. unfold secs in *. lia.
Qed.

(** With more fuel than there are nanoseconds left the loop ends. *)
Lemma admit_loop_ends fuel auth_url request w : clock w <= deadline → deadline - clock w < step * Z.of_nat fuel →
  is_Some (run (admit_loop fuel auth_url request deadline) w).1 ∧ clock w <= clock (run (admit_loop fuel auth_url request deadline) w).2 <= deadline.
Proof using takes_time.
  destruct takes_time as [Hstep _]. revert w. induction fuel as [|fuel IH]; intros w Hw Hfuel; [lia|]. cbn [admit_loop]. rewrite run_bind.
  pose proof (in_time_post auth_url (UseRoleCall request) w Hw) as Hin.
  pose proof (post_takes_while auth_url (UseRoleCall request) w) as Htook.
  destruct (run _ w) as [[response|e] w1]; simpl in Hin, Htook; [|by simpl]. specialize (Htook response Hw eq_refl). cbn [mbind Result_bind].
  destruct (admission_of _ response) as [[endpoints|queue]|e]; [by simpl|..|by simpl].
  rewrite run_bind. pose proof (in_time_wait queue w1 ltac:(lia)) as Hwait.
  destruct (run _ w1) as [[[]|e] w2]; simpl in Hwait; [|split; [done|simpl; lia]].
  destruct (IH w2) as [Hend Hclock]; [lia..|]. split; [done|lia].
Qed.

Lemma in_time_enter config gid token endpoints w : 0 <= shutdown_takes env → clock w <= deadline →
  clock w <= clock (run (enter_gate config gid token endpoints deadline) w).2 <= deadline + shutdown_takes env.
Proof using takes_time.
  intros Hshut Hw. unfold enter_gate. destruct (select_endpoint _ _) as [endpoint|e]; [|simpl; lia].
  rewrite run_bind. assert (in_time deadline (resolve_endpoint endpoint deadline)) as Hres by (unfold resolve_endpoint; timely).
  specialize (Hres w Hw). destruct (run (resolve_endpoint _ _) w) as [[addr|e] w1]; simpl in Hres; [|simpl; lia].
  rewrite run_bind. assert (in_time deadline (connect_gate endpoint addr deadline)) as Hcon by (unfold connect_gate; timely).
  specialize (Hcon w1 ltac:(lia)). destruct (run (connect_gate _ _ _) w1) as [[[]|e] w2]; simpl in Hcon; [|simpl; lia].
  unfold login_gate. rewrite run_bind.
  match goal with |- context [run ?q w2] => assert (in_time deadline q) as Hq end.
  { unfold receive_connection, send_login, receive_login. timely. }
  specialize (Hq w2 ltac:(lia)). destruct (run _ w2) as [r w3]. simpl in *. lia.
Qed.

End deadline.

(** C33: when every operation under a limit takes at least [step], the login
    ends, after at most as many role requests as fit into its timeout: with a
    result or an error, never later than the configured timeout after its
    start plus the time [shutdown_takes] of the shutdown of the network
    client, which the code awaits without a limit and which is assumed to
    return.  It panics only when the deadline lies beyond the last instant of
    the platform. *)
Theorem robot_ends_within_timeout_and_shutdown max_instant fuel config w :
  0 < RobotConfig.timeout_seconds config → 0 <= shutdown_takes env →
  secs (RobotConfig.timeout_seconds config) < step * Z.of_nat fuel →
  let '(out, w') := run (login max_instant fuel config) w in
  match out with
  | Done r => clock w <= clock w' <= clock w + secs (RobotConfig.timeout_seconds config) + shutdown_takes env
  | Panicked => max_instant < clock w + secs (RobotConfig.timeout_seconds config)
  | OutOfFuel => False
  end.
Proof using takes_time.
  intros Htimeout Hshut Hfuel. unfold login. rewrite run_bind, run_await. cbn [handle_robot].
  set (deadline := clock w + secs (RobotConfig.timeout_seconds config)).
  assert (clock w < deadline) as Hw by (unfold deadline, secs; lia).
  destruct (Z.ltb_spec max_instant deadline); [done|]. rewrite run_bind. unfold login_before. rewrite run_bind.
  pose proof (in_time_post deadline (RobotConfig.auth_url config) (LoginCall (login_request config)) w ltac:(lia)) as Hpost.
  destruct (run (post_json _ _ _) w) as [auth w1]. simpl in Hpost.
  destruct (auth ≫= _) as [[gid token]|e]; [|simpl; lia]. rewrite run_bind.
  destruct (admit_loop_ends deadline fuel (RobotConfig.auth_url config) (mkAuthUseRoleReq gid token (RobotConfig.device_id config)) w1)
    as [Hsome Hloop]; [lia|unfold deadline in *; lia|].
  destruct (run (admit_loop _ _ _ _) w1) as [[[endpoints|e]|] w2]; simpl in Hsome, Hloop; [|simpl; lia|by destruct Hsome].
  rewrite run_bind. pose proof (in_time_enter deadline config gid token endpoints w2 Hshut ltac:(lia)) as Henter.
  destruct (run (enter_gate _ _ _ _ _) w2) as [r w3]. simpl in *. lia.
Qed.
End time.

(** ** Gate *)

Definition port_of (l : GateListeners.t) (t : RobotTransport.t) : option Z :=
  match t with
  | RobotTransport.Tcp => GateListeners.tcp_port l
  | RobotTransport.Kcp => GateListeners.kcp_port l
  | RobotTransport.Websocket => GateListeners.websocket_port l
  end.

(** Of the endpoints a validated Gate announces, the robot selects the one
    of its transport: the Gate listens on it, at the announced port and, for a
    WebSocket, with the announced path.  It answers an error exactly when the
    Gate does not enable the transport. *)
Theorem robot_reaches_listener (c : GateConfig.t) (t : RobotTransport.t) : config_ok c → gate_ports_typed (GateConfig.listeners c) →
  match port_of (GateConfig.listeners c) t with
  | Some port => ∃ e, select_endpoint (enabled_endpoints c) t = Ok e
      ∧ Endpoint_transport e = RobotTransport.as_str t
      ∧ Endpoint_host e = GateNode.advertise_host (GateConfig.node c) ∧ Endpoint_port e = port
      ∧ (t = RobotTransport.Websocket → Endpoint_path e = GateListeners.websocket_path (GateConfig.listeners c))
      ∧ listener_of c e ∈ listeners (network_server c)
  | None => ∃ message, select_endpoint (enabled_endpoints c) t = Err message
  end.
Proof.
  intros ((_ & Hadvertise & _ & _) & _ & (_ & Hpos & _ & Hpath) & _) Htyped. rewrite network_server_listeners.
  unfold gate_ports_typed, select_endpoint, enabled_endpoints in *.
  destruct (GateConfig.node c) as [cluster id advertise listen] eqn:Hnode. simpl in Hadvertise.
  assert (is_empty advertise = false) as Hhost by (by apply is_empty_false).
  destruct (GateConfig.listeners c) as [tcp kcp ws path primary]. cbn [GateListeners.tcp_port GateListeners.kcp_port
    GateListeners.websocket_port GateListeners.websocket_path port_of] in *.
  assert (∀ p, is_u16 p → p ≠ 0 → ((p =? 0) || (2 ^ 16 - 1 <? p)) = false) as Hp by (unfold is_u16; lia).
  destruct t; cbn [port_of]; [destruct tcp as [p|], kcp, ws|destruct kcp as [p|], tcp, ws|destruct ws as [p|], tcp, kcp];
    cbn in Hpos, Htyped; decompose_Forall_hyps; cbn -[listener_of Z.pow];
    first [by eexists | rewrite Hhost, ?Hpath; cbn [orb andb negb]; rewrite (Hp p) by done; cbn [orb andb negb];
      eexists; split_and!; try done; rewrite ?elem_of_cons; auto].
Qed.

(** ** A login that waits in the queue once *)

Module robot_example.
Definition config : RobotConfig.t :=
  RobotConfig.mk "http://127.0.0.1:3501/" "robot" "secret" "xkk-robot-device" "linux" "0.1.0" RobotTransport.Tcp 10.

Definition role : Role := mkRole 1001 0 "Player1001" 1 0.
Definition endpoint : Endpoint := mkEndpoint "tcp" "127.0.0.1" 3201 "".
Definition login_rsp : AuthLoginRsp := mkAuthLoginRsp (Some ok_status) "robot" "token" [role] 100.
Definition player : LoginRsp := mkLoginRsp (Some ok_status) 1001 5 6 (Some (mkPlayerInfo 1001 "Player1001" 1 0 0)) [] 77.

Definition formats : RobotFormats unit unit :=
  {| show_status s := pretty s; body_text b := b;
     auth_login_rsp_from_json _ := Ok login_rsp;
     auth_use_role_rsp_from_json body :=
       Ok (if decide (body = "queued") then mkAuthUseRoleRsp (Some ok_status) 1001 [] (Some (mkLoginQueue 3 1003))
           else mkAuthUseRoleRsp (Some ok_status) 1001 [endpoint] None);
     encode_login_req _ _ := Ok tt;
     decode_cs_packet _ := Ok (mkCsHead (MsgId.as_u16 MsgId.LoginRsp) 1 1, tt);
     decode_login_rsp _ := Ok player |}.

(** Half a second for each operation; the first role request is told to wait
    until second 1003, and the network connects before the packet comes. *)
Definition env : RobotEnv (Conn := Z) (Payload := unit) (Addr := Z) :=
  mkRobotEnv (λ _, millis 500) (millis 20) (λ _, Ok 1000) (λ _, Ok tt) (λ _, Ok 200) (λ n, Ok (if decide (n < 6)%nat then "queued" else "go"))
    (λ _, Ok [0]) (λ _, Ok tt) (λ n, Some (if decide (n < 14)%nat then Connected 9 else Packet tt)) (λ _, Ok tt) id.
End robot_example.
#[local] Existing Instances robot_example.formats config_example.errors gate_example.libraries gate_example.xframe.

Lemma robot_ends_within_timeout_and_shutdown_witness :
  let '(out, w') := run (handle_robot robot_example.env) (login (2 ^ 63) 30 robot_example.config) (mkRobotWorld 0 0) in
  out = Done (Ok (mkLoginResult 1001 77 5 6 RobotTransport.Tcp "127.0.0.1" 3201))
  ∧ 0 <= clock w' <= secs 10 + millis 20.
Proof.
  assert (0 < millis 500 ∧ ∀ n, millis 500 <= takes robot_example.env n) as Htakes by done.
  pose proof (robot_ends_within_timeout_and_shutdown robot_example.env (millis 500) Htakes (2 ^ 63) 30 robot_example.config (mkRobotWorld 0 0)
                ltac:(done) ltac:(done) ltac:(done)) as H.
  revert H. vm_compute. intros [H1 H2]. repeat split; assumption.
Defined.

Lemma robot_reaches_listener_witness :
  ∃ e, select_endpoint (enabled_endpoints gate_example.gate) RobotTransport.Websocket = Ok e
    ∧ Endpoint_port e = 3203 ∧ Endpoint_path e = "/ws".
Proof.
  destruct (robot_reaches_listener gate_example.gate RobotTransport.Websocket) as (e & He & _ & _ & Hport & Hpath & _).
  - apply (validate_ok (C := GateConfig.t)). vm_compute. reflexivity.
  - apply (bool_decide_unpack _). vm_compute. exact I.
  - exists e. split_and!; [exact He|exact Hport|by apply Hpath].
Defined.
