(* ===== verification/RobotAuthSpec.v ===== *)
(** Auth and the robot client agree: whatever Auth answers, in any
    interleaving of requests, the robot takes it for what it is. *)

From stdpp Require Import pretty.
From S2P Require Import Config ConfigSpec Robot RobotSpec.
From S2P Require Import Prelude Effects Routing Proto Decimal Redis OnlineCache OnlineSpec Mongo Documents DocumentsSpec AuthApi AuthSpec.

#[local] Open Scope string_scope.
#[local] Open Scope list_scope.
#[local] Open Scope Z_scope.

Section auth.
Context {E : Type} `{!Xmongo E, !MapIter Z Z} `{!Sha256} `{!TokenCoder} `{!TokenIssuer}.
Context {SR SM : Type} (script_error : string) `{!Redis SR} `{!Mongo E SM}.
Variable env : AuthEnv (E := E).
Variable d : Database.
#[local] Abbreviation handle := (handle_auth (SR := SR) (SM := SM) script_error env).
#[local] Abbreviation World := (AuthWorld (SR := SR) (SM := SM)).
#[local] Abbreviation task := (prog (AuthEff E)).

(** The account documents: each is kept under the name of its account, whose
    first role has a positive id. *)
Definition well_formed_account (name : string) (a : AccountData) : Prop :=
  AccountData_account a = name ∧ match AccountData_roles a with [] => True | role :: _ => 0 < Role_gid role end.
Definition accounts_ok (w : World) : Prop :=
  ∀ name doc a, document (accounts d) (BsonString name) (mongo_store w) = Some doc → decoded doc = Some a → well_formed_account name a.

(** The generator of ids makes positive ones, the token coder no empty token,
    and the clock is past 1970. *)
Hypothesis positive_ids : ∀ n, 0 < fast_id env n.
Hypothesis issues_tokens : ∀ gid device token, simple_token_encode gid device = Ok token → token ≠ "".
Hypothesis clock_runs : ∀ n, 0 <= seconds env n < 2 ^ 62.

#[local] Abbreviation sound := (sound handle accounts_ok).

Lemma sound_plain {X A} (P : A → Prop) (e : AuthEff E X) (k : X → task A) :
  match e with OnMongo _ => False | _ => True end → (∀ x, sound P (k x)) → sound P (x ← await e; k x).
Proof.
  intros He Hk w Hw. split; [|apply Hk]. assert (mongo_store (handle X e w).2 = mongo_store w) as Hm.
  { unfold handle_auth. destruct e as [| |l key|X e|X e|key ttl|key| | | |service|service]; simpl in *; try done.
    - by destruct (0 <? permits w).
    - by destruct (handle_redis _ _ _ _ _).
    - destruct (lock_net _ _); [done|]. by case_decide.
    - by destruct (lock_net _ _). }
  unfold accounts_ok in *. by rewrite Hm.
Qed.

Lemma sound_redis {A B} (P : B → Prop) (p : prog (RedisEff string) A) (k : A → task B) :
  (∀ a, sound P (k a)) → sound P (a ← redis p; k a).
Proof.
  intros Hk. induction p as [a|X e f IH]; [apply Hk|]. change (redis (Act e f)) with (x ← await (OnRedis e); redis (f x) : task A).
  apply (sound_plain P (OnRedis e) (λ x, a ← redis (f x); k a)); [done|]. apply IH.
Qed.

Lemma load_account_sound name :
  sound (λ r, ∀ a, r = Ok (Some a) → well_formed_account name a) (mongo (load_account d name)).
Proof.
  unfold load_account, load_model. cbn. intros w Hw. unfold handle_auth. cbn. split; [exact Hw|]. intros a Ha.
  destruct (mongo_net env (steps w)); [|done..]. cbn in Ha. destruct (document _ _ _) as [doc|] eqn:Hdoc; [|done]. cbn in Ha.
  destruct (from_bson_account_data (BsonDocument doc)) as [found|error] eqn:Hf; [|done]. cbn in Ha. simplify_eq.
  apply (Hw name doc); [done|]. by apply decoded_account.
Qed.

Lemma save_account_sound a : well_formed_account (AccountData_account a) a → sound (λ _, True) (mongo (save_account d a)).
Proof.
  intros Ha. unfold save_account, save_model. destruct (account_document a) as (doc & -> & Hdec). cbn. intros w Hw. split; [|done].
  unfold handle_auth. cbn. destruct (reaches _); [|exact Hw]. intros name doc' a' Hdoc Hdec'. cbn in Hdoc.
  destruct (decide (name = AccountData_account a)) as [->|Hne].
  - rewrite document_replace_eq in Hdoc. simplify_eq. done.
  - rewrite document_replace_ne in Hdoc by (intros [= ?%BsonString_inj]; congruence). by apply (Hw name doc').
Qed.

(** An answer of the robot's login request that is not an error. *)
Definition logged_in (account : string) (rsp : AuthLoginRsp) : Prop :=
  ∃ status, AuthLoginRsp_status rsp = Some status ∧
    (Status_code status = code.OK →
       AuthLoginRsp_account rsp = account ∧ AuthLoginRsp_token rsp ≠ ""
       ∧ ∃ role roles, AuthLoginRsp_roles rsp = role :: roles ∧ 0 < Role_gid role).

Definition account_loaded (name : string) (r : option (Result Status AccountData)) : Prop :=
  match r with
  | Some (Ok a) => well_formed_account name a
  | Some (Err status) => Status_code status ≠ code.OK
  | None => True
  end.

Lemma load_or_create_sound account credential : sound (account_loaded account) (load_or_create_account d account credential).
Proof using positive_ids.
  unfold load_or_create_account. apply sound_plain; [done|]. intros [[|]|error]; [|done..].
  apply (sound_bind _ _ (account_loaded account)); [|intros r Hr; by apply sound_plain].
  unfold load_or_create_account_locked. eapply sound_bind; [apply load_account_sound|]. intros [[found|]|error] Hload; [| |done].
  - cbn. specialize (Hload found eq_refl). by case_bool_decide.
  - intros w Hw. split; [exact Hw|]. cbn -[new_account]. intros w' Hw'. split; [exact Hw'|]. cbn -[new_account].
    set (created := new_account _ _ _ _). assert (well_formed_account account created) as Hok by (split; [done|apply positive_ids]).
    eapply sound_bind; [by apply save_account_sound|]. intros [[u|error]|] _; cbn; done.
Qed.

Lemma login_sound ip request : sound (λ r, ∀ rsp, r = Some rsp → logged_in (AuthLoginReq_account request) rsp) (login d ip request).
Proof using positive_ids issues_tokens.
  assert (∀ c m, c ≠ code.OK → sound (λ r, ∀ rsp, r = Some rsp → logged_in (AuthLoginReq_account request) rsp) (Ret (Some (login_error c m)))) as Herr.
  { intros c m Hc rsp [= <-]. eexists. split; [done|]. simpl. done. }
  unfold login, with_permit. apply sound_plain; [done|]. intros [|]; [|by apply Herr]. cbn [negb].
  eapply sound_bind; [|intros a Ha; apply sound_plain; [done|intros []; exact Ha]].
  destruct (AuthLoginReq_device request) as [device|]; [|by apply Herr]. destruct (invalid_login _ _); [by apply Herr|].
  apply sound_plain; [done|]. intros global. apply sound_plain; [done|]. intros per_ip.
  destruct global as [[|]|], per_ip as [[|]|]; try (by apply Herr).
  unfold issue_token. eapply sound_bind; [apply load_or_create_sound|]. intros [[a|status]|]; cbn [account_loaded]; [|intros Hc rsp [= <-]; by eexists|done].
  intros [Hname Hroles]. destruct (AccountData_roles a) as [|role roles]; [by apply Herr|].
  destruct (simple_token_encode _ _) as [token|error] eqn:Htoken; [|by apply Herr].
  apply sound_redis. intros [u|error]; [|by apply Herr]. intros rsp [= <-]. eexists. split; [done|]. cbn.
  intros _. split_and!; [done|by eapply issues_tokens|by eexists _, _].
Qed.

(** The answers of the role admission that are not errors: the request's
    player, and either endpoints or a place in the queue. *)
Definition admitted_or_queued (gid : Z) (r : option AuthUseRoleRsp) : Prop :=
  ∀ rsp, r = Some rsp → ∃ status, AuthUseRoleRsp_status rsp = Some status ∧
    (Status_code status = code.OK →
       AuthUseRoleRsp_gid rsp = gid
       ∧ match AuthUseRoleRsp_queue rsp with
         | None => AuthUseRoleRsp_endpoints rsp ≠ []
         | Some queue => AuthUseRoleRsp_endpoints rsp = [] ∧ 0 < LoginQueue_position queue ∧ 0 < LoginQueue_next_request_time queue
         end).

Lemma answer_error g c m : c ≠ code.OK → admitted_or_queued g (Some (use_role_error c m)).
Proof. intros Hc rsp [= <-]. eexists. split; [done|]. simpl. done. Qed.

Lemma queued_sound gid position : 0 < position →
  sound (admitted_or_queued gid) (now ← await UnixSeconds; Ret (Some (queued gid position now))).
Proof using clock_runs.
  intros Hpos w Hw. split; [exact Hw|]. intros rsp [= <-]. eexists. split; [done|]. intros _. cbn. split_and!; [done..|].
  pose proof (clock_runs (steps w)). unfold LOGIN_QUEUE_RETRY_SECONDS. rewrite wrap_i64_id; [lia|unfold is_i64; lia].
Qed.

Lemma admit_role_sound gid : sound (admitted_or_queued gid) (admit_role gid).
Proof.
  unfold admit_role. apply sound_plain; [done|]. intros [gate|e]; [|by apply answer_error].
  case_bool_decide as Hne; [by apply answer_error|]. apply sound_redis. intros [left'|]; [|done].
  intros rsp [= <-]. by eexists.
Qed.

Lemma take_position_sound gid available position : 0 < position → sound (admitted_or_queued gid) (take_position gid available position).
Proof using clock_runs.
  intros Hpos. unfold take_position. destruct (_ <? position).
  { apply sound_redis. intros [left'|]; [by apply answer_error|done]. }
  destruct (_ || _); [by apply queued_sound|]. apply sound_plain; [done|].
  intros [[|]|e]; [apply admit_role_sound|by apply queued_sound|by apply answer_error].
Qed.

(** Positions count from one. *)
Lemma enqueue_position key member now ttl net (s s' : SR) p :
  handle_redis script_error net _ (Atomically (enqueue_script key member now ttl)) s = (Ok p, s') → 0 < p.
Proof.
  unfold enqueue_script. cbn. destruct (call _ (ZREMRANGEBYSCORE_to _ _) s) as [[] s1].
  destruct (call _ (ZADD_NX _ _ _) s1) as [[] s2]. destruct (call _ (PEXPIRE _ _) s2) as [[] s3]. rewrite call_ZRANK.
  destruct (rank_of _ _) as [r|] eqn:Hr; destruct net; cbn; intros [= <- <-].
  pose proof (rank_bounds _ _ _ Hr). lia.
Qed.

Lemma wait_for_seat_sound gid : sound (admitted_or_queued gid) (wait_for_seat gid).
Proof using clock_runs.
  unfold wait_for_seat. apply sound_plain; [done|]. intros [gates|e]; [|by apply answer_error].
  apply sound_plain; [done|]. intros now. unfold enqueue_login. destruct (_ || _); [done|]. cbn -[handle_redis take_position].
  intros w Hw. unfold handle_auth. cbn -[handle_redis take_position].
  destruct (handle_redis _ _ _ _ _) as [[p|e] s] eqn:Hq; cbn -[take_position]; (split; [exact Hw|]); [|by apply answer_error].
  apply take_position_sound. apply (enqueue_position _ _ _ _ _ _ _ _ Hq).
Qed.

Lemma use_role_sound request : sound (admitted_or_queued (AuthUseRoleReq_gid request)) (use_role request).
Proof using clock_runs.
  unfold use_role, with_permit. apply sound_plain; [done|]. intros []; [|by apply answer_error]. cbn [negb].
  apply (sound_bind _ _ (admitted_or_queued (AuthUseRoleReq_gid request))); [|intros a Ha; by apply sound_plain].
  destruct (_ || _); [by apply answer_error|]. destruct (negb _); [by apply answer_error|].
  apply sound_redis. intros [[online|]|e]; [|by apply answer_error..].
  case_bool_decide; [apply wait_for_seat_sound|by apply answer_error].
Qed.

(** A request to Auth, and its answer. *)
Definition call : Type := option string * AuthLoginReq + AuthUseRoleReq.
Definition answer : Type := AuthLoginRsp + AuthUseRoleRsp.
Definition serve (c : call) : task (option answer) :=
  match c with
  | inl (ip, request) => rsp ← (login d ip request : task _); Ret (option_map inl rsp)
  | inr request => rsp ← (use_role request : task _); Ret (option_map inr rsp)
  end.

(** The robot reports an error with its code and message. *)
Definition reports_error {A} (operation : string) (status : Status) (r : Result RobotError A) : Prop :=
  r = Err (operation +:+ " failed: code=" +:+ pretty (Status_code status) +:+ " message=" +:+ Status_message status).

(** What the robot makes of an answer. *)
Definition understood (c : call) (a : answer) : Prop :=
  match c, a with
  | inl (_, request), inl rsp =>
      ∃ status, AuthLoginRsp_status rsp = Some status ∧
        let r := validate_auth_login (AuthLoginReq_account request) rsp in
        if Status_code status =? code.OK
        then ∃ role roles, AuthLoginRsp_roles rsp = role :: roles ∧ r = Ok (Role_gid role, AuthLoginRsp_token rsp)
        else reports_error "Auth login" status r
  | inr request, inr rsp =>
      ∃ status, AuthUseRoleRsp_status rsp = Some status ∧
        let r := admission_of (AuthUseRoleReq_gid request) rsp in
        if Status_code status =? code.OK
        then match AuthUseRoleRsp_queue rsp with
             | None => r = Ok (inl (AuthUseRoleRsp_endpoints rsp))
             | Some queue => r = Ok (inr queue) ∧ 0 < LoginQueue_position queue ∧ 0 < LoginQueue_next_request_time queue
             end
        else reports_error "Auth use-role" status r
  | _, _ => False
  end.

Lemma logged_in_understood ip request rsp : logged_in (AuthLoginReq_account request) rsp → understood (inl (ip, request)) (inl rsp).
Proof using Type.
  intros (status & Hstatus & Hok). exists status. split; [done|]. unfold validate_auth_login, require_ok. rewrite Hstatus.
  destruct (Z.eqb_spec (Status_code status) code.OK) as [Heq|Hne]; [|done].
  destruct (Hok Heq) as (Haccount & Htoken & role & roles & Hroles & Hgid). exists role, roles. split; [done|].
  cbn. rewrite (bool_decide_eq_true_2 _ Haccount), Hroles. cbn. replace (Role_gid role <=? 0) with false by lia.
  apply is_empty_false in Htoken. by rewrite Htoken.
Qed.

Lemma admitted_understood request rsp : admitted_or_queued (AuthUseRoleReq_gid request) (Some rsp) → understood (inr request) (inr rsp).
Proof using Type.
  intros Hrsp. destruct (Hrsp rsp eq_refl) as (status & Hstatus & Hok).
  exists status. split; [done|]. unfold admission_of, require_ok. rewrite Hstatus. destruct (Z.eqb_spec (Status_code status) code.OK) as [Heq|Hne]; [|done].
  destruct (Hok Heq) as [-> Hshape]. cbn. rewrite Z.eqb_refl. cbn.
  destruct (AuthUseRoleRsp_queue rsp) as [queue|]; [|by rewrite bool_decide_eq_false_2].
  destruct Hshape as (He & ? & ?). by rewrite bool_decide_eq_true_2.
Qed.

Lemma serve_sound c : sound (λ r, ∀ a, r = Some a → understood c a) (serve c).
Proof using positive_ids issues_tokens clock_runs.
  destruct c as [[ip request]|request]; cbn [serve].
  - eapply sound_bind; [apply login_sound|]. intros [rsp|] Hrsp a [= <-]. by apply logged_in_understood, Hrsp.
  - eapply sound_bind; [apply use_role_sound|]. intros [rsp|] Hrsp a [= <-]. by apply admitted_understood.
Qed.

(** C37: Auth and its client agree.  A robot whose configuration is valid is
    never refused for the form of its login.  And however login and role
    requests interleave at Auth, as long as the stored accounts are well
    formed, which the handlers preserve: the robot takes every login answer
    that is not an error as the id of the first role and the token; it takes
    every role answer that is not an error as the endpoints or as a valid
    place in the queue; and it reports every other answer with the code and
    the message it carries.  It is assumed that generated ids are positive,
    that no issued token is empty, and that the clock of Auth is past 1970 and
    in range. *)
Theorem robot_understands_auth `{!ConfigErrors} config calls schedule (w : World) :
  RobotConfig.validate config = Ok tt → accounts_ok w →
  (∃ device, AuthLoginReq_device (login_request config) = Some device ∧ invalid_login (login_request config) device = false)
  ∧ let '(pool, w') := interleave handle schedule (map serve calls, w) in
    accounts_ok w'
    ∧ ∀ i c a, calls !! i = Some c → pool !! i = Some (Ret (Some a)) → understood c a.
Proof using positive_ids issues_tokens clock_runs.
  intros Hvalid Hw. unfold RobotConfig.validate in Hvalid. autorewrite with config in Hvalid. split.
  - eexists. split; [done|]. unfold invalid_login, login_request. cbn.
    destruct Hvalid as (_ & [Ha Hal] & [Hc Hcl] & Hd & _).
    rewrite !bool_decide_eq_false_2 by done. repeat rewrite (proj2 (Z.ltb_ge _ _)) by done. done.
  - set (Q := λ i r, ∀ c a, calls !! i = Some c → r = Some a → understood c a).
    pose proof (sound_interleave handle accounts_ok Q schedule (map serve calls, w)) as Hrun.
    destruct (interleave handle schedule _) as [pool w']. destruct Hrun as [Hpool Hw'].
    + intros i p Hi. subst Q. simpl in *. revert i Hi. induction calls as [|c cs IH]; intros [|i] Hi; simplify_eq/=; [|by apply IH].
      eapply sound_mono; [|apply serve_sound]. intros r Hr c' a [= <-]. apply Hr.
    + done.
    + split; [done|]. intros i c a Hc Hi. by apply (Hpool i _ Hi c a).
Qed.
End auth.


(** ** A robot that logs in and asks for a Gate *)

Module agreement_example.
#[global] Existing Instance config_example.errors.
Definition env : AuthEnv (E := bson_error) :=
  mkAuthEnv (λ _, Up) (λ _, Up) (λ _ _ _, Ok true) (λ _, None) (λ _, Ok [auth_example.gate]) (λ _, Ok auth_example.gate) (λ _, 1000) (λ n, 100 + Z.of_nat n).
Definition calls : list call :=
  [inl (None, login_request robot_example.config); inr (mkAuthUseRoleReq 105 "xkk-robot-device105" "xkk-robot-device")].
Definition schedule : list nat := replicate 10 0%nat ++ [1; 1; 0]%nat ++ replicate 10 1%nat.

(** The code of a finished request. *)
Definition code_of (p : prog (AuthEff bson_error) (option answer)) : option Z :=
  match p with
  | Ret (Some (inl rsp)) => Status_code <$> AuthLoginRsp_status rsp
  | Ret (Some (inr rsp)) => Status_code <$> AuthUseRoleRsp_status rsp
  | _ => None
  end.
End agreement_example.

Lemma script_issues_tokens gid device token : simple_token_encode gid device = Ok token → token ≠ "".
Proof.
  simpl. case_decide as Hdec; [|discriminate]. intros [= <-] Heq. simpl in Hdec. rewrite Heq in Hdec.
  destruct device as [|a device]; [done|discriminate Heq].
Qed.

Lemma robot_understands_auth_witness :
  let pool := (interleave (handle_auth "script" agreement_example.env) agreement_example.schedule
                 (map (serve auth_example.catalog) agreement_example.calls, auth_example.world)).1 in
  map agreement_example.code_of pool = [Some code.OK; Some code.OK]
  ∧ ∃ a b, pool = [Ret (Some a); Ret (Some b)]
      ∧ understood (inl (None, login_request robot_example.config)) a
      ∧ understood (inr (mkAuthUseRoleReq 105 "xkk-robot-device105" "xkk-robot-device")) b.
Proof.
  intros pool. assert (map agreement_example.code_of pool = [Some code.OK; Some code.OK]) as Hcodes by (vm_compute; reflexivity).
  split; [exact Hcodes|].
  pose proof (robot_understands_auth "script" agreement_example.env auth_example.catalog) as H.
  specialize (H ltac:(intros n; simpl; lia)).
  specialize (H script_issues_tokens ltac:(intros n; simpl; lia) _ robot_example.config agreement_example.calls agreement_example.schedule
    auth_example.world ltac:(vm_compute; reflexivity) ltac:(by intros name doc a)).
  destruct H as [_ H]. subst pool. destruct (interleave _ _ _) as [pool w']. destruct H as [_ H]. cbn [fst] in *.
  destruct pool as [|[[[a|a]|]|] [|[[[b|b]|]|] [|]]]; try discriminate Hcodes; (do 2 eexists; split; [reflexivity|]);
    (split; [apply (H 0%nat); reflexivity|apply (H 1%nat); reflexivity]).
Defined.
