(* ===== verification/Metrics.v ===== *)
(** The overload reports of the services (the [spawn_metrics] of
    src/service/*/src/service.rs): at every tick a service compares the
    counters of what it rejected with those of the tick before, and logs an
    error for each that grew.  Each service keeps the totals it reported last
    in variables of its own.  The gauges of the information log are in
    Gauges.v. *)

From S2P Require Import Prelude LogicStats LogicAdmission Services.

#[local] Open Scope string_scope.
#[local] Open Scope list_scope.
#[local] Open Scope Z_scope.

(** The counters of the framework. *)
Record ListenerStats := mkListenerStats {
  listener_outbound_rejected_full : Z;
  rejected_external_handshakes : Z;
  rejected_external_connections : Z
}.
Record FrameStats := mkFrameStats {
  pending_rejected : Z;
  sessions_outbound_rejected_full : Z;
  frame_listeners : list ListenerStats
}.

(** The limits of the network library that the reports name. *)
Class XnetLimits := { DEFAULT_EXTERNAL_WRITE_QUEUE_CAPACITY : Z; DEFAULT_INTERNAL_WRITE_QUEUE_CAPACITY : Z }.

Record Report := mkReport { report_message : string; increase : Z; report_total : Z; report_limits : list Z }.

(** The blocks of a tick, each of which may log a report, in order. *)
Fixpoint blocks {L : Type} (bs : list (L → option Report * L)) (l : L) : list Report * L :=
  match bs with
  | [] => ([], l)
  | b :: bs =>
      let '(report, l) := b l in
      let '(reports, l) := blocks bs l in
      (option_list report ++ reports, l)
  end.

(** [iter().map(f).sum::<u64>()] *)
Definition sum_listeners (f : ListenerStats → Z) (stats : FrameStats) : Z :=
  foldl (λ sum l, wrap_u64 (sum + f l)) 0 (frame_listeners stats).

Definition write_queue_rejected (stats : FrameStats) : Z :=
  wrap_u64 (sessions_outbound_rejected_full stats + sum_listeners listener_outbound_rejected_full stats).

Module GateTick.
(** The [last_*] variables of the task. *)
Record Lasts := mkLasts {
  last_rpc_pending_rejected : Z;
  last_write_queue_rejected : Z;
  last_handshakes_rejected : Z;
  last_connections_rejected : Z
}.
Definition eta_Lasts (s : Lasts) : Lasts :=
  mkLasts (last_rpc_pending_rejected s) (last_write_queue_rejected s) (last_handshakes_rejected s)
    (last_connections_rejected s).
Definition on_last_rpc_pending_rejected : (Z → Z) → Lasts → Lasts := ltac:(derive_update eta_Lasts last_rpc_pending_rejected).
Definition on_last_write_queue_rejected : (Z → Z) → Lasts → Lasts := ltac:(derive_update eta_Lasts last_write_queue_rejected).
Definition on_last_handshakes_rejected : (Z → Z) → Lasts → Lasts := ltac:(derive_update eta_Lasts last_handshakes_rejected).
Definition on_last_connections_rejected : (Z → Z) → Lasts → Lasts := ltac:(derive_update eta_Lasts last_connections_rejected).
Definition values (l : Lasts) : list Z :=
  [last_rpc_pending_rejected l; last_write_queue_rejected l; last_handshakes_rejected l; last_connections_rejected l].
Definition tick `{!XnetLimits} (stats : FrameStats) : Lasts → list Report * Lasts :=
  let write_queue_rejected := write_queue_rejected stats in
  let handshakes_rejected := sum_listeners rejected_external_handshakes stats in
  let connections_rejected := sum_listeners rejected_external_connections stats in
  blocks [
  λ l, if last_rpc_pending_rejected l <? pending_rejected stats
       then (Some (mkReport "Gate RPC pending hard limit exceeded"
                     (pending_rejected stats - last_rpc_pending_rejected l) (pending_rejected stats) [GATE_RPC_PENDING_CAPACITY]),
             on_last_rpc_pending_rejected (λ _, pending_rejected stats) l)
       else (None, l);
  λ l, if last_write_queue_rejected l <? write_queue_rejected
       then (Some (mkReport "Gate write queue hard limit exceeded"
                     (write_queue_rejected - last_write_queue_rejected l) write_queue_rejected
                     [DEFAULT_EXTERNAL_WRITE_QUEUE_CAPACITY; DEFAULT_INTERNAL_WRITE_QUEUE_CAPACITY]),
             on_last_write_queue_rejected (λ _, write_queue_rejected) l)
       else (None, l);
  λ l, if last_handshakes_rejected l <? handshakes_rejected
       then (Some (mkReport "Gate external handshake hard limit exceeded"
                     (handshakes_rejected - last_handshakes_rejected l) handshakes_rejected [MAX_EXTERNAL_HANDSHAKES]),
             on_last_handshakes_rejected (λ _, handshakes_rejected) l)
       else (None, l);
  λ l, if last_connections_rejected l <? connections_rejected
       then (Some (mkReport "Gate external connection hard limit exceeded"
                     (connections_rejected - last_connections_rejected l) connections_rejected [MAX_EXTERNAL_CONNECTIONS]),
             on_last_connections_rejected (λ _, connections_rejected) l)
       else (None, l)
  ].
End GateTick.

Module LogicTick.
Record Lasts := mkLasts {
  last_rpc_pending_rejected : Z;
  last_write_queue_rejected : Z;
  last_rejected_calls : Z;
  last_rejected_kib : Z;
  last_rejected_gid : Z;
  last_rejected_dirty : Z
}.
Definition eta_Lasts (s : Lasts) : Lasts :=
  mkLasts (last_rpc_pending_rejected s) (last_write_queue_rejected s) (last_rejected_calls s)
    (last_rejected_kib s) (last_rejected_gid s) (last_rejected_dirty s).
Definition on_last_rpc_pending_rejected : (Z → Z) → Lasts → Lasts := ltac:(derive_update eta_Lasts last_rpc_pending_rejected).
Definition on_last_write_queue_rejected : (Z → Z) → Lasts → Lasts := ltac:(derive_update eta_Lasts last_write_queue_rejected).
Definition on_last_rejected_calls : (Z → Z) → Lasts → Lasts := ltac:(derive_update eta_Lasts last_rejected_calls).
Definition on_last_rejected_kib : (Z → Z) → Lasts → Lasts := ltac:(derive_update eta_Lasts last_rejected_kib).
Definition on_last_rejected_gid : (Z → Z) → Lasts → Lasts := ltac:(derive_update eta_Lasts last_rejected_gid).
Definition on_last_rejected_dirty : (Z → Z) → Lasts → Lasts := ltac:(derive_update eta_Lasts last_rejected_dirty).
Definition values (l : Lasts) : list Z :=
  [last_rpc_pending_rejected l; last_write_queue_rejected l; last_rejected_calls l;
   last_rejected_kib l; last_rejected_gid l; last_rejected_dirty l].
Definition tick `{!XnetLimits} '((stats, logic) : FrameStats * LogicStats.t) : Lasts → list Report * Lasts :=
  let write_queue_rejected := write_queue_rejected stats in
  let hard := LogicConfig.HARD_LIMITS in
  blocks [
  λ l, if last_rpc_pending_rejected l <? pending_rejected stats
       then (Some (mkReport "Logic RPC pending hard limit exceeded"
                     (pending_rejected stats - last_rpc_pending_rejected l) (pending_rejected stats) [LOGIC_RPC_PENDING_CAPACITY]),
             on_last_rpc_pending_rejected (λ _, pending_rejected stats) l)
       else (None, l);
  λ l, if last_write_queue_rejected l <? write_queue_rejected
       then (Some (mkReport "Logic write queue hard limit exceeded"
                     (write_queue_rejected - last_write_queue_rejected l) write_queue_rejected [DEFAULT_INTERNAL_WRITE_QUEUE_CAPACITY]),
             on_last_write_queue_rejected (λ _, write_queue_rejected) l)
       else (None, l);
  λ l, if last_rejected_calls l <? LogicStats.rejected_calls logic
       then (Some (mkReport "Logic inflight call hard limit exceeded"
                     (LogicStats.rejected_calls logic - last_rejected_calls l) (LogicStats.rejected_calls logic)
                     [LogicConfig.max_inflight_calls hard]),
             on_last_rejected_calls (λ _, LogicStats.rejected_calls logic) l)
       else (None, l);
  λ l, if last_rejected_kib l <? LogicStats.rejected_kib logic
       then (Some (mkReport "Logic inflight payload hard limit exceeded"
                     (LogicStats.rejected_kib logic - last_rejected_kib l) (LogicStats.rejected_kib logic)
                     [LogicConfig.max_inflight_kib hard]),
             on_last_rejected_kib (λ _, LogicStats.rejected_kib logic) l)
       else (None, l);
  λ l, if last_rejected_gid l <? LogicStats.rejected_gid logic
       then (Some (mkReport "Logic per-player mailbox hard limit exceeded"
                     (LogicStats.rejected_gid logic - last_rejected_gid l) (LogicStats.rejected_gid logic)
                     [LogicConfig.max_calls_per_gid hard; LogicConfig.max_kib_per_gid hard]),
             on_last_rejected_gid (λ _, LogicStats.rejected_gid logic) l)
       else (None, l);
  λ l, if last_rejected_dirty l <? LogicStats.rejected_dirty logic
       then (Some (mkReport "Logic dirty player hard limit exceeded"
                     (LogicStats.rejected_dirty logic - last_rejected_dirty l) (LogicStats.rejected_dirty logic)
                     [LogicConfig.max_dirty_players hard]),
             on_last_rejected_dirty (λ _, LogicStats.rejected_dirty logic) l)
       else (None, l)
  ].
End LogicTick.

Module AuthTick.
Definition tick (stats : FrameStats) (last_rpc_pending_rejected : Z) : list Report * Z :=
  if last_rpc_pending_rejected <? pending_rejected stats
  then ([mkReport "Auth RPC pending hard limit exceeded"
           (pending_rejected stats - last_rpc_pending_rejected) (pending_rejected stats) [AUTH_RPC_PENDING_CAPACITY]],
        pending_rejected stats)
  else ([], last_rpc_pending_rejected).
End AuthTick.

Module QueryTick.
Definition tick (stats : FrameStats) (last_rpc_pending_rejected : Z) : list Report * Z :=
  if last_rpc_pending_rejected <? pending_rejected stats
  then ([mkReport "Query RPC pending hard limit exceeded"
           (pending_rejected stats - last_rpc_pending_rejected) (pending_rejected stats) [QUERY_RPC_PENDING_CAPACITY]],
        pending_rejected stats)
  else ([], last_rpc_pending_rejected).
End QueryTick.

Module PublicTick.
Record Lasts := mkLasts {
  last_rpc_pending_rejected : Z;
  last_write_queue_rejected : Z;
  last_player_cache_evictions : Z
}.
Definition eta_Lasts (s : Lasts) : Lasts :=
  mkLasts (last_rpc_pending_rejected s) (last_write_queue_rejected s) (last_player_cache_evictions s).
Definition on_last_rpc_pending_rejected : (Z → Z) → Lasts → Lasts := ltac:(derive_update eta_Lasts last_rpc_pending_rejected).
Definition on_last_write_queue_rejected : (Z → Z) → Lasts → Lasts := ltac:(derive_update eta_Lasts last_write_queue_rejected).
Definition on_last_player_cache_evictions : (Z → Z) → Lasts → Lasts := ltac:(derive_update eta_Lasts last_player_cache_evictions).
Definition values (l : Lasts) : list Z := [last_rpc_pending_rejected l; last_write_queue_rejected l; last_player_cache_evictions l].
(** The statistics of the frame, and the evictions and the capacity of the
    player cache. *)
Definition tick `{!XnetLimits} '((stats, evictions, capacity) : FrameStats * Z * Z) : Lasts → list Report * Lasts :=
  let write_queue_rejected := write_queue_rejected stats in
  blocks [
  λ l, if last_rpc_pending_rejected l <? pending_rejected stats
       then (Some (mkReport "Public RPC pending hard limit exceeded"
                     (pending_rejected stats - last_rpc_pending_rejected l) (pending_rejected stats) [PUBLIC_RPC_PENDING_CAPACITY]),
             on_last_rpc_pending_rejected (λ _, pending_rejected stats) l)
       else (None, l);
  λ l, if last_write_queue_rejected l <? write_queue_rejected
       then (Some (mkReport "Public write queue hard limit exceeded"
                     (write_queue_rejected - last_write_queue_rejected l) write_queue_rejected [DEFAULT_INTERNAL_WRITE_QUEUE_CAPACITY]),
             on_last_write_queue_rejected (λ _, write_queue_rejected) l)
       else (None, l);
  λ l, if last_player_cache_evictions l <? evictions
       then (Some (mkReport "Public player cache hard limit exceeded"
                     (evictions - last_player_cache_evictions l) evictions [capacity]),
             on_last_player_cache_evictions (λ _, evictions) l)
       else (None, l)
  ].
End PublicTick.

(** ** What the reports should say

    A counter at a tick: the message it is logged with, its total and the
    limits named in the report.  A tick compares each with the total it was
    last reported at. *)
Record Counter := mkCounter { message : string; total : Z; limits : list Z }.

Definition report_increase (c : Counter) (last : Z) : option Report * Z :=
  if last <? total c then (Some (mkReport (message c) (total c - last) (total c) (limits c)), total c) else (None, last).

Fixpoint columns (counters : list Counter) (lasts : list Z) : list Report * list Z :=
  match counters, lasts with
  | c :: counters, last :: lasts =>
      let '(report, last') := report_increase c last in
      let '(reports, lasts') := columns counters lasts in
      (option_list report ++ reports, last' :: lasts')
  | _, _ => ([], lasts)
  end.

(** The counters of each service. *)
Section services.
Context `{!XnetLimits}.

Definition gate_counters (stats : FrameStats) : list Counter := [
  mkCounter "Gate RPC pending hard limit exceeded" (pending_rejected stats) [GATE_RPC_PENDING_CAPACITY];
  mkCounter "Gate write queue hard limit exceeded" (write_queue_rejected stats)
    [DEFAULT_EXTERNAL_WRITE_QUEUE_CAPACITY; DEFAULT_INTERNAL_WRITE_QUEUE_CAPACITY];
  mkCounter "Gate external handshake hard limit exceeded" (sum_listeners rejected_external_handshakes stats) [MAX_EXTERNAL_HANDSHAKES];
  mkCounter "Gate external connection hard limit exceeded" (sum_listeners rejected_external_connections stats) [MAX_EXTERNAL_CONNECTIONS]
].

Definition logic_counters '((stats, logic) : FrameStats * LogicStats.t) : list Counter :=
  let hard := LogicConfig.HARD_LIMITS in [
  mkCounter "Logic RPC pending hard limit exceeded" (pending_rejected stats) [LOGIC_RPC_PENDING_CAPACITY];
  mkCounter "Logic write queue hard limit exceeded" (write_queue_rejected stats) [DEFAULT_INTERNAL_WRITE_QUEUE_CAPACITY];
  mkCounter "Logic inflight call hard limit exceeded" (LogicStats.rejected_calls logic) [LogicConfig.max_inflight_calls hard];
  mkCounter "Logic inflight payload hard limit exceeded" (LogicStats.rejected_kib logic) [LogicConfig.max_inflight_kib hard];
  mkCounter "Logic per-player mailbox hard limit exceeded" (LogicStats.rejected_gid logic)
    [LogicConfig.max_calls_per_gid hard; LogicConfig.max_kib_per_gid hard];
  mkCounter "Logic dirty player hard limit exceeded" (LogicStats.rejected_dirty logic) [LogicConfig.max_dirty_players hard]
].

Definition auth_counters (stats : FrameStats) : list Counter :=
  [mkCounter "Auth RPC pending hard limit exceeded" (pending_rejected stats) [AUTH_RPC_PENDING_CAPACITY]].

Definition query_counters (stats : FrameStats) : list Counter :=
  [mkCounter "Query RPC pending hard limit exceeded" (pending_rejected stats) [QUERY_RPC_PENDING_CAPACITY]].

Definition public_counters '((stats, evictions, capacity) : FrameStats * Z * Z) : list Counter := [
  mkCounter "Public RPC pending hard limit exceeded" (pending_rejected stats) [PUBLIC_RPC_PENDING_CAPACITY];
  mkCounter "Public write queue hard limit exceeded" (write_queue_rejected stats) [DEFAULT_INTERNAL_WRITE_QUEUE_CAPACITY];
  mkCounter "Public player cache hard limit exceeded" evictions [capacity]
].
End services.

(** The ticks of a run: the reports of every tick, and the last totals. *)
Fixpoint run_ticks {Sample L : Type} (tick : Sample → L → list Report * L) (samples : list Sample) (lasts : L) : list (list Report) * L :=
  match samples with
  | [] => ([], lasts)
  | sample :: samples =>
      let '(reports, lasts') := tick sample lasts in
      let '(rest, final) := run_ticks tick samples lasts' in
      (reports :: rest, final)
  end.

(** What was reported under a message. *)
Definition reported (m : string) (reports : list Report) : Z :=
  foldr (λ r sum, if decide (report_message r = m) then increase r + sum else sum) 0 reports.

Definition messages (counters : list Counter) : list string := message <$> counters.

Lemma reported_app m r r' : reported m (r ++ r') = reported m r + reported m r'.
Proof. induction r as [|x r IH]; [done|]. simpl. case_decide; lia. Qed.

Lemma reported_other counters lasts m : m ∉ messages counters → reported m (columns counters lasts).1 = 0.
Proof.
  revert lasts. induction counters as [|c counters IH]; intros [|last lasts] Hm; try done. simpl in *.
  apply not_elem_of_cons in Hm as [Hne Hm]. specialize (IH lasts Hm). unfold report_increase.
  destruct (last <? total c), (columns counters lasts) as [reports lasts']; simpl in *; [|done]. by rewrite decide_False.
Qed.

Lemma columns_column counters lasts i c last : length lasts = length counters → NoDup (messages counters) →
  counters !! i = Some c → lasts !! i = Some last →
  reported (message c) (columns counters lasts).1 = Z.max last (total c) - last ∧ (columns counters lasts).2 !! i = Some (Z.max last (total c)).
Proof.
  revert lasts i. induction counters as [|d counters IH]; intros [|l lasts] i Hlen Hnd Hc Hl; simplify_eq/=.
  apply NoDup_cons in Hnd as [Hd Hnd]. unfold report_increase. destruct i as [|i]; simplify_eq/=.
  - pose proof (reported_other counters lasts (message c) Hd) as Hother. destruct (columns counters lasts) as [reports lasts'].
    simpl in Hother. destruct (Z.ltb_spec last (total c)); simpl; rewrite ?decide_True by done; (split; [lia|f_equal; lia]).
  - destruct (IH lasts i Hlen Hnd Hc Hl) as [Hrep Hlast]. destruct (columns counters lasts) as [reports lasts']. simpl in *.
    assert (message d ≠ message c) as Hne.
    { intros Heq. apply Hd. rewrite Heq. apply list_elem_of_fmap_2. by eapply list_elem_of_lookup_2. }
    destruct (l <? total d); simpl; rewrite ?decide_False by done; done.
Qed.

Lemma columns_length counters lasts : length (columns counters lasts).2 = length lasts.
Proof.
  revert lasts. induction counters as [|c counters IH]; intros [|l lasts]; try done. simpl. unfold report_increase.
  specialize (IH lasts). destruct (l <? total c), (columns counters lasts); simpl in *; congruence.
Qed.

Lemma columns_positive counters lasts : Forall (λ l, 0 <= l) lasts →
  Forall (λ r, 0 < increase r <= report_total r) (columns counters lasts).1 ∧ Forall (λ l, 0 <= l) (columns counters lasts).2.
Proof.
  revert lasts. induction counters as [|c counters IH]; intros [|l lasts] Hl; try done. simpl. unfold report_increase.
  apply Forall_cons in Hl as [Hl Hls]. destruct (IH lasts Hls) as [Hr Hl']. destruct (columns counters lasts) as [reports lasts'].
  simpl in *. destruct (Z.ltb_spec l (total c)); simpl; split; repeat (constructor; simpl); try done; lia.
Qed.

(** The highest total of the [i]-th counter, at least [last]. *)
Definition highest (i : nat) (last : Z) (ticks : list (list Counter)) : Z :=
  foldl (λ high counters, from_option (λ c, Z.max high (total c)) high (counters !! i)) last ticks.

Lemma columns_add_up ticks names lasts : NoDup names → Forall (λ counters, messages counters = names) ticks →
  length lasts = length names → Forall (λ l, 0 <= l) lasts →
  Forall (Forall (λ r, 0 < increase r <= report_total r)) (run_ticks columns ticks lasts).1
  ∧ ∀ i m last, names !! i = Some m → lasts !! i = Some last →
      reported m (concat (run_ticks columns ticks lasts).1) = highest i last ticks - last
      ∧ (run_ticks columns ticks lasts).2 !! i = Some (highest i last ticks).
Proof.
  intros Hnd Hnames. revert lasts. induction Hnames as [|counters ticks Hc Hnames IH]; intros lasts Hlen Hpos.
  { split; [constructor|]. intros i m last _ Hl. simpl. split; [lia|done]. }
  simpl. destruct (columns_positive counters lasts Hpos) as [Hreports Hpos'].
  assert (length lasts = length counters) as Hlenc by (rewrite Hlen, <- Hc; apply length_fmap).
  destruct (IH (columns counters lasts).2) as [Hrest Hcolumns]; [by rewrite columns_length|done|].
  split.
  - destruct (columns counters lasts) as [reports lasts']. simpl in *. destruct (run_ticks columns ticks lasts') as [rest final]. by constructor.
  - intros i m last Hm Hl. rewrite <- Hc in Hm. unfold messages in Hm. rewrite list_lookup_fmap in Hm.
    destruct (counters !! i) as [c|] eqn:Hi; [|done]. simpl in Hm. injection Hm as <-.
    destruct (columns_column counters lasts i c last Hlenc ltac:(by rewrite Hc) Hi Hl) as [Hrep Hnext].
    destruct (Hcolumns i (message c) (Z.max last (total c))) as [Hsum Hfinal]; [|done|].
    { rewrite <- Hc. unfold messages. by rewrite list_lookup_fmap, Hi. }
    destruct (columns counters lasts) as [reports lasts']. simpl in *. destruct (run_ticks columns ticks lasts') as [rest final]. simpl in *.
    rewrite reported_app, Hrep, Hsum. split; [lia|done].
Qed.

(** A tick with named variables does what the columns do. *)
Definition follows {Sample L : Type} (tick : Sample → L → list Report * L) (counters : Sample → list Counter) (values : L → list Z) : Prop :=
  ∀ sample l, let '(reports, l') := tick sample l in columns (counters sample) (values l) = (reports, values l').

Lemma run_follows {Sample L : Type} (tick : Sample → L → list Report * L) counters values samples l : follows tick counters values →
  let '(reports, l') := run_ticks tick samples l in run_ticks columns (counters <$> samples) (values l) = (reports, values l').
Proof.
  intros Hf. revert l. induction samples as [|sample samples IH]; intros l; [done|]. cbn [run_ticks fmap list_fmap].
  specialize (Hf sample l). destruct (tick sample l) as [reports l']. rewrite Hf. specialize (IH l').
  destruct (run_ticks tick samples l') as [rest final]. by rewrite IH.
Qed.

(** The reports of a service, for its counters under [names], from any last
    totals. *)
Definition adds_up {Sample L : Type} (tick : Sample → L → list Report * L) (counters : Sample → list Counter) (values : L → list Z)
    (names : list string) : Prop :=
  ∀ samples lasts, Forall (λ l, 0 <= l) (values lasts) →
    let '(reports, final) := run_ticks tick samples lasts in
    Forall (Forall (λ r, 0 < increase r <= report_total r)) reports
    ∧ ∀ i m last, names !! i = Some m → values lasts !! i = Some last →
        reported m (concat reports) = highest i last (counters <$> samples) - last
        ∧ values final !! i = Some (highest i last (counters <$> samples)).

Lemma follows_adds_up {Sample L : Type} (tick : Sample → L → list Report * L) counters values names : follows tick counters values →
  NoDup names → (∀ sample, messages (counters sample) = names) → (∀ l, length (values l) = length names) → adds_up tick counters values names.
Proof.
  intros Hf Hnd Hnames Hlen samples lasts Hpos. pose proof (run_follows tick counters values samples lasts Hf) as Hrun.
  destruct (run_ticks tick samples lasts) as [reports final].
  assert (Forall (λ cs, messages cs = names) (counters <$> samples)) as Hall by (apply Forall_fmap, Forall_true; apply Hnames).
  pose proof (columns_add_up (counters <$> samples) names (values lasts) Hnd Hall (Hlen lasts) Hpos) as H. by rewrite Hrun in H.
Qed.

Definition gate_names : list string := ["Gate RPC pending hard limit exceeded"; "Gate write queue hard limit exceeded";
  "Gate external handshake hard limit exceeded"; "Gate external connection hard limit exceeded"].
Definition logic_names : list string := ["Logic RPC pending hard limit exceeded"; "Logic write queue hard limit exceeded";
  "Logic inflight call hard limit exceeded"; "Logic inflight payload hard limit exceeded";
  "Logic per-player mailbox hard limit exceeded"; "Logic dirty player hard limit exceeded"].
Definition public_names : list string := ["Public RPC pending hard limit exceeded"; "Public write queue hard limit exceeded";
  "Public player cache hard limit exceeded"].
Definition only (last : Z) : list Z := [last].

Ltac columns_follow :=
  apply follows_adds_up;
    [ intros sample l; repeat match goal with H : (_ * _)%type |- _ => destruct H end; destruct l;
      cbv -[write_queue_rejected sum_listeners Z.ltb Z.sub wrap_u64];
      repeat match goal with |- context [Z.ltb ?a ?b] => destruct (Z.ltb a b) end; reflexivity
    | apply (bool_decide_unpack _); vm_compute; exact I
    | intros sample; repeat match goal with H : (_ * _)%type |- _ => destruct H end; done
    | done ].

(** C39: over any run of the reporting task of each of the five services,
    whatever the counters do, the increases that are reported under a message
    add up to the highest total the counter of that message reached, less the
    total the run started from, so nothing is reported twice and nothing is
    left out; every report is of a positive increase that does not exceed the
    total, so the subtraction of the unsigned counters never wraps. *)
Theorem reports_add_up `{!XnetLimits} :
  adds_up GateTick.tick gate_counters GateTick.values gate_names
  ∧ adds_up LogicTick.tick logic_counters LogicTick.values logic_names
  ∧ adds_up AuthTick.tick auth_counters only ["Auth RPC pending hard limit exceeded"]
  ∧ adds_up QueryTick.tick query_counters only ["Query RPC pending hard limit exceeded"]
  ∧ adds_up PublicTick.tick public_counters PublicTick.values public_names.
Proof.
  split_and!; columns_follow.
Qed.

Module metrics_example.
#[export] Instance limits : XnetLimits := {| DEFAULT_EXTERNAL_WRITE_QUEUE_CAPACITY := 256; DEFAULT_INTERNAL_WRITE_QUEUE_CAPACITY := 4096 |}.
Definition stats (rpc queue : Z) : FrameStats := mkFrameStats rpc queue [mkListenerStats 1 2 0; mkListenerStats 0 5 0].
Definition samples : list FrameStats := [stats 0 0; stats 7 2; stats 9 2].
Definition start : GateTick.Lasts := GateTick.mkLasts 0 0 0 0.
End metrics_example.
Import metrics_example.

Lemma reports_add_up_witness :
  let r := run_ticks GateTick.tick samples start in
  map (map increase) r.1 = [[1; 7]; [7; 2]; [2]]
  ∧ reported "Gate RPC pending hard limit exceeded" (concat r.1) = 9.
Proof.
  intros r. split; [vm_compute; reflexivity|].
  assert (Forall (λ l, 0 <= l) (GateTick.values start)) as Hstart by (apply (bool_decide_unpack _); vm_compute; exact I).
  destruct reports_add_up as [Hgate _]. specialize (Hgate samples start Hstart). subst r.
  destruct (run_ticks GateTick.tick samples start) as [reports final]. destruct Hgate as [_ H].
  destruct (H 0%nat _ 0 eq_refl eq_refl) as [Hsum _]. exact Hsum.
Defined.
