(* ===== verification/Gauges.v ===== *)
(** The information log of the services: what each [spawn_metrics] of
    src/service/*/src/service.rs reports at a tick, and the counters of the
    player cache of Public (src/persist/src/public_players.rs).  A log entry is
    the list of its fields; computing one panics only where a percentile does. *)

From S2P Require Import Prelude Latency LatencyRank LogicStats GateStats GateSessions.
From Stdlib Require Import Floats.SpecFloat.

#[local] Open Scope string_scope.
#[local] Open Scope list_scope.
#[local] Open Scope Z_scope.

(** ** The player cache of Public *)

Module PublicMetrics.

Record Metrics := mkMetrics {
  load_calls : Z;
  load_failed : Z;
  save_players : Z;
  save_failed : Z;
  load_latency : LatencyRecorder;
  save_latency : LatencyRecorder;
  flush_latency : LatencyRecorder
}.

Definition default : Metrics := mkMetrics 0 0 0 0 recorder_default recorder_default recorder_default.

(** The statistics of the cache library. *)
Record CacheStats := mkCacheStats { cache_len : Z; cache_capacity : Z; cache_hits : Z; cache_misses : Z; cache_evictions : Z }.

Record PublicPlayersStats := mkPublicPlayersStats {
  cache : CacheStats;
  dirty_players : Z;
  stats_load_calls : Z;
  stats_load_failed : Z;
  stats_save_players : Z;
  stats_save_failed : Z;
  stats_load_latency : LatencyStats;
  stats_save_latency : LatencyStats;
  stats_flush_latency : LatencyStats
}.

(** What the loader counts; [failed] is an error of the store. *)
Definition loaded (elapsed : Z) (failed : bool) (m : Metrics) : Metrics :=
  mkMetrics (incr (load_calls m)) (if failed then incr (load_failed m) else load_failed m) (save_players m) (save_failed m)
    (record (load_latency m) elapsed) (save_latency m) (flush_latency m).

(** [save_batch] of [count] snapshots, none of which is no save at all;
    [save_single] is the case of one. *)
Definition saved (count elapsed : Z) (failed : bool) (m : Metrics) : Metrics :=
  if count =? 0 then m
  else
    mkMetrics (load_calls m) (load_failed m) (add_u64 count (save_players m))
      (if failed then add_u64 count (save_failed m) else save_failed m)
      (load_latency m) (record (save_latency m) elapsed) (flush_latency m).

(** [flush_dirty] of a registry that is not empty. *)
Definition flushed (elapsed : Z) (m : Metrics) : Metrics :=
  mkMetrics (load_calls m) (load_failed m) (save_players m) (save_failed m) (load_latency m) (save_latency m)
    (record (flush_latency m) elapsed).

Definition stats (cache : CacheStats) (dirty : gset Z) (m : Metrics) : PublicPlayersStats :=
  mkPublicPlayersStats cache (Z.of_nat (size dirty)) (load_calls m) (load_failed m) (save_players m) (save_failed m)
    (snapshot (load_latency m)) (snapshot (save_latency m)) (snapshot (flush_latency m)).

Definition histograms (s : PublicPlayersStats) : list LatencyStats :=
  [stats_load_latency s; stats_save_latency s; stats_flush_latency s].
End PublicMetrics.

(** ** The log entries *)

(** What the framework reports; [frame_state] and [listeners] are printed with
    their [Debug] implementations. *)
Record FrameGauges := mkFrameGauges {
  frame_state : string;
  active_sessions : Z;
  outbound_queue_depth : Z;
  rpc_pending : Z;
  rpc_inbound_active : Z;
  rpc_pending_rejected : Z;
  listeners : string
}.

Inductive Value := Number (n : Z) | Micros (m : option Z) | Text (s : string).

(** A field, or the panic of its expression. *)
Definition Field : Type := option (string * Value).
Definition number (name : string) (n : Z) : Field := Some (name, Number n).
Definition text (name s : string) : Field := Some (name, Text s).
Definition average (name : string) (s : LatencyStats) : Field := Some (name, Micros (average_micros s)).
Definition percentile (name : string) (p : spec_float) (s : LatencyStats) : Field :=
  m ← percentile_micros s p; Some (name, Micros m).

(** [tracing::info!] evaluates the fields in order. *)
Definition info (fields : list Field) : option (list (string * Value)) := mapM id fields.

Definition gate_fields (f : FrameGauges) (sessions : StoreStats) (online_count expired : Z) (login : GateLogin.LoginStats) : list Field := [
  text "frame_state" (frame_state f);
  number "active_sessions" (active_sessions f);
  number "online_players" online_count;
  number "resume_players" (stats_offline sessions);
  number "outbox_messages" (stats_outbox_messages sessions);
  number "expired_resume_players" expired;
  number "write_queue_depth" (outbound_queue_depth f);
  number "rpc_pending" (rpc_pending f);
  number "rpc_inbound_active" (rpc_inbound_active f);
  number "rpc_pending_rejected" (rpc_pending_rejected f);
  number "login_count" (count (GateLogin.total_stats login));
  average "login_avg_us" (GateLogin.total_stats login);
  percentile "login_p99_us" p99 (GateLogin.total_stats login);
  number "login_max_us" (ls_max_micros (GateLogin.total_stats login));
  average "login_token_avg_us" (GateLogin.token_decode_stats login);
  average "login_redis_load_avg_us" (GateLogin.redis_load_online_stats login);
  percentile "login_redis_load_p99_us" p99 (GateLogin.redis_load_online_stats login);
  average "login_route_avg_us" (GateLogin.route_select_stats login);
  average "login_logic_rpc_avg_us" (GateLogin.logic_rpc_stats login);
  percentile "login_logic_rpc_p99_us" p99 (GateLogin.logic_rpc_stats login);
  average "login_bind_avg_us" (GateLogin.session_bind_stats login);
  average "login_redis_save_avg_us" (GateLogin.redis_save_online_stats login);
  percentile "login_redis_save_p99_us" p99 (GateLogin.redis_save_online_stats login);
  average "login_send_avg_us" (GateLogin.response_send_stats login);
  text "listeners" (listeners f)].

(** The sum of the counters of refused calls, of 64 bits. *)
Definition logic_rejected (s : LogicStats.t) : Z :=
  foldl (λ sum n, wrap_u64 (sum + n)) (LogicStats.rejected_calls s)
    [LogicStats.rejected_kib s; LogicStats.rejected_gid s; LogicStats.rejected_dirty s; LogicStats.rejected_draining s].

(** [as_millis() as u64] of a duration in nanoseconds. *)
Definition as_millis_u64 (d : Z) : Z := wrap_u64 (d / 1000000).

Definition logic_fields (f : FrameGauges) (online : Z) (s : LogicStats.t) (login : LoginMetrics.LoginStats) : list Field := [
  number "online_players" online;
  text "frame_state" (frame_state f);
  number "active_sessions" (active_sessions f);
  number "write_queue_depth" (outbound_queue_depth f);
  number "rpc_pending" (rpc_pending f);
  number "rpc_inbound_active" (rpc_inbound_active f);
  number "rpc_pending_rejected" (rpc_pending_rejected f);
  number "logic_inflight" (LogicStats.inflight_calls s);
  number "logic_queued" (LogicStats.queued s);
  number "logic_active_gids" (LogicStats.active_gids s);
  number "dirty_players" (LogicStats.dirty_players s);
  number "dirty_age_ms" (as_millis_u64 (LogicStats.oldest_dirty_age s));
  number "logic_rejected" (logic_rejected s);
  percentile "logic_queue_p99_us" p99 (LogicStats.queue_latency s);
  percentile "logic_load_p99_us" p99 (LogicStats.load_latency s);
  percentile "logic_preload_p99_us" p99 (LogicStats.preload_latency s);
  percentile "logic_run_p99_us" p99 (LogicStats.run_latency s);
  percentile "logic_p99_us" p99 (LogicStats.total_latency s);
  percentile "logic_p999_us" p999 (LogicStats.total_latency s);
  number "login_count" (count (LoginMetrics.total_stats login));
  average "login_avg_us" (LoginMetrics.total_stats login);
  percentile "login_p99_us" p99 (LoginMetrics.total_stats login);
  number "login_max_us" (ls_max_micros (LoginMetrics.total_stats login));
  average "login_runtime_avg_us" (LoginMetrics.runtime_wait_stats login);
  percentile "login_runtime_p99_us" p99 (LoginMetrics.runtime_wait_stats login);
  average "login_mongo_find_avg_us" (LoginMetrics.mongo_find_stats login);
  percentile "login_mongo_find_p99_us" p99 (LoginMetrics.mongo_find_stats login);
  average "login_mongo_create_avg_us" (LoginMetrics.mongo_create_stats login);
  percentile "login_mongo_create_p99_us" p99 (LoginMetrics.mongo_create_stats login);
  average "login_redis_owner_avg_us" (LoginMetrics.redis_owner_stats login);
  percentile "login_redis_owner_p99_us" p99 (LoginMetrics.redis_owner_stats login);
  number "save_failed" (LogicStats.save_failed s);
  percentile "flush_p99_us" p99 (LogicStats.flush_latency s);
  text "listeners" (listeners f)].

Definition public_fields (f : FrameGauges) (s : PublicMetrics.PublicPlayersStats) : list Field :=
  let cache := PublicMetrics.cache s in [
  text "frame_state" (frame_state f);
  number "active_sessions" (active_sessions f);
  number "write_queue_depth" (outbound_queue_depth f);
  number "rpc_pending" (rpc_pending f);
  number "rpc_inbound_active" (rpc_inbound_active f);
  number "rpc_pending_rejected" (rpc_pending_rejected f);
  number "public_players" (PublicMetrics.cache_len cache);
  number "public_player_capacity" (PublicMetrics.cache_capacity cache);
  number "public_player_cache_hits" (PublicMetrics.cache_hits cache);
  number "public_player_cache_misses" (PublicMetrics.cache_misses cache);
  number "public_player_cache_evictions" (PublicMetrics.cache_evictions cache);
  number "dirty_public_players" (PublicMetrics.dirty_players s);
  number "public_player_loads" (PublicMetrics.stats_load_calls s);
  number "public_player_load_failed" (PublicMetrics.stats_load_failed s);
  percentile "public_player_load_p99_us" p99 (PublicMetrics.stats_load_latency s);
  number "public_player_saves" (PublicMetrics.stats_save_players s);
  number "public_player_save_failed" (PublicMetrics.stats_save_failed s);
  percentile "public_player_save_p99_us" p99 (PublicMetrics.stats_save_latency s);
  percentile "public_player_flush_p99_us" p99 (PublicMetrics.stats_flush_latency s);
  text "listeners" (listeners f)].

(** [slots] is [available_request_slots()], the free permits of the request
    semaphore. *)
Definition auth_fields (f : FrameGauges) (slots : Z) : list Field := [
  text "frame_state" (frame_state f);
  number "available_request_slots" slots;
  number "rpc_pending" (rpc_pending f);
  number "rpc_pending_rejected" (rpc_pending_rejected f)].

Definition query_fields (f : FrameGauges) (slots : Z) : list Field := [
  text "frame_state" (frame_state f);
  number "available_request_slots" slots;
  number "active_sessions" (active_sessions f);
  number "rpc_pending" (rpc_pending f);
  number "rpc_inbound_active" (rpc_inbound_active f);
  number "rpc_pending_rejected" (rpc_pending_rejected f)].

(** ** What the entries are worth *)

Definition logic_histograms (s : LogicStats.t) : list LatencyStats :=
  [LogicStats.queue_latency s; LogicStats.load_latency s; LogicStats.run_latency s; LogicStats.preload_latency s;
   LogicStats.save_latency s; LogicStats.total_latency s; LogicStats.flush_latency s].

Definition login_histograms (s : LoginMetrics.LoginStats) : list LatencyStats :=
  [LoginMetrics.mongo_find_stats s; LoginMetrics.mongo_create_stats s; LoginMetrics.runtime_wait_stats s;
   LoginMetrics.redis_owner_stats s; LoginMetrics.total_stats s].

Create HintDb gauges discriminated.
#[export] Hint Constants Opaque : gauges.

Lemma number_some name n : is_Some (number name n).
Proof. by eexists. Qed.
Lemma text_some name s : is_Some (text name s).
Proof. by eexists. Qed.
Lemma average_some name s : is_Some (average name s).
Proof. by eexists. Qed.
Lemma percentile_some name p s : percentile_ok p → histogram_ok s → is_Some (percentile name p s).
Proof. intros Hp Hs. unfold percentile. destruct (percentile_defined s p Hs Hp) as [r ->]. by eexists. Qed.
#[export] Hint Resolve number_some text_some average_some percentile_some p99_ok p999_ok : gauges.

Lemma info_some fields : Forall is_Some fields → is_Some (info fields).
Proof. intros H. apply mapM_is_Some_2. by eapply Forall_impl. Qed.

(** Every field of an entry, given its histograms. *)
Ltac each_field :=
  repeat match goal with
  | H : Forall histogram_ok (_ :: _) |- _ => apply Forall_cons in H as [? H]
  | |- Forall _ (_ :: _) => apply Forall_cons; split
  | |- Forall _ [] => apply Forall_nil; exact I
  end; eauto with gauges.

(** C40: the information log never panics: whatever moments the counters of a
    snapshot were read at, as long as each histogram counts fewer than 2^46
    samples, no assertion of a percentile fails and its loop over the buckets
    ends, so the metrics tasks of the Gate, Logic and Public write their entry
    at every tick; those of Auth and Query read no percentile. *)
Theorem information_logs_never_panic f sessions online expired gate_login logic login slots public :
  Forall histogram_ok (GateLogin.histograms gate_login) →
  Forall histogram_ok (logic_histograms logic ++ login_histograms login) →
  Forall histogram_ok (PublicMetrics.histograms public) →
  Forall (λ fields, is_Some (info fields))
    [gate_fields f sessions online expired gate_login; logic_fields f online logic login; public_fields f public;
     auth_fields f slots; query_fields f slots].
Proof.
  unfold GateLogin.histograms, logic_histograms, login_histograms, PublicMetrics.histograms. simpl app. intros Hgate Hlogic Hpublic.
  repeat (apply Forall_cons; split; [apply info_some|]); [..|by apply Forall_nil].
  - unfold gate_fields. each_field.
  - unfold logic_fields. each_field.
  - unfold public_fields. each_field.
  - unfold auth_fields. each_field.
  - unfold query_fields. each_field.
Qed.

Module gauges_example.
Definition frame : FrameGauges := mkFrameGauges "Running" 2 0 1 0 0 "[]".
Definition some : LatencyStats := snapshot (recorded [millis 1 / 10; millis 9 / 10]).
Definition none : LatencyStats := snapshot recorder_default.
Definition gate_login : GateLogin.LoginStats := GateLogin.mkLoginStats none some none some none some none some.
Definition logic : LogicStats.t :=
  LogicStats.mk 0 0 0 0 0 0 0 0 0 0 0 0 0 0 0 0 0 0 0 0 0 0 0 0 some none some none some some none 0.
Definition login : LoginMetrics.LoginStats := LoginMetrics.mkLoginStats none none some some some.
Definition public : PublicMetrics.PublicPlayersStats :=
  PublicMetrics.stats (PublicMetrics.mkCacheStats 1 500000 1 1 0) {[ 7 ]} (PublicMetrics.saved 1 (millis 3) false PublicMetrics.default).

Lemma some_ok : histogram_ok some.
Proof. by apply recorded_ok. Qed.
Lemma none_ok : histogram_ok none.
Proof. by apply (recorded_ok []). Qed.
Lemma saved_ok : histogram_ok (PublicMetrics.stats_save_latency public).
Proof. by apply (recorded_ok [millis 3]). Qed.
End gauges_example.

Lemma information_logs_never_panic_witness :
  Forall (λ fields, is_Some (info fields))
    [gate_fields gauges_example.frame StoreStats_default 0 0 gauges_example.gate_login;
     logic_fields gauges_example.frame 0 gauges_example.logic gauges_example.login;
     public_fields gauges_example.frame gauges_example.public;
     auth_fields gauges_example.frame 1024; query_fields gauges_example.frame 1024]
  ∧ percentile "login_p99_us" p99 (GateLogin.total_stats gauges_example.gate_login) = Some ("login_p99_us", Micros (Some 1000)).
Proof.
  split; [|by vm_compute].
  apply information_logs_never_panic;
    repeat (apply Forall_cons; split; [first [apply gauges_example.some_ok|apply gauges_example.none_ok|apply gauges_example.saved_ok]|]);
    by apply Forall_nil.
Defined.

(** ** The counters of the player cache *)

Module PublicCounters.
Import PublicMetrics.

Inductive event := Loaded (elapsed : Z) (failed : bool) | Saved (count elapsed : Z) (failed : bool) | Flushed (elapsed : Z).

Definition apply_event (m : Metrics) (e : event) : Metrics :=
  match e with
  | Loaded elapsed failed => loaded elapsed failed m
  | Saved count elapsed failed => saved count elapsed failed m
  | Flushed elapsed => flushed elapsed m
  end.

Definition after (events : list event) : Metrics := foldl apply_event default events.

(** The loads and the saved players of a run, and how many of them failed. *)
Definition load_of (e : event) : option (Z * bool) := match e with Loaded elapsed failed => Some (elapsed, failed) | _ => None end.
Definition save_of (e : event) : option (Z * bool) := match e with Saved count _ failed => Some (count, failed) | _ => None end.
Definition loads : list event → list (Z * bool) := omap load_of.
Definition saves : list event → list (Z * bool) := omap save_of.
Definition players (l : list (Z * bool)) : Z := foldr (λ x sum, x.1 + sum) 0 l.
Definition failures (l : list (Z * bool)) : list (Z * bool) := filter (λ x, x.2 = true) l.

Lemma players_app l l' : players (l ++ l') = players l + players l'.
Proof. induction l as [|x l IH]; simpl; [done|]. lia. Qed.

Lemma players_failures l : Forall (λ x, 0 <= x.1) l → 0 <= players (failures l) <= players l.
Proof.
  unfold failures. induction 1 as [|[n b] l Hn Hl IH]; [done|]. rewrite filter_cons. simpl in Hn. case_decide; simpl; lia.
Qed.

Lemma failures_app l l' : failures (l ++ l') = failures l ++ failures l'.
Proof. apply filter_app. Qed.

Lemma len_failures l : len (failures l) <= len l.
Proof. apply len_filter. Qed.

(** The statistics of the player cache are the tallies of its events, and the
    load histogram is that of the loads. *)
Lemma counters_are_tallies events :
  Forall (λ x, 0 <= x.1) (saves events) → len (loads events) < 2 ^ 64 → players (saves events) < 2 ^ 64 →
  let m := after events in
  load_calls m = len (loads events) ∧ load_failed m = len (failures (loads events))
  ∧ save_players m = players (saves events) ∧ save_failed m = players (failures (saves events))
  ∧ load_latency m = recorded (loads events).*1.
Proof.
  unfold after. induction events as [|e events IH] using rev_ind; [done|]. cbv zeta. unfold loads, saves in *.
  rewrite foldl_snoc, !omap_app, !failures_app, !players_app, fmap_app, !len_app.
  intros [Hpos Hpos']%Forall_app Hloads Hsaves. pose proof (players_failures _ Hpos). pose proof (players_failures _ Hpos').
  set (ls := omap load_of events) in *. set (ss := omap save_of events) in *.
  pose proof (len_failures ls). pose proof (len_nonneg (failures ls)). pose proof (len_nonneg (omap load_of [e])).
  destruct IH as (IH1 & IH2 & IH3 & IH4 & IH5); [done|lia|lia|].
  destruct e as [elapsed failed|count elapsed failed|elapsed].
  - change (omap load_of [_]) with [(elapsed, failed)] in *. change (len [(elapsed, failed)]) with 1 in *.
    simpl. rewrite IH1, IH2, IH3, IH4, IH5. unfold incr, recorded. rewrite foldl_snoc, wrap_u64_id by (unfold is_u64; lia).
    destruct failed; [rewrite wrap_u64_id by (unfold is_u64; lia); change (len (failures _)) with 1 at 3
                     |change (len (failures [_])) with 0]; split_and!; try done; lia.
  - change (omap save_of [_]) with [(count, failed)] in *. apply Forall_cons in Hpos' as [Hcount _]. simpl in *.
    rewrite app_nil_r. change (len []) with 0. change (len (failures [])) with 0.
    assert (players (failures [(count, failed)]) = if failed then count else 0) as -> by (destruct failed; simpl; unfold failures; simpl; lia).
    unfold saved. destruct (Z.eqb_spec count 0) as [->|]; simpl.
    + rewrite IH1, IH2, IH3, IH4, IH5. destruct failed; simpl; split_and!; try done; lia.
    + rewrite IH1, IH2, IH3, IH4, IH5. unfold add_u64. rewrite wrap_u64_id by (unfold is_u64; lia).
      destruct failed; simpl; [rewrite wrap_u64_id by (unfold is_u64; lia)|]; split_and!; try done; lia.
  - simpl. rewrite app_nil_r. change (len []) with 0. change (len (failures [])) with 0. split_and!; try done; lia.
Qed.
End PublicCounters.
