(* ===== verification/Tests.v ===== *)
(** The unit tests that the repository keeps next to its code, translated like
    the code they run: a test calls the operations of the model on the state
    that the test has, and stops where an [assert!] fails.  That every test
    passes is a theorem, proved by running it; the tests are the examples the
    authors chose, so they compare the model with what the code is meant to
    do.  This file has the form of a test; [GateTests], [ServiceTests],
    [RuntimeTests] and [ConfigTests] have the tests. *)

From S2P Require Import Prelude.

(** A test over a mutable state: [None] is a failed assertion or [unwrap]. *)
Definition test (S A : Type) : Type := S → option (A * S).

#[export] Instance test_ret {S} : MRet (test S) := λ A a s, Some (a, s).
#[export] Instance test_bind {S} : MBind (test S) := λ A B f t s,
  match t s with Some (a, s') => f a s' | None => None end.

Section test.
Context {S : Type}.

(** A method of the state; an access to it. *)
Definition call {A} (f : S → S * A) : test S A := λ s, let '(s', a) := f s in Some (a, s').
Definition call' {A} (f : S → A * S) : test S A := λ s, Some (f s).
Definition ask {A} (f : S → A) : test S A := λ s, Some (f s, s).
Definition modify (f : S → S) : test S unit := λ s, Some (tt, f s).

Definition assert (b : bool) : test S unit := λ s, if b then Some (tt, s) else None.
Definition assert_eq {A} `{!EqDecision A} (x y : A) : test S unit := assert (bool_decide (x = y)).
Definition unwrap {A} (o : option A) : test S A := λ s, a ← o; Some (a, s).
Definition unwrap_ok {E A} (r : Result E A) : test S A := unwrap (match r with Ok a => Some a | Err _ => None end).

(** [for offset in 0..n]. *)
Definition for_each {A} (l : list A) (body : A → test S unit) : test S unit :=
  foldr (λ a rest, _ ← body a; rest) (mret tt) l.

Definition passes {A} (t : test S A) (s : S) : Prop := is_Some (t s).
End test.

Definition is_ok {E A} (r : Result E A) : bool := match r with Ok _ => true | Err _ => false end.

(** Running a test decides it. *)
Ltac run_test := unfold passes; vm_compute; eexists; reflexivity.
