(* ===== verification/GateTests.v ===== *)
(** The unit tests of a Gate's client sessions (src/service/gate/src/session.rs,
    [mod tests]) as tests of [GateSession] and [GateSessions]. *)

From S2P Require Import Prelude Effects Proto Tests GateSession GateSessions GateGateway GateGatewaySpec.

Module GateTests.
#[local] Existing Instances gate_example.conn_id gate_example.codec gate_example.proto.
#[local] Abbreviation Session := (ClientSession Z (CsHead * S2C)).

Definition config : SessionConfig :=
  {| outbox_messages := 2;
     resume_ttl := resume_ttl HARD_LIMITS; reconnect_total := reconnect_total HARD_LIMITS;
     reconnect_window := reconnect_window HARD_LIMITS; reconnect_window_count := reconnect_window_count HARD_LIMITS;
     request_window := request_window HARD_LIMITS; request_window_count := request_window_count HARD_LIMITS;
     burst_window := burst_window HARD_LIMITS; burst_count_limit := burst_count_limit HARD_LIMITS |}.

Definition offline_session (now : Z) : Session :=
  {| session_id := 11; conn := None; routes := mkRoutes 1 2; server_seq := 0; client_seq := 0; outbox := [];
     dropped_through := None; disconnected_at := Some now; reconnect_count := 0; reconnect_times := [];
     request_times := [] |}.

Definition sequence_comparison_wraps_at_u32 : test unit unit :=
  _ ← assert (seq_after 1 0);
  _ ← assert (negb (seq_after 1 1));
  _ ← assert (seq_after 0 (2 ^ 32 - 1));
  assert (negb (seq_after (2 ^ 32 - 1) 0)).

Definition evicted_unacked_message_makes_old_resume_fail (now : Z) : test Session unit :=
  _ ← call (encode MsgId.PlayerInfoRsp (SPlayerInfo PlayerInfoRsp_default) now config) ≫= unwrap;
  _ ← call (encode MsgId.UseItemRsp (SUseItem UseItemRsp_default) now config) ≫= unwrap;
  _ ← call (encode MsgId.MailListRsp (SMailList MailListRsp_default) now config) ≫= unwrap;
  length ← ask (λ s, len (outbox s));
  _ ← assert_eq length 2;
  refused ← call (authorize_reconnect 11 1 0 now config);
  _ ← assert_eq refused (Err ResumeError.OutboxGap);
  accepted ← call (authorize_reconnect 11 1 1 now config);
  assert (is_ok accepted).

Definition control_messages_do_not_enter_outbox (now : Z) : test Session unit :=
  _ ← call (encode MsgId.PingRsp (SPing PingRsp_default) now config) ≫= unwrap;
  empty ← ask (λ s, bool_decide (outbox s = []));
  assert empty.

Definition reconnect_allows_five_per_window_and_ten_total (now : Z) : test Session unit :=
  _ ← modify (with_disconnected_at None);
  _ ← for_each (seqZ 0 5) (λ offset, call (authorize_reconnect 11 1 0 (now + secs offset) config) ≫= λ r, assert (is_ok r));
  limited ← call (authorize_reconnect 11 1 0 (now + secs 5) config);
  _ ← assert_eq limited (Err ResumeError.RateLimited);
  _ ← for_each (seqZ 0 5) (λ offset, call (authorize_reconnect 11 1 0 (now + secs (61 + offset)) config) ≫= λ r, assert (is_ok r));
  limited ← call (authorize_reconnect 11 1 0 (now + secs 122) config);
  assert_eq limited (Err ResumeError.RateLimited).

Definition millis (z : Z) : Z := z * 1000000.

Definition request_limiter_enforces_burst_and_long_window (now : Z) : test Session unit :=
  _ ← for_each (seqZ 0 8) (λ _, call (accept_rate now config) ≫= assert);
  burst ← call (accept_rate (now + millis 999) config);
  _ ← assert (negb burst);
  _ ← for_each (seqZ 0 7) (λ _, call (accept_rate (now + millis 1001) config) ≫= assert);
  long ← call (accept_rate (now + millis 1001) config);
  _ ← assert (negb long);
  call (accept_rate (now + millis 5001) config) ≫= assert.

(** The store with one offline player, the sends and closes recorded. *)
Definition one_offline (now : Z) : World Z (CsHead * S2C) :=
  mkWorld (mkSessions {[ 7 := 0%nat ]} [offline_session now]) [] [] now (λ _, None).

Definition drain_removes_offline_resume_state : test (World Z (CsHead * S2C)) unit :=
  drained ← call' (run handle_sessions drain);
  _ ← assert_eq (len drained) 1;
  first ← unwrap (head drained);
  _ ← assert_eq (closing_gid first) 7;
  _ ← assert_eq (closing_session_id first) 11;
  left ← call' (run handle_sessions stats);
  assert (bool_decide (stats_players left = 0) && bool_decide (stats_active left = 0)
          && bool_decide (stats_offline left = 0) && bool_decide (stats_outbox_messages left = 0)).

(** The tests at an instant after the start of the clock. *)
Example session_tests_pass : let now := secs 1000 in
  passes sequence_comparison_wraps_at_u32 tt
  ∧ passes (evicted_unacked_message_makes_old_resume_fail now) (offline_session now)
  ∧ passes (control_messages_do_not_enter_outbox now) (offline_session now)
  ∧ passes (reconnect_allows_five_per_window_and_ten_total now) (offline_session now)
  ∧ passes (request_limiter_enforces_burst_and_long_window now) (offline_session now)
  ∧ passes drain_removes_offline_resume_state (one_offline now).
Proof. split_and!; run_test. Qed.
End GateTests.
