(* ===== verification/ServiceTests.v ===== *)
(** The unit tests of the shared crates, the stores, the smaller services and
    the robot, as tests of their models: src/common, src/cache, src/persist,
    src/service/logic/src/player.rs, src/service/public/src/mail.rs,
    src/service/auth/src/api.rs, src/service/query/src/query.rs and
    src/robot/src/gate.rs. *)

From S2P Require Import Prelude Effects Tests Decimal Routing Proto Latency GateSession Redis OnlineCache.
From S2P Require Import LogicPlayer PublicPlayers Mail Mongo Documents AuthApi QueryApi Config Robot.

#[local] Open Scope string_scope.
#[local] Open Scope list_scope.
#[local] Open Scope Z_scope.

(** ** src/common *)

Module CommonTests.
Definition latency_recorder_reports_average_percentile_and_max : test LatencyRecorder unit :=
  _ ← modify (λ r, record r (100 * 1000));
  _ ← modify (λ r, record r (900 * 1000));
  stats ← ask snapshot;
  _ ← assert_eq (count stats) 2;
  _ ← assert_eq (average_micros stats) (Some 500);
  _ ← assert_eq (percentile_micros stats (f64_of_Z 50)) (Some (Some 100));
  _ ← assert_eq (percentile_micros stats (f64_of_Z 99)) (Some (Some 1000));
  assert_eq (ls_max_micros stats) 900.

Definition signed_player_identity_becomes_positive_rpc_route : test unit unit :=
  route ← unwrap (from_signed 42 9001);
  _ ← assert_eq (route_key route) 42;
  assert_eq (route_session route) 9001.

Definition is_none {A} (o : option A) : bool := match o with Some _ => false | None => true end.

Definition non_positive_signed_route_values_are_rejected : test unit unit :=
  _ ← assert (is_none (from_signed 0 1));
  _ ← assert (is_none (from_signed 1 0));
  _ ← assert (is_none (from_signed (-1) 1));
  assert (is_none (from_signed 1 (-1))).

Definition service_types_keep_the_application_wire_values : test unit unit :=
  _ ← assert_eq service_type.AUTH 1;
  _ ← assert_eq service_type.LOGIC 2;
  _ ← assert_eq service_type.GATE 3;
  _ ← assert_eq service_type.PUBLIC 4;
  assert_eq service_type.QUERY 5.

(** For a digest that tells the two inputs apart. *)
Definition credential_hash_is_stable_and_account_scoped {sha : Sha256} : test unit unit :=
  _ ← assert_eq (credential_hash "a" "secret") (credential_hash "a" "secret");
  assert (negb (bool_decide (credential_hash "a" "secret" = credential_hash "b" "secret"))).

Definition bytes : Sha256 := {| digest s := (λ a, Z.of_nat (Ascii.nat_of_ascii a)) <$> String.list_ascii_of_string s |}.

Example common_tests_pass :
  passes latency_recorder_reports_average_percentile_and_max recorder_default
  ∧ passes signed_player_identity_becomes_positive_rpc_route tt
  ∧ passes non_positive_signed_route_values_are_rejected tt
  ∧ passes service_types_keep_the_application_wire_values tt
  ∧ passes (credential_hash_is_stable_and_account_scoped (sha := bytes)) tt.
Proof. split_and!; run_test. Qed.
End CommonTests.

(** ** src/cache *)

Module CacheTests.
Definition fields : gmap string string :=
  {[ "acc" := "account"; "gid" := "7"; "sess" := "8"; "psid" := "9"; "gsid" := "10"; "lsid" := "11" ]}.

Definition online_fields_keep_product_names_without_module_flag : test unit unit :=
  gid ← unwrap_ok (parse_i64 (E := unit) fields "gid" 0);
  _ ← assert_eq gid 7;
  lsid ← unwrap_ok (parse_i32 (E := unit) fields "lsid" 0);
  _ ← assert_eq lsid 11;
  assert (negb (bool_decide (is_Some (fields !! "modf")))).

Definition service_online_hash_is_cluster_and_type_scoped : test unit unit :=
  key ← unwrap (service_online_key "local" 2);
  assert_eq key "xkk:service:online:local:2".

Definition service_online_ttl_covers_three_refreshes : test unit unit :=
  ttl ← unwrap (service_online_ttl (secs 3));
  assert_eq ttl (secs 9).

Definition queue_key_is_cluster_wide : test unit unit := assert_eq LOGIN_QUEUE_KEY "xkk:login_queue".

Example cache_tests_pass :
  passes online_fields_keep_product_names_without_module_flag tt
  ∧ passes service_online_hash_is_cluster_and_type_scoped tt
  ∧ passes service_online_ttl_covers_three_refreshes tt
  ∧ passes queue_key_is_cluster_wide tt.
Proof. split_and!; run_test. Qed.
End CacheTests.

(** ** src/service/logic/src/player.rs *)

Module PlayerTests.
Definition item_changes_are_aggregated_before_mutation : test PlayerState unit :=
  response ← call' (add_items [mkItem 1 2 0; mkItem 1 3 0]);
  status ← unwrap (AddItemsRsp_status response);
  _ ← assert_eq (Status_code status) code.OK;
  held ← ask (λ p, PlayerData_items (LogicPlayer.data p) !! 1);
  _ ← assert_eq held (Some 5);
  dirty ← ask LogicPlayer.dirty;
  assert dirty.

(** The removal answers [None] where the code panics. *)
Definition remove_items_is_all_or_nothing : test PlayerState unit :=
  _ ← modify (on_items <[1 := 5]>);
  removed ← ask (remove_items [mkItem 1 3 0; mkItem 2 1 0]);
  '(response, after) ← unwrap removed;
  _ ← modify (λ _, after);
  status ← unwrap (RemoveItemsRsp_status response);
  _ ← assert_eq (Status_code status) code.INSUFFICIENT_ITEMS;
  held ← ask (λ p, PlayerData_items (LogicPlayer.data p) !! 1);
  _ ← assert_eq held (Some 5);
  dirty ← ask LogicPlayer.dirty;
  assert (negb dirty).

Example player_tests_pass : let player := LogicPlayer.new (default_player 7) in
  passes item_changes_are_aggregated_before_mutation player ∧ passes remove_items_is_all_or_nothing player.
Proof. split_and!; run_test. Qed.
End PlayerTests.

(** ** src/persist *)

Module PersistTests.
Definition mails_of (d : PublicPlayerData) : option (list Proto.Mail) := MailData_mails <$> PublicPlayerData_mail d.

Definition missing_document_becomes_a_clean_empty_public_player : test unit unit :=
  player ← unwrap (empty 5);
  _ ← assert_eq (PublicPlayers.read PublicPlayerData_gid player) 5;
  mails ← unwrap (PublicPlayers.read mails_of player);
  _ ← assert_eq mails [];
  assert (negb (is_dirty player)).

Definition push_mail (m : Proto.Mail) (d : PublicPlayerData) : PublicPlayerData :=
  mkPublicPlayerData (PublicPlayerData_gid d)
    ((λ box, mkMailData (MailData_mails box ++ [m])) <$> PublicPlayerData_mail d).

Definition mail_7 : Proto.Mail := mkMail 7 "" "" 0 0 0 [].

(** [update] answers whether it called the second closure. *)
Definition public_player_marks_changes_and_clears_snapshot_before_save : test unit unit :=
  player ← unwrap (empty 7);
  let '(_, player, registered) := PublicPlayers.update (λ d, (tt, true, push_mail mail_7 d)) player in
  _ ← assert registered;
  _ ← assert (is_dirty player);
  let '(snapshot, player) := take_dirty_snapshot player in
  snapshot ← unwrap snapshot;
  mails ← unwrap (mails_of snapshot);
  first ← unwrap (head mails);
  _ ← assert_eq (Mail_mail_id first) 7;
  _ ← assert (negb (is_dirty player));
  assert_eq (take_dirty_snapshot player).1 None.

Definition clean_registration_is_removed_while_holding_the_player_lock : test unit unit :=
  player ← unwrap (empty 9);
  let removed := remove_registration_if_clean player in
  assert removed.

Definition a_write_after_snapshot_keeps_the_dirty_registration : test unit unit :=
  player ← unwrap (empty 11);
  let '(_, player, _) := PublicPlayers.update (λ d, (tt, true, d)) player in
  let '(snapshot, player) := take_dirty_snapshot player in
  _ ← unwrap snapshot;
  let '(_, player, _) := PublicPlayers.update (λ d, (tt, true, d)) player in
  let removed := remove_registration_if_clean player in
  _ ← assert (negb removed);
  assert (is_dirty player).

Definition cache_contract_is_large_sliding_and_batched : test unit unit :=
  _ ← assert_eq PLAYER_CACHE_CAPACITY 500000;
  _ ← assert_eq PLAYER_CACHE_TTL (secs (24 * 60 * 60));
  _ ← assert_eq PLAYER_CACHE_SHARDS 128;
  assert_eq PLAYER_SAVE_BATCH_SIZE 1000.

(** The client of the driver is the database name of its options. *)
Definition collection_catalog_uses_the_dsn_database_and_fixed_names : test unit unit :=
  database ← unwrap_ok (open_database (E := unit) (Some "xkk_test"));
  _ ← assert_eq (db (accounts database)) "xkk_test";
  _ ← assert_eq (coll (accounts database)) "accounts";
  _ ← assert_eq (coll (players database)) "players";
  assert_eq (coll (public_players database)) "public_players".

Definition collection_catalog_rejects_a_dsn_without_a_database : test unit unit :=
  assert (match open_database (E := unit) None with Err MissingMongoDatabase => true | _ => false end).

Example persist_tests_pass :
  passes missing_document_becomes_a_clean_empty_public_player tt
  ∧ passes public_player_marks_changes_and_clears_snapshot_before_save tt
  ∧ passes clean_registration_is_removed_while_holding_the_player_lock tt
  ∧ passes a_write_after_snapshot_keeps_the_dirty_registration tt
  ∧ passes cache_contract_is_large_sliding_and_batched tt
  ∧ passes collection_catalog_uses_the_dsn_database_and_fixed_names tt
  ∧ passes collection_catalog_rejects_a_dsn_without_a_database tt.
Proof. split_and!; run_test. Qed.
End PersistTests.

(** ** src/service/public/src/mail.rs *)

Module MailTests.
Definition mail_ids_must_be_positive_unique_and_bounded : test unit unit :=
  _ ← assert (bool_decide (is_Some (valid_mail_ids [1; 2])));
  _ ← assert_eq (valid_mail_ids []) None;
  _ ← assert_eq (valid_mail_ids [1; 1]) None;
  _ ← assert_eq (valid_mail_ids [0]) None;
  assert_eq (valid_mail_ids (replicate (Z.to_nat (MAX_REQUEST_MAILS + 1)) 1)) None.

Definition claimable : MailData :=
  mkMailData [mkMail 1 "" "" 0 0 0 [mkItem 7 2 0]; mkMail 2 "" "" 0 0 MAIL_CLAIMED []].

Definition claim_validates_every_mail_before_mutating (now : Z) : test MailData unit :=
  '(result, changed) ← call' (claim_mails now [1; 2]);
  _ ← assert (negb (is_ok result));
  _ ← assert (negb changed);
  first ← ask (λ d, head (MailData_mails d));
  first ← unwrap first;
  assert_eq (Mail_state first) 0.

Example mail_tests_pass : passes mail_ids_must_be_positive_unique_and_bounded tt
  ∧ passes (claim_validates_every_mail_before_mutating 100) claimable.
Proof. split_and!; run_test. Qed.
End MailTests.

(** ** src/service/query/src/query.rs, src/service/auth/src/api.rs, src/robot/src/gate.rs *)

Module QueryTests.
Definition gamer_ids_are_positive_unique_and_bounded : test unit unit :=
  _ ← assert_eq (valid_gamer_ids [2; 1]) (Some [2; 1]);
  _ ← assert_eq (valid_gamer_ids []) None;
  _ ← assert_eq (valid_gamer_ids [1; 1]) None;
  _ ← assert_eq (valid_gamer_ids [0]) None;
  assert_eq (valid_gamer_ids (replicate (Z.to_nat (MAX_GAMER_IDS + 1)) 1)) None.

Example query_tests_pass : passes gamer_ids_are_positive_unique_and_bounded tt.
Proof. run_test. Qed.
End QueryTests.

Module AuthTests.
(** The fields of a discovered instance that the code reads. *)
Definition gate : ServiceInstance :=
  {| instance_id := 1; enable := true; healthy := true; online_count := 0; host := "gate.example";
     meta_data := {[ "tcp_port" := "3201"; "kcp_port" := "3202"; "websocket_port" := "3203"; "websocket_path" := "/ws" ]} |}.

Definition gate_endpoints_include_every_advertised_transport : test unit unit :=
  let endpoints := gate_endpoints gate in
  _ ← assert_eq (len endpoints) 3;
  third ← unwrap (endpoints !! 2%nat);
  assert_eq (Endpoint_path third) "/ws".

Example auth_tests_pass : passes gate_endpoints_include_every_advertised_transport tt.
Proof. run_test. Qed.
End AuthTests.

Module RobotTests.
Definition endpoints : list Endpoint := [mkEndpoint "tcp" "127.0.0.1" 3201 ""; mkEndpoint "websocket" "127.0.0.1" 3203 "/ws"].

Definition selects_requested_endpoint_and_keeps_websocket_path : test unit unit :=
  selected ← unwrap_ok (select_endpoint endpoints RobotTransport.Websocket);
  _ ← assert_eq (Endpoint_port selected) 3203;
  assert_eq (Endpoint_path selected) "/ws".

Definition response : LoginRsp :=
  {| LoginRsp_status := Some (mkStatus code.OK ""); LoginRsp_gid := 1001; LoginRsp_logic_id := 1; LoginRsp_public_id := 1;
     LoginRsp_player := Some (mkPlayerInfo 1001 "" 0 0 0); LoginRsp_items := []; LoginRsp_session_id := 9 |}.
Definition head : CsHead := {| head_msgid := 0; head_seq := 2; head_ack := LOGIN_SEQUENCE |}.

Definition login_response_requires_authoritative_player_state : test unit unit :=
  _ ← unwrap_ok (validate_login_rsp 1001 head response);
  assert (negb (is_ok (validate_login_rsp 1002 head response))).

Example robot_tests_pass : passes selects_requested_endpoint_and_keeps_websocket_path tt
  ∧ passes login_response_requires_authoritative_player_state tt.
Proof. split_and!; run_test. Qed.
End RobotTests.
