(* ===== verification/RuntimeTests.v ===== *)
(** The unit tests of the Logic runtime (src/service/logic/src/tests.rs) as
    tests of [LogicRuntime].  The callbacks of a test are a [Behaviour]; [turn]
    takes the next step of a runner with what they answer, so a test chooses
    the interleaving that the original reaches with flags, semaphores and
    [yield_now]: logic that waits for a flag is logic whose step has not been
    taken yet.  A statistic of the player cache itself is not checked, and the
    test of the document library (xmongo) is left out. *)

From S2P Require Import Prelude Tests Latency LogicStats LogicAdmission LogicRuntime.
Import Outcome(Done, Panic, Blocked).

Module RuntimeTests.
(** A player: his value, how often he was loaded, and the dirty flag. *)
Record Player := mkPlayer { pvalue : Z; generation : Z; pdirty : bool }.
#[export] Instance player_state : LogicState Player := pdirty.
#[export] Instance player_saved : SaveEffect Player := λ ok p,
  if ok then mkPlayer (pvalue p) (generation p) false else p.
#[export] Instance entries_sort : UnstableSort (Z * Z) fst := merge_sort_instance fst.

(** A preload is the result it waits for. *)
#[local] Abbreviation RT := (Runtime (P := Player) (E := string) (R := Z) (A := Z) (F := Result string Z)).
#[local] Abbreviation LabelT := (Label (P := Player) (E := string) (R := Z) (A := Z) (F := Result string Z)).

Record World := mkWorld { rt : RT; stored : gmap Z Z; loads : gmap Z Z; attempts : Z; clock : Z }.

(** What the loader and the saver of a test do, and which players the cache
    keeps when it takes one more. *)
Record Behaviour := mkBehaviour {
  load : Z → World → Result string Player * World;
  save : Z → Player → World → Result string unit * World;
  keep : Z → gmap Z Z → gmap Z Z
}.

Definition with_rt (w : World) (r : RT) : World := mkWorld r (stored w) (loads w) (attempts w) (clock w).

Definition memory_load (gid : Z) (w : World) : Result string Player * World :=
  let generation := default 0 (loads w !! gid) + 1 in
  (Ok (mkPlayer (default 0 (stored w !! gid)) generation false),
   mkWorld (rt w) (stored w) (<[gid := generation]> (loads w)) (attempts w) (clock w)).
Definition memory_save (gid : Z) (p : Player) (w : World) : Result string unit * World :=
  (Ok tt, mkWorld (rt w) (<[gid := pvalue p]> (stored w)) (loads w) (attempts w + 1) (clock w)).
Definition memory_persistence : Behaviour := mkBehaviour memory_load memory_save (λ _ m, m).

Definition default_load (gid : Z) (w : World) : Result string Player * World := (Ok (mkPlayer 0 0 false), w).
(** A saver that fails at its first [n] attempts. *)
Definition failing_save (n : Z) (gid : Z) (p : Player) (w : World) : Result string unit * World :=
  (if attempts w <? n then Err "save failed" else Ok tt, mkWorld (rt w) (stored w) (loads w) (attempts w + 1) (clock w)).
Definition failing_persistence (n : Z) : Behaviour := mkBehaviour default_load (failing_save n) (λ _ m, m).

Definition test_config : LogicConfig.t :=
  {| LogicConfig.resident_capacity := 16; LogicConfig.ttl := 2 ^ 64 * 10 ^ 9 - 1; LogicConfig.shards := 4;
     LogicConfig.batch_save_count := 4; LogicConfig.max_dirty_players := 16; LogicConfig.max_inflight_calls := 128;
     LogicConfig.max_inflight_kib := 128; LogicConfig.max_calls_per_gid := 32; LogicConfig.max_kib_per_gid := 32 |}.

(** ** Driving the runtime *)

Definition exec_step (l : LabelT) : test World unit := λ w,
  match exec (clock w) l (rt w) with Done r => Some (tt, with_rt w r) | _ => None end.

Definition slot_of (sid : Z) (w : World) := slots (rt w) !! sid.

(** The next step of the runner of a slot. *)
Definition turn (b : Behaviour) (sid : Z) : test World unit := λ w,
  slot ← slot_of sid w;
  let gid := runner_gid (runner slot) in
  let m := resident (rt w) in
  match phase (runner slot) with
  | Spawned => exec_step (LTakeNext sid) w
  | Getting _ _ =>
      match m !! gid with
      | Some id => exec_step (LCacheGot sid (Hit id) m) w
      | None =>
          let '(loaded, w) := load b gid w in
          match loaded with
          | Ok p => exec_step (LCacheGot sid (Loaded p) (keep b gid (<[gid := next_player_id (rt w)]> m))) w
          | Err e => exec_step (LCacheGot sid (GetFailed true (CacheError.Load e)) m) w
          end
      end
  | Gating _ _ => exec_step (LGateLocked sid) w
  | Preloading _ _ _ _ future _ => exec_step (LPreloaded sid future) w
  | Saving _ _ _ =>
      id ← player (runner slot);
      cell ← cells (rt w) !! id;
      let '(saved, w) := save b gid (state cell) w in
      exec_step (LSaved sid saved) w
  | Completing _ => exec_step (LComplete sid) w
  | Releasing _ _ => exec_step (LPermitDropped sid) w
  | Retiring => exec_step (LCacheSet sid (match player (runner slot) with Some id => keep b gid (<[gid := id]> m) | None => m end)) w
  | Leaving => exec_step (LRetire sid) w
  end.

(** Turns until the slot is as wanted; [None] is a slot that left. *)
Fixpoint turns_until (b : Behaviour) (sid : Z) (wanted : option Phase → bool) (fuel : nat) : test World unit := λ w,
  if wanted (phase ∘ runner <$> slot_of sid w) then Some (tt, w)
  else match fuel with
       | O => None
       | S fuel => (_ ← turn b sid; turns_until b sid wanted fuel) w
       end.

Definition left_ (p : option (Phase (P := Player) (R := Z) (A := Z) (F := Result string Z))) : bool :=
  match p with None => true | _ => false end.
Definition at_gate (p : option (Phase (P := Player) (R := Z) (A := Z) (F := Result string Z))) : bool :=
  match p with Some (Gating _ _) => true | _ => false end.
Definition at_preload (p : option (Phase (P := Player) (R := Z) (A := Z) (F := Result string Z))) : bool :=
  match p with Some (Preloading _ _ _ _ _ _) => true | _ => false end.
Definition at_save (p : option (Phase (P := Player) (R := Z) (A := Z) (F := Result string Z))) : bool :=
  match p with Some (Saving _ _ _) => true | _ => false end.

Definition finish (b : Behaviour) (sid : Z) : test World unit := turns_until b sid left_ 400.
Definition reach (b : Behaviour) (sid : Z) p : test World unit := turns_until b sid p 400.

(** [try_use], and the slot that serves the player. *)
Definition submit (gid : Z) (request : Request) : test World (Result RejectReason.t Z) := λ w,
  let '(r, answer) := try_use (clock w) gid 1 request (rt w) in Some (answer, with_rt w r).
Definition use (gid : Z) (logic : Player → Z * Player) : test World (Result RejectReason.t Z) := submit gid (Use (λ p, Some (logic p))).
Definition serving (gid : Z) : test World Z := λ w, sid ← directory (rt w) !! gid; Some (sid, w).

(** The answer of a call, if it was sent. *)
Definition answer_of (sender : Z) (w : World) : option (Answer (E := string) (R := Z)) :=
  snd <$> head (filter (λ a, a.1.2 = sender) (answers (rt w))).
Definition answered (sender : Z) : test World (Answer (E := string) (R := Z)) := λ w, a ← answer_of sender w; Some (a, w).
Definition pending (sender : Z) : test World unit := λ w, assert (match answer_of sender w with None => true | _ => false end) w.

(** A call that is awaited while its runner works. *)
Definition complete (b : Behaviour) (gid : Z) (sender : Z) : test World (Completed Z string) :=
  sid ← serving gid; _ ← finish b sid; a ← answered sender; unwrap_ok a.

(** ** Shutdown *)

(** [cache.flush]: a saver with every resident player; it returns what the
    saver of the test says of the last one it writes. *)
Definition flush_one (b : Behaviour) (acc : Result string unit * World) (entry : Z * Z) : Result string unit * World :=
  match cells (rt acc.2) !! entry.2 with
  | Some cell => let '(r, w) := save b entry.1 (state cell) acc.2 in (match acc.1 with Ok _ => r | e => e end, w)
  | None => acc
  end.

Definition flush (b : Behaviour) (tid : Z) : test World (Result (CacheError.t string) unit) := λ w,
  let entries := map_to_list (resident (rt w)) in
  '(_, w) ← exec_step (LSaverStart tid entries) w;
  '(_, w) ← for_each (seqZ 0 (len entries + 1)) (λ _, exec_step (LSaverAdvance tid)) w;
  match savers (rt w) !! tid with
  | Some (Writing dirty _ _) =>
      let '(outcome, w) := foldl (flush_one b) (Ok tt, w) dirty in
      '(_, w) ← exec_step (LSaverDone tid outcome (λ _, is_ok outcome)) w;
      Some (match outcome with Ok _ => Ok tt | Err e => Err (CacheError.Save e) end, w)
  | _ => Some (Ok tt, w)
  end.

(** [shutdown]: the runners finish, the cache is flushed; whether it
    succeeded. *)
Definition shutdown (b : Behaviour) (tid : Z) : test World bool := λ w,
  '(_, w) ← exec_step LShutdownBegin w;
  '(_, w) ← for_each (fst <$> map_to_list (slots (rt w))) (finish b) w;
  '(flushed, w) ← flush b tid w;
  '(_, w) ← exec_step (LShutdownFinish (clock w) flushed) w;
  Some (bool_decide (rt_state (rt w) = RuntimeState.Stopped), w).

Definition stats_now : test World LogicStats.t := ask (λ w, stats_of (clock w) (rt w)).

(** ** The tests *)

(** [|player| { player.value += 1; player.dirty = true; player.value }]. *)
Definition increment (p : Player) : Z * Player := (pvalue p + 1, mkPlayer (pvalue p + 1) (generation p) true).
Definition mark (p : Player) : Z * Player := (0, mkPlayer (pvalue p) (generation p) true).
(** [|_| v]. *)
Definition give (v : Z) (p : Player) : Z * Player := (v, p).

Definition latency_histogram_reports_percentile_upper_bound : test LatencyRecorder unit :=
  _ ← for_each (replicate 98 10) (λ us, modify (λ r, record r (us * 1000)));
  _ ← modify (λ r, record r (5000 * 1000));
  _ ← modify (λ r, record r (10000 * 1000));
  histogram ← ask snapshot;
  _ ← assert_eq (count histogram) 100;
  _ ← assert_eq (percentile_micros histogram (f64_of_Z 98)) (Some (Some 10));
  _ ← assert_eq (percentile_micros histogram (f64_of_Z 99)) (Some (Some 5000));
  assert_eq (percentile_micros histogram (f64_div (f64_of_Z 999) (f64_of_Z 10))) (Some (Some 10000)).

Definition same_gid_is_strictly_serial : test World unit :=
  let b := memory_persistence in
  calls ← foldr (λ _ rest, c ← use 7 increment ≫= unwrap_ok; cs ← rest; mret (c :: cs)) (mret []) (seqZ 0 32);
  sid ← serving 7;
  _ ← finish b sid;
  _ ← for_each (imap (λ i c, (Z.of_nat i, c)) calls) (λ '(index, call),
        completed ← answered call ≫= unwrap_ok;
        _ ← assert_eq (value completed) (index + 1);
        assert (is_ok (persistence completed)));
  _ ← shutdown b 0 ≫= assert;
  _ ← ask (λ w, bool_decide (stored w !! 7 = Some 32)) ≫= assert;
  _ ← ask (λ w, bool_decide (loads w !! 7 = Some 1)) ≫= assert;
  stats ← stats_now;
  _ ← assert_eq (LogicStats.accepted stats) 32;
  _ ← assert_eq (LogicStats.completed stats) 32;
  _ ← assert_eq (LogicStats.inflight_calls stats) 0;
  _ ← assert_eq (LogicStats.inflight_kib stats) 0;
  _ ← assert_eq (LogicStats.queued stats) 0;
  _ ← assert_eq (LogicStats.active_gids stats) 0;
  assert_eq (LogicStats.dirty_players stats) 0.

(** The two runners have come to their logic together, and it runs in either
    order. *)
Definition unrelated_gids_run_in_parallel : test World unit :=
  let b := memory_persistence in
  first ← use 1 (give 1) ≫= unwrap_ok;
  second ← use 2 (give 2) ≫= unwrap_ok;
  sid1 ← serving 1;
  sid2 ← serving 2;
  _ ← reach b sid1 at_gate;
  _ ← reach b sid2 at_gate;
  _ ← finish b sid2;
  _ ← finish b sid1;
  c1 ← answered first ≫= unwrap_ok;
  c2 ← answered second ≫= unwrap_ok;
  _ ← assert_eq (value c1) 1;
  _ ← assert_eq (value c2) 2;
  shutdown b 0 ≫= assert.

(** A call of player 1 is in progress, and a call of [gid] is refused. *)
Definition refused_meanwhile (gid : Z) (reason : RejectReason.t) : test World unit :=
  let b := memory_persistence in
  first ← use 1 (give 0) ≫= unwrap_ok;
  sid ← serving 1;
  _ ← reach b sid at_gate;
  refused ← use gid (give 0);
  _ ← assert (match refused, reason with
              | Err RejectReason.Calls, RejectReason.Calls | Err RejectReason.KiB, RejectReason.KiB
              | Err RejectReason.Gid, RejectReason.Gid => true
              | _, _ => false
              end);
  _ ← complete b 1 first;
  shutdown b 0 ≫= assert.

Definition global_call_admission_rejects_immediately : test World unit :=
  _ ← refused_meanwhile 2 RejectReason.Calls;
  stats ← stats_now;
  assert_eq (LogicStats.rejected_calls stats) 1.

Definition global_kib_admission_is_bounded : test World unit :=
  _ ← refused_meanwhile 2 RejectReason.KiB;
  stats ← stats_now;
  assert_eq (LogicStats.rejected_kib stats) 1.

Definition per_gid_admission_is_bounded : test World unit :=
  _ ← refused_meanwhile 1 RejectReason.Gid;
  stats ← stats_now;
  assert_eq (LogicStats.rejected_gid stats) 1.

(** [allow_save] is set before the shutdown. *)
Definition dirty_player_capacity_rejects_before_mutation : test World unit :=
  first ← use 1 mark ≫= unwrap_ok;
  completed ← complete (failing_persistence 100) 1 first;
  _ ← assert (negb (is_ok (persistence completed)));
  second ← use 2 mark ≫= unwrap_ok;
  sid ← serving 2;
  _ ← finish (failing_persistence 100) sid;
  error ← answered second;
  _ ← assert (match error with Err LogicCallError.DirtyCapacity => true | _ => false end);
  stats ← stats_now;
  _ ← assert_eq (LogicStats.dirty_players stats) 1;
  _ ← assert_eq (LogicStats.dirty_slots stats) 1;
  _ ← assert_eq (LogicStats.dirty_slots_high_water stats) 1;
  _ ← assert_eq (LogicStats.rejected_dirty stats) 1;
  _ ← shutdown (failing_persistence 0) 0 ≫= assert;
  stats ← stats_now;
  _ ← assert_eq (LogicStats.dirty_players stats) 0;
  assert_eq (LogicStats.dirty_slots stats) 0.

Definition preload_is_async_outside_the_player_lock_but_inside_gid_serialization : test World unit :=
  let b := memory_persistence in
  first ← submit 1 (UsePreloaded (λ p, if pvalue p =? 0 then Some (Ok 41) else None)
                      (λ loaded p, Some (loaded + 1, mkPlayer (loaded + 1) (generation p) (pdirty p)))) ≫= unwrap_ok;
  sid1 ← serving 1;
  _ ← reach b sid1 at_preload;
  second ← use 1 (give 0) ≫= unwrap_ok;
  _ ← pending second;
  other ← use 2 (give 7) ≫= unwrap_ok;
  c ← complete b 2 other;
  _ ← assert_eq (value c) 7;
  _ ← pending second;
  c1 ← complete b 1 first;
  _ ← assert_eq (value c1) 42;
  _ ← answered second ≫= unwrap_ok;
  shutdown b 0 ≫= assert.

Definition preload_failure_skips_business_logic : test World unit :=
  let b := memory_persistence in
  call ← submit 1 (UsePreloaded (λ _, Some (Err "preload failed")) (λ _ p, Some (increment p))) ≫= unwrap_ok;
  sid ← serving 1;
  _ ← finish b sid;
  error ← answered call;
  _ ← assert (match error with Err (LogicCallError.Preload _) => true | _ => false end);
  stats ← stats_now;
  _ ← assert_eq (LogicStats.preload_calls stats) 1;
  _ ← assert_eq (LogicStats.preload_failed stats) 1;
  _ ← shutdown b 0 ≫= assert;
  ask (λ w, bool_decide (stored w = ∅)) ≫= assert.

(** Nobody looks at the answer. *)
Definition dropping_the_call_does_not_cancel_accepted_logic : test World unit :=
  let b := memory_persistence in
  _ ← use 9 (λ p, (0, mkPlayer 99 (generation p) true)) ≫= unwrap_ok;
  _ ← shutdown b 0 ≫= assert;
  _ ← ask (λ w, bool_decide (stored w !! 9 = Some 99)) ≫= assert;
  stats ← stats_now;
  assert_eq (LogicStats.completed stats) 1.

(** The cache holds one player: the one it took last. *)
Definition capacity_one : Behaviour :=
  mkBehaviour memory_load memory_save (λ gid m, match m !! gid with Some id => {[ gid := id ]} | None => ∅ end).
(** The logic answers the generation of the player it saw. *)
Definition generation_and_increment (p : Player) : Z * Player := (generation p, mkPlayer (pvalue p + 1) (generation p) true).

Definition capacity_one_keeps_one_active_generation_and_all_writes : test World unit :=
  let b := capacity_one in
  first ← use 1 generation_and_increment ≫= unwrap_ok;
  sid1 ← serving 1;
  _ ← reach b sid1 at_gate;
  second ← use 1 generation_and_increment ≫= unwrap_ok;
  other ← use 2 (give 0) ≫= unwrap_ok;
  _ ← complete b 2 other;
  c1 ← complete b 1 first;
  c2 ← answered second ≫= unwrap_ok;
  _ ← assert_eq (value c1) 1;
  _ ← assert_eq (value c2) 1;
  _ ← shutdown b 0 ≫= assert;
  _ ← ask (λ w, bool_decide (loads w !! 1 = Some 1)) ≫= assert;
  ask (λ w, bool_decide (stored w !! 1 = Some 2)) ≫= assert.

Definition save_gate_covers_logic_and_save_without_holding_player_mutex : test World unit :=
  let b := failing_persistence 0 in
  first ← use 1 increment ≫= unwrap_ok;
  sid1 ← serving 1;
  _ ← reach b sid1 at_save;
  second ← use 1 (give 0) ≫= unwrap_ok;
  _ ← pending second;
  other ← use 2 (give 7) ≫= unwrap_ok;
  c ← complete b 2 other;
  _ ← assert_eq (value c) 7;
  _ ← pending first;
  _ ← complete b 1 first;
  _ ← answered second ≫= unwrap_ok;
  shutdown b 0 ≫= assert.

Definition save_failure_is_separate_from_the_business_value : test World unit :=
  let b := failing_persistence 1 in
  call ← use 1 (λ p, (42, mkPlayer (pvalue p) (generation p) true)) ≫= unwrap_ok;
  completed ← complete b 1 call;
  _ ← assert_eq (value completed) 42;
  _ ← assert (match persistence completed with Err e => bool_decide (e = "save failed") | Ok _ => false end);
  stats ← stats_now;
  _ ← assert_eq (LogicStats.dirty_players stats) 1;
  _ ← ask (λ w, attempts w =? 1) ≫= assert;
  _ ← shutdown b 0 ≫= assert;
  _ ← ask (λ w, attempts w =? 2) ≫= assert;
  stats ← stats_now;
  assert_eq (LogicStats.dirty_players stats) 0.

Definition load_failure_completes_the_accepted_call : test World unit :=
  let b := mkBehaviour (λ _ w, (Err "load failed", w)) (failing_save 0) (λ _ m, m) in
  call ← use 1 (give 0) ≫= unwrap_ok;
  sid ← serving 1;
  _ ← finish b sid;
  error ← answered call;
  _ ← assert (match error with Err (LogicCallError.Load _) => true | _ => false end);
  _ ← shutdown b 0 ≫= assert;
  stats ← stats_now;
  _ ← assert_eq (LogicStats.load_failed stats) 1;
  _ ← assert_eq (LogicStats.accepted stats) 1;
  assert_eq (LogicStats.completed stats) 1.

(** While a call is in progress the shutdown cannot finish. *)
Definition shutdown_waits_for_the_same_drain_without_an_internal_timeout : test World unit :=
  let b := memory_persistence in
  call ← use 1 (give 0) ≫= unwrap_ok;
  sid ← serving 1;
  _ ← reach b sid at_gate;
  _ ← exec_step LShutdownBegin;
  blocked ← ask (λ w, match exec (clock w) (LShutdownFinish (clock w) (Ok tt)) (rt w) with Blocked => true | _ => false end);
  _ ← assert blocked;
  _ ← ask (λ w, bool_decide (rt_state (rt w) = RuntimeState.Draining)) ≫= assert;
  refused ← use 2 (give 0);
  _ ← assert (match refused with Err RejectReason.Draining => true | _ => false end);
  _ ← complete b 1 call;
  _ ← shutdown b 0 ≫= assert;
  stats ← stats_now;
  assert_eq (LogicStats.rejected_draining stats) 1.

Definition shutdown_save_failure_remains_retryable : test World unit :=
  let b := failing_persistence 2 in
  call ← use 1 mark ≫= unwrap_ok;
  completed ← complete b 1 call;
  _ ← assert (negb (is_ok (persistence completed)));
  _ ← ask (λ w, attempts w =? 1) ≫= assert;
  stopped ← shutdown b 0;
  _ ← assert (negb stopped);
  _ ← ask (λ w, attempts w =? 2) ≫= assert;
  _ ← ask (λ w, bool_decide (rt_state (rt w) = RuntimeState.Draining)) ≫= assert;
  _ ← shutdown b 1 ≫= assert;
  ask (λ w, attempts w =? 3) ≫= assert.

(** The saver of a call fails, the batch saver of the flush does not. *)
Definition shutdown_uses_the_optional_batch_saver : test World unit :=
  call ← use 1 mark ≫= unwrap_ok;
  completed ← complete (failing_persistence 100) 1 call;
  _ ← assert (negb (is_ok (persistence completed)));
  _ ← shutdown (failing_persistence 0) 0 ≫= assert;
  _ ← ask (λ w, attempts w =? 2) ≫= assert;
  stats ← stats_now;
  _ ← assert_eq (LogicStats.dirty_players stats) 0;
  assert_eq (count (LogicStats.flush_latency stats)) 1.

(** The test of a runtime that starts with a configuration. *)
Definition runtime_test (cfg : LogicConfig.t) (t : test World unit) : Prop :=
  match new cfg with Some r => passes t (mkWorld r ∅ ∅ 0 0) | None => False end.
Definition limited (calls kib per_gid dirty : Z) : LogicConfig.t :=
  {| LogicConfig.resident_capacity := 16; LogicConfig.ttl := LogicConfig.ttl test_config; LogicConfig.shards := 4;
     LogicConfig.batch_save_count := 4; LogicConfig.max_dirty_players := dirty; LogicConfig.max_inflight_calls := calls;
     LogicConfig.max_inflight_kib := kib; LogicConfig.max_calls_per_gid := per_gid; LogicConfig.max_kib_per_gid := 32 |}.

Ltac run_runtime_test := unfold runtime_test, passes; vm_compute; eexists; reflexivity.

Example runtime_tests_pass :
  passes latency_histogram_reports_percentile_upper_bound recorder_default
  ∧ runtime_test test_config same_gid_is_strictly_serial
  ∧ runtime_test test_config unrelated_gids_run_in_parallel
  ∧ runtime_test (limited 1 128 32 16) global_call_admission_rejects_immediately
  ∧ runtime_test (limited 128 1 32 16) global_kib_admission_is_bounded
  ∧ runtime_test (limited 128 128 1 16) per_gid_admission_is_bounded
  ∧ runtime_test (limited 128 128 32 1) dirty_player_capacity_rejects_before_mutation
  ∧ runtime_test test_config preload_is_async_outside_the_player_lock_but_inside_gid_serialization
  ∧ runtime_test test_config preload_failure_skips_business_logic.
Proof. split_and!; run_runtime_test. Qed.

Example runtime_save_tests_pass :
  runtime_test test_config dropping_the_call_does_not_cancel_accepted_logic
  ∧ runtime_test test_config capacity_one_keeps_one_active_generation_and_all_writes
  ∧ runtime_test test_config save_gate_covers_logic_and_save_without_holding_player_mutex
  ∧ runtime_test test_config save_failure_is_separate_from_the_business_value
  ∧ runtime_test test_config load_failure_completes_the_accepted_call
  ∧ runtime_test test_config shutdown_waits_for_the_same_drain_without_an_internal_timeout
  ∧ runtime_test test_config shutdown_save_failure_remains_retryable
  ∧ runtime_test test_config shutdown_uses_the_optional_batch_saver.
Proof. split_and!; run_runtime_test. Qed.
End RuntimeTests.
