(* ===== verification/ConfigTests.v ===== *)
(** The tests of the example configuration (src/config/*.yaml): the files of
    the repository compose, and each service builds its framework
    configuration from them (the [mod tests] of src/service/*/src/service.rs
    and src/config/src/robot.rs, and src/config/src/tests.rs). *)

From S2P Require Import Prelude Effects Tests Routing AuthApi LogicAdmission Config Process Services.

#[local] Open Scope string_scope.
#[local] Open Scope list_scope.
#[local] Open Scope Z_scope.

(** ** The example files *)

Module Files.
(** The errors of the decoders do not matter here. *)
#[global] Instance errors : ConfigErrors := {| IoError := unit; YamlError := unit; JsonError := unit |}.

Definition log_file (name : string) : LogOverride := mkLogOverride None None (Some (mkPath false ["logs"; name])) None None.

Definition common : CommonConfig :=
  mkCommonConfig "local" (mkInfrastructure "etcd://127.0.0.1:2379" "mongodb://127.0.0.1:27017/xkk" "redis://127.0.0.1:6379")
    (mkSecurity "local-xkk-token-secret" 604800) (mkLogSettings Info true None 8192 Daily).
Definition auth : AuthConfig.Role :=
  AuthConfig.mkRole (HttpNode.mkConfig 1 "127.0.0.1" "0.0.0.0" 3501)
    (mkLogOverride (Some Debug) (Some true) (Some (mkPath false ["logs"; "auth.log"])) (Some 8192) None).
Definition gate : GateConfig.Role :=
  GateConfig.mkRole (GateNode.mkConfig 1 "127.0.0.1" "0.0.0.0")
    (GateListeners.mk (Some 3201) (Some 3202) (Some 3203) "/ws" Tcp) (log_file "gate.log").
Definition logic : LogicConfig.Role :=
  LogicConfig.mkRole (ServiceNode.mkConfig 1 "127.0.0.1" "127.0.0.1" 3101) (log_file "logic.log").
Definition public : PublicConfig.Role :=
  PublicConfig.mkRole (ServiceNode.mkConfig 1 "127.0.0.1" "127.0.0.1" 3301) (log_file "public.log").
Definition query : QueryConfig.Role :=
  QueryConfig.mkRole (HttpNode.mkConfig 1 "127.0.0.1" "0.0.0.0" 3401) (log_file "query.log").
Definition robot (device : string) : RobotConfig.t :=
  RobotConfig.mk "http://127.0.0.1:3501" "xkk-robot" "local-robot-credential" device "windows" "xkk-robot" RobotTransport.Tcp 10.

(** The decoder of the files, which knows each file by its name. *)
Definition knows {T} (files : list (string * T)) (text : string) : Result unit T :=
  match List.find (λ file, bool_decide (file.1 = text)) files with Some file => Ok file.2 | None => Err tt end.
Definition any {T} (_ : T) : Prop := True.

#[global] Instance common_yaml : FromYaml CommonConfig any := {| from_yaml := knows [("common.yaml", common)]; from_yaml_typed _ _ _ := I |}.
#[global] Instance auth_yaml : FromYaml AuthConfig.Role any := {| from_yaml := knows [("auth.yaml", auth)]; from_yaml_typed _ _ _ := I |}.
#[global] Instance gate_yaml : FromYaml GateConfig.Role any := {| from_yaml := knows [("gate.yaml", gate)]; from_yaml_typed _ _ _ := I |}.
#[global] Instance logic_yaml : FromYaml LogicConfig.Role any := {| from_yaml := knows [("logic.yaml", logic)]; from_yaml_typed _ _ _ := I |}.
#[global] Instance public_yaml : FromYaml PublicConfig.Role any := {| from_yaml := knows [("public.yaml", public)]; from_yaml_typed _ _ _ := I |}.
#[global] Instance query_yaml : FromYaml QueryConfig.Role any := {| from_yaml := knows [("query.yaml", query)]; from_yaml_typed _ _ _ := I |}.
(** The second file is the first with [xkk-robot-device] replaced by [short]. *)
#[global] Instance robot_yaml : FromYaml RobotConfig.t any :=
  {| from_yaml := knows [("robot.yaml", robot "xkk-robot-device"); ("robot.yaml, short device", robot "short")]; from_yaml_typed _ _ _ := I |}.
#[global] Instance version_json : FromJson :=
  {| from_json := knows [("version.json", mkVersionDocument 0); ("version.json, negative", mkVersionDocument (-1))] |}.

(** [Config::parse] of a service; the build handed over the version 0. *)
Definition parse_config {Role C : Type} `{!FromYaml Role any} (compose : CommonConfig → Role → ServiceVersion → Result ConfigError C)
    (role_yaml version_json : string) : option (Result ConfigError C) :=
  service_parse "0" compose "common.yaml" role_yaml version_json.
End Files.
Import Files.

(** ** src/config/src/robot.rs and src/config/src/tests.rs *)

Module RobotConfigTests.
Definition example_config_is_valid : test unit unit :=
  config ← unwrap_ok (robot_parse "robot.yaml");
  _ ← assert_eq (RobotConfig.transport config) RobotTransport.Tcp;
  assert_eq (RobotConfig.timeout_seconds config) 10.

Definition is_invalid {A} (r : Result ConfigError A) : bool := match r with Err (Invalid _ _) => true | _ => false end.

Definition invalid_device_fails_fast : test unit unit := assert (is_invalid (robot_parse "robot.yaml, short device")).

Definition all_example_service_configs_compose : test unit unit :=
  let parses {C} (config : option (Result ConfigError C)) : test unit unit := (config ← unwrap config; _ ← unwrap_ok config; mret tt) in
  _ ← parses (parse_config AuthConfig.compose "auth.yaml" "version.json");
  _ ← parses (parse_config GateConfig.compose "gate.yaml" "version.json");
  _ ← parses (parse_config LogicConfig.compose "logic.yaml" "version.json");
  _ ← parses (parse_config PublicConfig.compose "public.yaml" "version.json");
  _ ← parses (parse_config QueryConfig.compose "query.yaml" "version.json");
  _ ← unwrap_ok (robot_parse "robot.yaml");
  mret tt.

Definition invalid_version_document_fails_fast : test unit unit :=
  config ← unwrap (parse_config AuthConfig.compose "auth.yaml" "version.json, negative");
  assert (is_invalid config).

Example config_tests_pass :
  passes example_config_is_valid tt ∧ passes invalid_device_fails_fast tt
  ∧ passes all_example_service_configs_compose tt ∧ passes invalid_version_document_fails_fast tt.
Proof. split_and!; run_test. Qed.
End RobotConfigTests.

(** ** src/service/*/src/service.rs *)

Module ServiceConfigTests.
(** A node as the framework keeps it. *)
Record Node := mkNode { port : Z; instance : ServiceInstance }.

#[global] Instance libraries : Libraries :=
  {| LogError := unit; LogCloseError := unit; ProtocolError := unit; MongoError := unit; RedisError := unit;
     RedisConfig := unit; MongoConfig := unit; RedisClient := unit; MongoClient := unit |}.

#[global] Instance xframe : Xframe.
Proof.
  refine {| FrameError := unit; RpcError := unit; HttpError := unit; NodeConfig := Node; DiscoveryConfig := string;
            node_new _ _ id h p := Ok (mkNode p (mkServiceInstance id true true 0 h ∅)); with_versions _ _ n := n;
            with_meta_data meta n := let i := instance n in
              mkNode (port n) (mkServiceInstance (instance_id i) (enable i) (healthy i) (online_count i) (host i) meta);
            discovery_new dsn := Ok dsn; announced := instance |}.
  intros cluster ty id h p n program conf meta [= <-]. done.
Defined.

(** The write queue of [TransportOptions::default()], which a server keeps
    unless it sets one, and which no service changes for its clients. *)
Definition default_write_queue_capacity : Z := 0.
Definition write_queue (server : ServerConfig) : Z := default default_write_queue_capacity (write_queue_capacity server).
Definition client_write_queue (frame : ServiceConfig) : Z := default_write_queue_capacity.

Definition meta_data_of (frame : ServiceConfig) : gmap string string := meta_data (instance (service_node frame)).
Definition internal (server : ServerConfig) : bool := forallb (λ listener, negb (external listener)) (listeners server).

(** [service_config(&config).unwrap()] of the parsed example. *)
Definition built {C} (config : option (Result ConfigError C)) (service_config : C → Result (ServiceError unit) ServiceConfig)
    : test unit (C * ServiceConfig) :=
  config ← unwrap config;
  config ← unwrap_ok config;
  frame ← unwrap_ok (service_config config);
  mret (config, frame).

Definition example_config_enables_all_external_transports : test unit unit :=
  config ← unwrap (parse_config GateConfig.compose "gate.yaml" "version.json");
  config ← unwrap_ok config;
  frame ← unwrap (gate_service_config (PE := unit) config);
  frame ← unwrap_ok frame;
  let server := network_server config in
  _ ← assert_eq (len (listeners server)) 3;
  _ ← assert (forallb external (listeners server));
  _ ← assert (match service_server frame with None => true | _ => false end);
  _ ← assert_eq (port (service_node frame)) 3201;
  _ ← assert_eq (rpc_pending_capacity frame) GATE_RPC_PENDING_CAPACITY;
  _ ← assert_eq (write_queue server) 128;
  _ ← assert_eq (write_queue_byte_capacity server) (Some (4 * 1024 * 1024));
  _ ← assert_eq (client_write_queue frame) 0;
  transport ← unwrap (meta_data_of frame !! "primary_transport");
  assert_eq transport "tcp".

Definition yaml_maps_to_logic_and_frame_capacity : test unit unit :=
  '(config, frame) ← built (parse_config LogicConfig.compose "logic.yaml" "version.json") logic_service_config;
  let logic := logic_config in
  _ ← assert_eq (LogicAdmission.LogicConfig.max_calls_per_gid logic) 64;
  _ ← assert_eq (LogicAdmission.LogicConfig.shards logic) 128;
  _ ← assert_eq (conf (LogicConfig.version config)) 0;
  _ ← assert_eq (rpc_pending_capacity frame) LOGIC_RPC_PENDING_CAPACITY;
  _ ← assert_eq (client_write_queue frame) 0;
  server ← unwrap (service_server frame);
  _ ← assert_eq (write_queue server) 0;
  _ ← assert (internal server);
  protocol ← unwrap (meta_data_of frame !! "protocol");
  assert_eq protocol "ss".

Definition example_config_builds_internal_service_listener : test unit unit :=
  '(_, frame) ← built (parse_config PublicConfig.compose "public.yaml" "version.json") public_service_config;
  server ← unwrap (service_server frame);
  _ ← assert_eq (write_queue server) 0;
  _ ← assert (internal server);
  _ ← assert_eq (rpc_pending_capacity frame) PUBLIC_RPC_PENDING_CAPACITY;
  protocol ← unwrap (meta_data_of frame !! "protocol");
  assert_eq protocol "ss".

Definition example_config_builds_auth_service_runtime : test unit unit :=
  '(_, frame) ← built (parse_config AuthConfig.compose "auth.yaml" "version.json") auth_service_config;
  _ ← assert (match service_server frame with None => true | _ => false end);
  _ ← assert_eq (rpc_pending_capacity frame) AUTH_RPC_PENDING_CAPACITY;
  path ← unwrap (meta_data_of frame !! "login_path");
  assert_eq path LOGIN_PATH.

Definition example_config_builds_query_service_runtime : test unit unit :=
  '(_, frame) ← built (parse_config QueryConfig.compose "query.yaml" "version.json") query_service_config;
  _ ← assert (match service_server frame with None => true | _ => false end);
  _ ← assert_eq (rpc_pending_capacity frame) QUERY_RPC_PENDING_CAPACITY;
  protocol ← unwrap (meta_data_of frame !! "protocol");
  assert_eq protocol "http".

Example service_config_tests_pass :
  passes example_config_enables_all_external_transports tt
  ∧ passes yaml_maps_to_logic_and_frame_capacity tt
  ∧ passes example_config_builds_internal_service_listener tt
  ∧ passes example_config_builds_auth_service_runtime tt
  ∧ passes example_config_builds_query_service_runtime tt.
Proof. split_and!; run_test. Qed.
End ServiceConfigTests.
