(* ===== verification/Entry.v ===== *)
(** The programs (src/service/*/src/main.rs, src/robot/src/main.rs): the
    arguments name the configuration, the service is loaded from it and runs,
    and the exit code tells how it ended.  The executor around them is left
    out; the calls are those of [Config], [Services] and [Robot]. *)

From stdpp Require Import pretty.
From S2P Require Import Prelude Effects Routing Proto Mongo Documents GateSession LogicAdmission Config ConfigSpec Process Services Robot.

#[local] Open Scope string_scope.
#[local] Open Scope list_scope.
#[local] Open Scope Z_scope.

(** [PathBuf::from]: the components of a path, without empty ones and without
    dots that are not the first. *)
Fixpoint split_slash (s : string) (component : string) : list string :=
  match s with
  | EmptyString => [component]
  | String a s =>
      if decide (a = Ascii.ascii_of_nat 47) then component :: split_slash s "" else split_slash s (component +:+ String a "")
  end.

Definition path_of_string (s : string) : Path :=
  let rooted := String.prefix "/" s in
  let names := filter (λ c, c ≠ "") (split_slash s "") in
  mkPath rooted (match names with
                 | first :: rest =>
                     (if negb rooted && bool_decide (first = ".") then [first] else filter (λ c, c ≠ ".") [first])
                       ++ filter (λ c, c ≠ ".") rest
                 | [] => []
                 end).

(** ** The errors as text *)

Section display.
Context `{!ConfigErrors}.
(** [Path::display], and [Display] of the errors of the libraries. *)
Variables (path_display : Path → string) (io_display : IoError → string) (yaml_display : YamlError → string)
  (json_display : JsonError → string).

Definition config_error_display (e : ConfigError) : string :=
  match e with
  | Usage service => "usage: " +:+ service +:+ " --config <path>"
  | Read path source => "read configuration " +:+ path_display path +:+ ": " +:+ io_display source
  | Decode path source => "decode configuration " +:+ path_display path +:+ ": " +:+ yaml_display source
  | DecodeVersion path source => "decode configuration version " +:+ path_display path +:+ ": " +:+ json_display source
  | Invalid service message => "invalid " +:+ service +:+ " configuration: " +:+ message
  end.
End display.

(** ** The services *)

(** Files first, then the process. *)
Inductive MainEff `{!ConfigErrors} (F : Type → Type) : Type → Type :=
| OnFiles {X : Type} (e : FileEff X) : MainEff F X
| OnProcess {X : Type} (e : F X) : MainEff F X.
#[global] Arguments OnFiles {_ F X}.
#[global] Arguments OnProcess {_ F X}.

(** How a process ends: [main] returns, with an error or without, or panics. *)
Inductive Exit := Success | Failure | Panicked.
Definition exit_of {E A} (r : option (Result E A)) : Exit :=
  match r with Some (Ok _) => Success | Some (Err _) => Failure | None => Panicked end.

Section services.
Context `{!ConfigErrors, !FromJson, !Libraries, !Xframe} {E : Type} `{!Xmongo E}.
Context {common_typed : CommonConfig → Prop} `{!FromYaml CommonConfig common_typed}.
#[local] Abbreviation Error := (ServiceError (PersistError E)).
#[local] Abbreviation Eff := (ProcessEff (FrameEff (PersistError E))).

(** [let config = Config::load(config_path()?)?; run(config).await] *)
Definition service_main {C : Type} (config_path : list string → Result ConfigError string)
    (load : Path → prog FileEff (option (Result ConfigError C))) (run_service : C → prog Eff (option (Result Error unit)))
    (args : list string) : prog (MainEff Eff) (option (Result Error unit)) :=
  match config_path args with
  | Err e => Ret (Some (Err (ConfigFailed e)))
  | Ok path =>
      config ← lift (λ X, @OnFiles _ Eff X) (load (path_of_string path));
      match config with
      | None => Ret None
      | Some (Err e) => Ret (Some (Err (ConfigFailed e)))
      | Some (Ok config) => lift (λ X, @OnProcess _ Eff X) (run_service config)
      end
  end.

Variable pro_version : string.
Variable default_database : MongoClient → option string.
Context {auth_typed : AuthConfig.Role → Prop} `{!FromYaml AuthConfig.Role auth_typed}.
Context {gate_typed : GateConfig.Role → Prop} `{!FromYaml GateConfig.Role gate_typed}.
Context {logic_typed : LogicConfig.Role → Prop} `{!FromYaml LogicConfig.Role logic_typed}.
Context {public_typed : PublicConfig.Role → Prop} `{!FromYaml PublicConfig.Role public_typed}.
Context {query_typed : QueryConfig.Role → Prop} `{!FromYaml QueryConfig.Role query_typed}.

Definition auth_config_path := config_path "auth".
Definition auth_load := service_load pro_version AuthConfig.compose.
Definition auth_main := service_main auth_config_path auth_load (auth_run default_database).

Definition gate_config_path := config_path "gate".
Definition gate_load := service_load pro_version GateConfig.compose.
Definition gate_main := service_main gate_config_path gate_load (gate_run default_database).

Definition logic_config_path := config_path "logic".
Definition logic_load := service_load pro_version LogicConfig.compose.
Definition logic_main := service_main logic_config_path logic_load (logic_run default_database).

Definition public_config_path := config_path "public".
Definition public_load := service_load pro_version PublicConfig.compose.
Definition public_main := service_main public_config_path public_load (public_run default_database).

Definition query_config_path := config_path "query".
Definition query_load := service_load pro_version QueryConfig.compose.
Definition query_main := service_main query_config_path query_load (query_run default_database).
End services.

(** ** The robot *)

Section robot.
Context `{!ConfigErrors} {typed : RobotConfig.t → Prop} `{!FromYaml RobotConfig.t typed}.
Context {Conn Payload Body Addr : Type} `{!RobotFormats Payload Body}.
#[local] Abbreviation Eff := (RobotEff Conn Payload Addr).
Variable show_config_error : ConfigError → string.

(** What is written to the standard streams, and the exit code. *)
Record Printed := mkPrinted { out : list string; err : list string; exit : Exit }.

Definition load_config (args : list string) : prog FileEff (Result ConfigError RobotConfig.t) :=
  match config_path "xkk-robot" args with
  | Err e => Ret (Err e)
  | Ok path => robot_load (path_of_string path)
  end.

Definition success_line (config : RobotConfig.t) (result : LoginResult) : string :=
  "Robot login succeeded: account=" +:+ RobotConfig.account config +:+ " gid=" +:+ pretty (result_gid result)
  +:+ " gate=" +:+ RobotTransport.as_str (result_transport result) +:+ "://" +:+ result_host result +:+ ":" +:+ pretty (result_port result)
  +:+ " session=" +:+ pretty (result_session_id result) +:+ " logic=" +:+ pretty (result_logic_id result)
  +:+ " public=" +:+ pretty (result_public_id result).

(** [None] when the fuel of the login is used up. *)
Definition robot_main (max_instant : Z) (fuel : nat) (args : list string) : prog (MainEff Eff) (option Printed) :=
  config ← lift (λ X, @OnFiles _ Eff X) (load_config args);
  match config with
  | Err error => Ret (Some (mkPrinted [] ["xkk-robot: " +:+ show_config_error error] Failure))
  | Ok config =>
      result ← lift (λ X, @OnProcess _ Eff X) (login max_instant fuel config);
      Ret match result with
          | Done (Ok result) => Some (mkPrinted [success_line config result] [] Success)
          | Done (Err error) => Some (mkPrinted [] ["xkk-robot: " +:+ error] Failure)
          | Robot.Panicked => Some (mkPrinted [] [] Panicked)
          | OutOfFuel => None
          end
  end.
End robot.

(** ** What a program promises *)

Section outcome.
Context `{!ConfigErrors} {F : Type → Type} {S : Type} (files : Path → Result IoError string) (handle : ∀ X, F X → S → X * S).

(** Files that do not change, and the process. *)
Definition handle_main (X : Type) (e : MainEff F X) : S → X * S :=
  match e in MainEff _ X return S → X * S with
  | OnFiles e => λ s, ((handle_files files _ e tt).1, s)
  | OnProcess e => handle _ e
  end.

Lemma run_on_files {A} (p : prog FileEff A) s :
  run handle_main (lift (λ X, @OnFiles _ F X) p) s = ((run (handle_files files) p tt).1, s).
Proof.
  induction p as [a|X e k IH]; [done|]. simpl. rewrite IH. by destruct e.
Qed.

Lemma run_on_process {A} (p : prog F A) s : run handle_main (lift (λ X, @OnProcess _ F X) p) s = run handle p s.
Proof. revert s. induction p as [a|X e k IH]; intros s; [done|]. simpl. by destruct (handle X e s). Qed.
End outcome.

Section service_outcome.
Context `{!ConfigErrors, !FromJson, !Libraries, !Xframe} {E : Type} `{!Xmongo E}.
Context {common_typed : CommonConfig → Prop} `{!FromYaml CommonConfig common_typed}.
Context {Role C : Type} {typed : Role → Prop} `{!ServiceRole Role C, !FromYaml Role typed}.
#[local] Abbreviation Error := (ServiceError (PersistError E)).
#[local] Abbreviation Eff := (ProcessEff (FrameEff (PersistError E))).
Context {S : Type} (handle : ∀ X, Eff X → S → X * S).

(** A program touches nothing of the process unless it was given one
    configuration that loads; then it is the run of the service. *)
Lemma service_main_outcome name pro_version files (run_service : C → prog Eff (option (Result Error unit))) args w :
  run (handle_main files handle) (service_main (config_path name) (service_load pro_version compose) run_service args) w
  = match config_path name args with
    | Err e => (Some (Err (ConfigFailed e)), w)
    | Ok path =>
        match ConfigSpec.load_config files pro_version (path_of_string path) with
        | None => (None, w)
        | Some (Err e) => (Some (Err (ConfigFailed e)), w)
        | Some (Ok config) => run handle (run_service config) w
        end
    end.
Proof.
  unfold service_main. destruct (config_path name args) as [path|e]; [|done].
  rewrite run_bind, run_on_files. fold (ConfigSpec.load_config (Role := Role) (C := C) files pro_version (path_of_string path)).
  destruct (ConfigSpec.load_config _ _ _) as [[config|e]|]; [|done..]. apply run_on_process.
Qed.
End service_outcome.

Example role_path : path_of_string "config//./gate_0.yaml" = mkPath false ["config"; "gate_0.yaml"]
  ∧ path_of_string "./gate.yaml" = mkPath false ["."; "gate.yaml"] ∧ path_of_string "/etc/xkk/gate.yaml" = mkPath true ["etc"; "xkk"; "gate.yaml"].
Proof. by vm_compute. Qed.
